(* ===== verification/_CoqProject ===== *)
-Q . S2P
Prelude.v
RustStr.v
RustPath.v
Io.v
Json.v
QueueMessage.v
QueueScheduler.v
FileTags.v
QueueLifecycle.v
QueueNames.v
QueueGuarantees.v
Recovery.v
TypedFields.v
Config.v
OrchestratorFile.v
Templates.v
Assets.v
Prompts.v
SetupDraft.v
SetupScreens.v
SetupEdits.v
SetupGuarantees.v
OrchestratorError.v
WorkspaceAccess.v
OutputContract.v
OutputGuarantees.v
RunStore.v
PromptRender.v
PromptGuarantees.v
Provider.v
ProviderGuarantees.v
WorkflowEngine.v
EngineGuarantees.v
SlackTarget.v
SlackChannel.v
SlackIngest.v
SlackEgress.v
SlackSync.v
SlackSocket.v
SlackIngestGuarantees.v
SlackInboundGuarantees.v
SlackEgressGuarantees.v
SlackSyncGuarantees.v
SlackSocketGuarantees.v
Cron.v
Scheduler.v
SchedulerGuarantees.v
ScheduleParsing.v
Selector.v
SelectorGuarantees.v
StepExecution.v
StepGuarantees.v
SelectorAttempt.v
Mounts.v
MountGuarantees.v
Transitions.v
TransitionGuarantees.v
RunReplies.v
Conversation.v
Routing.v
RoutingGuarantees.v
StatePaths.v
WorkerRegistry.v
QueueWorker.v
QueueWorkerGuarantees.v
MessageCustody.v
Daemon.v
DaemonGuarantees.v
Heartbeat.v
HeartbeatGuarantees.v
Supervisor.v
SupervisorGuarantees.v
CommandCatalog.v
CommandDispatch.v
CommandGuarantees.v
ConfigStore.v
ConfigCommands.v
ConfigCommandGuarantees.v
