(* ===== verification/Prelude.v ===== *)
(** * DireClaw verification library

    DireClaw is a daemon that takes messages from chat channels, lets a language
    model choose what to do with each, runs multi-step agent workflows and sends
    the answers back.  This library models its core, written in Rust under
    [src/src], and proves what makes it dependable: no message is lost or handled
    twice at a time, workflows end, configurations stay valid, agents stay inside
    their workspaces, the daemon starts and stops in an orderly way.

    ** Life of a message, and the files that model it

    A channel writes a JSON file into the [incoming] directory of an orchestrator's
    queue: Slack by its history backfill ([SlackIngest], [channels/slack/ingest.rs])
    or its socket ([SlackSocket], [channels/slack/socket.rs]), the scheduler
    ([Cron], [Scheduler], [orchestration/scheduler.rs]), the heartbeat worker
    ([Heartbeat], [runtime/heartbeat_worker.rs]).  The queue worker claims it
    ([QueueMessage], [QueueLifecycle], [QueueNames] for [queue/*.rs];
    [QueueScheduler] for the per-key order; [QueueWorker] for
    [runtime/queue_worker.rs]), after a crash [Recovery] ([runtime/recovery.rs])
    brings claimed files back.  Routing ([Routing], [orchestration/routing.rs]) asks
    the selector ([Selector], [SelectorAttempt], [orchestration/selector.rs], with the
    recorded turns of [Conversation]), which answers with an action; [Transitions]
    ([orchestration/transitions.rs]) carries it out, a workflow with the engine
    ([WorkflowEngine], [orchestration/workflow_engine.rs]) on the run store
    ([RunStore], [run_store.rs], [progress.rs]).  A step is executed by
    [StepExecution] ([step_execution.rs]): its workspaces are checked by
    [WorkspaceAccess], its prompt is rendered ([PromptRender], [prompt_render.rs])
    from the templates of the orchestrator ([Prompts], [Assets], [prompts/mod.rs]),
    the program of a model provider runs ([Provider], [provider/*.rs]), and its
    answer is judged by [OutputContract] ([output_contract.rs]).  The replies ([RunReplies], [FileTags]) go to [outgoing], from
    where [SlackEgress] ([channels/slack/egress.rs]) delivers them; [SlackSync] holds
    the credentials and the pass over all profiles, [SlackTarget] the targets of
    scheduled posts, [ScheduleParsing] the commands that create jobs.

    Configuration: [TypedFields], [Config], [OrchestratorFile] (data and validation,
    [config/*.rs], [shared/ids.rs]), [Templates] and the setup
    ([SetupDraft], [SetupScreens] for [config/setup_draft.rs] and [setup/*.rs]).
    [ConfigStore] ([config/save.rs], [config/load.rs], [command_support.rs]) keeps it
    in files, with the links of [Mounts] ([orchestration/shared_mounts.rs],
    [skills_mounts.rs]); [ConfigCommands] has the commands that change it
    ([app/command_handlers/orchestrators.rs], [agents.rs], [channel_profiles.rs],
    [workflows.rs]).  The functions the selector may call are listed in
    [CommandCatalog] ([app/command_catalog.rs]) and carried out by [CommandDispatch]
    ([app/command_dispatch.rs]).
    The daemon itself: [StatePaths], [WorkerRegistry], [Daemon]
    ([runtime/ownership_lock.rs], the commands of
    [app/command_handlers/daemon.rs]) and [Supervisor] ([runtime/supervisor.rs],
    [runtime/channel_worker.rs]).

    A file [X.v] holds the definitions of a component, [XGuarantees.v] (or its last
    part) the theorems; [SetupEdits], [RoutingGuarantees], [MessageCustody],
    [SlackInboundGuarantees], [StepGuarantees] and [HeartbeatGuarantees] are about
    components working together.  Definitions keep the names of the source; a function too long for one
    definition is cut at its loops, and the pieces are named after what they do.

    ** How code becomes definitions

    Text is the byte string of its UTF-8 encoding ([RustStr] for the [str] methods,
    [RustPath] for [Path] on Unix); integers are [Z], with the width written where
    the source wraps, saturates, parses or casts; maps that the source keeps sorted
    are association lists sorted by key ([Json]), directories are finite maps.

    A function that only computes is a Rocq function into [result].  One that touches
    files, the clock or a mutable record is a computation of the monad [IO] ([Io]):
    it changes a modelled state and reads an environment, which decides for every
    system call in turn whether it is refused (and with which error) and supplies
    the clock.  What was changed before an error stays changed.  Three judgments
    speak of such computations: [wp] (what holds at the end; its flag restricts it
    to environments that refuse nothing), [evolves] (a relation between the states
    before and after, under any faults), [returns] (what a successful answer
    satisfies).  Theorems that say whatever I/O fails use faults of every kind;
    those about a working disk assume an environment without faults.

    Threads are step relations: the queue worker's loop with its worker threads
    ([QueueWorker.loop_step]), the socket loop with its reader and worker
    ([SlackSocket.socket_run]), the supervisor with all workers
    ([Supervisor.supervisor_step]).  A step is what happens between two looks at
    shared state; theorems quantify over every interleaving.

    Loops of the source are structural recursions over the list they traverse, or
    have fuel.  Where they have fuel the guarantees show that it is enough: the
    engine's cycle loop and retry loop take their fuel from the limits of the
    configuration ([engine_terminates_within_limits] shows that they never run
    out), the search for a free file name has one try more than there are files
    ([write_outgoing_message_fresh]), the search for the next cron run is bounded in
    the source itself by the minutes of five years, the claim loop by its budget,
    [wait_for_exit], [sleep_with_stop] and the wait for a provider by the time they
    may take ([provider_run_is_reported]), a template by its length.

    Parameters (section variables, or the classes [StepExecutor], [SlackApi],
    [MemoryService], [LocalModel]) stand for what is not in the repository or not
    modelled: JSON and YAML codecs, SHA-256, time zones, randomness, environment
    variables, what the operating system says about a path or a process, what a
    provider's program does, the Web API of Slack, the memory service.  The engine's
    theorems hold for every [StepExecutor]; [StepGuarantees] shows that the one of
    the program ([StepExecution.step_executor]) keeps what the class promises, and
    [SelectorAttempt.selector_agent] is the agent [Selector] and [Routing] ask.
    A theorem that relies on one says so in a hypothesis and has a witness
    with a concrete function in its place.

    ** What is shown

    - The queue: claiming, completing, requeueing, dead-lettering and recovering
      never lose a message, whatever fails ([QueueGuarantees], [Recovery]); messages
      of one key are handled one at a time and in order ([QueueScheduler]); the
      worker loop implements a ledger of waiting and running messages, bounded in
      its concurrency ([QueueWorkerGuarantees]); a claimed message ends answered,
      requeued, dead-lettered or still claimed ([MessageCustody]).
    - Orchestration: routing always comes back and never leaves a direct message
      unanswered ([RoutingGuarantees]); the selector always decides, and commands
      need an explicit slash command ([SelectorGuarantees]); runs end within their
      limits and record their outcome ([EngineGuarantees], [TransitionGuarantees]);
      outputs stay inside the attempt directory and meet their contract
      ([OutputGuarantees]); access control is exact ([WorkspaceAccess]).
    - Steps: a step that succeeds was done as declared, one without access runs
      nothing ([StepGuarantees]); a provider's program is waited for no longer than
      allowed and reported truthfully ([ProviderGuarantees]); validated templates
      render, starter templates always, and the memory in a prompt is bounded
      ([PromptGuarantees]); the answer of the selector is what its program wrote
      ([SelectorAttempt]).
    - Scheduling: the next cron run is the first one; a tick dispatches due jobs and
      leaves none due; deleted jobs stay deleted ([Cron], [SchedulerGuarantees]).
    - Configuration: validation accepts exactly the well-formed files
      ([OrchestratorFile]); no session of setup edits breaks the draft
      ([SetupEdits]); what is saved is valid and reads back ([SetupGuarantees]); the
      commands leave the stored configuration usable whatever fails, and an added
      orchestrator is there ([ConfigCommandGuarantees]); after reconciling, exactly the
      granted workspaces are linked ([MountGuarantees]).
    - Functions: a call the registry accepts is planned, and what it may change is
      confined to one runtime root ([CommandGuarantees]).
    - Slack: a backfill misses no message and adds each once
      ([SlackInboundGuarantees]); cursors never go back ([SlackIngestGuarantees]);
      an accepted socket message reaches the queue ([SlackSocketGuarantees]);
      replies leave the queue only when delivered ([SlackEgressGuarantees]); tokens
      are never shared ([SlackSyncGuarantees]).
    - The daemon: a stop signals only the recorded process and succeeds only when it
      is gone ([DaemonGuarantees]); a stopped daemon reports no running worker and a
      refused worker stays reported ([SupervisorGuarantees]); every agent gets its
      heartbeat, which routing then does not execute ([HeartbeatGuarantees]).

    Several lemmas and examples record behaviour the authors cannot have meant
    (a poison file that blocks a queue, an empty lock that blocks every start, a
    socket error that stops the daemon, and others); they are stated as facts about
    the code like everything else.

    ** Simplifications

    The processing of a claimed message by a worker thread is one atomic step of the
    loop; threads do not panic.  The counter of a requeued file is one per process
    in the source and one per runtime root here.  Log files are lists of entries, and
    the log of the scheduler and that of the runs, one file in the source, are
    separate lists.  Selector artifacts are plain files where [SlackChannel] reads
    files and typed records in [Routing].  The theorems of [Routing] and [Transitions]
    hold for every execution of a function on the run store; [CommandDispatch] gives it
    on the run and job stores of all roots.  The files and the links of the
    configuration are two maps, so that a link never stands where a file is.  The Slack workspace is a state on which
    the calls of the API operate; the operating system's processes are a list of
    process tables, one for every look at them.  Durations are not modelled: a
    timeout may come at any moment.

    ** Not modelled

    Memory (SQLite full-text search and floating-point ranking), the lexical router
    (floating point), the local language model, the HTTP and web socket clients, the
    terminal interface, the command line's handlers for runs, schedules, provider
    preferences, credentials and updates, the reading and writing of YAML.  They reach
    the model as parameters or as data. *)
From stdpp Require Export prelude gmap strings pretty sorting.

#[global] Set Default Goal Selector "!".

(** ** Results

    Rust's [Result<A, E>].  The error type comes first so that [result E] is a
    monad and stdpp's [x ← m; k] notation is the [?] operator. *)
Inductive result (E A : Type) : Type :=
  | Ok (a : A)
  | Err (e : E).
Arguments Ok {E A} a.
Arguments Err {E A} e.

#[global] Instance result_ret E : MRet (result E) := λ A a, Ok a.
#[global] Instance result_bind E : MBind (result E) := λ A B f r,
  match r with Ok a => f a | Err e => Err e end.
#[global] Instance result_fmap E : FMap (result E) := λ A B f r,
  match r with Ok a => Ok (f a) | Err e => Err e end.
#[global] Instance result_eq_dec {E A} `{EqDecision E, EqDecision A} :
  EqDecision (result E A).
Proof. solve_decision. Defined.

(** [Result::map_err], [Option::ok_or], [Result::ok], [Result::is_ok]. *)
Definition map_err {E F A} (f : E → F) (r : result E A) : result F A :=
  match r with Ok a => Ok a | Err e => Err (f e) end.
Definition ok_or {E A} (e : E) (o : option A) : result E A :=
  match o with Some a => Ok a | None => Err e end.
Definition result_ok {E A} (r : result E A) : option A :=
  match r with Ok a => Some a | Err _ => None end.
Definition is_ok {E A} (r : result E A) : bool :=
  match r with Ok _ => true | Err _ => false end.

(** A guard with an early [return Err(..)]: [reject_if b e; rest]. *)
Definition reject_if {E} (b : bool) (e : E) : result E unit :=
  if b then Err e else Ok ().

(** A [for x in xs { body?; }] loop whose body only checks. *)
Fixpoint for_each {E A} (body : A → result E ()) (xs : list A) : result E () :=
  match xs with
  | [] => Ok ()
  | x :: xs => body x ;; for_each body xs
  end.

(** A [for] loop that also threads an accumulator. *)
Fixpoint for_fold {E A B} (body : B → A → result E B) (xs : list A) (b : B) :
    result E B :=
  match xs with
  | [] => Ok b
  | x :: xs => b' ← body b x; for_fold body xs b'
  end.

Lemma bind_Ok {E A B} (m : result E A) (f : A → result E B) b :
  m ≫= f = Ok b ↔ ∃ a, m = Ok a ∧ f a = Ok b.
Proof. destruct m; split; naive_solver. Qed.

Lemma reject_if_Ok {E} b (e : E) u : reject_if b e = Ok u ↔ b = false.
Proof. destruct b, u; split; naive_solver. Qed.

Lemma ok_or_Ok {E A} (e : E) (o : option A) a : ok_or e o = Ok a ↔ o = Some a.
Proof. destruct o; split; naive_solver. Qed.

Lemma map_err_Ok {E F A} (f : E → F) (r : result E A) a :
  map_err f r = Ok a ↔ r = Ok a.
Proof. destruct r; split; naive_solver. Qed.

Lemma for_each_Ok {E A} (body : A → result E ()) xs u :
  for_each body xs = Ok u ↔ Forall (λ x, body x = Ok ()) xs.
Proof.
  destruct u. induction xs as [|x xs IH]; simpl; [naive_solver|].
  rewrite bind_Ok, Forall_cons, <- IH. split.
  - intros ([] & ? & ?). done.
  - intros [? ?]. by exists ().
Qed.

Lemma for_fold_app {E A B} (body : B → A → result E B) xs ys b :
  for_fold body (xs ++ ys) b = (b' ← for_fold body xs b; for_fold body ys b').
Proof.
  revert b. induction xs as [|x xs IH]; intros b; [done|].
  simpl. destruct (body b x); simpl; [apply IH|done].
Qed.

(** [for_fold_inv]: a loop invariant proves a property of the accumulator of
    a loop that ran to its end. *)
Lemma for_fold_inv {E A B} (P : B → Prop) (body : B → A → result E B) xs b b' :
  P b → (∀ c x c', x ∈ xs → P c → body c x = Ok c' → P c') →
  for_fold body xs b = Ok b' → P b'.
Proof.
  revert b. induction xs as [|x xs IH]; intros b Hb Hstep; simpl.
  { by intros [= <-]. }
  rewrite bind_Ok. intros (c & Hc & Hrest). apply (IH c).
  - eapply Hstep; [|done..]. left.
  - intros d y d' Hy. apply Hstep. by right.
  - done.
Qed.

(** Loops that collect the keys they have seen to reject duplicates. *)
Lemma for_fold_unique {E A K} (f : A → K) (P : A → Prop) (body : list K → A → result E (list K))
    xs seen r :
  (∀ seen x r, body seen x = Ok r ↔ f x ∉ seen ∧ P x ∧ r = f x :: seen) →
  for_fold body xs seen = Ok r ↔
  NoDup (f <$> xs) ∧ (∀ x, x ∈ xs → f x ∉ seen) ∧ Forall P xs ∧ r = reverse (f <$> xs) ++ seen.
Proof.
  intros Hbody. revert seen r. induction xs as [|x xs IH]; intros seen r; simpl.
  { split; [|by intros (_ & _ & _ & ->)]. intros [= <-].
    split; [constructor|]. split; [|by split]. intros y Hy. by apply elem_of_nil in Hy. }
  rewrite bind_Ok, NoDup_cons, Forall_cons, reverse_cons. split.
  - intros (s & (Hx & Px & ->)%Hbody & (Hnd & Hns & HP & ->)%IH). split.
    + split; [|done]. intros (y & Hy & Hin)%list_elem_of_fmap. apply (Hns y Hin). rewrite <- Hy. left.
    + split; [|split; [done|by rewrite <- (assoc (++))]].
      intros y [->|Hy]%elem_of_cons; [done|]. intros Hin. apply (Hns y Hy). by right.
  - intros ([Hx Hnd] & Hns & [Px HP] & ->). exists (f x :: seen). rewrite Hbody, IH.
    split; [split; [apply Hns; left|done]|].
    split; [done|]. split; [|split; [done|by rewrite <- (assoc (++))]].
    intros y Hy [Heq|Hin]%elem_of_cons; [|apply (Hns y); [by right|done]].
    apply Hx. rewrite <- Heq. by apply list_elem_of_fmap_2.
Qed.

Create HintDb direclaw.
Create Rewrite HintDb direclaw.
#[export] Hint Rewrite @bind_Ok @reject_if_Ok @ok_or_Ok @map_err_Ok
  @for_each_Ok : direclaw.

(** [break_ok H] opens a successful monadic computation [H : m = Ok _] into
    the successes of its parts. *)
Ltac break_ok H :=
  let rec go H :=
    first
      [ rewrite bind_Ok in H;
        let a := fresh "a" in let H1 := fresh H in let H2 := fresh H in
        destruct H as (a & H1 & H2); go H1; go H2
      | rewrite reject_if_Ok in H
      | rewrite map_err_Ok in H; go H
      | rewrite ok_or_Ok in H
      | idtac ]
  in go H.

(** Case analysis on the discriminee of the next [match] or [if]. *)
Ltac case_match_eqn :=
  match goal with
  | |- context [match ?x with _ => _ end] => destruct x eqn:?
  end.

(** ** Machine integers *)
Definition u32_max : Z := 4294967295.
Definition u64_max : Z := 18446744073709551615.
Definition i64_min : Z := -9223372036854775808.
Definition i64_max : Z := 9223372036854775807.

Definition in_u32 (x : Z) : Prop := (0 ≤ x ≤ u32_max)%Z.
Definition in_u64 (x : Z) : Prop := (0 ≤ x ≤ u64_max)%Z.
Definition in_i64 (x : Z) : Prop := (i64_min ≤ x ≤ i64_max)%Z.

(** [u32::saturating_add], [i64::saturating_add], [i64::saturating_sub]. *)
Definition u32_sat_add (x y : Z) : Z := Z.min (x + y) u32_max.
Definition i64_clamp (x : Z) : Z := Z.max i64_min (Z.min x i64_max).
Definition i64_sat_add (x y : Z) : Z := i64_clamp (x + y).
Definition i64_sat_sub (x y : Z) : Z := i64_clamp (x - y).

(** [x as i64] for an unsigned 64-bit [x]: two's complement reinterpretation. *)
Definition u64_as_i64 (x : Z) : Z :=
  if decide (x ≤ i64_max)%Z then x else (x - (u64_max + 1))%Z.

Ltac unfold_widths :=
  unfold in_u32, in_u64, in_i64, u32_sat_add, i64_sat_add, i64_sat_sub,
    i64_clamp, u32_max, u64_max, i64_min, i64_max in *.

Lemma i64_sat_add_in x y : in_i64 (i64_sat_add x y).
Proof. unfold_widths. lia. Qed.
Lemma i64_sat_sub_in x y : in_i64 (i64_sat_sub x y).
Proof. unfold_widths. lia. Qed.
Lemma u32_sat_add_in x y : in_u32 x → in_u32 y → in_u32 (u32_sat_add x y).
Proof. unfold_widths. lia. Qed.
#[export] Hint Resolve i64_sat_add_in i64_sat_sub_in u32_sat_add_in : direclaw.

(** ** Lists *)
Definition is_nil {A} (xs : list A) : bool := match xs with [] => true | _ => false end.
Lemma is_nil_false {A} (xs : list A) : is_nil xs = false ↔ xs ≠ [].
Proof. by destruct xs. Qed.

Lemma NoDup_map_inj {A B} (f : A → B) (l : list A) x y :
  NoDup (f <$> l) → x ∈ l → y ∈ l → f x = f y → x = y.
Proof.
  induction l as [|z l IH]; simpl; [set_solver|].
  rewrite NoDup_cons, !elem_of_cons. intros [Hz Hl] [->|Hx] [->|Hy] Hf; auto.
  - destruct Hz. rewrite Hf. by apply list_elem_of_fmap_2.
  - destruct Hz. rewrite <- Hf. by apply list_elem_of_fmap_2.
Qed.

Lemma NoDup_omap_inj {A B} (f : A → option B) (l : list A) x y k :
  NoDup (omap f l) → x ∈ l → y ∈ l → f x = Some k → f y = Some k → x = y.
Proof.
  induction l as [|z l IH]; simpl; [set_solver|].
  intros Hl [->|Hx]%elem_of_cons [->|Hy]%elem_of_cons Hfx Hfy; [done|..].
  - rewrite Hfx in Hl. apply NoDup_cons in Hl as [Hz _]. destruct Hz.
    apply list_elem_of_omap. eauto.
  - rewrite Hfy in Hl. apply NoDup_cons in Hl as [Hz _]. destruct Hz.
    apply list_elem_of_omap. eauto.
  - apply IH; [|done..]. destruct (f z); [by apply NoDup_cons in Hl as [_ ?]|done].
Qed.

(** More candidates than names: one candidate is free. *)
Lemma pigeonhole {A} (f : nat → A) n (l : list A) :
  (∀ i j, (i < n)%nat → (j < n)%nat → f i = f j → i = j) →
  (∀ i, (i < n)%nat → f i ∈ l) → (n ≤ length l)%nat.
Proof.
  intros Hinj Hall.
  assert (NoDup (f <$> seq 0 n)) as Hnd.
  { apply NoDup_fmap_2_strong; [|apply NoDup_seq].
    intros i j Hi%elem_of_seq Hj%elem_of_seq. apply Hinj; lia. }
  apply (NoDup_submseteq _ l) in Hnd.
  - apply submseteq_length in Hnd. by rewrite length_fmap, length_seq in Hnd.
  - intros x (i & -> & Hi%elem_of_seq)%list_elem_of_fmap. apply Hall. lia.
Qed.

Lemma filter_ext_in {A} (P Q : A → Prop) `{∀ x, Decision (P x)}
    `{∀ x, Decision (Q x)} (l : list A) :
  (∀ x, x ∈ l → P x ↔ Q x) → filter P l = filter Q l.
Proof.
  induction l as [|x l IH]; intros Hpq; [done|].
  rewrite !filter_cons. rewrite IH by (intros; apply Hpq; by right).
  destruct (decide (P x)), (decide (Q x)); [done|..|done].
  all: exfalso; destruct (Hpq x); [left|]; auto.
Qed.

(** ** Bounded loops with early return

    [for_n body n s] runs [for _ in 0..n { .. }]; [body] returns [inr] to leave
    the loop with a value.  The count is binary, so that a loop over millions of
    steps evaluates as far as it runs. *)
Fixpoint for_pos {S A} (body : S → S + A) (n : positive) (s : S) : S + A :=
  match n with
  | xH => body s
  | xO n => match for_pos body n s with inl s => for_pos body n s | inr a => inr a end
  | xI n => match body s with
            | inl s => match for_pos body n s with inl s => for_pos body n s | inr a => inr a end
            | inr a => inr a
            end
  end.
Fixpoint for_nat {S A} (body : S → S + A) (n : nat) (s : S) : S + A :=
  match n with
  | O => inl s
  | Datatypes.S n => match body s with inl s => for_nat body n s | inr a => inr a end
  end.

Lemma for_nat_add {S A} (body : S → S + A) n m s :
  for_nat body (n + m) s
  = match for_nat body n s with inl s => for_nat body m s | inr a => inr a end.
Proof.
  revert s. induction n as [|n IH]; intros s; [done|]. simpl. by destruct (body s).
Qed.
Lemma for_pos_nat {S A} (body : S → S + A) n s :
  for_pos body n s = for_nat body (Pos.to_nat n) s.
Proof.
  revert s. induction n as [n IH|n IH|]; intros s; cbn [for_pos].
  - rewrite Pos2Nat.inj_xI. cbn [for_nat]. destruct (body s) as [s'|a]; [|done].
    replace (2 * Pos.to_nat n)%nat with (Pos.to_nat n + Pos.to_nat n)%nat by lia.
    rewrite for_nat_add, <- IH. destruct (for_pos body n s'); [apply IH|done].
  - rewrite Pos2Nat.inj_xO.
    replace (2 * Pos.to_nat n)%nat with (Pos.to_nat n + Pos.to_nat n)%nat by lia.
    rewrite for_nat_add, <- IH. destruct (for_pos body n s); [apply IH|done].
  - change (Pos.to_nat 1) with 1%nat. simpl. by destruct (body s).
Qed.
