(* ===== verification/RustStr.v ===== *)
(** * Rust strings

    A [&str] is the [string] of its UTF-8 bytes.  The [str] methods the program
    uses are defined on bytes so that they agree with Rust on every valid UTF-8
    string: [trim] knows the UTF-8 encodings of the Unicode [White_Space]
    characters, [chars] counts lead bytes, searching and slicing are byte-wise
    in Rust already. *)
From S2P Require Import Prelude.
From Stdlib Require Import Ascii.

Local Open Scope string_scope.

#[global] Arguments String.append : simpl nomatch.

Definition byte_of (a : ascii) : N := N_of_ascii a.

(** ** Characters *)
Definition is_ascii_digit (a : ascii) : bool :=
  let n := byte_of a in (48 <=? n)%N && (n <=? 57)%N.
Definition is_ascii_upper (a : ascii) : bool :=
  let n := byte_of a in (65 <=? n)%N && (n <=? 90)%N.
Definition is_ascii_lower (a : ascii) : bool :=
  let n := byte_of a in (97 <=? n)%N && (n <=? 122)%N.
Definition is_ascii_alphanumeric (a : ascii) : bool :=
  is_ascii_digit a || is_ascii_upper a || is_ascii_lower a.

(** Is the byte a UTF-8 continuation byte (10xxxxxx)? *)
Definition is_continuation (a : ascii) : bool :=
  let n := byte_of a in (128 <=? n)%N && (n <=? 191)%N.

(** Unicode [White_Space] by UTF-8 length:
    U+0009..U+000D and U+0020; U+0085 and U+00A0; U+1680, U+2000..U+200A,
    U+2028, U+2029, U+202F, U+205F and U+3000. *)
Definition ws1 (a : ascii) : bool :=
  let n := byte_of a in ((9 <=? n)%N && (n <=? 13)%N) || (n =? 32)%N.
Definition ws2 (a b : ascii) : bool :=
  (byte_of a =? 194)%N && ((byte_of b =? 133)%N || (byte_of b =? 160)%N).
Definition ws3 (a b c : ascii) : bool :=
  let x := byte_of a in let y := byte_of b in let z := byte_of c in
  ((x =? 225)%N && (y =? 154)%N && (z =? 128)%N)
  || ((x =? 226)%N && (y =? 128)%N &&
      (((128 <=? z)%N && (z <=? 138)%N) || (z =? 168)%N || (z =? 169)%N || (z =? 175)%N))
  || ((x =? 226)%N && (y =? 129)%N && (z =? 159)%N)
  || ((x =? 227)%N && (y =? 128)%N && (z =? 128)%N).

(** ** [str::trim] *)
Fixpoint trim_start (s : string) : string :=
  match s with
  | String a s1 =>
      if ws1 a then trim_start s1 else
      match s1 with
      | String b s2 =>
          if ws2 a b then trim_start s2 else
          match s2 with
          | String c s3 => if ws3 a b c then trim_start s3 else s
          | _ => s
          end
      | _ => s
      end
  | EmptyString => s
  end.

(** The same on the reversed bytes, for the end of the string. *)
Fixpoint trim_start_rev (s : string) : string :=
  match s with
  | String a s1 =>
      if ws1 a then trim_start_rev s1 else
      match s1 with
      | String b s2 =>
          if ws2 b a then trim_start_rev s2 else
          match s2 with
          | String c s3 => if ws3 c b a then trim_start_rev s3 else s
          | _ => s
          end
      | _ => s
      end
  | EmptyString => s
  end.

Definition trim_end (s : string) : string := String.rev (trim_start_rev (String.rev s)).
Definition trim (s : string) : string := trim_end (trim_start s).

Definition is_empty (s : string) : bool := match s with "" => true | _ => false end.
(** [option.filter(|s| !s.trim().is_empty())] *)
Definition not_blank (o : option string) : option string :=
  match o with Some s => if is_empty (trim s) then None else Some s | None => None end.

(** ** Mapping and predicates over characters *)
Fixpoint str_map (f : ascii → ascii) (s : string) : string :=
  match s with "" => "" | String a s => String (f a) (str_map f s) end.

Fixpoint str_forall (p : ascii → bool) (s : string) : bool :=
  match s with "" => true | String a s => p a && str_forall p s end.

Definition to_ascii_lowercase_char (a : ascii) : ascii :=
  if is_ascii_upper a then ascii_of_N (byte_of a + 32) else a.
Definition to_ascii_lowercase : string → string := str_map to_ascii_lowercase_char.
Definition eq_ignore_ascii_case (s t : string) : bool :=
  String.eqb (to_ascii_lowercase s) (to_ascii_lowercase t).

(** [s.chars().map(|c| if p(c) { c } else { r })] for an ASCII predicate [p]
    and an ASCII replacement [r]: a multi-byte character becomes one [r]. *)
Fixpoint map_chars_else (p : ascii → bool) (r : ascii) (s : string) : string :=
  match s with
  | "" => ""
  | String a s =>
      if is_continuation a then map_chars_else p r s
      else String (if p a then a else r) (map_chars_else p r s)
  end.

(** [s.chars().count()] and [s.chars().take(n)]. *)
Fixpoint chars_count (s : string) : nat :=
  match s with
  | "" => 0
  | String a s => if is_continuation a then chars_count s else S (chars_count s)
  end.
Fixpoint chars_take (n : nat) (s : string) : string :=
  match s with
  | "" => ""
  | String a s' =>
      if is_continuation a then String a (chars_take n s')
      else match n with O => "" | S n => String a (chars_take n s') end
  end.

(** ** Searching and slicing *)
Fixpoint strip_prefix (p s : string) : option string :=
  match p, s with
  | "", _ => Some s
  | String a p, String b s => if Ascii.eqb a b then strip_prefix p s else None
  | _, _ => None
  end.
Definition starts_with (p s : string) : bool :=
  match strip_prefix p s with Some _ => true | None => false end.
Definition strip_suffix (p s : string) : option string :=
  String.rev <$> strip_prefix (String.rev p) (String.rev s).
Definition ends_with (p s : string) : bool :=
  match strip_suffix p s with Some _ => true | None => false end.

(** [cut p s] splits [s] around the first occurrence of [p]; the length of the
    first part is [s.find(p)], the parts are [s.split_once(p)]. *)
Fixpoint cut (p s : string) : option (string * string) :=
  match strip_prefix p s with
  | Some rest => Some ("", rest)
  | None =>
      match s with
      | "" => None
      | String a s' => '(x, y) ← cut p s'; Some (String a x, y)
      end
  end.
Definition split_once := cut.
Definition contains (p s : string) : bool :=
  match cut p s with Some _ => true | None => false end.

(** [s.split(c)] for a character: always at least one piece. *)
Fixpoint split_chars (p : ascii → bool) (s : string) : list string :=
  match s with
  | "" => [""]
  | String a s =>
      match split_chars p s with
      | x :: xs => if p a then "" :: x :: xs else String a x :: xs
      | [] => []
      end
  end.
Definition split_on (c : ascii) : string → list string := split_chars (Ascii.eqb c).

(** [s.replace(from, to)] for a non-empty [from]; the fuel is the length. *)
Fixpoint replace_fuel (fuel : nat) (from to s : string) : string :=
  match fuel with
  | O => s
  | S fuel =>
      match cut from s with
      | Some (x, y) => x +:+ to +:+ replace_fuel fuel from to y
      | None => s
      end
  end.
Definition replace (from to s : string) : string := replace_fuel (String.length s) from to s.

(** [xs.join(sep)]. *)
Definition join (sep : string) (xs : list string) : string := String.concat sep xs.

(** [trim_matches(c)] for one ASCII character. *)
Fixpoint trim_start_matches (c : ascii) (s : string) : string :=
  match s with
  | String a s' => if Ascii.eqb a c then trim_start_matches c s' else s
  | "" => ""
  end.
Definition trim_matches (c : ascii) (s : string) : string :=
  String.rev (trim_start_matches c (String.rev (trim_start_matches c s))).

(** ** Integer parsing: an optional sign, then digits, checked for overflow *)
Definition digit_value (a : ascii) : option Z :=
  if is_ascii_digit a then Some (Z.of_N (byte_of a) - 48)%Z else None.
Fixpoint parse_digits (acc : Z) (s : string) : option Z :=
  match s with
  | "" => Some acc
  | String a s => d ← digit_value a; parse_digits (acc * 10 + d)%Z s
  end.
Definition parse_unsigned (max : Z) (s : string) : option Z :=
  let digits := match s with String "+" s' => s' | _ => s end in
  match digits with
  | "" => None
  | _ => v ← parse_digits 0 digits; if decide (v ≤ max)%Z then Some v else None
  end.
Definition parse_u32 : string → option Z := parse_unsigned u32_max.
Definition parse_u64 : string → option Z := parse_unsigned u64_max.
Definition parse_i64 (s : string) : option Z :=
  match s with
  | String "-" s' =>
      match s' with
      | String "+" _ => None
      | _ => v ← parse_unsigned (- i64_min) s'; Some (- v)%Z
      end
  | _ => parse_unsigned i64_max s
  end.

(** [format!("{n}")]. *)
Definition fmt_int (n : Z) : string := pretty n.

(** ** Lemmas *)
Lemma str_app_nil_r s : s +:+ "" = s.
Proof. induction s; simpl; congruence. Qed.
Lemma str_app_assoc s t u : (s +:+ t) +:+ u = s +:+ (t +:+ u).
Proof. induction s; simpl; congruence. Qed.
Lemma str_length_app s t :
  String.length (s +:+ t) = (String.length s + String.length t)%nat.
Proof. induction s as [|a s IH]; simpl; [done|]. by rewrite <- IH. Qed.
#[export] Hint Rewrite str_app_nil_r str_app_assoc str_length_app : direclaw.

Lemma str_app_inv_r s1 s2 t : s1 +:+ t = s2 +:+ t → s1 = s2.
Proof.
  revert s2. induction s1 as [|a s1 IH]; intros [|b s2] H; simpl in *; [done|..].
  - apply (f_equal String.length) in H. simpl in H. rewrite str_length_app in H. lia.
  - apply (f_equal String.length) in H. simpl in H. rewrite str_length_app in H. lia.
  - injection H as -> H. f_equal. by apply IH.
Qed.

Lemma str_rev_app_spec s t : String.rev_app s t = String.rev s +:+ t.
Proof.
  unfold String.rev. revert t. induction s as [|a s IH]; intros t; [done|].
  simpl. rewrite IH, (IH (String a "")), str_app_assoc. done.
Qed.
Lemma str_rev_cons a s : String.rev (String a s) = String.rev s +:+ String a "".
Proof. unfold String.rev at 1. simpl. by rewrite str_rev_app_spec. Qed.
Lemma str_rev_app s t : String.rev (s +:+ t) = String.rev t +:+ String.rev s.
Proof.
  induction s as [|a s IH]; simpl; [by rewrite str_app_nil_r|].
  by rewrite !str_rev_cons, IH, str_app_assoc.
Qed.
Lemma str_rev_involutive s : String.rev (String.rev s) = s.
Proof.
  induction s as [|a s IH]; [done|]. rewrite str_rev_cons, str_rev_app, IH. done.
Qed.

Lemma str_forall_app p s t :
  str_forall p (s +:+ t) = str_forall p s && str_forall p t.
Proof. induction s; simpl; [done|]. rewrite IHs. by rewrite andb_assoc. Qed.
Lemma str_forall_rev p s : str_forall p (String.rev s) = str_forall p s.
Proof.
  induction s as [|a s IH]; [done|].
  rewrite str_rev_cons, str_forall_app, IH. simpl. rewrite andb_true_r. apply andb_comm.
Qed.
Lemma str_forall_impl (p q : ascii → bool) s :
  (∀ a, p a = true → q a = true) → str_forall p s = true → str_forall q s = true.
Proof.
  intros Hpq. induction s as [|a s IH]; simpl; [done|].
  rewrite !andb_true_iff. naive_solver.
Qed.
Lemma str_forall_map p f s :
  str_forall p (str_map f s) = str_forall (λ a, p (f a)) s.
Proof. induction s; simpl; congruence. Qed.

Lemma strip_prefix_Some p s r : strip_prefix p s = Some r ↔ s = p +:+ r.
Proof.
  revert s. induction p as [|a p IH]; intros s; simpl; [naive_solver|].
  destruct s as [|b s]; [naive_solver|].
  destruct (Ascii.eqb_spec a b) as [->|Hne].
  - rewrite IH. naive_solver.
  - naive_solver.
Qed.
Lemma starts_with_app p s : starts_with p (p +:+ s) = true.
Proof. unfold starts_with. by rewrite (proj2 (strip_prefix_Some p _ s)). Qed.
Lemma strip_suffix_Some p s r : strip_suffix p s = Some r ↔ s = r +:+ p.
Proof.
  unfold strip_suffix. rewrite fmap_Some. setoid_rewrite strip_prefix_Some. split.
  - intros (x & Hx & ->). apply (f_equal String.rev) in Hx.
    by rewrite str_rev_app, !str_rev_involutive in Hx.
  - intros ->. exists (String.rev r). by rewrite str_rev_app, str_rev_involutive.
Qed.

Lemma cut_Some p s x y : cut p s = Some (x, y) → s = x +:+ p +:+ y.
Proof.
  revert x. induction s as [|a s IH]; intros x; simpl.
  - destruct (strip_prefix p "") eqn:Hp; [|done].
    intros [= <- <-]. by apply strip_prefix_Some in Hp.
  - destruct (strip_prefix p (String a s)) as [rest|] eqn:Hp.
    + intros [= <- <-]. by apply strip_prefix_Some in Hp.
    + intros H. apply bind_Some in H as ([x' y'] & Hc & [= <- <-]).
      simpl. f_equal. by apply IH.
Qed.
Lemma cut_app_not_in p a x y :
  str_forall (λ b, negb (Ascii.eqb a b)) x = true →
  cut (String a p) (x +:+ String a p +:+ y) = Some (x, y).
Proof.
  induction x as [|b x IH]; simpl.
  - intros _. rewrite Ascii.eqb_refl.
    by rewrite (proj2 (strip_prefix_Some p _ y) eq_refl).
  - intros [Hb Hx]%andb_true_iff. destruct (Ascii.eqb a b); [done|].
    simpl in IH. by rewrite IH.
Qed.

(** Bytes that are neither white space nor part of a multi-byte character. *)
Definition solid (a : ascii) : bool :=
  (byte_of a <? 128)%N && negb (ws1 a).

Lemma solid_not_ws a : solid a = true →
  ws1 a = false ∧ (∀ b, ws2 a b = false ∧ ws2 b a = false) ∧
  (∀ b c, ws3 a b c = false ∧ ws3 c b a = false).
Proof.
  unfold solid, ws2, ws3. rewrite andb_true_iff, N.ltb_lt, negb_true_iff.
  intros [Ha Hw].
  assert (∀ k, (128 ≤ k)%N → (byte_of a =? k)%N = false) as E.
  { intros k Hk. apply N.eqb_neq. lia. }
  assert ((128 <=? byte_of a)%N = false) as E' by (apply N.leb_gt; lia).
  split; [done|]. split; intros; rewrite ?E, ?E' by lia;
    rewrite ?andb_false_r, ?andb_false_l; done.
Qed.

Lemma trim_start_solid a s : solid a = true → trim_start (String a s) = String a s.
Proof.
  intros (H1 & H2 & H3)%solid_not_ws. simpl. rewrite H1.
  destruct s as [|b s]; [done|]. rewrite (proj1 (H2 b)).
  destruct s as [|c s]; [done|]. by rewrite (proj1 (H3 b c)).
Qed.
Lemma trim_start_rev_solid a s :
  solid a = true → trim_start_rev (String a s) = String a s.
Proof.
  intros (H1 & H2 & H3)%solid_not_ws. simpl. rewrite H1.
  destruct s as [|b s]; [done|]. rewrite (proj2 (H2 b)).
  destruct s as [|c s]; [done|]. by rewrite (proj2 (H3 b c)).
Qed.

(** [trim] is the identity on strings of solid bytes. *)
Lemma trim_solid s : str_forall solid s = true → trim s = s.
Proof.
  intros Hs. unfold trim.
  assert (trim_start s = s) as ->.
  { destruct s; [done|]. simpl in Hs. apply andb_true_iff in Hs as [? _].
    by apply trim_start_solid. }
  unfold trim_end.
  assert (trim_start_rev (String.rev s) = String.rev s) as ->.
  { rewrite <- str_forall_rev in Hs.
    destruct (String.rev s); [done|]. simpl in Hs.
    apply andb_true_iff in Hs as [? _]. by apply trim_start_rev_solid. }
  apply str_rev_involutive.
Qed.

(** ** Decimal printing and parsing *)
Lemma digit_value_char x : (x < 10)%N →
  digit_value (pretty_N_char x) = Some (Z.of_N x)
  ∧ is_ascii_digit (pretty_N_char x) = true.
Proof.
  intros Hx.
  assert (x ∈ [0;1;2;3;4;5;6;7;8;9]%N) as Hin by set_solver by lia.
  repeat (apply elem_of_cons in Hin as [->|Hin]; [done|]). by apply not_elem_of_nil in Hin.
Qed.

Lemma parse_digits_pretty_go x s :
  parse_digits 0 (pretty_N_go x s) = parse_digits (Z.of_N x) s.
Proof.
  revert s. induction (N.lt_wf_0 x) as [x _ IH]; intros s.
  destruct (decide (0 < x)%N) as [Hx|]; last first.
  { assert (x = 0%N) as -> by lia. by rewrite pretty_N_go_0. }
  rewrite pretty_N_go_step by done. rewrite IH by (apply N.div_lt; lia).
  simpl. destruct (digit_value_char (x mod 10)) as [-> _].
  { apply N.mod_lt. lia. }
  simpl. f_equal. pose proof (N.div_mod' x 10). lia.
Qed.

Lemma pretty_go_digits x s :
  str_forall is_ascii_digit s = true →
  str_forall is_ascii_digit (pretty_N_go x s) = true.
Proof.
  revert s. induction (N.lt_wf_0 x) as [x _ IH]; intros s Hs.
  destruct (decide (0 < x)%N) as [Hx|]; last first.
  { assert (x = 0%N) as -> by lia. by rewrite pretty_N_go_0. }
  rewrite pretty_N_go_step by done. apply IH; [apply N.div_lt; lia|].
  simpl. rewrite Hs, (proj2 (digit_value_char (x mod 10) ltac:(apply N.mod_lt; lia))).
  done.
Qed.

Lemma fmt_int_N n : (0 ≤ n)%Z → fmt_int n = pretty (Z.to_N n).
Proof. destruct n; [done|done|lia]. Qed.

Lemma fmt_int_digits n : (0 ≤ n)%Z → str_forall is_ascii_digit (fmt_int n) = true.
Proof.
  intros Hn. rewrite fmt_int_N by done. unfold pretty, pretty_N.
  case_decide; [done|]. by apply pretty_go_digits.
Qed.

Lemma fmt_int_cons n : (0 ≤ n)%Z → ∃ a s, fmt_int n = String a s ∧ is_ascii_digit a = true.
Proof.
  intros Hn. pose proof (fmt_int_digits n Hn) as Hd.
  destruct (fmt_int n) as [|a s] eqn:E.
  - exfalso. rewrite fmt_int_N in E by done. unfold pretty, pretty_N in E.
    case_decide as Hz; [done|]. clear Hd.
    pose proof (parse_digits_pretty_go (Z.to_N n) "") as Hp. rewrite E in Hp.
    simpl in Hp. injection Hp as Hp. apply Hz. lia.
  - simpl in Hd. apply andb_true_iff in Hd as [? _]. by exists a, s.
Qed.

Lemma parse_unsigned_fmt_int max n :
  (0 ≤ n ≤ max)%Z → parse_unsigned max (fmt_int n) = Some n.
Proof.
  intros [H0 Hmax]. destruct (fmt_int_cons n H0) as (a & s & E & Ha).
  unfold parse_unsigned. rewrite E.
  assert (match String a s with String "+" s' => s' | _ => String a s end = String a s)
    as ->.
  { destruct a as [[] [] [] [] [] [] [] []]; try done. }
  assert (parse_digits 0 (String a s) = Some n) as ->.
  { rewrite <- E, fmt_int_N by done. unfold pretty, pretty_N.
    case_decide as Hz.
    - assert (n = 0)%Z as -> by lia. done.
    - rewrite parse_digits_pretty_go. simpl. f_equal. lia. }
  simpl. by rewrite decide_True.
Qed.

#[export] Instance fmt_int_inj : Inj (=) (=) fmt_int.
Proof. unfold fmt_int. apply _. Qed.

Lemma digit_solid a : is_ascii_digit a = true → solid a = true.
Proof.
  unfold is_ascii_digit, solid, ws1. rewrite !andb_true_iff, negb_true_iff, !N.leb_le.
  intros [H1 H2]. rewrite N.ltb_lt, orb_false_iff, andb_false_iff, !N.leb_gt, N.eqb_neq.
  lia.
Qed.

(** Parsed integers fit their type. *)
Lemma digit_value_nonneg a d : digit_value a = Some d → (0 ≤ d)%Z.
Proof.
  unfold digit_value, is_ascii_digit. destruct (_ && _)%bool eqn:E; [|done]. intros [= <-].
  apply andb_true_iff in E as [E _]. apply N.leb_le in E. simpl in E. lia.
Qed.
Lemma parse_digits_nonneg s acc v : (0 ≤ acc)%Z → parse_digits acc s = Some v → (0 ≤ v)%Z.
Proof.
  revert acc. induction s as [|a s IH]; intros acc Ha; simpl; [by intros [= <-]|].
  intros (d & Hd & H)%bind_Some. apply digit_value_nonneg in Hd.
  apply IH in H; lia.
Qed.
Lemma parse_unsigned_range max s v : parse_unsigned max s = Some v → (0 ≤ v ≤ max)%Z.
Proof.
  unfold parse_unsigned. set (digits := match s with "" => s | _ => _ end).
  destruct digits as [|a t]; [done|]. intros (x & Hx & H)%bind_Some.
  case_decide; [|done]. injection H as <-. split; [|done]. by eapply parse_digits_nonneg; [|exact Hx].
Qed.

(** ** Slicing *)
Lemma substring_all s : String.substring 0 (String.length s) s = s.
Proof. induction s as [|a s IH]; simpl; [done|]. by rewrite IH. Qed.
Lemma substring_prefix_app s t : String.substring 0 (String.length s) (s +:+ t) = s.
Proof. induction s as [|a s IH]; simpl; [by destruct t|]. by rewrite IH. Qed.
Lemma substring_middle s t u :
  String.substring (String.length s) (String.length t) (s +:+ t +:+ u) = t.
Proof. induction s as [|a s IH]; simpl; [apply substring_prefix_app|done]. Qed.

Lemma app_eq_split x u x2 v :
  x +:+ u = x2 +:+ v → (String.length x ≤ String.length x2)%nat →
  ∃ z, x2 = x +:+ z ∧ u = z +:+ v.
Proof.
  revert x2. induction x as [|a x IH]; intros x2; simpl; [intros ->; eauto|].
  destruct x2 as [|b x2]; simpl; [lia|].
  intros [= -> H] Hl. apply IH in H as (z & -> & ->); [|lia]. eauto.
Qed.

(** [trim] only looks at the two ends. *)
Lemma trim_solid_ends a s m z :
  String a s = m +:+ String z "" → solid a = true → solid z = true →
  trim (String a s) = String a s.
Proof.
  intros Heq Ha Hz. unfold trim. rewrite trim_start_solid by done. unfold trim_end.
  assert (String.rev (String a s) = String z (String.rev m)) as Hr
    by (rewrite Heq, str_rev_app; done).
  rewrite Hr, trim_start_rev_solid, <- Hr by done. apply str_rev_involutive.
Qed.

(** Splitting a joined list at its separator. *)
Lemma split_chars_no_sep p s :
  str_forall (λ a, negb (p a)) s = true → split_chars p s = [s].
Proof.
  induction s as [|a s IH]; simpl; [done|]. intros [Ha Hs]%andb_true_iff.
  rewrite IH by done. by destruct (p a).
Qed.
Lemma split_chars_cons p s a t :
  str_forall (λ a, negb (p a)) s = true → p a = true →
  split_chars p (s +:+ String a t) = s :: split_chars p t.
Proof.
  intros Hs Ha. assert (∀ t, ∃ x xs, split_chars p t = x :: xs) as Hne.
  { clear. induction t as [|b t (x & xs & E)]; simpl; [eauto|]. rewrite E. destruct (p b); eauto. }
  induction s as [|b s IH]; simpl in *.
  - destruct (Hne t) as (x & xs & E). by rewrite E, Ha.
  - apply andb_true_iff in Hs as [Hb Hs]. rewrite IH by done. by destruct (p b).
Qed.
Lemma join_cons sep x y ys : join sep (x :: y :: ys) = x +:+ sep +:+ join sep (y :: ys).
Proof. done. Qed.

(** [", "] as separator: the pieces after splitting at [','] keep the space. *)
Lemma split_join_comma x xs :
  Forall (λ s, str_forall (λ a, negb (Ascii.eqb "," a)) s = true) (x :: xs) →
  split_on "," (String " " (join ", " (x :: xs))) = String " " <$> (x :: xs).
Proof.
  unfold split_on. revert x. induction xs as [|y ys IH]; intros x [Hx Hxs]%Forall_cons.
  - by apply split_chars_no_sep.
  - rewrite join_cons. change (String " " (x +:+ ", " +:+ join ", " (y :: ys)))
      with (String " " x +:+ String "," (String " " (join ", " (y :: ys)))).
    by rewrite split_chars_cons, IH.
Qed.

(** ** [trim] is idempotent *)
Lemma string_len_ind (P : string → Prop) :
  (∀ s, (∀ t, (String.length t < String.length s)%nat → P t) → P s) → ∀ s, P s.
Proof.
  intros Hstep s. remember (String.length s) as n eqn:E. revert s E.
  induction (lt_wf n) as [n _ IH]. intros s ->. apply Hstep. intros t Ht. by apply (IH _ Ht).
Qed.

Lemma trim_start_fixed s : trim_start (trim_start s) = trim_start s.
Proof.
  induction s as [[|a s1] IH] using string_len_ind; [done|]. cbn [trim_start].
  destruct (ws1 a) eqn:E1; [apply IH; simpl; lia|].
  destruct s1 as [|b s2]; [cbn [trim_start]; by rewrite E1|].
  destruct (ws2 a b) eqn:E2; [apply IH; simpl; lia|].
  destruct s2 as [|c s3]; [cbn [trim_start]; by rewrite E1, E2|].
  destruct (ws3 a b c) eqn:E3; [apply IH; simpl; lia|].
  cbn [trim_start]. by rewrite E1, E2, E3.
Qed.
Lemma trim_start_rev_fixed s : trim_start_rev (trim_start_rev s) = trim_start_rev s.
Proof.
  induction s as [[|a s1] IH] using string_len_ind; [done|]. cbn [trim_start_rev].
  destruct (ws1 a) eqn:E1; [apply IH; simpl; lia|].
  destruct s1 as [|b s2]; [cbn [trim_start_rev]; by rewrite E1|].
  destruct (ws2 b a) eqn:E2; [apply IH; simpl; lia|].
  destruct s2 as [|c s3]; [cbn [trim_start_rev]; by rewrite E1, E2|].
  destruct (ws3 c b a) eqn:E3; [apply IH; simpl; lia|].
  cbn [trim_start_rev]. by rewrite E1, E2, E3.
Qed.

Lemma trim_start_length s : (String.length (trim_start s) ≤ String.length s)%nat.
Proof.
  induction s as [[|a s1] IH] using string_len_ind; [done|]. cbn [trim_start].
  destruct (ws1 a); [etrans; [apply IH; simpl; lia|simpl; lia]|].
  destruct s1 as [|b s2]; [done|]. destruct (ws2 a b); [etrans; [apply IH; simpl; lia|simpl; lia]|].
  destruct s2 as [|c s3]; [done|]. destruct (ws3 a b c); [|done].
  etrans; [apply IH; simpl; lia|simpl; lia].
Qed.

(** A prefix of a string without leading space has none either. *)
Lemma trim_start_prefix u v w : u = v +:+ w → trim_start u = u → trim_start v = v.
Proof.
  intros -> Hfix. destruct v as [|a v]; [done|]. cbn [trim_start].
  simpl in Hfix. destruct (ws1 a) eqn:E1.
  { exfalso. pose proof (trim_start_length (v +:+ w)) as Hl. rewrite Hfix in Hl. simpl in Hl. lia. }
  destruct v as [|b v]; [done|]. simpl in Hfix. destruct (ws2 a b) eqn:E2.
  { exfalso. pose proof (trim_start_length (v +:+ w)) as Hl. rewrite Hfix in Hl. simpl in Hl. lia. }
  destruct v as [|c v]; [done|]. simpl in Hfix. destruct (ws3 a b c) eqn:E3; [|done].
  exfalso. pose proof (trim_start_length (v +:+ w)) as Hl. rewrite Hfix in Hl. simpl in Hl. lia.
Qed.

Lemma trim_start_rev_suffix s : ∃ p, s = p +:+ trim_start_rev s.
Proof.
  induction s as [[|a s1] IH] using string_len_ind; [by exists ""|]. cbn [trim_start_rev].
  destruct (ws1 a).
  { destruct (IH s1) as [p Hp]; [simpl; lia|]. exists (String a p). simpl. by rewrite <- Hp. }
  destruct s1 as [|b s2]; [by exists ""|]. destruct (ws2 b a).
  { destruct (IH s2) as [p Hp]; [simpl; lia|]. exists (String a (String b p)). simpl. by rewrite <- Hp. }
  destruct s2 as [|c s3]; [by exists ""|]. destruct (ws3 c b a); [|by exists ""].
  destruct (IH s3) as [p Hp]; [simpl; lia|]. exists (String a (String b (String c p))).
  simpl. by rewrite <- Hp.
Qed.

Lemma trim_idemp s : trim (trim s) = trim s.
Proof.
  unfold trim. set (u := trim_start s).
  assert (trim_start u = u) as Hu by apply trim_start_fixed.
  destruct (trim_start_rev_suffix (String.rev u)) as [p Hp].
  assert (trim_start (trim_end u) = trim_end u) as ->.
  { apply (trim_start_prefix u _ (String.rev p)); [|done]. unfold trim_end.
    by rewrite <- str_rev_app, <- Hp, str_rev_involutive. }
  unfold trim_end. by rewrite str_rev_involutive, trim_start_rev_fixed.
Qed.
