(* ===== verification/RustPath.v ===== *)
(** * Rust paths (Unix)

    [std::path::Path] on Unix, as [string]s with '/' separators: parsing into
    components, [join]/[push], [parent], [file_name], [file_stem], [extension],
    [is_absolute] and [starts_with]; then the lemmas that relate [join] to the
    components. *)
From S2P Require Import Prelude RustStr.
From Stdlib Require Import Ascii.

Local Open Scope string_scope.
Local Open Scope list_scope.

Inductive Component : Type :=
  | RootDir
  | CurDir
  | ParentDir
  | Normal (name : string).

#[export] Instance Component_eq_dec : EqDecision Component.
Proof. solve_decision. Defined.

Definition is_absolute (p : string) : bool :=
  match p with String "/" _ => true | _ => false end.

(** One piece between separators; [""] and an inner ["."] vanish. *)
Definition piece_component (p : string) : option Component :=
  if String.eqb p "" then None
  else if String.eqb p "." then None
  else if String.eqb p ".." then Some ParentDir
  else Some (Normal p).

Definition components (p : string) : list Component :=
  let pieces := split_on "/" p in
  let body := omap piece_component pieces in
  if is_absolute p then RootDir :: body
  else match pieces with
       | "." :: _ => CurDir :: body
       | _ => body
       end.

(** [Path::starts_with]: a prefix of whole components. *)
Fixpoint components_prefix (base p : list Component) : bool :=
  match base, p with
  | [], _ => true
  | b :: base, c :: p => bool_decide (b = c) && components_prefix base p
  | _ :: _, [] => false
  end.
Definition path_starts_with (p base : string) : bool :=
  components_prefix (components base) (components p).

(** [Path::join] / [PathBuf::push]. *)
Definition path_join (base rel : string) : string :=
  if is_absolute rel then rel
  else if is_empty base then rel
  else if ends_with "/" base then base +:+ rel
  else base +:+ "/" +:+ rel.

Definition component_str (c : Component) : string :=
  match c with RootDir => "/" | CurDir => "." | ParentDir => ".." | Normal n => n end.

(** [Path::file_name], and the split of a file name at its last dot. *)
Definition file_name (p : string) : option string :=
  match last (components p) with Some (Normal n) => Some n | _ => None end.

Definition rsplit_dot (n : string) : option (string * string) :=
  match cut "." (String.rev n) with
  | Some (ext, stem) => Some (String.rev stem, String.rev ext)
  | None => None
  end.
Definition file_stem_of (n : string) : string :=
  match rsplit_dot n with
  | Some (stem, _) => if is_empty stem then n else stem
  | None => n
  end.
Definition extension_of (n : string) : option string :=
  match rsplit_dot n with
  | Some (stem, ext) => if is_empty stem then None else Some ext
  | None => None
  end.
Definition file_stem (p : string) : option string := file_stem_of <$> file_name p.
Definition extension (p : string) : option string := n ← file_name p; extension_of n.

(** A single ordinary file-name component: what the identifiers and the
    generated file names of the program are. *)
Definition not_slash (a : ascii) : bool := negb (Ascii.eqb "/" a).
Definition plain_name (n : string) : bool :=
  str_forall not_slash n && negb (String.eqb n "") && negb (String.eqb n ".")
  && negb (String.eqb n "..").

Lemma split_on_no_sep c s :
  str_forall (λ a, negb (Ascii.eqb c a)) s = true → split_on c s = [s].
Proof.
  induction s as [|a s IH]; simpl; [done|].
  intros [Ha Hs]%andb_true_iff. unfold split_on in *. simpl. rewrite IH by done.
  by destruct (Ascii.eqb c a).
Qed.

Lemma split_on_not_nil c s : ∃ x xs, split_on c s = x :: xs.
Proof.
  unfold split_on. induction s as [|a s (x & xs & E)]; simpl; [by eexists _, _|].
  rewrite E. destruct (Ascii.eqb c a); by eexists _, _.
Qed.

Lemma split_on_app c s t :
  split_on c (s +:+ String c t) = split_on c s ++ split_on c t.
Proof.
  unfold split_on. induction s as [|a s IH]; simpl.
  - rewrite Ascii.eqb_refl. destruct (split_on_not_nil c t) as (x & xs & E).
    unfold split_on in E. by rewrite E.
  - rewrite IH. destruct (split_on_not_nil c s) as (x & xs & E).
    unfold split_on in E. rewrite E. simpl. by destruct (Ascii.eqb c a).
Qed.

Lemma split_on_pieces c s :
  Forall (λ p, str_forall (λ a, negb (Ascii.eqb c a)) p = true) (split_on c s).
Proof.
  unfold split_on. induction s as [|a s IH]; simpl; [by repeat constructor|].
  destruct (split_chars (Ascii.eqb c) s) as [|x xs]; [constructor|].
  apply Forall_cons in IH as [Hx Hxs].
  destruct (Ascii.eqb c a) eqn:E; repeat constructor; try done.
  simpl. by rewrite E, Hx.
Qed.

Lemma plain_name_spec n : plain_name n = true ↔
  str_forall not_slash n = true ∧ n ≠ "" ∧ n ≠ "." ∧ n ≠ "..".
Proof.
  unfold plain_name. rewrite !andb_true_iff, !negb_true_iff, !String.eqb_neq. tauto.
Qed.

Lemma plain_piece n : plain_name n = true → piece_component n = Some (Normal n).
Proof.
  intros (_ & H1 & H2 & H3)%plain_name_spec. unfold piece_component.
  apply String.eqb_neq in H1, H2, H3. by rewrite H1, H2, H3.
Qed.

Lemma not_slash_not_absolute n : str_forall not_slash n = true → is_absolute n = false.
Proof.
  destruct n as [|a n]; [done|]. simpl. intros [H _]%andb_true_iff.
  destruct a as [[] [] [] [] [] [] [] []]; try done.
Qed.

Lemma components_plain n : plain_name n = true → components n = [Normal n].
Proof.
  intros Hn. pose proof Hn as (Hs & _ & Hdot & _)%plain_name_spec. unfold components.
  rewrite not_slash_not_absolute, split_on_no_sep by done. simpl.
  rewrite plain_piece by done.
  destruct n as [|a [|b n]]; try done; destruct a as [[] [] [] [] [] [] [] []]; done.
Qed.

(** Components of a rooted path extended by one separator and more text. *)
Lemma components_absolute_app b t :
  is_absolute b = true →
  components (b +:+ String "/" t) = components b ++ omap piece_component (split_on "/" t).
Proof.
  intros Hb. unfold components. rewrite Hb.
  assert (is_absolute (b +:+ String "/" t) = true) as ->.
  { destruct b as [|a b]; [done|]. by destruct a as [[] [] [] [] [] [] [] []]. }
  by rewrite split_on_app, omap_app.
Qed.

Lemma omap_pieces_relative r :
  is_absolute r = false → (∀ xs, split_on "/" r ≠ "." :: xs) →
  omap piece_component (split_on "/" r) = components r.
Proof.
  intros Hr Hdot. unfold components. rewrite Hr.
  destruct (split_on "/" r) as [|x xs]; [done|].
  destruct x as [|a [|c x]]; try done.
  all: destruct a as [[] [] [] [] [] [] [] []]; try done.
  by destruct (Hdot xs).
Qed.

(** [b.join(r)] appends the components of a relative path without a leading
    ["."]. *)
Lemma components_join b r :
  is_absolute b = true → is_absolute r = false →
  (∀ xs, split_on "/" r ≠ "." :: xs) →
  components (path_join b r) = components b ++ components r.
Proof.
  intros Hb Hr Hdot. unfold path_join. rewrite Hr.
  destruct (is_empty b) eqn:He; [by destruct b|].
  destruct (ends_with "/" b) eqn:Hend.
  - unfold ends_with in Hend.
    destruct (strip_suffix "/" b) as [b'|] eqn:Hs; [|done].
    apply strip_suffix_Some in Hs as ->. rewrite str_app_assoc. simpl.
    rewrite <- (omap_pieces_relative r) by done.
    unfold components. rewrite Hb.
    assert (is_absolute (b' +:+ String "/" r) = true) as ->.
    { destruct b' as [|a b']; [done|].
      by destruct a as [[] [] [] [] [] [] [] []]. }
    rewrite !split_on_app, !omap_app. simpl. by rewrite app_nil_r.
  - change (b +:+ "/" +:+ r) with (b +:+ String "/" r).
    rewrite components_absolute_app by done. by rewrite omap_pieces_relative.
Qed.

Lemma is_absolute_join b r : is_absolute b = true → is_absolute (path_join b r) = true.
Proof.
  intros Hb. unfold path_join. destruct (is_absolute r) eqn:Hr; [done|].
  destruct b as [|a b]; [done|]. simpl is_empty. simpl.
  destruct (ends_with _ _); by destruct a as [[] [] [] [] [] [] [] []].
Qed.

Lemma plain_not_dot_head n xs : plain_name n = true → split_on "/" n ≠ "." :: xs.
Proof.
  intros (Hs & _ & Hdot & _)%plain_name_spec. rewrite split_on_no_sep by done.
  by intros [= Hn _].
Qed.

Lemma components_join_plain b n :
  is_absolute b = true → plain_name n = true →
  components (path_join b n) = components b ++ [Normal n].
Proof.
  intros Hb Hn. pose proof Hn as (Hs & _)%plain_name_spec.
  rewrite components_join, (components_plain n); try done.
  - by apply not_slash_not_absolute.
  - intros xs. by apply plain_not_dot_head.
Qed.

Lemma file_name_plain n : plain_name n = true → file_name n = Some n.
Proof. intros Hn. unfold file_name. by rewrite components_plain. Qed.

Lemma components_prefix_app xs ys : components_prefix xs (xs ++ ys) = true.
Proof.
  induction xs; [by destruct ys|]. simpl. by rewrite bool_decide_true.
Qed.
Lemma components_prefix_spec xs zs :
  components_prefix xs zs = true ↔ ∃ ys, zs = xs ++ ys.
Proof.
  split; [|intros [ys ->]; apply components_prefix_app].
  revert zs. induction xs as [|x xs IH]; intros [|z zs]; simpl; try naive_solver.
  rewrite andb_true_iff, bool_decide_eq_true. intros [-> (ys & ->)%IH]. by exists ys.
Qed.

(** The last dot of [stem.ext]. *)
Definition no_dot (s : string) : bool := str_forall (λ a, negb (Ascii.eqb "." a)) s.
Lemma rsplit_dot_app stem ext :
  no_dot ext = true → rsplit_dot (stem +:+ String "." ext) = Some (stem, ext).
Proof.
  intros He. unfold rsplit_dot. rewrite str_rev_app, str_rev_cons, str_app_assoc. simpl.
  change (String.rev (String "." "")) with ".".
  change ("." +:+ String.rev stem) with ("." +:+ "" +:+ String.rev stem).
  pose proof (cut_app_not_in "" "." (String.rev ext) (String.rev stem)) as Hc.
  simpl in Hc. rewrite Hc; [by rewrite !str_rev_involutive|].
  unfold no_dot in He. by rewrite str_forall_rev.
Qed.
Lemma rsplit_dot_Some n stem ext :
  rsplit_dot n = Some (stem, ext) → n = stem +:+ String "." ext.
Proof.
  unfold rsplit_dot. destruct (cut "." (String.rev n)) as [[x y]|] eqn:E; [|done].
  intros [= <- <-]. apply cut_Some in E. apply (f_equal String.rev) in E.
  rewrite str_rev_involutive in E. rewrite E, !str_rev_app, str_app_assoc. done.
Qed.

(** ** [Path::parent] and rebuilding a path from components

    The text of [parent] is the canonical one: it names the same [Path]. *)
Definition path_render (cs : list Component) : string :=
  foldl (λ acc c, path_join acc (component_str c)) "" cs.
Definition path_parent (p : string) : option string :=
  match reverse (components p) with
  | (Normal _ | CurDir | ParentDir) :: rest => Some (path_render (reverse rest))
  | _ => None
  end.
(** [path.with_extension(ext)] for a path with a file name. *)
Definition with_extension (p ext : string) : string :=
  match path_parent p, file_stem p with
  | Some parent, Some stem => path_join parent (stem +:+ "." +:+ ext)
  | _, _ => p
  end.

(** The order of [Path]: by components, in the order of the [Component] variants. *)
Definition component_key (c : Component) : string :=
  match c with
  | RootDir => "1" | CurDir => "2" | ParentDir => "3" | Normal n => String "4" n
  end.
Fixpoint keys_leb (xs ys : list string) : bool :=
  match xs, ys with
  | [], _ => true
  | _, [] => false
  | x :: xs, y :: ys => if String.eqb x y then keys_leb xs ys else String.leb x y
  end.
Definition path_le (p q : string) : Prop :=
  keys_leb (component_key <$> components p) (component_key <$> components q) = true.
#[export] Instance path_le_dec : RelDecision path_le.
Proof. intros p q. unfold path_le. apply _. Defined.
(** [BTreeSet<PathBuf>]: paths with the same components are equal. *)
Definition path_set_insert (p : string) (s : list string) : list string :=
  if existsb (λ q, bool_decide (components q = components p)) s then s
  else merge_sort path_le (p :: s).

(** An absolute path of ordinary names. *)
Definition abs_path (names : list string) : string := foldl path_join "/" names.

Lemma abs_path_snoc names n : abs_path (names ++ [n]) = path_join (abs_path names) n.
Proof. unfold abs_path. by rewrite foldl_snoc. Qed.
Lemma abs_path_absolute names : is_absolute (abs_path names) = true.
Proof.
  induction names as [|n names IH] using rev_ind; [done|].
  rewrite abs_path_snoc. by apply is_absolute_join.
Qed.
Lemma abs_path_components names :
  Forall (λ n, plain_name n = true) names →
  components (abs_path names) = RootDir :: (Normal <$> names).
Proof.
  induction names as [|n names IH] using rev_ind; [done|].
  intros [Hn Hlast]%Forall_app. rewrite Forall_singleton in Hlast.
  rewrite abs_path_snoc, components_join_plain by (done || apply abs_path_absolute).
  by rewrite IH, fmap_app.
Qed.
Lemma path_render_abs names : path_render (RootDir :: (Normal <$> names)) = abs_path names.
Proof.
  unfold path_render, abs_path. simpl.
  change (path_join "" "/") with "/". generalize "/". induction names as [|n names IH]; [done|].
  intros s. simpl. apply IH.
Qed.
Lemma path_parent_abs names n :
  Forall (λ n, plain_name n = true) (names ++ [n]) →
  path_parent (abs_path (names ++ [n])) = Some (abs_path names).
Proof.
  intros H. unfold path_parent. rewrite abs_path_components by done.
  rewrite fmap_app, reverse_cons, reverse_app. simpl.
  by rewrite <- reverse_cons, reverse_involutive, path_render_abs.
Qed.
Lemma path_parent_root : path_parent (abs_path []) = None.
Proof. done. Qed.

Lemma components_plain_names p n : Normal n ∈ components p → plain_name n = true.
Proof.
  intros Hn. pose proof (split_on_pieces "/" p) as Hp. rewrite Forall_forall in Hp.
  assert (Normal n ∈ omap piece_component (split_on "/" p)) as Hin.
  { unfold components in Hn. repeat case_match; try exact Hn;
      apply elem_of_cons in Hn as [?|Hn]; done. }
  apply list_elem_of_omap in Hin as (piece & Hpc & Hpiece).
  specialize (Hp _ Hpc). unfold piece_component in Hpiece.
  destruct (String.eqb piece "") eqn:E1; [done|].
  destruct (String.eqb piece ".") eqn:E2; [done|].
  destruct (String.eqb piece "..") eqn:E3; [done|]. injection Hpiece as <-.
  apply plain_name_spec. split; [done|].
  by rewrite <- !String.eqb_neq.
Qed.
