(* ===== verification/Io.v ===== *)
(** * Stateful, fallible code

    Handlers that touch the file system or a mutable record are computations of
    [IO S E A]: they take a [world] (the modelled state [S] and an environment
    [env]) and return the new world and a [result].  The state reached before an
    error is kept, as in the program.

    The environment is an oracle: [faults] decides for each file-system call, in
    order, whether the operating system refuses it (an empty list refuses
    nothing more) and [clock] supplies the readings of the clock.  Theorems
    quantify over it, so they hold for every pattern of I/O errors.  A refused
    call leaves the state unchanged. *)
From S2P Require Import Prelude.

Inductive ErrorKind : Type :=
  NotFound | InvalidInput | AlreadyExists | ExecutableFileBusy | IsADirectory | OtherKind.
#[export] Instance ErrorKind_eq_dec : EqDecision ErrorKind.
Proof. solve_decision. Defined.

(** [std::io::Error]: its kind and its [Display] text. *)
Record io_error := IoError { ioe_kind : ErrorKind; ioe_display : string }.
#[export] Instance io_error_eq_dec : EqDecision io_error.
Proof. solve_decision. Defined.

Definition not_found : io_error := IoError NotFound "No such file or directory (os error 2)".

Record env := Env { faults : list (option io_error); clock : list Z }.
Record world (S : Type) := World { st : S; ev : env }.
Arguments World {S} st ev.
Arguments st {S} w.
Arguments ev {S} w.

Definition IO (S E A : Type) : Type := world S → world S * result E A.

#[export] Instance IO_ret S E : MRet (IO S E) := λ A a w, (w, Ok a).
#[export] Instance IO_bind S E : MBind (IO S E) := λ A B f m w,
  match m w with
  | (w', Ok a) => f a w'
  | (w', Err e) => (w', Err e)
  end.
#[export] Instance IO_fmap S E : FMap (IO S E) := λ A B f m w,
  match m w with
  | (w', Ok a) => (w', Ok (f a))
  | (w', Err e) => (w', Err e)
  end.

Definition throw {S E A} (e : E) : IO S E A := λ w, (w, Err e).
Definition lift {S E A} (r : result E A) : IO S E A := λ w, (w, r).
Definition get {S E} : IO S E S := λ w, (w, Ok (st w)).
Definition put {S E} (s : S) : IO S E () := λ w, (World s (ev w), Ok ()).
Definition modify {S E} (f : S → S) : IO S E () := λ w, (World (f (st w)) (ev w), Ok ()).

(** [match m { Ok(..) => .., Err(..) => .. }] on a stateful computation. *)
Definition attempt {S E F A} (m : IO S E A) : IO S F (result E A) := λ w,
  let '(w', r) := m w in (w', Ok r).
Definition io_map_err {S E F A} (f : E → F) (m : IO S E A) : IO S F A := λ w,
  let '(w', r) := m w in (w', map_err f r).

(** One file-system call. *)
Definition sys {S A} (f : S → S * result io_error A) : IO S io_error A := λ w,
  match faults (ev w) with
  | Some e :: fs => (World (st w) (Env fs (clock (ev w))), Err e)
  | None :: fs => let '(s', r) := f (st w) in (World s' (Env fs (clock (ev w))), r)
  | [] => let '(s', r) := f (st w) in (World s' (ev w), r)
  end.

(** One clock reading (0 when the oracle has none left). *)
Definition read_clock {S E} : IO S E Z := λ w,
  match clock (ev w) with
  | t :: ts => (World (st w) (Env (faults (ev w)) ts), Ok t)
  | [] => (w, Ok 0%Z)
  end.

(** Run a computation on a part of the state. *)
Definition zoom {S T E A} (get_part : S → T) (set_part : T → S → S) (m : IO T E A) :
    IO S E A := λ w,
  let '(w', r) := m (World (get_part (st w)) (ev w)) in
  (World (set_part (st w') (st w)) (ev w'), r).

(** Run a computation on a part of the state that may be missing: Rust's
    [part.get_mut(..).ok_or(missing)?] followed by a use of the reference.  What
    the computation did to the part stays, also when it fails. *)
Definition zoom_opt {S T E A} (get_part : S → option T) (set_part : T → S → S) (missing : E)
    (m : IO T E A) : IO S E A := λ w,
  match get_part (st w) with
  | None => (w, Err missing)
  | Some t =>
      let '(w', r) := m (World t (ev w)) in
      (World (set_part (st w') (st w)) (ev w'), r)
  end.

Fixpoint io_for_each {S E A} (body : A → IO S E ()) (xs : list A) : IO S E () :=
  match xs with
  | [] => mret ()
  | x :: xs => body x ;; io_for_each body xs
  end.

(** A loop whose body also updates local variables. *)
Fixpoint io_for_fold {S E A B} (body : B → A → IO S E B) (xs : list A) (b : B) : IO S E B :=
  match xs with
  | [] => mret b
  | x :: xs => b' ← body b x; io_for_fold body xs b'
  end.

Lemma bind_run {S E A B} (m : IO S E A) (f : A → IO S E B) w :
  (m ≫= f) w = match m w with
               | (w', Ok a) => f a w'
               | (w', Err e) => (w', Err e)
               end.
Proof. done. Qed.

(** ** Weakest preconditions

    [wp h m Φ s]: from state [s], whatever the environment does, [m] ends with a
    result and a state in [Φ].  With [h = true] only environments that refuse no
    call are considered (and [m] must leave it that way). *)
Definition calm (h : bool) (e : env) : Prop := h = true → faults e = [].
Definition wp (h : bool) {S E A} (m : IO S E A) (Φ : result E A → S → Prop) (s : S) : Prop :=
  ∀ e, calm h e → let '(w, r) := m (World s e) in calm h (ev w) ∧ Φ r (st w).

Section wp_rules.
Context (h : bool) {S : Type}.

Lemma wp_mono {E A} (m : IO S E A) (Φ Ψ : result E A → S → Prop) s :
  wp h m Φ s → (∀ r s', Φ r s' → Ψ r s') → wp h m Ψ s.
Proof.
  intros H HΦ e He. specialize (H e He). destruct (m (World s e)). naive_solver.
Qed.
Lemma wp_ret {E A} (a : A) (Φ : result E A → S → Prop) s :
  Φ (Ok a) s → wp h (mret a) Φ s.
Proof. intros H e He. by split. Qed.
Lemma wp_throw {E A} (err : E) (Φ : result E A → S → Prop) s :
  Φ (Err err) s → wp h (throw err) Φ s.
Proof. intros H e He. by split. Qed.
Lemma wp_lift {E A} (r : result E A) (Φ : result E A → S → Prop) s :
  Φ r s → wp h (lift r) Φ s.
Proof. intros H e He. by split. Qed.
Lemma wp_get {E} (Φ : result E S → S → Prop) s : Φ (Ok s) s → wp h get Φ s.
Proof. intros H e He. by split. Qed.
Lemma wp_modify {E} (f : S → S) (Φ : result E () → S → Prop) s :
  Φ (Ok ()) (f s) → wp h (modify f) Φ s.
Proof. intros H e He. by split. Qed.
Lemma wp_bind {E A B} (m : IO S E A) (f : A → IO S E B) (Φ : result E B → S → Prop) s :
  wp h m (λ r s', match r with Ok a => wp h (f a) Φ s' | Err e => Φ (Err e) s' end) s →
  wp h (m ≫= f) Φ s.
Proof.
  intros H e He. specialize (H e He). rewrite bind_run.
  destruct (m (World s e)) as [[s' e'] [a|err]]; destruct H as [He' H]; [|done].
  by apply H.
Qed.
Lemma wp_fmap {E A B} (m : IO S E A) (f : A → B) (Φ : result E B → S → Prop) s :
  wp h m (λ r s', match r with Ok a => Φ (Ok (f a)) s' | Err e => Φ (Err e) s' end) s →
  wp h (f <$> m) Φ s.
Proof.
  intros H e He. specialize (H e He). unfold fmap, IO_fmap.
  destruct (m (World s e)) as [w' [a|err]]; exact H.
Qed.
Lemma wp_attempt {E F A} (m : IO S E A) (Φ : result F (result E A) → S → Prop) s :
  wp h m (λ r, Φ (Ok r)) s → wp h (attempt m) Φ s.
Proof.
  intros H e He. specialize (H e He). unfold attempt. destruct (m (World s e)); exact H.
Qed.
Lemma wp_map_err {E F A} (g : E → F) (m : IO S E A) (Φ : result F A → S → Prop) s :
  wp h m (λ r, Φ (map_err g r)) s → wp h (io_map_err g m) Φ s.
Proof.
  intros H e He. specialize (H e He). unfold io_map_err. destruct (m (World s e)); exact H.
Qed.
Lemma wp_sys {A} (f : S → S * result io_error A) (Φ : result io_error A → S → Prop) s :
  (h = false → ∀ e, Φ (Err e) s) → Φ (f s).2 (f s).1 → wp h (sys f) Φ s.
Proof.
  intros Hfault Hok e He. unfold sys, calm in *. simpl.
  destruct (f s) as [s' r]; simpl in Hok.
  destruct (faults e) as [|[err|] fs] eqn:Ef; simpl; [by rewrite Ef|..].
  all: destruct h; [by specialize (He eq_refl)|]; split; [done|].
  - by apply Hfault.
  - done.
Qed.
Lemma wp_clock {E} (Φ : result E Z → S → Prop) s :
  (∀ t, Φ (Ok t) s) → wp h read_clock Φ s.
Proof.
  intros H e He. unfold read_clock, calm in *. simpl. by destruct (clock e); split.
Qed.
Lemma wp_zoom {T E A} (gp : S → T) (sp : T → S → S) (m : IO T E A)
    (Φ : result E A → S → Prop) s :
  wp h m (λ r t, Φ r (sp t s)) (gp s) → wp h (zoom gp sp m) Φ s.
Proof.
  intros H e He. specialize (H e He). unfold zoom. simpl.
  destruct (m (World (gp s) e)) as [[t e'] r]; exact H.
Qed.
Lemma wp_zoom_opt {T E A} (gp : S → option T) (sp : T → S → S) (missing : E) (m : IO T E A)
    (Φ : result E A → S → Prop) s :
  (gp s = None → Φ (Err missing) s) →
  (∀ t, gp s = Some t → wp h m (λ r t', Φ r (sp t' s)) t) →
  wp h (zoom_opt gp sp missing m) Φ s.
Proof.
  intros Hnone Hsome e He. unfold zoom_opt. simpl. destruct (gp s) as [t|]; [|auto].
  specialize (Hsome t eq_refl e He). destruct (m (World t e)) as [[t' e'] r]; exact Hsome.
Qed.
(** The loop rule: an invariant over the local variables, the rest of the
    loop and the state. *)
Lemma wp_for_fold {E A B} (I : B → list A → S → Prop) (body : B → A → IO S E B) xs b
    (Φ : result E B → S → Prop) s :
  I b xs s →
  (∀ b x xs s, I b (x :: xs) s →
     wp h (body b x) (λ r s', match r with Ok b' => I b' xs s' | Err e => Φ (Err e) s' end) s) →
  (∀ b s, I b [] s → Φ (Ok b) s) →
  wp h (io_for_fold body xs b) Φ s.
Proof.
  intros Hi Hbody Hend. revert b s Hi. induction xs as [|x xs IH]; intros b s Hi; simpl.
  { apply wp_ret. by apply Hend. }
  apply wp_bind. eapply wp_mono; [by apply Hbody|]. intros [b'|e] s' H; [by apply IH|done].
Qed.
Lemma wp_for_each {E A} (I : list A → S → Prop) (body : A → IO S E ()) xs
    (Φ : result E () → S → Prop) s :
  I xs s →
  (∀ x xs s, I (x :: xs) s →
     wp h (body x) (λ r s', match r with Ok _ => I xs s' | Err e => Φ (Err e) s' end) s) →
  (∀ s, I [] s → Φ (Ok ()) s) →
  wp h (io_for_each body xs) Φ s.
Proof.
  intros Hi Hbody Hend. revert s Hi. induction xs as [|x xs IH]; intros s Hi; simpl.
  { apply wp_ret. by apply Hend. }
  apply wp_bind. eapply wp_mono; [by apply Hbody|]. intros [[]|e] s' H; [by apply IH|done].
Qed.
Lemma wp_run {E A} (m : IO S E A) (Φ : result E A → S → Prop) w :
  wp h m Φ (st w) → calm h (ev w) → Φ (m w).2 (st (m w).1).
Proof.
  intros H He. destruct w as [s e]. specialize (H e He). simpl in *.
  by destruct (m (World s e)) as [w' r]; destruct H.
Qed.
End wp_rules.

(** ** Relations every computation step respects

    [evolves R m]: [m] takes any state to an [R]-related one, whatever the
    environment does.  For a preorder [R] this composes. *)
Definition evolves {S E A} (R : S → S → Prop) (m : IO S E A) : Prop :=
  ∀ w, R (st w) (st (m w).1).

Section evolves_rules.
Context {S : Type} (R : S → S → Prop) `{!PreOrder R} {E : Type}.

Lemma evolves_ret {A} (a : A) : evolves R (mret a : IO S E A).
Proof. intros w. simpl. reflexivity. Qed.
Lemma evolves_throw {A} (e : E) : evolves R (throw e : IO S E A).
Proof. intros w. simpl. reflexivity. Qed.
Lemma evolves_lift {A} (r : result E A) : evolves R (lift r : IO S E A).
Proof. intros w. simpl. reflexivity. Qed.
Lemma evolves_get : evolves R (get : IO S E S).
Proof. intros w. simpl. reflexivity. Qed.
Lemma evolves_clock : evolves R (read_clock : IO S E Z).
Proof. intros w. unfold read_clock. destruct (clock (ev w)); simpl; reflexivity. Qed.
Lemma evolves_bind {A B} (m : IO S E A) (f : A → IO S E B) :
  evolves R m → (∀ a, evolves R (f a)) → evolves R (m ≫= f).
Proof.
  intros Hm Hf w. specialize (Hm w). unfold mbind, IO_bind.
  destruct (m w) as [w' [a|e]]; simpl in *; [|done].
  etrans; [exact Hm|apply Hf].
Qed.
Lemma evolves_attempt {F A} (m : IO S E A) :
  evolves R m → evolves R (attempt m : IO S F _).
Proof. intros Hm w. specialize (Hm w). unfold attempt. by destruct (m w). Qed.
Lemma evolves_map_err {F A} (f : E → F) (m : IO S E A) :
  evolves R m → evolves R (io_map_err f m).
Proof. intros Hm w. specialize (Hm w). unfold io_map_err. by destruct (m w). Qed.
Lemma evolves_for_each {A} (body : A → IO S E ()) xs :
  (∀ x, evolves R (body x)) → evolves R (io_for_each body xs).
Proof.
  intros Hb. induction xs as [|x xs IH]; [apply evolves_ret|].
  apply evolves_bind; [done|by intros _].
Qed.
Lemma evolves_modify (f : S → S) :
  (∀ s, R s (f s)) → evolves R (modify f : IO S E ()).
Proof. intros Hf w. apply Hf. Qed.
Lemma evolves_sys {A} (f : S → S * result io_error A) :
  (∀ s, R s (f s).1) → evolves R (sys f).
Proof.
  intros Hf w. specialize (Hf (st w)). unfold sys.
  destruct (faults (ev w)) as [|[e|] fs]; simpl; [|reflexivity|].
  all: by destruct (f (st w)).
Qed.
Lemma evolves_fmap {A B} (m : IO S E A) (f : A → B) : evolves R m → evolves R (f <$> m).
Proof.
  intros Hm w. specialize (Hm w). unfold fmap, IO_fmap. by destruct (m w) as [w' [a|e]].
Qed.
Lemma evolves_for_fold {A B} (body : B → A → IO S E B) xs b :
  (∀ b x, evolves R (body b x)) → evolves R (io_for_fold body xs b).
Proof.
  intros Hb. revert b. induction xs as [|x xs IH]; intros b; [apply evolves_ret|].
  apply evolves_bind; [done|by intros].
Qed.
End evolves_rules.

(** A computation on a part of the state: what it does to the part, or nothing
    when the relation does not see the part. *)
Lemma evolves_zoom {S T E A} (R : S → S → Prop) (Q : T → T → Prop) (gp : S → T)
    (sp : T → S → S) (m : IO T E A) :
  evolves Q m → (∀ s t, Q (gp s) t → R s (sp t s)) → evolves R (zoom gp sp m).
Proof.
  intros Hm HR w. specialize (Hm (World (gp (st w)) (ev w))). unfold zoom.
  destruct (m _) as [w' r]. by apply HR.
Qed.
Lemma evolves_zoom_any {S T E A} (R : S → S → Prop) (gp : S → T) (sp : T → S → S)
    (m : IO T E A) :
  (∀ s t, R s (sp t s)) → evolves R (zoom gp sp m).
Proof. intros HR. by apply (evolves_zoom R (λ _ _, True)). Qed.

#[export] Hint Resolve evolves_ret evolves_throw evolves_lift evolves_get evolves_clock
  evolves_bind evolves_attempt evolves_map_err evolves_for_each evolves_fmap
  evolves_for_fold : direclaw.

(** The structure of a handler, down to the calls it makes. *)
Ltac evolve_steps :=
  repeat first
    [ solve [eauto with direclaw]
    | apply evolves_ret; apply _ | apply evolves_throw; apply _ | apply evolves_lift; apply _
    | apply evolves_clock; apply _
    | apply evolves_attempt | apply evolves_map_err
    | apply evolves_bind; [apply _| |intros ?; cbv beta]
    | match goal with |- evolves _ (match ?x with _ => _ end) => destruct x end
    | match goal with |- evolves _ ((match ?x with _ => _ end) _) => destruct x end; cbv beta ].

(** ** Computations do not bring I/O errors about

    [keeps_calm m]: when the environment refuses nothing before [m], it refuses
    nothing after it. *)
Definition keeps_calm {S E A} (m : IO S E A) : Prop :=
  ∀ w, faults (ev w) = [] → faults (ev (m w).1) = [].
Section calm_rules.
Context {S E : Type}.
Lemma calm_ret {A} (a : A) : keeps_calm (mret a : IO S E A).
Proof. by intros w. Qed.
Lemma calm_throw {A} (e : E) : keeps_calm (throw e : IO S E A).
Proof. by intros w. Qed.
Lemma calm_lift {A} (r : result E A) : keeps_calm (lift r : IO S E A).
Proof. by intros w. Qed.
Lemma calm_clock : keeps_calm (read_clock : IO S E Z).
Proof. intros w Hw. unfold read_clock. by destruct (clock (ev w)). Qed.
Lemma calm_bind {A B} (m : IO S E A) (f : A → IO S E B) :
  keeps_calm m → (∀ a, keeps_calm (f a)) → keeps_calm (m ≫= f).
Proof.
  intros Hm Hf w Hw. specialize (Hm w Hw). rewrite bind_run. destruct (m w) as [w' [a|e]]; [|done].
  by apply Hf.
Qed.
Lemma calm_fmap {A B} (m : IO S E A) (f : A → B) : keeps_calm m → keeps_calm (f <$> m).
Proof.
  intros Hm w Hw. specialize (Hm w Hw). unfold fmap, IO_fmap. by destruct (m w) as [w' [a|e]].
Qed.
Lemma calm_attempt {F A} (m : IO S E A) : keeps_calm m → keeps_calm (attempt m : IO S F _).
Proof. intros Hm w Hw. specialize (Hm w Hw). unfold attempt. by destruct (m w). Qed.
Lemma calm_map_err {F A} (f : E → F) (m : IO S E A) : keeps_calm m → keeps_calm (io_map_err f m).
Proof. intros Hm w Hw. specialize (Hm w Hw). unfold io_map_err. by destruct (m w). Qed.
Lemma calm_sys {A} (f : S → S * result io_error A) : keeps_calm (sys f).
Proof. intros w Hw. unfold sys. rewrite Hw. by destruct (f (st w)). Qed.
Lemma calm_zoom {T A} (gp : S → T) (sp : T → S → S) (m : IO T E A) :
  keeps_calm m → keeps_calm (zoom gp sp m).
Proof.
  intros Hm w Hw. specialize (Hm (World (gp (st w)) (ev w)) Hw). unfold zoom. by destruct (m _).
Qed.
Lemma calm_for_fold {A B} (body : B → A → IO S E B) xs b :
  (∀ b x, keeps_calm (body b x)) → keeps_calm (io_for_fold body xs b).
Proof.
  intros Hb. revert b. induction xs as [|x xs IH]; intros b; [apply calm_ret|].
  by apply calm_bind; [|intros].
Qed.
End calm_rules.
#[export] Hint Resolve calm_ret calm_throw calm_lift calm_clock calm_bind calm_fmap calm_attempt
  calm_map_err calm_sys calm_zoom calm_for_fold : direclaw.
Ltac calm_steps :=
  repeat first
    [ solve [eauto with direclaw]
    | apply calm_bind; [|intros ?; cbv beta] | apply calm_attempt | apply calm_map_err
    | apply calm_fmap | apply calm_zoom | apply calm_for_fold; intros
    | match goal with |- keeps_calm (match ?x with _ => _ end) => destruct x end
    | match goal with |- keeps_calm ((match ?x with _ => _ end) _) => destruct x end; cbv beta ].

(** ** Properties of what a computation returns

    [returns P m]: whenever [m] succeeds, its answer satisfies [P]. *)
Definition returns {S E A} (P : A → Prop) (m : IO S E A) : Prop :=
  ∀ w a, (m w).2 = Ok a → P a.

Section returns_rules.
Context {S E : Type}.
Lemma returns_mono {A} (P Q : A → Prop) (m : IO S E A) :
  returns P m → (∀ a, P a → Q a) → returns Q m.
Proof. intros Hm HPQ w a Ha. by eapply HPQ, Hm. Qed.
Lemma returns_any {A} (m : IO S E A) : returns (λ _, True) m.
Proof. done. Qed.
Lemma returns_ret {A} (P : A → Prop) (a : A) : P a → returns P (mret a : IO S E A).
Proof. by intros Ha w b [= <-]. Qed.
Lemma returns_throw {A} (P : A → Prop) (e : E) : returns P (throw e : IO S E A).
Proof. done. Qed.
Lemma returns_lift {A} (P : A → Prop) (r : result E A) :
  (∀ a, r = Ok a → P a) → returns P (lift r : IO S E A).
Proof. by intros Hr w a Ha%Hr. Qed.
Lemma returns_bind {A B} (Q : A → Prop) (P : B → Prop) (m : IO S E A) (f : A → IO S E B) :
  returns Q m → (∀ a, Q a → returns P (f a)) → returns P (m ≫= f).
Proof.
  intros Hm Hf w b. rewrite bind_run. specialize (Hm w).
  destruct (m w) as [w' [a|e]]; [|done]. apply Hf. by apply Hm.
Qed.
Lemma returns_seq {A B} (P : B → Prop) (m : IO S E A) (f : A → IO S E B) :
  (∀ a, returns P (f a)) → returns P (m ≫= f).
Proof. intros Hf. by apply (returns_bind (λ _, True)). Qed.
Lemma returns_fmap {A B} (P : B → Prop) (m : IO S E A) (f : A → B) :
  returns (λ a, P (f a)) m → returns P (f <$> m).
Proof.
  intros Hm w b. specialize (Hm w). unfold fmap, IO_fmap.
  destruct (m w) as [w' [a|e]]; simpl in *; [intros [= <-]; by apply Hm|done].
Qed.
Lemma returns_for_fold {A B} (I : B → Prop) (body : B → A → IO S E B) xs b :
  (∀ b x, x ∈ xs → I b → returns I (body b x)) → I b → returns I (io_for_fold body xs b).
Proof.
  revert b. induction xs as [|x xs IH]; intros b Hbody Hb; [by apply returns_ret|].
  apply (returns_bind I); [apply Hbody; [left|done]|]. intros b' Hb'. apply IH; [|done].
  intros b2 y Hy. apply Hbody. by right.
Qed.
Lemma returns_zoom {T A} (gp : S → T) (sp : T → S → S) (P : A → Prop) (m : IO T E A) :
  returns P m → returns P (zoom gp sp m).
Proof.
  intros Hm w a. specialize (Hm (World (gp (st w)) (ev w))). unfold zoom.
  destruct (m _) as [w' r]. apply Hm.
Qed.
End returns_rules.

(** Weakest preconditions collect what the other two judgments know. *)
Lemma wp_any {S E A} (m : IO S E A) (Φ : result E A → S → Prop) s :
  (∀ r s', Φ r s') → wp false m Φ s.
Proof. intros H e _. destruct (m (World s e)). split; [done|apply H]. Qed.
Lemma wp_calm {S E A} h (m : IO S E A) (Φ : result E A → S → Prop) s :
  keeps_calm m → (∀ r s', Φ r s') → wp h m Φ s.
Proof.
  intros Hm H e He. specialize (Hm (World s e)). destruct (m (World s e)) as [w r].
  split; [|apply H]. intros Hh. by apply Hm, He.
Qed.
Lemma wp_evolves {S E A} h (R : S → S → Prop) (m : IO S E A) (Φ : result E A → S → Prop) s :
  evolves R m → wp h m (λ r s', R s s' → Φ r s') s → wp h m Φ s.
Proof.
  intros Hm H e He. specialize (H e He). specialize (Hm (World s e)).
  destruct (m (World s e)) as [w r]. destruct H as [? H]. split; [done|]. by apply H.
Qed.
Lemma wp_returns {S E A} h (P : A → Prop) (m : IO S E A) (Φ : result E A → S → Prop) s :
  returns P m → wp h m (λ r s', (∀ a, r = Ok a → P a) → Φ r s') s → wp h m Φ s.
Proof.
  intros Hm H e He. specialize (H e He). specialize (Hm (World s e)).
  destruct (m (World s e)) as [w r]. destruct H as [? H]. split; [done|]. by apply H.
Qed.



(** ** Plain files

    Regular files by path; directories are implicit. *)
Definition disk : Type := gmap string string.
Definition disk_read (path : string) (d : disk) : disk * result io_error string :=
  (d, match d !! path with Some content => Ok content | None => Err not_found end).
Definition disk_write (path content : string) (d : disk) : disk * result io_error () :=
  (<[path := content]> d, Ok ()).
Definition create_dir_all {S} (path : string) (s : S) : S * result io_error () := (s, Ok ()).
Definition disk_is_file (path : string) (d : disk) : bool := bool_decide (is_Some (d !! path)).
Definition disk_exists (path : string) (d : disk) : disk * result io_error () :=
  (d, if disk_is_file path d then Ok () else Err not_found).
Definition disk_rename (from to : string) (d : disk) : disk * result io_error () :=
  match d !! from with
  | Some content => (<[to := content]> (delete from d), Ok ())
  | None => (d, Err not_found)
  end.
Definition disk_remove (path : string) (d : disk) : disk * result io_error () :=
  match d !! path with
  | Some _ => (delete path d, Ok ())
  | None => (d, Err not_found)
  end.
Lemma disk_lookup_insert (d : disk) path content : (<[path := content]> d : disk) !! path = Some content.
Proof. apply lookup_insert_eq. Qed.
(** [path.exists()]: [false] also when the call fails. *)
Definition path_exists {S E} (probe : S → S * result io_error ()) : IO S E bool :=
  is_ok <$> attempt (sys probe).
(** [OpenOptions::new().create_new(true)]. *)
Definition already_exists : io_error := IoError AlreadyExists "File exists (os error 17)".
Definition disk_create_new (path : string) (d : disk) : disk * result io_error () :=
  if disk_is_file path d then (d, Err already_exists) else (<[path := ""]> d, Ok ()).
(** [sync_all]: only its failure can be seen. *)
Definition sync_all {S} (s : S) : S * result io_error () := (s, Ok ()).
