(* ===== verification/Json.v ===== *)
(** * JSON values

    [serde_json::Value] with its default [Map], a [BTreeMap<String, Value>]: an
    association list kept sorted by key bytes.  Numbers keep serde_json's three
    representations; a float is the text serde_json prints for it. *)
From S2P Require Import Prelude RustStr.

Inductive number : Type :=
  | NPosInt (n : Z)   (** a [u64] *)
  | NNegInt (n : Z)   (** a negative [i64] *)
  | NFloat (text : string).

Inductive Value : Type :=
  | VNull
  | VBool (b : bool)
  | VNumber (n : number)
  | VString (s : string)
  | VArray (vs : list Value)
  | VObject (kvs : list (string * Value)).

Abbreviation JMap := (list (string * Value)).

(** ** [serde_json::Map] and [BTreeMap<String, V>] *)
Fixpoint map_get {V} (k : string) (m : list (string * V)) : option V :=
  match m with
  | [] => None
  | (k', v) :: m => if decide (k = k') then Some v else map_get k m
  end.
Definition map_contains_key {V} (k : string) (m : list (string * V)) : bool :=
  match map_get k m with Some _ => true | None => false end.
Definition map_keys {V} (m : list (string * V)) : list string := m.*1.

(** Insertion in key order; an equal key is replaced. *)
Fixpoint map_insert {V} (k : string) (v : V) (m : list (string * V)) : list (string * V) :=
  match m with
  | [] => [(k, v)]
  | (k', v') :: m' =>
      if decide (k = k') then (k, v) :: m'
      else if decide (String.le k k') then (k, v) :: m
      else (k', v') :: map_insert k v m'
  end.
Definition map_remove {V} (k : string) (m : list (string * V)) : list (string * V) :=
  filter (λ kv, kv.1 ≠ k) m.
Definition map_from_iter {V} (kvs : list (string * V)) : list (string * V) :=
  foldl (λ m kv, map_insert kv.1 kv.2 m) [] kvs.

(** ** The [Value] accessors *)
Definition as_object (v : Value) : option JMap :=
  match v with VObject m => Some m | _ => None end.
Definition as_str (v : Value) : option string :=
  match v with VString s => Some s | _ => None end.
Definition as_bool (v : Value) : option bool :=
  match v with VBool b => Some b | _ => None end.
Definition as_i64 (v : Value) : option Z :=
  match v with
  | VNumber (NPosInt n) => if decide (n ≤ i64_max)%Z then Some n else None
  | VNumber (NNegInt n) => Some n
  | _ => None
  end.
Definition as_u64 (v : Value) : option Z :=
  match v with VNumber (NPosInt n) => Some n | _ => None end.
Definition is_string (v : Value) : bool := match v with VString _ => true | _ => false end.
Definition is_boolean (v : Value) : bool := match v with VBool _ => true | _ => false end.
Definition is_object (v : Value) : bool := match v with VObject _ => true | _ => false end.
Definition is_i64 (v : Value) : bool := match as_i64 v with Some _ => true | None => false end.
Definition is_u64 (v : Value) : bool := match as_u64 v with Some _ => true | None => false end.

Lemma map_get_insert_eq {V} k (v : V) m : map_get k (map_insert k v m) = Some v.
Proof.
  induction m as [|[k' v'] m IH]; simpl; [by rewrite decide_True|].
  destruct (decide (k = k')) as [->|Hne]; simpl; [by rewrite decide_True|].
  destruct (decide (String.le k k')); simpl; [by rewrite decide_True|].
  by rewrite decide_False.
Qed.
Lemma map_get_insert_ne {V} k k' (v : V) m :
  k ≠ k' → map_get k (map_insert k' v m) = map_get k m.
Proof.
  intros Hne. induction m as [|[k2 v2] m IH]; simpl; [by rewrite decide_False|].
  destruct (decide (k' = k2)) as [->|]; simpl; [by rewrite !decide_False|].
  destruct (decide (String.le k' k2)); simpl; [by rewrite decide_False|].
  by destruct (decide (k = k2)).
Qed.

Lemma map_get_elem {V} k (v : V) m : map_get k m = Some v → (k, v) ∈ m.
Proof.
  induction m as [|[k' v'] m IH]; simpl; [done|].
  case_decide as Hk; [intros [= ->]; subst; left|intros ?; right; auto].
Qed.
Lemma map_contains_key_elem {V} k (m : list (string * V)) :
  map_contains_key k m = true ↔ k ∈ map_keys m.
Proof.
  unfold map_contains_key, map_keys. induction m as [|[k' v'] m IH]; simpl; [set_solver|].
  rewrite elem_of_cons, <- IH. case_decide; naive_solver.
Qed.
Lemma map_insert_keys {V} k (v : V) m k' :
  k' ∈ map_keys (map_insert k v m) ↔ k' = k ∨ k' ∈ map_keys m.
Proof.
  unfold map_keys. induction m as [|[k2 v2] m IH]; simpl; [set_solver|].
  repeat case_decide; simpl; rewrite ?elem_of_cons; [subst; naive_solver|naive_solver|].
  rewrite IH. naive_solver.
Qed.
Lemma map_insert_elem {V} k (v : V) m k' v' :
  (k', v') ∈ map_insert k v m → (k' = k ∧ v' = v) ∨ (k', v') ∈ m.
Proof.
  induction m as [|[k2 v2] m IH]; simpl; [by intros [= -> ->]%list_elem_of_singleton; left|].
  repeat case_decide; rewrite !elem_of_cons; naive_solver.
Qed.
Lemma map_get_from_iter {V} (l : list (string * V)) k v :
  (∀ k v v', (k, v) ∈ l → (k, v') ∈ l → v = v') →
  map_get k (map_from_iter l) = Some v ↔ (k, v) ∈ l.
Proof.
  unfold map_from_iter. induction l as [|[k2 v2] l IH] using rev_ind; [set_solver|].
  intros Hf. rewrite foldl_snoc. simpl. rewrite elem_of_app, list_elem_of_singleton.
  assert (∀ k v v', (k, v) ∈ l → (k, v') ∈ l → v = v') as Hf' by set_solver.
  destruct (decide (k = k2)) as [->|Hne].
  - rewrite map_get_insert_eq. split; [intros [= ->]; by right|].
    intros Hin. f_equal. apply (Hf k2); set_solver.
  - rewrite map_get_insert_ne by done. rewrite IH by done. naive_solver.
Qed.

(** Strictly sorted keys: what a [BTreeMap] always has. *)
Definition map_sorted {V} (m : list (string * V)) : Prop :=
  StronglySorted (λ a b, String.le a b ∧ a ≠ b) (map_keys m).

Lemma map_get_keys {V} k (m : list (string * V)) : is_Some (map_get k m) ↔ k ∈ map_keys m.
Proof.
  rewrite <- map_contains_key_elem. unfold map_contains_key.
  destruct (map_get k m) as [v|]; split; [done|by exists v|by intros []|done].
Qed.
Lemma map_insert_sorted {V} k (v : V) m : map_sorted m → map_sorted (map_insert k v m).
Proof.
  unfold map_sorted. induction m as [|[k' v'] m IH]; simpl; intros Hs; [repeat constructor|].
  apply StronglySorted_cons in Hs as [Hk Hs].
  case_decide as Heq; [subst; by apply StronglySorted_cons|].
  case_decide as Hle; simpl; apply StronglySorted_cons.
  - split; [|by apply StronglySorted_cons]. apply Forall_cons. split; [done|].
    eapply Forall_impl; [exact Hk|]. intros x [Hx Hne]. split; [by etrans|].
    intros ->. apply Heq. by apply (anti_symm String.le).
  - split; [|by apply IH]. apply Forall_forall. intros x Hx.
    apply map_insert_keys in Hx as [->|Hx].
    + split; [|done]. by destruct (total String.le k k').
    + rewrite Forall_forall in Hk. by apply Hk.
Qed.
Lemma map_remove_keys {V} k (m : list (string * V)) k' :
  k' ∈ map_keys (map_remove k m) ↔ k' ≠ k ∧ k' ∈ map_keys m.
Proof.
  unfold map_keys, map_remove. rewrite !list_elem_of_fmap. setoid_rewrite list_elem_of_filter.
  naive_solver.
Qed.
Lemma map_remove_sorted {V} k (m : list (string * V)) : map_sorted m → map_sorted (map_remove k m).
Proof.
  unfold map_sorted, map_remove, map_keys. induction m as [|[k' v'] m IH]; simpl; [done|].
  intros [Hk Hs]%StronglySorted_cons. rewrite filter_cons.
  case_decide; simpl; [|by apply IH]. apply StronglySorted_cons. split; [|by apply IH].
  rewrite Forall_forall in *. intros x Hx. apply Hk.
  apply (map_remove_keys k m x) in Hx. apply Hx.
Qed.
Lemma map_get_remove_ne {V} k k' (m : list (string * V)) :
  k ≠ k' → map_get k (map_remove k' m) = map_get k m.
Proof.
  intros Hne. unfold map_remove. induction m as [|[k2 v2] m IH]; simpl; [done|].
  rewrite filter_cons. case_decide as H2; simpl in *; rewrite IH; [done|].
  rewrite decide_False by naive_solver. done.
Qed.
Lemma map_sorted_NoDup {V} (m : list (string * V)) : map_sorted m → NoDup (map_keys m).
Proof.
  unfold map_sorted. induction (map_keys m) as [|k l IH]; [constructor|].
  intros [Hk Hs]%StronglySorted_cons. constructor; [|by apply IH].
  rewrite Forall_forall in Hk. intros Hin. by destruct (Hk k Hin).
Qed.
Lemma map_sorted_get {V} k (v : V) m : map_sorted m → (k, v) ∈ m → map_get k m = Some v.
Proof.
  intros Hs%map_sorted_NoDup Hin. destruct (map_get k m) as [v'|] eqn:E.
  - apply map_get_elem in E. f_equal. by apply (NoDup_map_inj fst m (k, v') (k, v)) in Hs as [= ->].
  - exfalso. assert (is_Some (map_get k m)) as [? ?]; [|congruence].
    apply map_get_keys. unfold map_keys. apply list_elem_of_fmap. by exists (k, v).
Qed.
Lemma map_from_iter_sorted {V} (l : list (string * V)) : map_sorted (map_from_iter l).
Proof.
  unfold map_from_iter. induction l as [|kv l IH] using rev_ind; [constructor|].
  rewrite foldl_snoc. by apply map_insert_sorted.
Qed.
