(* ===== verification/QueueMessage.v ===== *)
(** * Queue messages and file names

    [src/src/queue/message.rs] and [src/src/queue/paths.rs]. *)
From S2P Require Import Prelude RustStr RustPath Json.
From Stdlib Require Import Ascii.

Local Open Scope string_scope.

Record IncomingMessage := {
  im_channel : string;
  im_channel_profile_id : option string;
  im_sender : string;
  im_sender_id : string;
  im_message : string;
  im_timestamp : Z;
  im_message_id : string;
  im_conversation_id : option string;
  im_is_direct : bool;
  im_is_thread_reply : bool;
  im_is_mentioned : bool;
  im_files : list string;
  im_workflow_run_id : option string;
  im_workflow_step_id : option string;
}.

Record OutgoingMessage := {
  om_channel : string;
  om_channel_profile_id : option string;
  om_sender : string;
  om_message : string;
  om_original_message : string;
  om_timestamp : Z;
  om_message_id : string;
  om_agent : string;
  om_conversation_id : option string;
  om_target_ref : option Value;
  om_files : list string;
  om_workflow_run_id : option string;
  om_workflow_step_id : option string;
}.

(** ** [QueuePaths] *)
Record QueuePaths := {
  qp_root : string;
  qp_incoming : string;
  qp_processing : string;
  qp_outgoing : string;
  qp_failed : string;
}.

Definition from_state_root (state_root : string) : QueuePaths := {|
  qp_root := state_root;
  qp_incoming := path_join state_root "queue/incoming";
  qp_processing := path_join state_root "queue/processing";
  qp_outgoing := path_join state_root "queue/outgoing";
  qp_failed := path_join state_root "queue/failed";
|}.

(** ** File names *)
Definition filename_char (c : ascii) : bool :=
  is_ascii_alphanumeric c || Ascii.eqb c "-" || Ascii.eqb c "_" || Ascii.eqb c ".".

Definition sanitize_filename_component (raw : string) : string :=
  map_chars_else filename_char "_" raw.

Definition outgoing_filename (channel message_id : string) (timestamp : Z) : string :=
  if String.eqb channel "heartbeat" then
    sanitize_filename_component message_id +:+ ".json"
  else
    sanitize_filename_component channel +:+ "_" +:+
    sanitize_filename_component message_id +:+ "_" +:+ fmt_int timestamp +:+ ".json".

Definition is_valid_queue_json_filename (filename : string) : bool :=
  if decide (extension filename = Some "json") then
    match file_stem filename with
    | Some stem => negb (is_empty (trim stem))
    | None => false
    end
  else false.

(** ** Facts about file names *)
Lemma filename_char_not_slash c : filename_char c = true → not_slash c = true.
Proof.
  destruct c as [[] [] [] [] [] [] [] []]; done.
Qed.

Lemma map_chars_else_forall p r s :
  p r = true → str_forall p (map_chars_else p r s) = true.
Proof.
  intros Hr. induction s as [|a s IH]; simpl; [done|].
  destruct (is_continuation a); [done|]. simpl. rewrite IH.
  destruct (p a) eqn:E; by rewrite ?E, ?Hr.
Qed.

Lemma sanitize_filename_component_chars raw :
  str_forall filename_char (sanitize_filename_component raw) = true.
Proof. by apply map_chars_else_forall. Qed.

Lemma fmt_int_filename_chars n : str_forall filename_char (fmt_int n) = true.
Proof.
  assert (∀ m, (0 ≤ m)%Z → str_forall filename_char (fmt_int m) = true) as Hpos.
  { intros m Hm. eapply str_forall_impl; [|by apply fmt_int_digits].
    intros a Ha. unfold filename_char, is_ascii_alphanumeric. by rewrite Ha. }
  destruct (decide (0 ≤ n)%Z) as [Hn|Hn]; [by apply Hpos|].
  destruct n as [|p|p]; [lia..|].
  change (fmt_int (Z.neg p)) with (String "-" (fmt_int (Z.pos p))).
  cbn [str_forall]. by rewrite Hpos.
Qed.

(** [outgoing_filename] never contains a path separator. *)
Lemma outgoing_filename_chars channel message_id timestamp :
  str_forall filename_char (outgoing_filename channel message_id timestamp) = true.
Proof.
  unfold outgoing_filename. destruct (String.eqb channel "heartbeat");
    rewrite !str_forall_app, ?sanitize_filename_component_chars,
      ?fmt_int_filename_chars; done.
Qed.
