(* ===== verification/QueueScheduler.v ===== *)
(** * Per-key queue scheduling

    [src/src/queue/scheduler.rs]: the ordering key of a message and the
    [PerKeyScheduler] that lets messages of different keys run concurrently and
    keeps the messages of one key strictly sequential. *)
From S2P Require Import Prelude RustStr QueueMessage.

Inductive OrderingKey : Type :=
  | WorkflowRun (run_id : string)
  | Conversation (channel channel_profile_id conversation_id : string)
  | Message (message_id : string).

#[export] Instance OrderingKey_eq_dec : EqDecision OrderingKey.
Proof. solve_decision. Defined.
#[export] Instance OrderingKey_countable : Countable OrderingKey.
Proof.
  apply (inj_countable'
    (λ k, match k with
          | WorkflowRun r => inl r
          | Conversation c p v => inr (inl (c, p, v))
          | Message m => inr (inr m)
          end)
    (λ e, match e with
          | inl r => WorkflowRun r
          | inr (inl (c, p, v)) => Conversation c p v
          | inr (inr m) => Message m
          end)).
  by intros [].
Defined.

(** [.as_ref().filter(|s| !s.trim().is_empty())] *)
Definition non_blank (o : option string) : option string :=
  match o with
  | Some s => if is_empty (trim s) then None else Some s
  | None => None
  end.

Definition derive_ordering_key (payload : IncomingMessage) : OrderingKey :=
  match non_blank (im_workflow_run_id payload) with
  | Some workflow_run_id => WorkflowRun workflow_run_id
  | None =>
      match non_blank (im_channel_profile_id payload),
            non_blank (im_conversation_id payload) with
      | Some channel_profile_id, Some conversation_id =>
          Conversation (im_channel payload) channel_profile_id conversation_id
      | _, _ => Message (im_message_id payload)
      end
  end.

Record Scheduled (T : Type) := { key : OrderingKey; value : T }.
Arguments key {T} _.
Arguments value {T} _.
Arguments Build_Scheduled {T} key value.

Record PerKeyScheduler (T : Type) := {
  pending : list (Scheduled T);
  active_keys : gset OrderingKey;
}.
Arguments pending {T} _.
Arguments active_keys {T} _.
Arguments Build_PerKeyScheduler {T} pending active_keys.

Section scheduler.
Context {T : Type}.
Implicit Types (s : PerKeyScheduler T) (k : OrderingKey).

Definition default : PerKeyScheduler T := Build_PerKeyScheduler [] ∅.

Definition enqueue s k (v : T) : PerKeyScheduler T :=
  Build_PerKeyScheduler (pending s ++ [Build_Scheduled k v]) (active_keys s).

(** The [while let Some(item) = self.pending.pop_front()] loop: its variables
    are [selected], [selected_keys], [remaining] and [self.active_keys]. *)
Fixpoint dequeue_loop (max_items : nat) (pend selected : list (Scheduled T))
    (selected_keys : gset OrderingKey) (remaining : list (Scheduled T))
    (active : gset OrderingKey) :
    list (Scheduled T) * list (Scheduled T) * gset OrderingKey :=
  match pend with
  | [] => (selected, remaining, active)
  | item :: pend =>
      let key_busy :=
        bool_decide (key item ∈ active) || bool_decide (key item ∈ selected_keys) in
      if negb key_busy && (length selected <? max_items)%nat then
        dequeue_loop max_items pend (selected ++ [item])
          ({[key item]} ∪ selected_keys) remaining ({[key item]} ∪ active)
      else
        dequeue_loop max_items pend selected selected_keys (remaining ++ [item]) active
  end.

Definition dequeue_runnable s (max_items : nat) :
    PerKeyScheduler T * list (Scheduled T) :=
  if (max_items =? 0)%nat || bool_decide (pending s = []) then (s, [])
  else
    let '(selected, remaining, active) :=
      dequeue_loop max_items (pending s) [] ∅ [] (active_keys s) in
    (Build_PerKeyScheduler remaining active, selected).

Definition complete s k : PerKeyScheduler T :=
  Build_PerKeyScheduler (pending s) (active_keys s ∖ {[k]}).

Definition pending_len s : nat := length (pending s).
Definition active_len s : nat := size (active_keys s).

Definition drain_pending s : PerKeyScheduler T * list (Scheduled T) :=
  (Build_PerKeyScheduler [] (active_keys s), pending s).

(** ** Behaviour of one [dequeue_runnable] *)
Definition of_key k (l : list (Scheduled T)) : list (Scheduled T) :=
  filter (λ i, key i = k) l.

(** What the loop has done after consuming a prefix [done] of the pending
    items, [active0] being the keys active before it. *)
Record loop_inv (n : nat) (active0 : gset OrderingKey) (done selected : list (Scheduled T))
    (selected_keys : gset OrderingKey) (remaining : list (Scheduled T))
    (active : gset OrderingKey) : Prop := {
  li_perm : done ≡ₚ selected ++ remaining;
  li_fifo : ∀ k, of_key k done = of_key k selected ++ of_key k remaining;
  li_bound : (length selected ≤ n)%nat;
  li_nodup : NoDup (key <$> selected);
  li_idle : ∀ i, i ∈ selected → key i ∉ active0;
  li_keys : selected_keys = list_to_set (key <$> selected);
  li_active : active = active0 ∪ list_to_set (key <$> selected);
  li_blocked : ∀ i, i ∈ remaining → key i ∈ active ∨ length selected = n;
}.

Lemma of_key_app k l1 l2 : of_key k (l1 ++ l2) = of_key k l1 ++ of_key k l2.
Proof. apply filter_app. Qed.
Lemma of_key_cons_ne k i : key i ≠ k → of_key k [i] = [].
Proof. intros H. unfold of_key. by rewrite filter_cons_False. Qed.
Lemma of_key_nil_iff k l : k ∉ (key <$> l) → of_key k l = [].
Proof.
  intros Hk. induction l as [|i l IH]; [done|]. simpl in Hk.
  apply not_elem_of_cons in Hk as [Hi Hl]. unfold of_key.
  rewrite filter_cons_False by congruence. by apply IH.
Qed.

(** A key with an item left behind is busy or the batch is full; so once an
    item of key [k] is left behind, no later item of [k] is selected. *)
Lemma loop_inv_step n a0 done sel sk rem act item :
  loop_inv n a0 done sel sk rem act →
  let busy := bool_decide (key item ∈ act) || bool_decide (key item ∈ sk) in
  if negb busy && (length sel <? n)%nat
  then loop_inv n a0 (done ++ [item]) (sel ++ [item]) ({[key item]} ∪ sk) rem
         ({[key item]} ∪ act)
  else loop_inv n a0 (done ++ [item]) sel sk (rem ++ [item]) act.
Proof.
  intros [Hp Hf Hb Hn Hi Hk Ha Hbl]. simpl.
  destruct (negb _ && _) eqn:Hcond.
  - apply andb_true_iff in Hcond as [Hbusy Hlen].
    apply Nat.ltb_lt in Hlen. apply negb_true_iff, orb_false_iff in Hbusy as [H1 H2].
    apply bool_decide_eq_false in H1, H2.
    assert (of_key (key item) rem = []) as Hrem.
    { apply of_key_nil_iff. intros (i & Hki & Hir)%list_elem_of_fmap.
      destruct (Hbl i Hir) as [Hact|]; [|lia]. by rewrite <- Hki in Hact. }
    split.
    + rewrite Hp. solve_Permutation.
    + intros k. rewrite !of_key_app, Hf.
      destruct (decide (key item = k)) as [<-|Hne].
      * by rewrite Hrem, !app_nil_r.
      * by rewrite of_key_cons_ne, !app_nil_r.
    + rewrite length_app. simpl. lia.
    + rewrite fmap_app. apply NoDup_app. split; [done|]. split.
      * intros x Hx. simpl. rewrite list_elem_of_singleton. intros ->.
        apply H1. rewrite Ha. set_solver.
      * apply NoDup_singleton.
    + intros i. rewrite elem_of_app, list_elem_of_singleton. intros [?| ->]; [auto|].
      rewrite Ha in H1. set_solver.
    + rewrite Hk, fmap_app, list_to_set_app_L. simpl. set_solver.
    + rewrite Ha, fmap_app, list_to_set_app_L. simpl. set_solver.
    + intros i Hir. left. destruct (Hbl i Hir); [set_solver|lia].
  - split.
    + rewrite Hp. solve_Permutation.
    + intros k. by rewrite !of_key_app, Hf, app_assoc.
    + done.
    + done.
    + done.
    + done.
    + done.
    + intros i. rewrite elem_of_app, list_elem_of_singleton. intros [?| ->]; [auto|].
      apply andb_false_iff in Hcond as [Hc|Hc].
      * apply negb_false_iff, orb_true_iff in Hc. left.
        destruct Hc as [Hc|Hc]; apply bool_decide_eq_true in Hc; [done|].
        rewrite Ha. rewrite Hk in Hc. set_solver.
      * apply Nat.ltb_ge in Hc. right. lia.
Qed.

Lemma dequeue_loop_inv n a0 todo : ∀ done sel sk rem act,
  loop_inv n a0 done sel sk rem act →
  let '(sel', rem', act') := dequeue_loop n todo sel sk rem act in
  ∃ sk', loop_inv n a0 (done ++ todo) sel' sk' rem' act'.
Proof.
  induction todo as [|item todo IH]; intros done sel sk rem act Hinv; simpl.
  { exists sk. by rewrite app_nil_r. }
  pose proof (loop_inv_step _ _ _ _ _ _ _ item Hinv) as Hstep. simpl in Hstep.
  destruct (negb _ && _); specialize (IH _ _ _ _ _ Hstep);
    rewrite <- app_assoc in IH; exact IH.
Qed.

(** Everything a batch guarantees, in one lemma. *)
Lemma dequeue_runnable_inv s n s' batch :
  dequeue_runnable s n = (s', batch) →
  (0 < n → ∃ sk, loop_inv n (active_keys s) (pending s) batch sk (pending s') (active_keys s'))
  ∧ (n = 0 → s' = s ∧ batch = []).
Proof.
  unfold dequeue_runnable. destruct n as [|n].
  { simpl. intros [= <- <-]. split; [lia|done]. }
  destruct (bool_decide (pending s = [])) eqn:Hp; simpl.
  - apply bool_decide_eq_true in Hp. intros [= <- <-]. split; [|lia].
    intros _. exists ∅. rewrite Hp. split; try done; try set_solver; [simpl; lia|].
    apply NoDup_nil_2.
  - pose proof (dequeue_loop_inv (S n) (active_keys s) (pending s) [] [] ∅ []
      (active_keys s)) as H.
    destruct (dequeue_loop _ _ _ _ _ _) as [[sel rem] act].
    intros [= <- <-]. split; [|lia]. intros _. apply H.
    split; try done; try set_solver; [simpl; lia|]. apply NoDup_nil_2.
Qed.
End scheduler.

(** ** Histories

    A run of the scheduler: the queue worker enqueues claimed messages, asks for
    batches and reports completions in any order. *)
Section traces.
Context {T : Type}.
Implicit Types (s : PerKeyScheduler T) (k : OrderingKey).

Inductive sched_op : Type :=
  | OpEnqueue (k : OrderingKey) (v : T)
  | OpDequeue (max_items : nat)
  | OpComplete (k : OrderingKey).

Inductive event : Type :=
  | Dispatched (i : Scheduled T)
  | Completed (k : OrderingKey).

Definition run_op s (o : sched_op) : PerKeyScheduler T * list event :=
  match o with
  | OpEnqueue k v => (enqueue s k v, [])
  | OpDequeue n => let '(s', batch) := dequeue_runnable s n in (s', Dispatched <$> batch)
  | OpComplete k => (complete s k, [Completed k])
  end.

Fixpoint run_ops s (ops : list sched_op) : PerKeyScheduler T * list event :=
  match ops with
  | [] => (s, [])
  | o :: ops =>
      let '(s1, e1) := run_op s o in
      let '(s2, e2) := run_ops s1 ops in (s2, e1 ++ e2)
  end.

Definition enqueued (ops : list sched_op) : list (Scheduled T) :=
  omap (λ o, match o with OpEnqueue k v => Some (Build_Scheduled k v) | _ => None end) ops.
Definition dispatched (evs : list event) : list (Scheduled T) :=
  omap (λ e, match e with Dispatched i => Some i | Completed _ => None end) evs.

(** A history is sequential when a key is dispatched only while it is not
    running; [busy] are the keys running before it. *)
Fixpoint sequential (busy : gset OrderingKey) (evs : list event) : Prop :=
  match evs with
  | [] => True
  | Dispatched i :: evs => key i ∉ busy ∧ sequential ({[key i]} ∪ busy) evs
  | Completed k :: evs => sequential (busy ∖ {[k]}) evs
  end.

Lemma dispatched_fmap (l : list (Scheduled T)) : dispatched (Dispatched <$> l) = l.
Proof. induction l as [|i l IH]; [done|]. cbn. f_equal. exact IH. Qed.
Lemma dispatched_app e1 e2 : dispatched (e1 ++ e2) = dispatched e1 ++ dispatched e2.
Proof. apply omap_app. Qed.

Lemma sequential_batch busy (batch : list (Scheduled T)) evs :
  NoDup (key <$> batch) → (∀ i, i ∈ batch → key i ∉ busy) →
  sequential (busy ∪ list_to_set (key <$> batch)) evs →
  sequential busy ((Dispatched <$> batch) ++ evs).
Proof.
  revert busy. induction batch as [|i batch IH]; intros busy Hn Hb Hs; simpl in *.
  { by rewrite union_empty_r_L in Hs. }
  apply NoDup_cons in Hn as [Hi Hn]. split; [set_solver|]. apply IH; [done|..].
  - intros j Hj. apply not_elem_of_union. split; [|set_solver].
    rewrite not_elem_of_singleton. intros Hij. apply Hi. rewrite <- Hij.
    by apply list_elem_of_fmap_2.
  - replace ({[key i]} ∪ busy ∪ list_to_set (key <$> batch))
      with (busy ∪ ({[key i]} ∪ list_to_set (key <$> batch))) by set_solver.
    done.
Qed.

Lemma run_op_fifo s o k :
  let '(s', evs) := run_op s o in
  of_key k (pending s) ++ of_key k (enqueued [o])
  = of_key k (dispatched evs) ++ of_key k (pending s').
Proof.
  destruct o as [k' v|n|k']; simpl.
  - by rewrite of_key_app.
  - destruct (dequeue_runnable s n) as [s' batch] eqn:E.
    rewrite dispatched_fmap, app_nil_r.
    destruct (dequeue_runnable_inv _ _ _ _ E) as [Hpos Hz].
    destruct n as [|n]; [by destruct Hz as [-> ->]|].
    destruct Hpos as [sk Hinv]; [lia|]. apply Hinv.
  - by rewrite app_nil_r.
Qed.

Lemma run_ops_fifo ops s k :
  of_key k (pending s) ++ of_key k (enqueued ops)
  = of_key k (dispatched (run_ops s ops).2) ++ of_key k (pending (run_ops s ops).1).
Proof.
  revert s. induction ops as [|o ops IH]; intros s; cbn [run_ops];
    [by rewrite app_nil_r|].
  assert (enqueued (o :: ops) = enqueued [o] ++ enqueued ops) as -> by (by destruct o).
  pose proof (run_op_fifo s o k) as Ho.
  destruct (run_op s o) as [s1 e1]. specialize (IH s1).
  destruct (run_ops s1 ops) as [s2 e2]. cbn [fst snd] in *.
  rewrite of_key_app, app_assoc, Ho, <- app_assoc, IH, dispatched_app, of_key_app.
  by rewrite app_assoc.
Qed.

Lemma run_ops_sequential ops s : sequential (active_keys s) (run_ops s ops).2.
Proof.
  revert s. induction ops as [|o ops IH]; intros s; simpl; [done|].
  destruct o as [k v|n|k]; simpl.
  - specialize (IH (enqueue s k v)). by destruct (run_ops _ ops).
  - destruct (dequeue_runnable s n) as [s' batch] eqn:E.
    specialize (IH s'). destruct (run_ops s' ops) as [s2 e2]. simpl in *.
    destruct (dequeue_runnable_inv _ _ _ _ E) as [Hpos Hz].
    destruct n as [|n]; [by destruct Hz as [-> ->]|].
    destruct Hpos as [sk [? ? ? Hn Hi ? Ha ?]]; [lia|].
    apply sequential_batch; [done..|]. by rewrite <- Ha.
  - specialize (IH (complete s k)). by destruct (run_ops _ ops).
Qed.

(** C19: First-in first-out per ordering key, with nothing lost or duplicated:
    over any history of enqueues, batches and completions, the messages of a
    key that have been dispatched, followed by those still pending, are
    exactly the messages enqueued for that key, in order. *)
Theorem per_key_fifo_exactly_once (ops : list sched_op) (k : OrderingKey) :
  let '(s, history) := run_ops default ops in
  of_key k (enqueued ops) = of_key k (dispatched history) ++ of_key k (pending s).
Proof.
  pose proof (run_ops_fifo ops default k) as H.
  destruct (run_ops default ops) as [s h]. exact H.
Qed.

(** Strict sequential processing per key: in any history a key is never
    dispatched while an earlier message of that key has not completed. *)
Theorem never_two_running_per_key (ops : list sched_op) :
  sequential ∅ (run_ops default ops).2.
Proof. apply (run_ops_sequential ops default). Qed.

(** A batch is bounded and work-conserving: it has at most [max_items]
    items, together with the new pending list it is a permutation of the old
    one, and an item is left behind only if its key is running or the batch
    is full, so independent keys never block each other. *)
Theorem dequeue_runnable_work_conserving (s : PerKeyScheduler T) (max_items : nat) :
  let '(s', batch) := dequeue_runnable s max_items in
  length batch ≤ max_items
  ∧ pending s ≡ₚ batch ++ pending s'
  ∧ (∀ i, i ∈ pending s' → key i ∈ active_keys s' ∨ length batch = max_items)
  ∧ active_keys s' = active_keys s ∪ list_to_set (key <$> batch).
Proof.
  destruct (dequeue_runnable s max_items) as [s' batch] eqn:E.
  destruct (dequeue_runnable_inv _ _ _ _ E) as [Hpos Hz].
  destruct max_items as [|n].
  - destruct Hz as [-> ->]; [done|]. set_solver by lia.
  - destruct Hpos as [sk []]; [lia|]. done.
Qed.
End traces.
