(* ===== verification/FileTags.v ===== *)
(** * File tags and outbound text

    [src/src/queue/file_tags.rs] and [src/src/queue/outbound.rs]: the
    [[file: ..]] tags of inbound messages, the [[send_file: ..]] tags and the
    length limit of outbound ones.  [is_file] stands for
    [fs::metadata(path)?.is_file()]. *)
From S2P Require Import Prelude RustStr RustPath QueueMessage.
From Stdlib Require Import Ascii.

Local Open Scope string_scope.
Local Open Scope list_scope.

Definition OUTBOUND_MAX_CHARS : nat := 4000.
Definition OUTBOUND_TRUNCATE_KEEP_CHARS : nat := 3900.
Definition newline : string := String "010" "".
Definition OUTBOUND_TRUNCATION_SUFFIX : string :=
  newline +:+ newline +:+ "[Response truncated...]".

Definition is_absolute_path (path : string) : bool := is_absolute path.
Definition is_absolute_readable_file (is_file : string → bool) (path : string) : bool :=
  if is_absolute_path path then is_file path else false.

(** ** Inbound tags: the [cursor] of the loop is the rest of the message. *)
Fixpoint extract_absolute_tags_loop (fuel : nat) (prefix message : string) : list string :=
  match fuel with
  | O => []
  | S fuel =>
      match cut prefix message with
      | None => []
      | Some (_, rest) =>
          match cut "]" rest with
          | None => []
          | Some (body, rest') =>
              let candidate := trim body in
              (if is_absolute_path candidate then [candidate] else [])
              ++ extract_absolute_tags_loop fuel prefix rest'
          end
      end
  end.
Definition extract_absolute_tags (message prefix : string) : list string :=
  extract_absolute_tags_loop (S (String.length message)) prefix message.
Definition extract_inbound_file_tags (message : string) : list string :=
  extract_absolute_tags message "[file:".

Definition append_inbound_file_tags (message : string) (files : list string) : string :=
  let tags :=
    (λ path, "[file: " +:+ path +:+ "]") <$> filter (λ p, is_absolute_path p = true) files in
  if decide (tags = []) then message
  else if is_empty message then join newline tags
  else message +:+ newline +:+ join newline tags.

(** [for path in xs { if keep(path) && seen.insert(path) { out.push(path) } }] *)
Fixpoint push_unseen (keep : string → bool) (xs out : list string) : list string :=
  match xs with
  | [] => out
  | x :: xs =>
      push_unseen keep xs (if keep x && bool_decide (x ∉ out) then out ++ [x] else out)
  end.

Definition with_message_files (p : IncomingMessage) (message : string) (files : list string) :
    IncomingMessage := {|
  im_channel := im_channel p;
  im_channel_profile_id := im_channel_profile_id p;
  im_sender := im_sender p;
  im_sender_id := im_sender_id p;
  im_message := message;
  im_timestamp := im_timestamp p;
  im_message_id := im_message_id p;
  im_conversation_id := im_conversation_id p;
  im_is_direct := im_is_direct p;
  im_is_thread_reply := im_is_thread_reply p;
  im_is_mentioned := im_is_mentioned p;
  im_files := files;
  im_workflow_run_id := im_workflow_run_id p;
  im_workflow_step_id := im_workflow_step_id p;
|}.

Definition normalize_inbound_payload (payload : IncomingMessage) : IncomingMessage :=
  let message_tags := extract_inbound_file_tags (im_message payload) in
  let merged :=
    push_unseen (λ _, true) message_tags
      (push_unseen is_absolute_path (im_files payload) []) in
  let missing := filter (λ path, path ∉ message_tags) merged in
  with_message_files payload (append_inbound_file_tags (im_message payload) missing) merged.

(** ** Outbound content *)
Record OutboundContent := {
  oc_message : string;
  oc_files : list string;
  oc_omitted_files : list string;
}.

(** The loop of [strip_send_file_tags]: [(output, files, omitted_files)]. *)
Fixpoint strip_send_file_tags_loop (is_file : string → bool) (fuel : nat) (message : string) :
    string * list string * list string :=
  match fuel with
  | O => (message, [], [])
  | S fuel =>
      match cut "[send_file:" message with
      | None => (message, [], [])
      | Some (before, content) =>
          match cut "]" content with
          | None => (message, [], [])
          | Some (body, rest) =>
              let candidate := trim body in
              let '(output, files, omitted) :=
                strip_send_file_tags_loop is_file fuel rest in
              if is_empty candidate then (before +:+ output, files, omitted)
              else if is_absolute_readable_file is_file candidate
              then (before +:+ output, candidate :: files, omitted)
              else (before +:+ output, files, candidate :: omitted)
          end
      end
  end.
Definition strip_send_file_tags (is_file : string → bool) (message : string) :
    string * list string * list string :=
  strip_send_file_tags_loop is_file (S (String.length message)) message.

Definition truncate_outbound_text (message : string) : string :=
  if (chars_count message <=? OUTBOUND_MAX_CHARS)%nat then message
  else chars_take OUTBOUND_TRUNCATE_KEEP_CHARS message +:+ OUTBOUND_TRUNCATION_SUFFIX.

Definition prepare_outbound_content (is_file : string → bool) (raw_message : string) :
    OutboundContent :=
  let '(stripped, referenced_files, omitted_files) :=
    strip_send_file_tags is_file raw_message in
  {| oc_message := truncate_outbound_text stripped;
     oc_files := referenced_files;
     oc_omitted_files := omitted_files |}.

Definition with_outgoing_message_files (o : OutgoingMessage) (message : string)
    (files : list string) : OutgoingMessage := {|
  om_channel := om_channel o;
  om_channel_profile_id := om_channel_profile_id o;
  om_sender := om_sender o;
  om_message := message;
  om_original_message := om_original_message o;
  om_timestamp := om_timestamp o;
  om_message_id := om_message_id o;
  om_agent := om_agent o;
  om_conversation_id := om_conversation_id o;
  om_target_ref := om_target_ref o;
  om_files := files;
  om_workflow_run_id := om_workflow_run_id o;
  om_workflow_step_id := om_workflow_step_id o;
|}.

Definition normalize_outgoing_message (is_file : string → bool) (outgoing : OutgoingMessage) :
    OutgoingMessage * list string :=
  let prepared := prepare_outbound_content is_file (om_message outgoing) in
  let readable := is_absolute_readable_file is_file in
  let files := push_unseen readable (om_files outgoing) [] in
  let omitted := oc_omitted_files prepared
    ++ filter (λ p, readable p = false) (om_files outgoing) in
  let files := push_unseen (λ _, true) (oc_files prepared) files in
  (with_outgoing_message_files outgoing (oc_message prepared) files, omitted).

(** ** Lemmas *)
Lemma push_unseen_spec keep xs out :
  NoDup out →
  NoDup (push_unseen keep xs out)
  ∧ ∀ x, x ∈ push_unseen keep xs out ↔ x ∈ out ∨ (x ∈ xs ∧ keep x = true).
Proof.
  revert out. induction xs as [|y xs IH]; intros out Hn; simpl; [set_solver|].
  destruct (keep y && bool_decide (y ∉ out)) eqn:E.
  - apply andb_true_iff in E as [Hk Hy]. apply bool_decide_eq_true in Hy.
    destruct (IH (out ++ [y])) as [Hn' Hin].
    { apply NoDup_app. split; [done|]. split; [set_solver|apply NoDup_singleton]. }
    split; [done|]. intros x. rewrite Hin. set_solver.
  - destruct (IH out Hn) as [Hn' Hin]. split; [done|]. intros x. rewrite Hin.
    apply andb_false_iff in E as [Hk|Hy].
    + split; [set_solver|]. rewrite elem_of_cons.
      intros [?|[[->|?] ?]]; [by left| |set_solver]. by rewrite Hk in *.
    + apply bool_decide_eq_false, dec_stable in Hy. set_solver.
Qed.

Lemma chars_count_app s t : chars_count (s +:+ t) = (chars_count s + chars_count t)%nat.
Proof.
  induction s as [|a s IH]; simpl; [done|]. rewrite IH. by destruct (is_continuation a).
Qed.
Lemma chars_count_take n s : (chars_count (chars_take n s) ≤ n)%nat.
Proof.
  revert n. induction s as [|a s IH]; intros n; simpl; [lia|].
  destruct (is_continuation a) eqn:E; simpl; [by rewrite E|].
  destruct n as [|n]; simpl; [lia|]. rewrite E. specialize (IH n). lia.
Qed.

Lemma extract_absolute_tags_absolute fuel prefix message :
  Forall (λ p, is_absolute_path p = true)
    (extract_absolute_tags_loop fuel prefix message).
Proof.
  revert message. induction fuel as [|fuel IH]; intros message; simpl; [constructor|].
  destruct (cut prefix message) as [[x rest]|]; [|constructor].
  destruct (cut "]" rest) as [[body rest']|]; [|constructor].
  apply Forall_app. split; [|apply IH].
  destruct (is_absolute_path (trim body)) eqn:E; by repeat constructor.
Qed.

Lemma strip_loop_files is_file fuel message :
  let '(_, files, omitted) := strip_send_file_tags_loop is_file fuel message in
  Forall (λ p, is_absolute_readable_file is_file p = true) files
  ∧ Forall (λ p, is_absolute_readable_file is_file p = false ∧ p ≠ "") omitted.
Proof.
  revert message. induction fuel as [|fuel IH]; intros message; simpl; [by split|].
  destruct (cut "[send_file:" message) as [[before content]|]; [|by split].
  destruct (cut "]" content) as [[body rest]|]; [|by split].
  specialize (IH rest).
  destruct (strip_send_file_tags_loop is_file fuel rest) as [[output files] omitted].
  destruct IH as [IH1 IH2].
  destruct (is_empty (trim body)) eqn:He; [done|].
  destruct (is_absolute_readable_file is_file (trim body)) eqn:E; split; try done.
  all: constructor; try done. split; [done|]. intros Ht. by rewrite Ht in He.
Qed.

(** Without a complete tag there is nothing to strip. *)
Lemma strip_no_tag is_file message :
  cut "[send_file:" message = None →
  strip_send_file_tags is_file message = (message, [], []).
Proof. intros H. unfold strip_send_file_tags. simpl. by rewrite H. Qed.

Lemma truncate_outbound_text_count message :
  (chars_count (truncate_outbound_text message) ≤ OUTBOUND_MAX_CHARS)%nat.
Proof.
  unfold truncate_outbound_text. destruct (Nat.leb_spec (chars_count message) OUTBOUND_MAX_CHARS).
  { done. }
  rewrite chars_count_app.
  pose proof (chars_count_take OUTBOUND_TRUNCATE_KEEP_CHARS message) as Ht.
  change (chars_count OUTBOUND_TRUNCATION_SUFFIX) with 25%nat.
  unfold OUTBOUND_MAX_CHARS, OUTBOUND_TRUNCATE_KEEP_CHARS in *. lia.
Qed.

(** ** Properties *)

(** What leaves through an adapter is bounded and safe to attach: after
    [normalize_outgoing_message] the text has at most 4000 characters, the files
    are absolute readable files without repetition, and every file of the
    message is either attached or reported as omitted. *)
Theorem normalize_outgoing_message_sound (is_file : string → bool) (outgoing : OutgoingMessage) :
  let '(normalized, omitted) := normalize_outgoing_message is_file outgoing in
  (chars_count (om_message normalized) ≤ OUTBOUND_MAX_CHARS)%nat
  ∧ NoDup (om_files normalized)
  ∧ Forall (λ p, is_absolute_readable_file is_file p = true) (om_files normalized)
  ∧ (∀ p, p ∈ om_files outgoing → p ∈ om_files normalized ∨ p ∈ omitted).
Proof.
  unfold normalize_outgoing_message, prepare_outbound_content, strip_send_file_tags.
  pose proof (strip_loop_files is_file (S (String.length (om_message outgoing)))
    (om_message outgoing)) as Hs.
  destruct (strip_send_file_tags_loop _ _ _) as [[stripped files] omitted].
  destruct Hs as [Hs1 Hs2]. cbn.
  destruct (push_unseen_spec (is_absolute_readable_file is_file) (om_files outgoing) [])
    as [Hn1 Hin1]; [constructor|].
  destruct (push_unseen_spec (λ _, true) files _ Hn1) as [Hn2 Hin2].
  split; [apply truncate_outbound_text_count|]. split; [done|]. split.
  - apply Forall_forall. intros p. rewrite Hin2, Hin1, Forall_forall in *. set_solver.
  - intros p Hp. rewrite Hin2, Hin1, elem_of_app, list_elem_of_filter.
    destruct (is_absolute_readable_file is_file p); naive_solver.
Qed.

(** Inbound normalisation keeps every attachment once: the files of the
    payload become, without repetition, exactly its absolute files together with
    the absolute paths tagged in its text, and nothing else of the payload but
    the text changes. *)
Theorem normalize_inbound_payload_files (payload : IncomingMessage) :
  let normalized := normalize_inbound_payload payload in
  NoDup (im_files normalized)
  ∧ (∀ p, p ∈ im_files normalized ↔
      (p ∈ im_files payload ∧ is_absolute_path p = true)
      ∨ p ∈ extract_inbound_file_tags (im_message payload))
  ∧ Forall (λ p, is_absolute_path p = true) (im_files normalized)
  ∧ with_message_files normalized (im_message payload) (im_files payload) = payload.
Proof.
  cbn zeta. unfold normalize_inbound_payload. cbn [im_files with_message_files].
  destruct (push_unseen_spec is_absolute_path (im_files payload) []) as [Hn1 Hin1];
    [constructor|].
  destruct (push_unseen_spec (λ _, true)
    (extract_inbound_file_tags (im_message payload)) _ Hn1) as [Hn2 Hin2].
  pose proof (extract_absolute_tags_absolute (S (String.length (im_message payload)))
    "[file:" (im_message payload)) as Ht.
  split; [done|]. split; [|split].
  - intros p. rewrite Hin2, Hin1. set_solver.
  - apply Forall_forall. intros p. rewrite Hin2, Hin1. rewrite Forall_forall in Ht.
    unfold extract_inbound_file_tags, extract_absolute_tags. set_solver.
  - by destruct payload.
Qed.

(** Stripping is not a fixed point: when tags are nested, removing the inner
    one leaves the text of a complete [[send_file: ..]] tag in the message. *)
Theorem strip_send_file_tags_can_leave_a_tag (is_file : string → bool) :
  (strip_send_file_tags is_file "[send_[send_file: ]file: /etc/hosts]").1.1
  = "[send_file: /etc/hosts]".
Proof. done. Qed.
