(* ===== verification/QueueLifecycle.v ===== *)
(** * Queue lifecycle

    [src/src/queue/lifecycle.rs] over a model of the four queue directories: a
    file is its modification time and its text, a directory that does not exist
    is [None].  JSON ([parse_incoming], [encode_outgoing],
    [encode_dead_letter]), SHA-256 and [fs::metadata] are parameters. *)
From S2P Require Import Prelude RustStr RustPath Io QueueMessage FileTags.
From Stdlib Require Import Ascii.

Local Open Scope string_scope.
Local Open Scope list_scope.

Record qfile := QFile { qf_modified : Z; qf_content : string }.

Record queue_fs := {
  q_incoming : option (gmap string qfile);
  q_processing : option (gmap string qfile);
  q_outgoing : option (gmap string qfile);
  q_failed : option (gmap string qfile);
  q_requeue_counter : Z;
  q_log : list string;
}.

Inductive qdir := Incoming | Processing | Outgoing | Failed.
#[export] Instance qdir_eq_dec : EqDecision qdir.
Proof. solve_decision. Defined.

Definition dir_path (paths : QueuePaths) (d : qdir) : string :=
  match d with
  | Incoming => qp_incoming paths
  | Processing => qp_processing paths
  | Outgoing => qp_outgoing paths
  | Failed => qp_failed paths
  end.

Definition get_dir (d : qdir) (s : queue_fs) : option (gmap string qfile) :=
  match d with
  | Incoming => q_incoming s
  | Processing => q_processing s
  | Outgoing => q_outgoing s
  | Failed => q_failed s
  end.

Definition set_dir (d : qdir) (m : option (gmap string qfile)) (s : queue_fs) : queue_fs :=
  {| q_incoming := match d with Incoming => m | _ => q_incoming s end;
     q_processing := match d with Processing => m | _ => q_processing s end;
     q_outgoing := match d with Outgoing => m | _ => q_outgoing s end;
     q_failed := match d with Failed => m | _ => q_failed s end;
     q_requeue_counter := q_requeue_counter s;
     q_log := q_log s |}.

Definition set_counter (c : Z) (s : queue_fs) : queue_fs :=
  {| q_incoming := q_incoming s; q_processing := q_processing s;
     q_outgoing := q_outgoing s; q_failed := q_failed s;
     q_requeue_counter := c; q_log := q_log s |}.

Definition append_log (line : string) (s : queue_fs) : queue_fs :=
  {| q_incoming := q_incoming s; q_processing := q_processing s;
     q_outgoing := q_outgoing s; q_failed := q_failed s;
     q_requeue_counter := q_requeue_counter s; q_log := q_log s ++ [line] |}.

Definition file_at (d : qdir) (name : string) (s : queue_fs) : option qfile :=
  m ← get_dir d s; m !! name.

(** ** The file-system calls *)
Definition fs_rename (d1 : qdir) (n1 : string) (d2 : qdir) (n2 : string) (s : queue_fs) :
    queue_fs * result io_error () :=
  match file_at d1 n1 s with
  | None => (s, Err not_found)
  | Some f =>
      let removed := set_dir d1 (delete n1 <$> get_dir d1 s) s in
      match get_dir d2 removed with
      | None => (s, Err not_found)
      | Some m2 => (set_dir d2 (Some (<[n2 := f]> m2)) removed, Ok ())
      end
  end.

Definition fs_read_to_string (d : qdir) (name : string) (s : queue_fs) :
    queue_fs * result io_error string :=
  (s, match file_at d name s with Some f => Ok (qf_content f) | None => Err not_found end).

Definition fs_metadata_modified (d : qdir) (name : string) (s : queue_fs) :
    queue_fs * result io_error Z :=
  (s, match file_at d name s with Some f => Ok (qf_modified f) | None => Err not_found end).

Definition fs_remove_file (d : qdir) (name : string) (s : queue_fs) :
    queue_fs * result io_error () :=
  match file_at d name s with
  | None => (s, Err not_found)
  | Some _ => (set_dir d (delete name <$> get_dir d s) s, Ok ())
  end.

Definition fs_write (d : qdir) (name content : string) (now : Z) (s : queue_fs) :
    queue_fs * result io_error () :=
  match get_dir d s with
  | None => (s, Err not_found)
  | Some m => (set_dir d (Some (<[name := QFile now content]> m)) s, Ok ())
  end.

Definition fs_create_dir_all (d : qdir) (s : queue_fs) : queue_fs * result io_error () :=
  match get_dir d s with
  | None => (set_dir d (Some ∅) s, Ok ())
  | Some _ => (s, Ok ())
  end.

Definition fs_read_dir (d : qdir) (s : queue_fs) : queue_fs * result io_error (list string) :=
  (s, match get_dir d s with
      | Some m => Ok (map_to_list m).*1
      | None => Err not_found
      end).

(** ** Errors and results *)
Inductive QueueError : Type :=
  | QIo (path : string) (source : io_error)
  | QParse (path source : string).

Record ClaimedMessage := {
  cm_file_name : string;  (** the claimed file is [incoming/name], now [processing/name] *)
  cm_payload : IncomingMessage;
}.
Definition processing_path (paths : QueuePaths) (claimed : ClaimedMessage) : string :=
  path_join (qp_processing paths) (cm_file_name claimed).

Record RequeuedMessage := { rm_name : string; rm_attempt : Z }.

Inductive FailureDisposition : Type :=
  | Requeued (m : RequeuedMessage)
  | DeadLettered (name : string) (attempt : Z).

(** ** Names *)
Definition hex_digit (n : Z) : ascii :=
  ascii_of_N (Z.to_N (if decide (n < 10)%Z then n + 48 else n + 87)).
(** [format!("{byte:02x}")] *)
Definition hex_byte (b : Z) : string :=
  String (hex_digit (Z.shiftr b 4)) (String (hex_digit (Z.land b 15)) "").

Definition unique_outgoing_filename (channel message_id : string) (timestamp : Z)
    (index : Z) : string :=
  let base := outgoing_filename channel message_id timestamp in
  if decide (index = 0)%Z then base
  else match strip_suffix ".json" base with
       | Some stem => stem +:+ "_" +:+ fmt_int index +:+ ".json"
       | None => base +:+ "_" +:+ fmt_int index
       end.

Definition requeue_attempt_from_name (original_name : string) : Z :=
  match file_stem original_name with
  | None => 0
  | Some stem =>
      match strip_prefix "requeue_a" stem with
      | None => 0
      | Some rest =>
          match split_once "_" rest with
          | None => 0
          | Some (attempt_raw, _) => from_option id 0%Z (parse_u32 attempt_raw)
          end
      end
  end.

Definition next_failure_attempt (file_name : string) : Z :=
  u32_sat_add (requeue_attempt_from_name file_name) 1.

(** The modification time, then the file name. *)
Definition entry_le (a b : Z * string) : Prop :=
  (a.1 < b.1)%Z ∨ (a.1 = b.1 ∧ String.le a.2 b.2).
#[export] Instance entry_le_dec : RelDecision entry_le.
Proof. intros a b. unfold entry_le. apply _. Defined.

Section lifecycle.
Context (sha256 : string → list Z).
Context (parse_incoming : string → result string IncomingMessage).
Context (encode_outgoing : OutgoingMessage → string).
Context (encode_dead_letter : Z → Z → string → string → IncomingMessage → string).
Context (is_file : string → bool).
Context (paths : QueuePaths).

Definition short_name_hash (value : string) : string :=
  String.concat "" (hex_byte <$> take 8 (sha256 value)).

Definition requeue_name (original_name : string) (attempt counter : Z) : string :=
  let ext := from_option id "json" (extension original_name) in
  let hash := short_name_hash (original_name +:+ ":" +:+ fmt_int attempt) in
  "requeue_a" +:+ fmt_int attempt +:+ "_" +:+ hash +:+ "_" +:+ fmt_int counter
    +:+ "." +:+ ext.

(** [REQUEUE_COUNTER.fetch_add(1)] wraps at 64 bits. *)
Definition fetch_add_counter {E} : IO queue_fs E Z :=
  s ← get;
  modify (set_counter ((q_requeue_counter s + 1) mod (u64_max + 1))%Z) ;;
  mret (q_requeue_counter s).

Definition unique_requeue_name {E} (original_name : string) (attempt : Z) :
    IO queue_fs E string :=
  counter ← fetch_add_counter; mret (requeue_name original_name attempt counter).

Definition dead_letter_filename {E} (message_id : string) : IO queue_fs E string :=
  counter ← fetch_add_counter;
  mret ("failed_" +:+ short_name_hash message_id +:+ "_" +:+ fmt_int counter +:+ ".json").

Definition io_err (d : qdir) (name : string) (e : io_error) : QueueError :=
  QIo (path_join (dir_path paths d) name) e.
Definition dir_err (d : qdir) (e : io_error) : QueueError := QIo (dir_path paths d) e.

Definition requeue_processing_file (file_name : string) :
    IO queue_fs QueueError RequeuedMessage :=
  let attempt := u32_sat_add (requeue_attempt_from_name file_name) 1 in
  name ← unique_requeue_name file_name attempt;
  io_map_err (io_err Processing file_name)
    (sys (fs_rename Processing file_name Incoming name)) ;;
  mret {| rm_name := name; rm_attempt := attempt |}.

Fixpoint incoming_entries (names : list string) : IO queue_fs QueueError (list (Z * string)) :=
  match names with
  | [] => mret []
  | name :: names =>
      if is_valid_queue_json_filename name then
        modified ← io_map_err (io_err Incoming name)
          (sys (fs_metadata_modified Incoming name));
        entries ← incoming_entries names;
        mret ((modified, name) :: entries)
      else incoming_entries names
  end.

Definition sorted_incoming_paths : IO queue_fs QueueError (list string) :=
  names ← io_map_err (dir_err Incoming) (sys (fs_read_dir Incoming));
  entries ← incoming_entries names;
  mret (merge_sort entry_le entries).*2.

Fixpoint claim_first (names : list string) : IO queue_fs QueueError (option ClaimedMessage) :=
  match names with
  | [] => mret None
  | name :: names =>
      renamed ← attempt (sys (fs_rename Incoming name Processing name));
      match renamed with
      | Ok _ =>
          read ← attempt (sys (fs_read_to_string Processing name));
          match read with
          | Err err =>
              requeue_processing_file name ;; throw (io_err Processing name err)
          | Ok raw =>
              match parse_incoming raw with
              | Err err =>
                  requeue_processing_file name ;;
                  throw (QParse (path_join (qp_processing paths) name) err)
              | Ok payload =>
                  mret (Some {| cm_file_name := name;
                                cm_payload := normalize_inbound_payload payload |})
              end
          end
      | Err err =>
          if decide (ioe_kind err = NotFound) then claim_first names
          else throw (io_err Incoming name err)
      end
  end.

Definition claim_oldest : IO queue_fs QueueError (option ClaimedMessage) :=
  names ← sorted_incoming_paths; claim_first names.

(** The [loop] of [write_outgoing_message]; [index.saturating_add(1)] is the
    successor here because the directory never holds [usize::MAX] files. *)
Fixpoint write_outgoing_loop (fuel : nat) (item normalized : OutgoingMessage) (index : Z) :
    IO queue_fs QueueError (option string) :=
  match fuel with
  | O => mret None
  | S fuel =>
      let filename := unique_outgoing_filename (om_channel item) (om_message_id item)
        (om_timestamp item) index in
      s ← get;
      match file_at Outgoing filename s with
      | Some _ => write_outgoing_loop fuel item normalized (index + 1)
      | None =>
          now ← read_clock;
          io_map_err (io_err Outgoing filename)
            (sys (fs_write Outgoing filename (encode_outgoing normalized) now)) ;;
          mret (Some filename)
      end
  end.

Definition outgoing_count (s : queue_fs) : nat :=
  match q_outgoing s with Some m => size m | None => 0 end.

Definition write_outgoing_message (item : OutgoingMessage) (start_index : Z) :
    IO queue_fs QueueError (option string) :=
  let '(normalized_outgoing, omitted_files) := normalize_outgoing_message is_file item in
  (if decide (omitted_files = []) then mret ()
   else modify (append_log ("outgoing message `" +:+ om_message_id item +:+
     "` omitted invalid/unreadable files: " +:+ join ", " omitted_files))) ;;
  s ← get;
  write_outgoing_loop (S (outgoing_count s)) item normalized_outgoing start_index.

Fixpoint write_all (outgoing : list OutgoingMessage) (index : Z) :
    IO queue_fs QueueError (list (option string)) :=
  match outgoing with
  | [] => mret []
  | item :: outgoing =>
      p ← write_outgoing_message item index;
      ps ← write_all outgoing (index + 1);
      mret (p :: ps)
  end.

Definition complete_success_many (claimed : ClaimedMessage)
    (outgoing : list OutgoingMessage) : IO queue_fs QueueError (list (option string)) :=
  if decide (outgoing = []) then
    throw (io_err Processing (cm_file_name claimed) (IoError InvalidInput
      "complete_success_many requires at least one outgoing message"))
  else
    written_paths ← write_all outgoing 0;
    io_map_err (io_err Processing (cm_file_name claimed))
      (sys (fs_remove_file Processing (cm_file_name claimed))) ;;
    mret written_paths.

(** [all.remove(0)] of the one-element result. *)
Definition complete_success (claimed : ClaimedMessage) (outgoing : OutgoingMessage) :
    IO queue_fs QueueError (option string) :=
  all ← complete_success_many claimed [outgoing];
  mret (mjoin (head all)).

Definition enqueue_outgoing (outgoing : OutgoingMessage) :
    IO queue_fs QueueError (option string) :=
  io_map_err (dir_err Outgoing) (sys (fs_create_dir_all Outgoing)) ;;
  write_outgoing_message outgoing 0.

Definition complete_success_no_outgoing (claimed : ClaimedMessage) :
    IO queue_fs QueueError () :=
  io_map_err (io_err Processing (cm_file_name claimed))
    (sys (fs_remove_file Processing (cm_file_name claimed))).

Definition requeue_failure_with_attempt (claimed : ClaimedMessage) :
    IO queue_fs QueueError RequeuedMessage :=
  requeue_processing_file (cm_file_name claimed).

Definition requeue_failure (claimed : ClaimedMessage) : IO queue_fs QueueError string :=
  rm_name <$> requeue_failure_with_attempt claimed.

Definition dead_letter_failure (claimed : ClaimedMessage) (failure_attempt : Z)
    (error : string) : IO queue_fs QueueError string :=
  io_map_err (dir_err Failed) (sys (fs_create_dir_all Failed)) ;;
  file_name ← dead_letter_filename (im_message_id (cm_payload claimed));
  failed_at ← read_clock;
  let body := encode_dead_letter failed_at failure_attempt error
    (processing_path paths claimed) (cm_payload claimed) in
  now ← read_clock;
  io_map_err (io_err Failed file_name) (sys (fs_write Failed file_name body now)) ;;
  io_map_err (io_err Processing (cm_file_name claimed))
    (sys (fs_remove_file Processing (cm_file_name claimed))) ;;
  mret file_name.

Definition requeue_or_dead_letter_failure (claimed : ClaimedMessage)
    (max_requeue_attempts : Z) (error : string) :
    IO queue_fs QueueError FailureDisposition :=
  let attempt := next_failure_attempt (cm_file_name claimed) in
  if decide (Z.max max_requeue_attempts 1 ≤ attempt)%Z then
    name ← dead_letter_failure claimed attempt error;
    mret (DeadLettered name attempt)
  else
    Requeued <$> requeue_processing_file (cm_file_name claimed).
End lifecycle.

(** [sorted_outgoing_paths] of [queue/outbound.rs]: the JSON files by name. *)
Definition sorted_outgoing_paths : IO queue_fs io_error (list string) :=
  names ← sys (fs_read_dir Outgoing);
  mret (merge_sort String.le (filter (λ name, extension name = Some "json") names)).
