(* ===== verification/QueueNames.v ===== *)
(** * Generated queue file names

    What the names produced by [QueueLifecycle] decode to: the retry counter in
    a requeued name, the uniqueness of outgoing names. *)
From S2P Require Import Prelude RustStr RustPath Io QueueMessage FileTags QueueLifecycle.
From Stdlib Require Import Ascii.

Local Open Scope string_scope.
Local Open Scope list_scope.

(** ** Characters of the parts of a name *)
Definition name_char (a : ascii) : bool := not_slash a && negb (Ascii.eqb "." a).
Definition stem_char (a : ascii) : bool := name_char a && solid a.

Lemma digit_name_char a : is_ascii_digit a = true →
  stem_char a = true ∧ negb (Ascii.eqb "_" a) = true.
Proof. destruct a as [[] [] [] [] [] [] [] []]; done. Qed.

Lemma fmt_int_name_chars n : (0 ≤ n)%Z →
  str_forall stem_char (fmt_int n) = true
  ∧ str_forall (λ a, negb (Ascii.eqb "_" a)) (fmt_int n) = true.
Proof.
  intros Hn. pose proof (fmt_int_digits n Hn) as Hd.
  split; (eapply str_forall_impl; [|exact Hd]); intros a [? ?]%digit_name_char; done.
Qed.

Lemma hex_byte_name_chars b : (0 ≤ b < 256)%Z → str_forall stem_char (hex_byte b) = true.
Proof.
  intros Hb. assert (∀ n, (0 ≤ n < 16)%Z → stem_char (hex_digit n) = true) as Hd.
  { intros n Hn.
    assert (n ∈ [0;1;2;3;4;5;6;7;8;9;10;11;12;13;14;15]%Z) as Hin by set_solver by lia.
    repeat (apply elem_of_cons in Hin as [->|Hin]; [done|]).
    by apply not_elem_of_nil in Hin. }
  unfold hex_byte. cbn [str_forall]. rewrite !Hd; [done|..].
  - change 15%Z with (Z.ones 4). rewrite Z.land_ones by lia. apply Z.mod_pos_bound. lia.
  - rewrite Z.shiftr_div_pow2 by lia. simpl. split; [apply Z.div_pos; lia|].
    apply Z.div_lt_upper_bound; lia.
Qed.

Lemma str_forall_concat p (l : list string) :
  Forall (λ s, str_forall p s = true) l → str_forall p (String.concat "" l) = true.
Proof.
  induction l as [|x l IH]; [done|]. intros [Hx Hl]%Forall_cons.
  destruct l as [|y l]; [done|].
  change (String.concat "" (x :: y :: l)) with (x +:+ "" +:+ String.concat "" (y :: l)).
  rewrite !str_forall_app, Hx. by rewrite IH.
Qed.

(** Components never contain a separator, extensions contain no dot either. *)
Lemma components_no_slash p n : Normal n ∈ components p → str_forall not_slash n = true.
Proof.
  intros Hn. pose proof (split_on_pieces "/" p) as Hp.
  assert (∀ x, x ∈ omap piece_component (split_on "/" p) → x = Normal n →
    str_forall not_slash n = true) as Hbody.
  { intros x (piece & Hpc & Hpiece)%list_elem_of_omap ->.
    unfold piece_component in Hpiece. rewrite Forall_forall in Hp. specialize (Hp _ Hpc).
    repeat case_match; simplify_eq. exact Hp. }
  assert (∀ c body, Normal n ∈ c :: body → c = Normal n ∨ Normal n ∈ body) as Hc.
  { intros c body [?|?]%elem_of_cons; [by left|by right]. }
  unfold components in Hn. repeat case_match.
  all: first [ apply Hc in Hn as [?|Hn]; [done|] | idtac ].
  all: by apply (Hbody _ Hn eq_refl).
Qed.

Lemma file_name_no_slash p n : file_name p = Some n → str_forall not_slash n = true.
Proof.
  unfold file_name. destruct (last (components p)) as [[]|] eqn:E; try done.
  intros [= ->]. apply (components_no_slash p). apply last_Some_elem_of in E. done.
Qed.

Lemma rsplit_dot_no_dot n stem ext : rsplit_dot n = Some (stem, ext) → no_dot ext = true.
Proof.
  unfold rsplit_dot. destruct (cut "." (String.rev n)) as [[x y]|] eqn:E; [|done].
  intros [= <- <-]. unfold no_dot. rewrite str_forall_rev. revert E.
  generalize (String.rev n). intros s. revert x y. induction s as [|a s IH]; intros x y; cbn [cut].
  { done. }
  destruct (strip_prefix "." (String a s)) as [rest|] eqn:Hp; cbn [strip_prefix] in Hp.
  { intros [= <- _]. done. }
  intros H. apply bind_Some in H as ([x' y'] & Hcut & [= <- _]). cbn [str_forall].
  rewrite (IH _ _ Hcut). by destruct (Ascii.eqb "." a).
Qed.

Lemma extension_name_chars p ext :
  extension p = Some ext → str_forall name_char ext = true.
Proof.
  unfold extension. intros (n & Hn & He)%bind_Some. apply file_name_no_slash in Hn.
  unfold extension_of in He. destruct (rsplit_dot n) as [[stem e]|] eqn:Er; [|done].
  destruct (is_empty stem); [done|]. injection He as ->.
  pose proof (rsplit_dot_no_dot _ _ _ Er) as Hd. apply rsplit_dot_Some in Er as ->.
  rewrite str_forall_app in Hn. apply andb_true_iff in Hn as [_ Hn]. simpl in Hn.
  unfold name_char, no_dot in *. clear stem.
  induction ext as [|a ext IH]; simpl in *; [done|].
  apply andb_true_iff in Hn as [Hn1 Hn2], Hd as [Hd1 Hd2].
  rewrite Hn1, Hd1. simpl. by apply IH.
Qed.

Lemma requeue_attempt_in_u32 name : in_u32 (requeue_attempt_from_name name).
Proof.
  unfold requeue_attempt_from_name. repeat case_match; try by unfold_widths.
  destruct (parse_u32 _) as [v|] eqn:E; simpl; [|by unfold_widths].
  by apply parse_unsigned_range in E.
Qed.

(** ** Requeued names *)
Section requeue_names.
Context (sha256 : string → list Z).
Hypothesis sha256_bytes : ∀ s, Forall (λ b, 0 ≤ b < 256)%Z (sha256 s).

Lemma short_name_hash_chars s : str_forall stem_char (short_name_hash sha256 s) = true.
Proof.
  apply str_forall_concat. apply Forall_fmap. apply Forall_take.
  eapply Forall_impl; [apply sha256_bytes|]. intros b Hb. by apply hex_byte_name_chars.
Qed.

(** The part before the extension. *)
Definition requeue_stem (original_name : string) (attempt counter : Z) : string :=
  "requeue_a" +:+ fmt_int attempt +:+ "_" +:+
  short_name_hash sha256 (original_name +:+ ":" +:+ fmt_int attempt)
    +:+ "_" +:+ fmt_int counter.
Definition requeue_ext (original_name : string) : string :=
  from_option id "json" (extension original_name).

Lemma requeue_name_split original_name attempt counter :
  requeue_name sha256 original_name attempt counter
  = requeue_stem original_name attempt counter +:+ String "." (requeue_ext original_name).
Proof.
  unfold requeue_name, requeue_stem, requeue_ext. by rewrite !str_app_assoc.
Qed.

Lemma requeue_ext_chars original_name :
  str_forall name_char (requeue_ext original_name) = true.
Proof.
  unfold requeue_ext. destruct (extension original_name) eqn:E; [|done].
  by apply extension_name_chars in E.
Qed.

Lemma requeue_stem_chars original_name attempt counter :
  (0 ≤ attempt)%Z → (0 ≤ counter)%Z →
  str_forall stem_char (requeue_stem original_name attempt counter) = true.
Proof.
  intros Ha Hc. unfold requeue_stem. rewrite !str_forall_app, short_name_hash_chars.
  by rewrite (proj1 (fmt_int_name_chars attempt Ha)), (proj1 (fmt_int_name_chars counter Hc)).
Qed.

Lemma stem_char_name s : str_forall stem_char s = true → str_forall name_char s = true.
Proof. apply str_forall_impl. intros a. by intros [? _]%andb_true_iff. Qed.
Lemma stem_char_solid s : str_forall stem_char s = true → str_forall solid s = true.
Proof. apply str_forall_impl. intros a. by intros [_ ?]%andb_true_iff. Qed.
Lemma name_char_slash s : str_forall name_char s = true → str_forall not_slash s = true.
Proof. apply str_forall_impl. intros a. by intros [? _]%andb_true_iff. Qed.
Lemma name_char_dot s : str_forall name_char s = true → no_dot s = true.
Proof. apply str_forall_impl. intros a. by intros [_ ?]%andb_true_iff. Qed.

Lemma requeue_name_plain original_name attempt counter :
  (0 ≤ attempt)%Z → (0 ≤ counter)%Z →
  plain_name (requeue_name sha256 original_name attempt counter) = true.
Proof.
  intros Ha Hc. apply plain_name_spec. split; [|done].
  rewrite requeue_name_split, str_forall_app.
  rewrite name_char_slash by (by apply stem_char_name, requeue_stem_chars). simpl.
  apply name_char_slash, requeue_ext_chars.
Qed.

Lemma requeue_name_rsplit original_name attempt counter :
  rsplit_dot (requeue_name sha256 original_name attempt counter)
  = Some (requeue_stem original_name attempt counter, requeue_ext original_name).
Proof.
  rewrite requeue_name_split. apply rsplit_dot_app, name_char_dot, requeue_ext_chars.
Qed.

Lemma requeue_name_stem original_name attempt counter :
  (0 ≤ attempt)%Z → (0 ≤ counter)%Z →
  file_stem (requeue_name sha256 original_name attempt counter)
  = Some (requeue_stem original_name attempt counter).
Proof.
  intros Ha Hc. unfold file_stem. rewrite file_name_plain by (by apply requeue_name_plain).
  simpl. unfold file_stem_of. by rewrite requeue_name_rsplit.
Qed.

Lemma requeue_name_extension original_name attempt counter :
  (0 ≤ attempt)%Z → (0 ≤ counter)%Z →
  extension (requeue_name sha256 original_name attempt counter)
  = Some (requeue_ext original_name).
Proof.
  intros Ha Hc. unfold extension. rewrite file_name_plain by (by apply requeue_name_plain).
  simpl. unfold extension_of. by rewrite requeue_name_rsplit.
Qed.

(** The retry counter survives in the name. *)
Lemma requeue_attempt_roundtrip original_name attempt counter :
  in_u32 attempt → (0 ≤ counter)%Z →
  requeue_attempt_from_name (requeue_name sha256 original_name attempt counter) = attempt.
Proof.
  intros Ha Hc. unfold requeue_attempt_from_name.
  rewrite requeue_name_stem by (unfold in_u32 in Ha; lia).
  unfold requeue_stem.
  rewrite (proj2 (strip_prefix_Some "requeue_a" _ _) eq_refl).
  unfold split_once. rewrite cut_app_not_in.
  - unfold parse_u32. by rewrite parse_unsigned_fmt_int.
  - apply fmt_int_name_chars. unfold in_u32 in Ha. lia.
Qed.

(** A requeued JSON file is picked up again. *)
Lemma requeue_name_valid original_name attempt counter :
  (0 ≤ attempt)%Z → (0 ≤ counter)%Z →
  is_valid_queue_json_filename original_name = true →
  is_valid_queue_json_filename (requeue_name sha256 original_name attempt counter) = true.
Proof.
  intros Ha Hc. unfold is_valid_queue_json_filename.
  rewrite requeue_name_extension, requeue_name_stem by done.
  unfold requeue_ext.
  destruct (decide (extension original_name = Some "json")) as [->|]; [|done].
  intros _. rewrite decide_True by done.
  rewrite trim_solid by (by apply stem_char_solid, requeue_stem_chars). done.
Qed.
End requeue_names.
