(* ===== verification/QueueGuarantees.v ===== *)
(** * Guarantees of the queue lifecycle

    Theorems about [QueueLifecycle]: outgoing files are never overwritten, no
    operation drops a message under any pattern of I/O errors, retries are
    bounded, claiming follows the modification time. *)
From S2P Require Import Prelude RustStr RustPath Io QueueMessage FileTags QueueLifecycle QueueNames.
From Stdlib Require Import Ascii.

Local Open Scope string_scope.
Local Open Scope list_scope.

(** ** Single calls *)
Lemma sys_cases {S A} (f : S → S * result io_error A) w w' r :
  sys f w = (w', r) →
  (st w' = st w ∧ ∃ e, r = Err e) ∨ (st w' = (f (st w)).1 ∧ r = (f (st w)).2).
Proof.
  unfold sys. destruct (faults (ev w)) as [|[e|] fs].
  - destruct (f (st w)). intros [= <- <-]. by right.
  - intros [= <- <-]. left. eauto.
  - destruct (f (st w)). intros [= <- <-]. by right.
Qed.

Lemma sys_healthy {S A} (f : S → S * result io_error A) s c :
  sys f (World s (Env [] c)) = (World (f s).1 (Env [] c), (f s).2).
Proof. unfold sys. simpl. by destruct (f s). Qed.

Lemma read_clock_st {S E} (w : world S) :
  ∃ t, (read_clock (E:=E) w).2 = Ok t ∧ st (read_clock (E:=E) w).1 = st w.
Proof. unfold read_clock. destruct (clock (ev w)); by eexists. Qed.

Lemma file_at_set_dir_same d m n s : file_at d n (set_dir d m s) = (x ← m; x !! n).
Proof. by destruct d. Qed.
Lemma file_at_set_dir_other d d' m n s : d ≠ d' → file_at d n (set_dir d' m s) = file_at d n s.
Proof. by destruct d, d'. Qed.
Lemma get_dir_set_dir_same d m s : get_dir d (set_dir d m s) = m.
Proof. by destruct d. Qed.
Lemma get_dir_set_dir_other d d' m s : d ≠ d' → get_dir d (set_dir d' m s) = get_dir d s.
Proof. by destruct d, d'. Qed.
#[export] Hint Rewrite file_at_set_dir_same get_dir_set_dir_same : direclaw.

(** What a successful rename between two directories did. *)
Lemma fs_rename_ok d1 n1 d2 n2 s s' :
  d1 ≠ d2 → fs_rename d1 n1 d2 n2 s = (s', Ok ()) →
  ∃ f m1 m2, get_dir d1 s = Some m1 ∧ m1 !! n1 = Some f ∧ get_dir d2 s = Some m2
    ∧ s' = set_dir d2 (Some (<[n2 := f]> m2)) (set_dir d1 (Some (delete n1 m1)) s).
Proof.
  intros Hd. unfold fs_rename, file_at.
  destruct (get_dir d1 s) as [m1|] eqn:E1; simpl; [|done].
  destruct (m1 !! n1) as [f|] eqn:E2; [|done].
  rewrite get_dir_set_dir_other by done.
  destruct (get_dir d2 s) as [m2|] eqn:E3; [|done].
  intros [= <-]. by exists f, m1, m2.
Qed.

Lemma fs_rename_err d1 n1 d2 n2 s s' e : fs_rename d1 n1 d2 n2 s = (s', Err e) → s' = s.
Proof. unfold fs_rename. repeat case_match; by intros [= <- <-]. Qed.

(** ** Outgoing names *)
Lemma outgoing_filename_json channel message_id timestamp :
  ∃ stem, outgoing_filename channel message_id timestamp = stem +:+ ".json".
Proof.
  unfold outgoing_filename. destruct (String.eqb channel "heartbeat"); [by eexists|].
  eexists (sanitize_filename_component channel +:+ "_" +:+
    sanitize_filename_component message_id +:+ "_" +:+ fmt_int timestamp).
  by rewrite !str_app_assoc.
Qed.

Lemma unique_outgoing_filename_inj channel message_id timestamp i j :
  (0 ≤ i)%Z → (0 ≤ j)%Z →
  unique_outgoing_filename channel message_id timestamp i
  = unique_outgoing_filename channel message_id timestamp j → i = j.
Proof.
  intros Hi Hj. unfold unique_outgoing_filename.
  destruct (outgoing_filename_json channel message_id timestamp) as [stem ->].
  rewrite (proj2 (strip_suffix_Some ".json" _ stem)) by done.
  assert (∀ k, stem +:+ ".json" ≠ stem +:+ "_" +:+ fmt_int k +:+ ".json") as Hne.
  { intros k Heq. apply (inj (String.append stem)) in Heq.
    apply (f_equal String.length) in Heq. rewrite !str_length_app in Heq. simpl in Heq. lia. }
  repeat case_decide; intros Heq; try (exfalso; naive_solver congruence); [congruence|].
  apply (inj (String.append stem)), (inj (String.append "_")), str_app_inv_r in Heq.
  by apply (inj fmt_int) in Heq.
Qed.

Section guarantees.
Context (sha256 : string → list Z).
Context (parse_incoming : string → result string IncomingMessage).
Context (encode_outgoing : OutgoingMessage → string).
Context (encode_dead_letter : Z → Z → string → string → IncomingMessage → string).
Context (is_file : string → bool).
Context (paths : QueuePaths).

Local Abbreviation write_loop := (write_outgoing_loop encode_outgoing paths).
Local Abbreviation write_message := (write_outgoing_message encode_outgoing is_file paths).

Definition name_of (item : OutgoingMessage) (i : Z) : string :=
  unique_outgoing_filename (om_channel item) (om_message_id item) (om_timestamp item) i.

(** [s'] is [s] with one new outgoing file, as far as files go. *)
Definition same_files (s s' : queue_fs) : Prop := ∀ d n, file_at d n s' = file_at d n s.
Definition wrote_new (s s' : queue_fs) (name content : string) : Prop :=
  file_at Outgoing name s = None
  ∧ qf_content <$> file_at Outgoing name s' = Some content
  ∧ ∀ d n, (d, n) ≠ (Outgoing, name) → file_at d n s' = file_at d n s.

Lemma fs_write_lookup d name content now s s' u :
  fs_write d name content now s = (s', Ok u) →
  file_at d name s' = Some (QFile now content)
  ∧ ∀ d' n, (d', n) ≠ (d, name) → file_at d' n s' = file_at d' n s.
Proof.
  unfold fs_write. destruct (get_dir d s) as [m|] eqn:Em; [|done]. intros [= <-].
  rewrite file_at_set_dir_same. simpl. rewrite lookup_insert_eq. split; [done|].
  intros d' n Hne. destruct (decide (d' = d)) as [->|Hd]; [|by rewrite file_at_set_dir_other].
  rewrite file_at_set_dir_same. unfold file_at. rewrite Em. simpl.
  apply lookup_insert_ne. congruence.
Qed.

Lemma fs_remove_lookup d name s s' u :
  fs_remove_file d name s = (s', Ok u) →
  file_at d name s' = None
  ∧ ∀ d' n, (d', n) ≠ (d, name) → file_at d' n s' = file_at d' n s.
Proof.
  unfold fs_remove_file. unfold file_at at 1.
  destruct (get_dir d s) as [m|] eqn:Em; simpl; [|done].
  destruct (m !! name); [|done]. intros [= <-].
  rewrite file_at_set_dir_same. simpl. rewrite lookup_delete_eq. split; [done|].
  intros d' n Hne. destruct (decide (d' = d)) as [->|Hd]; [|by rewrite file_at_set_dir_other].
  rewrite file_at_set_dir_same. unfold file_at. rewrite Em. simpl.
  apply lookup_delete_ne. congruence.
Qed.

Lemma fs_rename_lookup d1 n1 d2 n2 s s' u :
  d1 ≠ d2 → fs_rename d1 n1 d2 n2 s = (s', Ok u) →
  is_Some (file_at d1 n1 s) ∧ file_at d2 n2 s' = file_at d1 n1 s
  ∧ file_at d1 n1 s' = None
  ∧ ∀ d n, (d, n) ≠ (d1, n1) → (d, n) ≠ (d2, n2) → file_at d n s' = file_at d n s.
Proof.
  intros Hd H. destruct u. apply fs_rename_ok in H as (f & m1 & m2 & E1 & Ef & E2 & ->); [|done].
  unfold file_at at 1 3. rewrite E1. simpl. rewrite Ef, file_at_set_dir_same. simpl.
  rewrite lookup_insert_eq, file_at_set_dir_other, file_at_set_dir_same by done.
  simpl. rewrite lookup_delete_eq. do 3 (split; [done|]).
  intros d n H1 H2. destruct (decide (d = d2)) as [->|?].
  - rewrite file_at_set_dir_same. simpl. unfold file_at. rewrite E2. simpl.
    apply lookup_insert_ne. congruence.
  - rewrite file_at_set_dir_other by done. destruct (decide (d = d1)) as [->|?].
    + rewrite file_at_set_dir_same. simpl. unfold file_at. rewrite E1. simpl.
      apply lookup_delete_ne. congruence.
    + by rewrite file_at_set_dir_other.
Qed.

Lemma write_loop_spec fuel item normalized i w :
  let '(w', r) := write_loop fuel item normalized i w in
  match r with
  | Ok None => ∀ j, (i ≤ j < i + Z.of_nat fuel)%Z → is_Some (file_at Outgoing (name_of item j) (st w))
  | Ok (Some name) =>
      (∃ j, (i ≤ j)%Z ∧ name = name_of item j) ∧
      wrote_new (st w) (st w') name (encode_outgoing normalized)
  | Err _ => st w' = st w
  end.
Proof.
  revert i w. induction fuel as [|fuel IH]; intros i w; [simpl; intros; lia|].
  cbn [write_outgoing_loop]. unfold mbind, IO_bind at 1. cbn [get].
  fold (name_of item i).
  destruct (file_at Outgoing (name_of item i) (st w)) as [f|] eqn:Ef.
  - specialize (IH (i + 1)%Z w). destruct (write_loop _ _ _ _ _) as [w' [[name|]|e]].
    + destruct IH as [(j & ? & ?) ?]. split; [|done]. exists j. split; [lia|done].
    + intros j Hj. destruct (decide (j = i)) as [->|]; [by rewrite Ef|]. apply IH. lia.
    + done.
  - unfold IO_bind. destruct (read_clock_st (E:=QueueError) w) as (t & Ht1 & Ht2).
    destruct (read_clock w) as [w1 r1]. simpl in Ht1, Ht2. subst r1.
    unfold io_map_err.
    destruct (sys _ w1) as [w2 r2] eqn:Es. apply sys_cases in Es.
    rewrite Ht2 in Es.
    destruct Es as [[Hw [e ->]]|Es]; [done|].
    destruct (fs_write Outgoing (name_of item i) (encode_outgoing normalized) t (st w))
      as [s2 r] eqn:Efw. destruct Es as [Hw ->]. simpl in Hw. destruct r as [[]|e]; simpl.
    + apply fs_write_lookup in Efw as [H1 H2]. rewrite <- Hw in H1, H2.
      split; [by exists i|]. split; [done|]. by rewrite H1.
    + unfold fs_write in Efw. cbn [get_dir] in Efw. by case_match; simplify_eq.
Qed.

Lemma outgoing_all_taken item (m : gmap string qfile) (i : Z) :
  (0 ≤ i)%Z →
  (∀ j, (i ≤ j < i + Z.of_nat (S (size m)))%Z → is_Some (m !! name_of item j)) → False.
Proof.
  intros Hi Hall.
  assert (S (size m) ≤ length (map_to_list m).*1)%nat as Hlen.
  { apply (pigeonhole (λ k, name_of item (i + Z.of_nat k)%Z)).
    - intros x y _ _ Hxy. apply unique_outgoing_filename_inj in Hxy; lia.
    - intros k Hk. destruct (Hall (i + Z.of_nat k)%Z) as [f Hf]; [lia|].
      apply list_elem_of_fmap. exists (name_of item (i + Z.of_nat k)%Z, f).
      split; [done|]. by apply elem_of_map_to_list. }
  rewrite length_fmap, length_map_to_list in Hlen. lia.
Qed.

Lemma write_message_spec item start w :
  (0 ≤ start)%Z →
  let '(w', r) := write_message item start w in
  match r with
  | Ok None => False
  | Ok (Some name) => wrote_new (st w) (st w') name
      (encode_outgoing (normalize_outgoing_message is_file item).1)
  | Err _ => same_files (st w) (st w')
  end.
Proof.
  intros Hstart. unfold write_outgoing_message.
  destruct (normalize_outgoing_message is_file item) as [normalized omitted].
  cbn [fst].
  assert (∃ w1, same_files (st w) (st w1) ∧
    (if decide (omitted = []) then mret () else modify (append_log
      ("outgoing message `" +:+ om_message_id item +:+
       "` omitted invalid/unreadable files: " +:+ join ", " omitted)) : IO queue_fs
       QueueError ()) w = (w1, Ok ())) as (w1 & Hw1 & E).
  { case_decide; eexists; (split; [|reflexivity]); [done|]. by intros [] n. }
  unfold mbind. unfold IO_bind at 1. rewrite E. unfold IO_bind. cbn [get].
  pose proof (write_loop_spec (S (outgoing_count (st w1))) item normalized start w1) as Hl.
  destruct (write_loop _ _ _ _ w1) as [w' [[name|]|e]].
  - destruct Hl as [_ (H1 & H2 & H3)]. split; [by rewrite <- Hw1|]. split; [done|].
    intros d n Hd. by rewrite H3, Hw1.
  - destruct (q_outgoing (st w1)) as [m|] eqn:Em.
    + apply (outgoing_all_taken item m start Hstart). intros j Hj.
      specialize (Hl j). unfold outgoing_count, file_at in Hl. simpl in Hl.
      rewrite Em in Hl. apply Hl. lia.
    + unfold outgoing_count, file_at in Hl. simpl in Hl. rewrite Em in Hl.
      destruct (Hl start); [lia|done].
  - intros d n. by rewrite Hl, Hw1.
Qed.

(** Writing an outgoing message terminates with a new file: whatever files
    are already there and whatever I/O errors occur, the search for a free name
    ends, the file written did not exist before, it holds the encoding of the
    normalised message, and every other file of every directory is untouched;
    on an error no directory has changed. *)
Theorem write_outgoing_message_fresh (item : OutgoingMessage) (start : Z)
    (w : world queue_fs) (Hstart : (0 ≤ start)%Z) :
  let '(w', r) := write_outgoing_message encode_outgoing is_file paths item start w in
  r ≠ Ok None
  ∧ (∀ name, r = Ok (Some name) →
      file_at Outgoing name (st w) = None
      ∧ qf_content <$> file_at Outgoing name (st w')
        = Some (encode_outgoing (normalize_outgoing_message is_file item).1))
  ∧ (∀ d n, r ≠ Ok (Some n) ∨ d ≠ Outgoing → file_at d n (st w') = file_at d n (st w)).
Proof using Type.
  pose proof (write_message_spec item start w Hstart) as H.
  destruct (write_message item start w) as [w' [[name|]|e]]; [|done|].
  - destruct H as (H1 & H2 & H3). split; [done|]. split; [by intros n [= <-]|].
    intros d n Hn. apply H3. intros [= -> ->]. destruct Hn as [Hn|Hn]; by apply Hn.
  - split; [done|]. split; [done|]. intros d n _. apply H.
Qed.

(** *** A batch of outgoing messages *)
Definition encoded (item : OutgoingMessage) : string :=
  encode_outgoing (normalize_outgoing_message is_file item).1.
(** The file [name] was not there in [s] and holds [item] in [s']. *)
Definition delivered (s s' : queue_fs) (item : OutgoingMessage) (name : option string) : Prop :=
  ∃ n, name = Some n ∧ file_at Outgoing n s = None
       ∧ qf_content <$> file_at Outgoing n s' = Some (encoded item).
(** No file disappears or changes; only outgoing files appear. *)
Definition only_adds_outgoing (s s' : queue_fs) : Prop :=
  (∀ d n, d ≠ Outgoing → file_at d n s' = file_at d n s)
  ∧ (∀ n f, file_at Outgoing n s = Some f → file_at Outgoing n s' = Some f).

Lemma only_adds_outgoing_refl s : only_adds_outgoing s s.
Proof. done. Qed.
Lemma only_adds_outgoing_trans s1 s2 s3 :
  only_adds_outgoing s1 s2 → only_adds_outgoing s2 s3 → only_adds_outgoing s1 s3.
Proof.
  intros [H1 H2] [H3 H4]. split; [|by eauto]. intros d n Hd. by rewrite H3, H1.
Qed.
Lemma same_files_adds s s' : same_files s s' → only_adds_outgoing s s'.
Proof. intros H. split; intros; rewrite H; done. Qed.
Lemma wrote_new_adds s s' n c : wrote_new s s' n c → only_adds_outgoing s s'.
Proof.
  intros (H1 & H2 & H3). split; [intros; apply H3; congruence|].
  intros m f Hf. rewrite H3; [done|]. intros [= ->]. congruence.
Qed.

Lemma delivered_later s s' s'' item name :
  delivered s s' item name → only_adds_outgoing s' s'' → delivered s s'' item name.
Proof.
  intros (n & -> & H1 & H2) [_ Hadd]. exists n. split; [done|]. split; [done|].
  destruct (file_at Outgoing n s') eqn:E; [|done]. by rewrite (Hadd _ _ E).
Qed.
Lemma delivered_earlier s0 s s' item name :
  only_adds_outgoing s0 s → delivered s s' item name → delivered s0 s' item name.
Proof.
  intros [_ Hadd] (n & -> & H1 & H2). exists n. split; [done|]. split; [|done].
  destruct (file_at Outgoing n s0) eqn:E; [|done]. apply Hadd in E. congruence.
Qed.

Lemma write_all_spec items start w :
  (0 ≤ start)%Z →
  let '(w', r) := write_all encode_outgoing is_file paths items start w in
  only_adds_outgoing (st w) (st w')
  ∧ ∀ names, r = Ok names → Forall2 (delivered (st w) (st w')) items names ∧ NoDup names.
Proof.
  revert start w. induction items as [|item items IH]; intros start w Hs.
  { simpl. split; [apply only_adds_outgoing_refl|]. intros ? [= <-].
    by split; constructor. }
  cbn [write_all]. unfold mbind, IO_bind.
  pose proof (write_message_spec item start w Hs) as Hm.
  destruct (write_message item start w) as [w1 [[name|]|e]]; [|done|].
  2:{ split; [by apply same_files_adds|done]. }
  pose proof (wrote_new_adds _ _ _ _ Hm) as Hadd1.
  specialize (IH (start + 1)%Z w1 ltac:(lia)).
  destruct (write_all _ _ _ _ _ w1) as [w2 [names|e]]; destruct IH as [Hadd2 IH].
  2:{ split; [by eapply only_adds_outgoing_trans|done]. }
  split; [by eapply only_adds_outgoing_trans|]. intros ? [= <-].
  destruct (IH _ eq_refl) as [Hall Hnd]. destruct Hm as (Hn1 & Hn2 & _). split.
  - constructor.
    + eapply delivered_later; [|exact Hadd2]. by exists name.
    + eapply Forall2_impl; [exact Hall|]. intros. by eapply delivered_earlier.
  - constructor; [|done]. intros Hin.
    apply list_elem_of_lookup in Hin as [i Hi].
    destruct (Forall2_lookup_r _ _ _ _ _ Hall Hi) as (x & _ & n & [= <-] & Hnone & _).
    rewrite Hnone in Hn2. done.
Qed.

Lemma sys_map_err_run {A} (f : queue_fs → queue_fs * result io_error A) g w :
  let '(w', r) := io_map_err g (sys f) w in
  (st w' = st w ∧ ∃ e : QueueError, r = Err e)
  ∨ (st w' = (f (st w)).1 ∧ r = map_err g (f (st w)).2).
Proof.
  unfold io_map_err. destruct (sys f w) as [w' r] eqn:E.
  apply sys_cases in E as [[-> (e & ->)]|[-> ->]]; [left|right]; eauto.
Qed.

Lemma remove_processing_run name w :
  let '(w', r) := io_map_err (io_err paths Processing name)
                    (sys (fs_remove_file Processing name)) w in
  match r with
  | Ok _ => file_at Processing name (st w') = None
            ∧ ∀ d n, (d, n) ≠ (Processing, name) → file_at d n (st w') = file_at d n (st w)
  | Err _ => st w' = st w
  end.
Proof.
  pose proof (sys_map_err_run (fs_remove_file Processing name)
    (io_err paths Processing name) w) as H.
  destruct (io_map_err _ _ w) as [w' r].
  destruct H as [[-> (e & ->)]|[-> ->]]; [done|].
  destruct (fs_remove_file Processing name (st w)) as [s' [[]|e]] eqn:E; simpl.
  - by apply fs_remove_lookup in E.
  - unfold fs_remove_file in E. by case_match; simplify_eq.
Qed.

Lemma complete_many_run (claimed : ClaimedMessage)
    (outgoing : list OutgoingMessage) (w : world queue_fs) :
  let '(w', r) := complete_success_many encode_outgoing is_file paths claimed outgoing w in
  (∀ d n f, (d, n) ≠ (Processing, cm_file_name claimed) →
     file_at d n (st w) = Some f → file_at d n (st w') = Some f)
  ∧ (∀ d n, d ≠ Outgoing → (d, n) ≠ (Processing, cm_file_name claimed) →
     file_at d n (st w') = file_at d n (st w))
  ∧ match r with
    | Err _ => file_at Processing (cm_file_name claimed) (st w')
               = file_at Processing (cm_file_name claimed) (st w)
    | Ok names => outgoing ≠ []
        ∧ file_at Processing (cm_file_name claimed) (st w') = None
        ∧ Forall2 (delivered (st w) (st w')) outgoing names ∧ NoDup names
    end.
Proof.
  unfold complete_success_many. case_decide as Hne; [done|].
  unfold mbind, IO_bind.
  pose proof (write_all_spec outgoing 0 w ltac:(lia)) as Hw.
  destruct (write_all _ _ _ _ _ w) as [w1 [names|e]]; destruct Hw as [[Ha1 Ha2] Hw].
  2:{ split; [intros [] n f ?; rewrite ?Ha1 by done; eauto|].
      split; [by intros; apply Ha1|by apply Ha1]. }
  destruct (Hw _ eq_refl) as [Hall Hnd].
  pose proof (remove_processing_run (cm_file_name claimed) w1) as Hr.
  destruct (io_map_err _ _ w1) as [w2 [u|e]]; simpl.
  - destruct Hr as [Hgone Hrest]. split; [|split; [|split; [done|split; [done|]]]].
    + intros d n f Hd Hf. rewrite Hrest by done. destruct d; rewrite ?Ha1 by done; eauto.
    + intros d n Hd Hn. rewrite Hrest by done. by apply Ha1.
    + split; [|done]. eapply Forall2_impl; [exact Hall|].
      intros item name (n & -> & H1 & H2). exists n. by rewrite Hrest.
  - rewrite Hr. split; [intros [] n f ?; rewrite ?Ha1 by done; eauto|].
    split; [by intros; apply Ha1|by apply Ha1].
Qed.

(** Completing a message never loses it: whatever I/O errors occur, no file
    that existed is changed or removed except the claimed one; if completion
    fails the claimed file is still in [processing] (so recovery will retry
    it); if it succeeds the claimed file is gone and every reply of the batch
    sits, correctly encoded, in its own new file of [outgoing], in order. *)
Theorem complete_success_many_custody (claimed : ClaimedMessage)
    (outgoing : list OutgoingMessage) (w : world queue_fs) :
  let '(w', r) := complete_success_many encode_outgoing is_file paths claimed outgoing w in
  (∀ d n f, (d, n) ≠ (Processing, cm_file_name claimed) →
     file_at d n (st w) = Some f → file_at d n (st w') = Some f)
  ∧ (∀ d n, d ≠ Outgoing → (d, n) ≠ (Processing, cm_file_name claimed) →
     file_at d n (st w') = file_at d n (st w))
  ∧ match r with
    | Err _ => file_at Processing (cm_file_name claimed) (st w')
               = file_at Processing (cm_file_name claimed) (st w)
    | Ok names => outgoing ≠ []
        ∧ file_at Processing (cm_file_name claimed) (st w') = None
        ∧ Forall2 (delivered (st w) (st w')) outgoing names ∧ NoDup names
    end.
Proof. exact (complete_many_run claimed outgoing w). Qed.

(** *** Failures *)
Lemma requeue_processing_run name w :
  let '(w', r) := requeue_processing_file sha256 paths name w in
  match r with
  | Ok m =>
      rm_attempt m = u32_sat_add (requeue_attempt_from_name name) 1
      ∧ rm_name m = requeue_name sha256 name (rm_attempt m) (q_requeue_counter (st w))
      ∧ file_at Incoming (rm_name m) (st w') = file_at Processing name (st w)
      ∧ file_at Processing name (st w') = None
      ∧ ∀ d n, (d, n) ≠ (Processing, name) → (d, n) ≠ (Incoming, rm_name m) →
          file_at d n (st w') = file_at d n (st w)
  | Err _ => same_files (st w) (st w')
  end.
Proof.
  unfold requeue_processing_file, unique_requeue_name, fetch_add_counter.
  rewrite !bind_run. simpl. rewrite !bind_run.
  set (w1 := World _ (ev w)). set (f := fs_rename _ _ _ _).
  pose proof (sys_map_err_run f (io_err paths Processing name) w1) as H.
  destruct (io_map_err _ _ w1) as [w2 [u|e]]; subst f; simpl in *.
  - destruct H as [(_ & e & He)|[Hw Hr]]; [done|].
    destruct (fs_rename _ _ _ _ _) as [s' [v|e]] eqn:E; [|done].
    apply fs_rename_lookup in E as (_ & H1 & H2 & H3); [|done].
    simpl in Hw. rewrite Hw. split; [done|]. split; [done|].
    split; [rewrite H1; by unfold file_at|]. split; [done|].
    intros d n Hd1 Hd2. rewrite H3 by done. by destruct d.
  - destruct H as [(Hw & _)|[Hw Hr]].
    + intros d n. rewrite Hw. by destruct d.
    + destruct (fs_rename _ _ _ _ _) as [s' [v|e']] eqn:E; [done|].
      apply fs_rename_err in E as ->. simpl in Hw. intros d n. rewrite Hw. by destruct d.
Qed.

Lemma dead_letter_run claimed attempt error w :
  let '(w', r) := dead_letter_failure sha256 encode_dead_letter paths claimed attempt error w in
  match r with
  | Ok n => file_at Processing (cm_file_name claimed) (st w') = None
      ∧ ∃ failed_at, qf_content <$> file_at Failed n (st w') = Some (encode_dead_letter
          failed_at attempt error (processing_path paths claimed) (cm_payload claimed))
  | Err _ => file_at Processing (cm_file_name claimed) (st w')
             = file_at Processing (cm_file_name claimed) (st w)
  end
  ∧ (∀ d n, d ≠ Failed → (d, n) ≠ (Processing, cm_file_name claimed) →
     file_at d n (st w') = file_at d n (st w)).
Proof.
  unfold dead_letter_failure.
  set (K := λ _ : (), _). change ((io_map_err (dir_err paths Failed)
    (sys (fs_create_dir_all Failed)) ≫= K) w) with
    (IO_bind _ _ _ _ K (io_map_err (dir_err paths Failed)
    (sys (fs_create_dir_all Failed))) w). unfold IO_bind at 1.
  pose proof (sys_map_err_run (fs_create_dir_all Failed) (dir_err paths Failed) w) as H1.
  destruct (io_map_err _ _ w) as [w1 r1].
  assert (∀ d n, d ≠ Failed → file_at d n (st w1) = file_at d n (st w)) as Hw1.
  { intros d n Hd. destruct H1 as [[-> _]|[-> _]]; [done|]. unfold fs_create_dir_all.
    destruct (get_dir Failed (st w)); [done|]. by apply file_at_set_dir_other. }
  destruct r1 as [[]|e]; [|split; [by apply Hw1|auto]]. clear H1.
  subst K. cbv beta. rewrite bind_run.
  assert (∃ w2 fname, dead_letter_filename sha256 (E:=QueueError)
    (im_message_id (cm_payload claimed)) w1 = (w2, Ok fname)
    ∧ ∀ d n, file_at d n (st w2) = file_at d n (st w1)) as (w2 & fname & -> & Hs2).
  { do 2 eexists. split; [reflexivity|]. by intros []. }
  rewrite bind_run. destruct (read_clock_st (E:=QueueError) w2) as (t & Ht & Hw3).
  destruct (read_clock w2) as [w3 r3]. simpl in Ht, Hw3. subst r3.
  rewrite bind_run. destruct (read_clock_st (E:=QueueError) w3) as (t2 & Ht & Hw4).
  destruct (read_clock w3) as [w4 r4]. simpl in Ht, Hw4. subst r4.
  rewrite bind_run.
  set (body := encode_dead_letter t attempt error _ _).
  pose proof (sys_map_err_run (fs_write Failed fname body t2) (io_err paths Failed fname) w4)
    as H.
  destruct (io_map_err _ _ w4) as [w5 r5]. rewrite Hw4, Hw3 in H.
  assert (∀ d n, d ≠ Failed → file_at d n (st w5) = file_at d n (st w)) as Hw5.
  { intros d n Hd. rewrite <- Hw1, <- Hs2 by done.
    destruct H as [[-> _]|[-> _]]; [done|]. unfold fs_write. case_match; [|done].
    by apply file_at_set_dir_other. }
  destruct r5 as [u|e]; [|split; [by apply Hw5|intros; by apply Hw5]].
  rewrite bind_run.
  assert (qf_content <$> file_at Failed fname (st w5) = Some body) as Hbody.
  { destruct H as [(_ & e & He)|[-> Hr]]; [done|].
    destruct (fs_write _ _ _ _ _) as [s' [v|e]] eqn:E; [|done].
    apply fs_write_lookup in E as [E _]. simpl. by rewrite E. }
  pose proof (remove_processing_run (cm_file_name claimed) w5) as Hr.
  destruct (io_map_err _ _ w5) as [w6 [v|e]]; simpl.
  - destruct Hr as [Hgone Hrest]. split; [split; [done|]|].
    + exists t. by rewrite Hrest.
    + intros d n Hd Hn. rewrite Hrest by done. by apply Hw5.
  - rewrite Hr. split; [by apply Hw5|intros; by apply Hw5].
Qed.

(** A file name carrying the retry count [k]: either a name given by the
    producer of the message, or one [requeue_processing_file] gave it. *)
Inductive attempts : Z → string → Prop :=
  | attempts_new name : requeue_attempt_from_name name = 0%Z → attempts 0 name
  | attempts_requeued k name counter :
      attempts k name → (k < u32_max)%Z → (0 ≤ counter)%Z →
      attempts (k + 1) (requeue_name sha256 name (k + 1) counter).

Lemma attempts_in_u32 k name : attempts k name → in_u32 k.
Proof. induction 1; unfold_widths; lia. Qed.

Lemma attempts_decoded k name :
  (∀ s, Forall (λ b, 0 ≤ b < 256)%Z (sha256 s)) →
  attempts k name → requeue_attempt_from_name name = k.
Proof.
  intros Hsha Ha. pose proof (attempts_in_u32 _ _ Ha) as Hk.
  destruct Ha; [done|]. by apply requeue_attempt_roundtrip.
Qed.

Lemma requeue_or_dead_letter_run (claimed : ClaimedMessage) (k max : Z)
    (error : string) (w : world queue_fs)
    (Hsha : ∀ s, Forall (λ b, 0 ≤ b < 256)%Z (sha256 s))
    (Hcounter : (0 ≤ q_requeue_counter (st w))%Z)
    (Hmax : in_u32 max) (Hk : attempts k (cm_file_name claimed)) :
  let '(w', r) := requeue_or_dead_letter_failure sha256 encode_dead_letter paths claimed
                    max error w in
  (∀ n, n ≠ cm_file_name claimed → file_at Processing n (st w') = file_at Processing n (st w))
  ∧ match r with
  | Ok (Requeued m) =>
      (k + 1 < Z.max max 1)%Z ∧ rm_attempt m = (k + 1)%Z
      ∧ attempts (k + 1) (rm_name m)
      ∧ file_at Incoming (rm_name m) (st w') = file_at Processing (cm_file_name claimed) (st w)
      ∧ file_at Processing (cm_file_name claimed) (st w') = None
  | Ok (DeadLettered n attempt) =>
      (Z.max max 1 ≤ attempt)%Z ∧ attempt = Z.min (k + 1) u32_max
      ∧ file_at Processing (cm_file_name claimed) (st w') = None
      ∧ ∃ failed_at, qf_content <$> file_at Failed n (st w') = Some (encode_dead_letter
          failed_at attempt error (processing_path paths claimed) (cm_payload claimed))
  | Err _ => file_at Processing (cm_file_name claimed) (st w')
             = file_at Processing (cm_file_name claimed) (st w)
  end.
Proof.
  pose proof (attempts_in_u32 _ _ Hk) as Hk32.
  assert (next_failure_attempt (cm_file_name claimed) = Z.min (k + 1) u32_max) as Hnext.
  { unfold next_failure_attempt. by rewrite (attempts_decoded k). }
  pose proof (requeue_processing_run (cm_file_name claimed) w) as Hrq.
  unfold requeue_or_dead_letter_failure. rewrite Hnext. clear Hnext.
  destruct (decide _) as [Hcmp|Hcmp].
  - rewrite bind_run.
    pose proof (dead_letter_run claimed (Z.min (k + 1) u32_max) error w) as H.
    destruct (dead_letter_failure _ _ _ _ _ _ w) as [w' [n|e]]; destruct H as [H Hframe];
      (split; [intros n' Hn'; apply Hframe; congruence|]); [|exact H].
    split; [exact Hcmp|]. split; [reflexivity|exact H].
  - unfold fmap, IO_fmap.
    destruct (requeue_processing_file _ _ _ w) as [w' [m|e]]; [|split; [intros n _; apply Hrq|apply Hrq]].
    destruct Hrq as (Hatt & Hname & Hin & Hgone & Hframe).
    split; [intros n Hn; apply Hframe; congruence|].
    apply Z.nle_gt in Hcmp. rewrite (attempts_decoded k) in Hatt by done.
    assert (k + 1 < u32_max ∧ k + 1 < Z.max max 1)%Z as [Hlt Hlt'].
    { clear -Hcmp Hmax Hk32. unfold_widths. lia. }
    assert (rm_attempt m = k + 1)%Z as Hatt'.
    { rewrite Hatt. clear -Hlt. unfold u32_sat_add. lia. }
    split; [exact Hlt'|]. split; [exact Hatt'|]. split; [|by split].
    rewrite Hname, Hatt'. apply attempts_requeued; [exact Hk|lia|exact Hcounter].
Qed.

(** C17: Failing messages are retried a bounded number of times and never lost,
    whatever I/O errors occur.  A message requeued [k] times is requeued
    again exactly when [k + 1] is below [max(1, max_requeue_attempts)], under a
    name that says it was requeued [k + 1] times; otherwise it goes to the
    dead-letter directory with its error and attempt number.  If the call
    itself fails the claimed file is still in [processing]. *)
Theorem requeue_or_dead_letter_custody (claimed : ClaimedMessage) (k max : Z)
    (error : string) (w : world queue_fs)
    (Hsha : ∀ s, Forall (λ b, 0 ≤ b < 256)%Z (sha256 s))
    (Hcounter : (0 ≤ q_requeue_counter (st w))%Z)
    (Hmax : in_u32 max) (Hk : attempts k (cm_file_name claimed)) :
  let '(w', r) := requeue_or_dead_letter_failure sha256 encode_dead_letter paths claimed
                    max error w in
  match r with
  | Ok (Requeued m) =>
      (k + 1 < Z.max max 1)%Z ∧ rm_attempt m = (k + 1)%Z
      ∧ attempts (k + 1) (rm_name m)
      ∧ file_at Incoming (rm_name m) (st w') = file_at Processing (cm_file_name claimed) (st w)
      ∧ file_at Processing (cm_file_name claimed) (st w') = None
  | Ok (DeadLettered n attempt) =>
      (Z.max max 1 ≤ attempt)%Z ∧ attempt = Z.min (k + 1) u32_max
      ∧ file_at Processing (cm_file_name claimed) (st w') = None
      ∧ ∃ failed_at, qf_content <$> file_at Failed n (st w') = Some (encode_dead_letter
          failed_at attempt error (processing_path paths claimed) (cm_payload claimed))
  | Err _ => file_at Processing (cm_file_name claimed) (st w')
             = file_at Processing (cm_file_name claimed) (st w)
  end.
Proof.
  pose proof (requeue_or_dead_letter_run claimed k max error w Hsha Hcounter Hmax Hk) as H.
  destruct (requeue_or_dead_letter_failure _ _ _ _ _ _ w). apply H.
Qed.

(** *** Claiming, on a healthy disk *)
Local Abbreviation claim := (claim_oldest sha256 parse_incoming paths).
Definition healthy (s : queue_fs) (c : list Z) : world queue_fs := World s (Env [] c).

Definition claimable (s : queue_fs) (entry : Z * string) : Prop :=
  is_valid_queue_json_filename entry.2 = true
  ∧ qf_modified <$> file_at Incoming entry.2 s = Some entry.1.
(** [entry] is the claimable file that comes first. *)
Definition oldest (s : queue_fs) (entry : Z * string) : Prop :=
  claimable s entry ∧ ∀ other, claimable s other → entry_le entry other.

Lemma incoming_entries_healthy names s c :
  (∀ n, n ∈ names → is_Some (file_at Incoming n s)) →
  ∃ entries, incoming_entries paths names (healthy s c) = (healthy s c, Ok entries)
    ∧ ∀ e, e ∈ entries ↔ e.2 ∈ names ∧ claimable s e.
Proof.
  clear is_file encode_outgoing encode_dead_letter.
  induction names as [|n names IH]; intros Hn.
  { exists []. split; [done|]. set_solver. }
  destruct IH as (entries & Hrun & Hin); [intros; apply Hn; by right|].
  simpl. destruct (is_valid_queue_json_filename n) eqn:Ev.
  - rewrite bind_run. unfold io_map_err, healthy. rewrite sys_healthy.
    destruct (Hn n) as [f Hf]; [by left|]. unfold fs_metadata_modified. simpl. rewrite Hf.
    simpl. rewrite bind_run. fold (healthy s c). rewrite Hrun.
    exists ((qf_modified f, n) :: entries). split; [done|].
    intros e. rewrite !elem_of_cons, Hin. split.
    + intros [->|?]; [|naive_solver]. split; [by left|]. split; [done|]. simpl. by rewrite Hf.
    + intros [[He|?] Hc]; [|naive_solver]. left. destruct e as [t n']; simpl in *. subst n'.
      destruct Hc as [_ Hc]. simpl in Hc. rewrite Hf in Hc. simpl in Hc. congruence.
  - exists entries. split; [done|]. intros e. rewrite elem_of_cons, Hin.
    split; [naive_solver|]. intros [[He|?] Hc]; [|done]. destruct Hc as [Hc _].
    rewrite He in Hc. congruence.
Qed.

#[local] Instance entry_le_total : Total entry_le.
Proof.
  intros [t1 n1] [t2 n2]. unfold entry_le. simpl.
  destruct (Z.lt_trichotomy t1 t2) as [?|[->|?]]; [by left; left| |by right; left].
  destruct (total String.le n1 n2); [left|right]; by right.
Qed.
#[local] Instance entry_le_trans : Transitive entry_le.
Proof.
  intros [t1 n1] [t2 n2] [t3 n3]. unfold entry_le. simpl.
  intros [?|[-> ?]] [?|[-> ?]]; [left; lia|by left|by left|right].
  split; [done|]. by etrans.
Qed.

Lemma sorted_incoming_healthy s c m :
  q_incoming s = Some m →
  ∃ names, sorted_incoming_paths paths (healthy s c) = (healthy s c, Ok names)
    ∧ match names with
      | [] => ∀ e, ¬ claimable s e
      | n :: _ => ∃ f, file_at Incoming n s = Some f ∧ oldest s (qf_modified f, n)
      end.
Proof.
  clear is_file encode_outgoing encode_dead_letter.
  intros Hm. unfold sorted_incoming_paths. rewrite bind_run. unfold io_map_err, healthy.
  rewrite sys_healthy. unfold fs_read_dir. simpl. rewrite Hm. simpl. rewrite bind_run.
  fold (healthy s c). destruct (incoming_entries_healthy (map_to_list m).*1 s c)
    as (entries & -> & Hin).
  { intros n ([n' f] & -> & Hf%elem_of_map_to_list)%list_elem_of_fmap.
    unfold file_at. simpl. by rewrite Hm; simpl; rewrite Hf. }
  assert (∀ e, e ∈ merge_sort entry_le entries ↔ claimable s e) as Hiff.
  { intros e. rewrite merge_sort_Permutation, Hin. split; [naive_solver|].
    intros He. split; [|done]. destruct He as [_ He]. unfold file_at in He. simpl in He.
    rewrite Hm in He. simpl in He.
    destruct (m !! e.2) as [f|] eqn:Ef; [|done].
    apply list_elem_of_fmap. exists (e.2, f). split; [done|]. by apply elem_of_map_to_list. }
  eexists. split; [reflexivity|].
  pose proof (StronglySorted_merge_sort entry_le entries) as Hs.
  destruct (merge_sort entry_le entries) as [|[t n] es]; simpl.
  { intros e. rewrite <- Hiff. set_solver. }
  destruct (proj1 (Hiff (t, n))) as [Hv Hf]; [by left|]. simpl in Hf.
  destruct (file_at Incoming n s) as [f|] eqn:Ef; [|done]. simpl in Hf.
  injection Hf as Hf. subst t. exists f. split; [done|].
  split; [split; [done|]; simpl; by rewrite Ef|].
  intros other Ho. rewrite <- Hiff in Ho. apply elem_of_cons in Ho as [->|Ho];
    [right; by split|].
  apply StronglySorted_inv in Hs as [_ Hall]. rewrite Forall_forall in Hall. by apply Hall.
Qed.

Lemma fs_rename_claim n s p f :
  file_at Incoming n s = Some f → q_processing s = Some p →
  ∃ s1, fs_rename Incoming n Processing n s = (s1, Ok ())
    ∧ file_at Processing n s1 = Some f ∧ file_at Incoming n s1 = None
    ∧ (∀ d n', n' ≠ n → file_at d n' s1 = file_at d n' s)
    ∧ is_Some (q_incoming s1) ∧ is_Some (q_processing s1)
    ∧ q_requeue_counter s1 = q_requeue_counter s.
Proof.
  intros Hf Hp. unfold file_at in Hf. destruct (q_incoming s) as [m|] eqn:Em; [|by simpl in Hf; rewrite Em in Hf].
  destruct (fs_rename Incoming n Processing n s) as [s1 r] eqn:E.
  assert (r = Ok () ∧ is_Some (q_incoming s1) ∧ is_Some (q_processing s1)
    ∧ q_requeue_counter s1 = q_requeue_counter s) as (-> & Hi & Hpr & Hc).
  { unfold fs_rename, file_at in E. simpl in *. rewrite Em in *. simpl in *. rewrite Hf, Hp in E.
    injection E as <- <-. simpl. eauto. }
  exists s1. split; [done|]. apply fs_rename_lookup in E as (_ & H1 & H2 & H3); [|done].
  split; [rewrite H1; unfold file_at; simpl in *; by rewrite Em in *|].
  split; [done|]. split; [|done]. intros d n' Hn. apply H3; congruence.
Qed.

(** What [claim_oldest] does when every call succeeds. *)
Lemma claim_oldest_healthy s c m p :
  q_incoming s = Some m → q_processing s = Some p →
  (claim (healthy s c) = (healthy s c, Ok None) ∧ ∀ e, ¬ claimable s e)
  ∨ ∃ n f s1, oldest s (qf_modified f, n) ∧ file_at Incoming n s = Some f
      ∧ fs_rename Incoming n Processing n s = (s1, Ok ())
      ∧ claim (healthy s c) = match parse_incoming (qf_content f) with
          | Ok payload => (healthy s1 c, Ok (Some {| cm_file_name := n;
              cm_payload := normalize_inbound_payload payload |}))
          | Err e =>
              let '(w2, r) := requeue_processing_file sha256 paths n (healthy s1 c) in
              match r with
              | Ok _ => (w2, Err (QParse (path_join (qp_processing paths) n) e))
              | Err e' => (w2, Err e')
              end
          end.
Proof.
  intros Hm Hp. unfold claim_oldest. rewrite bind_run.
  destruct (sorted_incoming_healthy s c m Hm) as (names & -> & Hnames).
  destruct names as [|n names]; [by left|right].
  destruct Hnames as (f & Hf & Hold).
  destruct (fs_rename_claim n s p f Hf Hp) as (s1 & Hren & Hproc & _).
  exists n, f, s1. split; [done|]. split; [done|]. split; [done|].
  cbn [claim_first]. rewrite bind_run. unfold attempt, healthy. rewrite sys_healthy, Hren.
  simpl. rewrite bind_run, sys_healthy. unfold fs_read_to_string. simpl. rewrite Hproc.
  destruct (parse_incoming (qf_content f)) as [payload|e]; [done|].
  rewrite bind_run. by destruct (requeue_processing_file _ _ _ _) as [w2 [r|e']].
Qed.

(** On a healthy disk [claim_oldest] claims a message exactly when there is
    a claimable file, takes the one with the least modification time (the least
    name among equals), moves that file from [incoming] to [processing] and
    touches no other file; the payload is the parsed content with its file
    list normalised. *)
Theorem claim_oldest_takes_oldest (s : queue_fs) (c : list Z)
    (m p : gmap string qfile) (Hm : q_incoming s = Some m) (Hp : q_processing s = Some p)
    (Hparse : ∀ n f, claimable s (qf_modified f, n) → m !! n = Some f →
      is_Some (result_ok (parse_incoming (qf_content f)))) :
  let '(w', r) := claim_oldest sha256 parse_incoming paths (World s (Env [] c)) in
  match r with
  | Ok None => st w' = s ∧ ∀ e, ¬ claimable s e
  | Ok (Some claimed) => ∃ f payload,
      oldest s (qf_modified f, cm_file_name claimed)
      ∧ m !! cm_file_name claimed = Some f
      ∧ parse_incoming (qf_content f) = Ok payload
      ∧ cm_payload claimed = normalize_inbound_payload payload
      ∧ file_at Incoming (cm_file_name claimed) (st w') = None
      ∧ file_at Processing (cm_file_name claimed) (st w') = Some f
      ∧ ∀ d n, n ≠ cm_file_name claimed → file_at d n (st w') = file_at d n s
  | Err _ => False
  end.
Proof.
  fold (healthy s c).
  destruct (claim_oldest_healthy s c m p Hm Hp) as [[-> Hnone]|(n & f & s1 & Hold & Hf & Hren & ->)];
    [done|].
  assert (m !! n = Some f) as Hmn by (unfold file_at in Hf; simpl in Hf; by rewrite Hm in Hf).
  destruct (Hparse n f (proj1 Hold) Hmn) as [payload Hpl].
  destruct (parse_incoming (qf_content f)) as [pl|e] eqn:Epl; [|done].
  simpl in Hpl. injection Hpl as ->.
  destruct (fs_rename_claim n s p f Hf Hp) as (s1' & Hren' & H1 & H2 & H3 & _).
  rewrite Hren in Hren'. injection Hren' as <-.
  exists f, payload. by repeat (split; [done|]).
Qed.

(** *** A poison message *)
Definition poisoned (s : queue_fs) : Prop :=
  is_Some (q_incoming s) ∧ is_Some (q_processing s) ∧ (0 ≤ q_requeue_counter s)%Z
  ∧ ∃ n f, file_at Incoming n s = Some f ∧ is_valid_queue_json_filename n = true
      ∧ is_ok (parse_incoming (qf_content f)) = false
      ∧ ∀ n' f', n' ≠ n → file_at Incoming n' s = Some f' → (qf_modified f < qf_modified f')%Z.

(** [claim_oldest] called [k] times in a row. *)
Fixpoint claims (k : nat) (w : world queue_fs) :
    list (result QueueError (option ClaimedMessage)) :=
  match k with
  | O => []
  | S k => let '(w', r) := claim w in r :: claims k w'
  end.

Lemma claim_poisoned s c :
  (∀ x, Forall (λ b, 0 ≤ b < 256)%Z (sha256 x)) → poisoned s →
  ∃ s' e, claim (healthy s c) = (healthy s' c, Err e) ∧ poisoned s'.
Proof.
  intros Hsha ([m Hm] & [p Hp] & Hc & n & f & Hf & Hv & Hbad & Hmin).
  destruct (claim_oldest_healthy s c m p Hm Hp)
    as [[_ Hnone]|(n1 & f1 & s1 & [[Hv1 _] Hold] & Hf1 & Hren & ->)].
  { exfalso. apply (Hnone (qf_modified f, n)). split; [done|]. simpl. by rewrite Hf. }
  assert (n1 = n) as ->.
  { destruct (decide (n1 = n)) as [|Hne]; [done|exfalso].
    pose proof (Hmin n1 f1 Hne Hf1) as Hlt.
    destruct (Hold (qf_modified f, n)) as [H|[H _]]; simpl in *;
      [split; [done|]; simpl; by rewrite Hf|lia|lia]. }
  rewrite Hf in Hf1. injection Hf1 as <-.
  destruct (parse_incoming (qf_content f)) as [?|e] eqn:Epar; [done|].
  destruct (fs_rename_claim n s p f Hf Hp)
    as (s1' & Hren' & H1 & H2 & H3 & [m1 Hi] & [p1 Hpr] & Hcnt).
  rewrite Hren in Hren'. injection Hren' as <-.
  pose proof (requeue_processing_run n (healthy s1 c)) as Hrq.
  unfold requeue_processing_file in *. rewrite bind_run in *.
  unfold unique_requeue_name, fetch_add_counter in *. rewrite !bind_run in *. simpl in *.
  rewrite !bind_run in *. unfold io_map_err in *. rewrite sys_healthy in *.
  set (att := u32_sat_add _ 1) in *. set (cnt := q_requeue_counter s1) in *.
  set (s2 := set_counter _ s1) in *. set (nn := requeue_name sha256 n att cnt) in *.
  assert (in_u32 att) as Hatt.
  { pose proof (requeue_attempt_in_u32 n). apply u32_sat_add_in; [done|by unfold_widths]. }
  assert (fs_rename Processing n Incoming nn s2
    = (set_dir Incoming (Some (<[nn := f]> m1)) (set_dir Processing (Some (delete n p1)) s2),
       Ok ())) as Hr2.
  { unfold fs_rename, file_at in *. simpl in *. rewrite Hpr in *. simpl in *.
    by rewrite H1, Hi. }
  rewrite Hr2 in *. simpl in *. destruct Hrq as (_ & _ & Hq1 & _ & Hq2).
  do 2 eexists. split; [reflexivity|].
  split; [by eexists|]. split; [by eexists|]. split; [apply Z.mod_pos_bound; unfold u64_max; lia|].
  exists nn, f. split; [by rewrite Hq1|].
  split; [apply requeue_name_valid; [done|unfold_widths; lia|lia|done]|].
  split; [by rewrite Epar|]. intros n' f' Hn' Hf'.
  destruct (decide (n' = n)) as [->|Hne].
  { exfalso. rewrite Hq2 in Hf' by congruence. congruence. }
  apply (Hmin n'); [done|]. rewrite <- (H3 Incoming n') by done. rewrite <- Hq2 by congruence.
  exact Hf'.
Qed.

(** A malformed message blocks its queue: when the file that has been in
    [incoming] longest is not a valid message, every later call of
    [claim_oldest] returns an error, however often it is called and although
    no I/O error occurs, because the file goes back with its modification
    time and is never dead-lettered.  The valid messages behind it are not
    served. *)
Theorem poison_message_blocks_queue (s : queue_fs) (c : list Z) (k : nat)
    (Hsha : ∀ x, Forall (λ b, 0 ≤ b < 256)%Z (sha256 x)) (Hs : poisoned s) :
  Forall (λ r, is_ok r = false) (claims k (World s (Env [] c)))
  ∧ length (claims k (World s (Env [] c))) = k.
Proof.
  revert s Hs. induction k as [|k IH]; intros s Hs; [done|].
  cbn [claims]. destruct (claim_poisoned s c Hsha Hs) as (s' & e & Heq & Hs').
  unfold healthy in Heq. rewrite Heq. destruct (IH s' Hs') as [H1 H2].
  split; [by constructor|]. simpl. by rewrite H2.
Qed.
End guarantees.

(** ** Concrete instances *)
Definition demo_sha (s : string) : list Z := replicate 32 (Z.of_nat (String.length s) mod 256)%Z.
Lemma demo_sha_bytes s : Forall (λ b, 0 ≤ b < 256)%Z (demo_sha s).
Proof. apply Forall_replicate. apply Z.mod_pos_bound. lia. Qed.

Definition demo_incoming (message : string) : IncomingMessage := {|
  im_channel := "local"; im_channel_profile_id := None; im_sender := "Ada";
  im_sender_id := "u1"; im_message := message; im_timestamp := 100; im_message_id := "m1";
  im_conversation_id := None; im_is_direct := true; im_is_thread_reply := false;
  im_is_mentioned := false; im_files := []; im_workflow_run_id := None;
  im_workflow_step_id := None |}.
Definition demo_outgoing : OutgoingMessage := {|
  om_channel := "local"; om_channel_profile_id := None; om_sender := "Ada";
  om_message := "hello"; om_original_message := "hi"; om_timestamp := 100;
  om_message_id := "m1"; om_agent := "main"; om_conversation_id := None;
  om_target_ref := None; om_files := []; om_workflow_run_id := None;
  om_workflow_step_id := None |}.
Definition demo_parse (raw : string) : result string IncomingMessage :=
  if String.eqb raw "garbage" then Err "expected value" else Ok (demo_incoming raw).
Definition demo_dead_letter (failed_at attempt : Z) (error path : string)
  (m : IncomingMessage) : string := error.
Definition demo_paths : QueuePaths := from_state_root "/state".
Definition demo_claimed (name : string) : ClaimedMessage :=
  {| cm_file_name := name; cm_payload := demo_incoming "hi" |}.
Definition demo_fs (incoming processing : gmap string qfile) : queue_fs := {|
  q_incoming := Some incoming; q_processing := Some processing; q_outgoing := Some ∅;
  q_failed := None; q_requeue_counter := 0; q_log := [] |}.
(** The disk refuses the second call. *)
Definition demo_world (s : queue_fs) : world queue_fs :=
  World s (Env [None; Some (IoError OtherKind "disk full")] [7%Z]).

Lemma write_outgoing_message_fresh_witness :
  (0 ≤ 3)%Z ∧
  (write_outgoing_message om_message (λ _, false) demo_paths demo_outgoing 3
    (demo_world (demo_fs ∅ ∅))).2 ≠ Ok None.
Proof.
  split; [lia|].
  pose proof (write_outgoing_message_fresh om_message (λ _, false) demo_paths demo_outgoing 3
    (demo_world (demo_fs ∅ ∅)) ltac:(lia)) as H.
  destruct (write_outgoing_message _ _ _ _ _ _). exact (proj1 H).
Defined.

Definition demo_processing : queue_fs := demo_fs ∅ {["a.json" := QFile 1 "hi"]}.
Lemma requeue_or_dead_letter_custody_witness :
  let out := requeue_or_dead_letter_failure demo_sha demo_dead_letter demo_paths
    (demo_claimed "a.json") 3 "boom" (demo_world demo_processing) in
  match out.2 with Ok (Requeued m) => rm_attempt m = 1%Z | _ => False end.
Proof.
  pose proof (requeue_or_dead_letter_custody demo_sha demo_dead_letter demo_paths
    (demo_claimed "a.json") 0 3 "boom" (demo_world demo_processing) demo_sha_bytes
    ltac:(simpl; lia) ltac:(unfold_widths; lia)
    (attempts_new demo_sha "a.json" ltac:(vm_compute; reflexivity))) as H.
  cbv zeta. destruct (requeue_or_dead_letter_failure _ _ _ _ _ _ _) as [w' r] eqn:E.
  assert (is_ok r = true) as Hok
    by (change r with (w', r).2; rewrite <- E; vm_compute; reflexivity).
  destruct r as [[m|n a]|e]; [|exfalso|done]; simpl in *.
  - by destruct H as (_ & -> & _).
  - destruct H as (H1 & -> & _). unfold_widths. lia.
Defined.

Definition demo_two_files : gmap string qfile :=
  {["b.json" := QFile 5 "second"; "a.json" := QFile 3 "first"]}.
Definition demo_two : queue_fs := demo_fs demo_two_files ∅.
Lemma demo_parse_ok (n : string) (f : qfile) : claimable demo_two (qf_modified f, n) →
  demo_two_files !! n = Some f →
  is_Some (result_ok (demo_parse (qf_content f))).
Proof.
  intros _ Hf. unfold demo_parse. unfold demo_two_files in Hf.
  assert (qf_content f = "first" ∨ qf_content f = "second") as [-> | ->]; [|by eexists..].
  apply lookup_insert_Some in Hf as [[_ <-]|[_ Hf]]; [by right|].
  apply lookup_singleton_Some in Hf as [_ <-]. by left.
Qed.
Lemma claim_oldest_takes_oldest_witness :
  let out := claim_oldest demo_sha demo_parse demo_paths (World demo_two (Env [] [])) in
  ∃ claimed, out.2 = Ok (Some claimed) ∧ file_at Incoming (cm_file_name claimed) (st out.1) = None.
Proof.
  pose proof (claim_oldest_takes_oldest demo_sha demo_parse demo_paths demo_two []
    demo_two_files ∅ eq_refl eq_refl
    demo_parse_ok) as H.
  cbv zeta. destruct (claim_oldest _ _ _ _) as [w' r] eqn:E.
  assert (match r with Ok (Some _) => true | _ => false end = true) as Hok
    by (change r with (w', r).2; rewrite <- E; vm_compute; reflexivity).
  destruct r as [[claimed|]|e]; [|discriminate Hok..].
  destruct H as (f & payload & _ & _ & _ & _ & Hgone & _).
  exists claimed. split; [reflexivity|exact Hgone].
Defined.

Definition demo_poison : queue_fs :=
  demo_fs {["b.json" := QFile 5 "second"; "a.json" := QFile 3 "garbage"]} ∅.
Lemma demo_poison_poisoned : poisoned demo_parse demo_poison.
Proof.
  split; [by eexists|]. split; [by eexists|]. split; [done|].
  exists "a.json", (QFile 3 "garbage"). split; [done|]. split; [vm_compute; reflexivity|].
  split; [done|]. intros n' f' Hne Hf. unfold file_at in Hf. simpl in Hf.
  apply lookup_insert_Some in Hf as [[_ <-]|[_ Hf]]; [simpl; lia|].
  apply lookup_singleton_Some in Hf as [? _]. congruence.
Qed.
Lemma poison_message_blocks_queue_witness :
  poisoned demo_parse demo_poison ∧
  length (claims demo_sha demo_parse demo_paths 5 (World demo_poison (Env [] []))) = 5
  ∧ Forall (λ r, is_ok r = false)
      (claims demo_sha demo_parse demo_paths 5 (World demo_poison (Env [] []))).
Proof.
  destruct (poison_message_blocks_queue demo_sha demo_parse demo_paths demo_poison [] 5
    demo_sha_bytes demo_poison_poisoned) as [H1 H2].
  split; [exact demo_poison_poisoned|]. by split.
Defined.
