(* ===== verification/Recovery.v ===== *)
(** * Recovery of the queue after a crash

    [src/src/runtime/recovery.rs] on the file model of [QueueLifecycle]: the
    files a crash left in [processing] go back to [incoming], except duplicates
    of a message and messages that have been answered.  A file is identified by
    its name in the directory; [report] lists names where the source lists
    paths.  Decoding messages is a parameter. *)
From S2P Require Import Prelude RustStr RustPath Io QueueMessage FileTags QueueLifecycle QueueNames QueueGuarantees.
From Stdlib Require Import Ascii.

Local Open Scope string_scope.
Local Open Scope list_scope.

(** The channel and the id of a message. *)
Definition message_key : Type := string * string.

Record ProcessingRecoveryReport := {
  pr_recovered : list string;
  pr_dropped_duplicates : list string;
}.

Section recovery.
Context (sha256 : string → list Z).
Context (parse_incoming : string → result string IncomingMessage).
Context (parse_outgoing : string → result string OutgoingMessage).
Context (paths : QueuePaths).

Definition recovered_processing_filename (index : Z) (name : string) : string :=
  let ext := from_option id "json" (extension name) in
  "recovered_" +:+ fmt_int index +:+ "_" +:+ short_name_hash sha256 name +:+ "." +:+ ext.

Definition file_err (what : string) (d : qdir) (name : string) (e : io_error) : string :=
  what +:+ path_join (dir_path paths d) name +:+ ": " +:+ ioe_display e.

(** [path.is_file()] of a directory entry: an error means no. *)
Definition entry_is_file {E} (d : qdir) (name : string) : IO queue_fs E bool :=
  r ← attempt (sys (fs_metadata_modified d name)); mret (is_ok r).

Definition processing_message_key (name : string) : IO queue_fs string (option message_key) :=
  raw ← io_map_err (file_err "failed to read processing file " Processing name)
          (sys (fs_read_to_string Processing name));
  mret (match parse_incoming raw with
        | Ok incoming => Some (im_channel incoming, im_message_id incoming)
        | Err _ => None
        end).

(** The body of the loop over the outgoing directory. *)
Definition collect_outgoing_entry (keys : gset message_key) (name : string) :
    IO queue_fs string (gset message_key) :=
  if negb (bool_decide (extension name = Some "json")) then mret keys else
  file ← entry_is_file Outgoing name;
  if negb file then mret keys else
  outgoing_raw ← io_map_err (file_err "failed to read outgoing file " Outgoing name)
                   (sys (fs_read_to_string Outgoing name));
  match parse_outgoing outgoing_raw with
  | Ok outgoing => mret ({[ (om_channel outgoing, om_message_id outgoing) ]} ∪ keys)
  | Err _ => mret keys
  end.
Definition collect_outgoing_message_keys : IO queue_fs string (gset message_key) :=
  read_dir ← attempt (sys (fs_read_dir Outgoing));
  match read_dir with
  | Ok names => io_for_fold collect_outgoing_entry names ∅
  | Err err => if decide (ioe_kind err = NotFound) then mret ∅ else throw (ioe_display err)
  end.

Definition keep_file (entries : list string) (name : string) : IO queue_fs string (list string) :=
  file ← entry_is_file Processing name;
  mret (if (file : bool) then entries ++ [name] else entries).
(** The entries of the processing directory, sorted and numbered. *)
Definition processing_entries : IO queue_fs string (list (Z * string)) :=
  names ← io_map_err ioe_display (sys (fs_read_dir Processing));
  entries ← io_for_fold keep_file names [];
  mret (imap (λ i name, (Z.of_nat i, name)) (merge_sort String.le entries)).

Definition usable_name (name : string) : string :=
  if is_empty (trim name) then "message.json" else name.

(** The body of the loop: the report and the set of keys seen so far. *)
Definition recover_entry (outgoing_keys : gset message_key)
    (acc : ProcessingRecoveryReport * gset message_key) (entry : Z * string) :
    IO queue_fs string (ProcessingRecoveryReport * gset message_key) :=
  let '(report, seen) := acc in
  let '(index, processing_name) := entry in
  key ← processing_message_key processing_name;
  let duplicate := match key with
    | Some key => bool_decide (key ∈ outgoing_keys) || bool_decide (key ∈ seen)
    | None => false
    end in
  let seen' := match key with
    | Some key => if bool_decide (key ∈ outgoing_keys) then seen else {[ key ]} ∪ seen
    | None => seen
    end in
  if (duplicate : bool) then
    io_map_err (file_err "failed to drop duplicate processing file " Processing processing_name)
      (sys (fs_remove_file Processing processing_name)) ;;
    mret ({| pr_recovered := pr_recovered report;
             pr_dropped_duplicates := pr_dropped_duplicates report ++ [processing_name] |}, seen')
  else
    let target := recovered_processing_filename index (usable_name processing_name) in
    io_map_err (file_err "failed to recover processing file " Processing processing_name)
      (sys (fs_rename Processing processing_name Incoming target)) ;;
    mret ({| pr_recovered := pr_recovered report ++ [target];
             pr_dropped_duplicates := pr_dropped_duplicates report |}, seen').

Definition recover_queue_processing_paths : IO queue_fs string ProcessingRecoveryReport :=
  outgoing_keys ← collect_outgoing_message_keys;
  entries ← processing_entries;
  acc ← io_for_fold (recover_entry outgoing_keys) entries
          ({| pr_recovered := []; pr_dropped_duplicates := [] |}, ∅);
  mret acc.1.

(** ** What recovery means for a message *)
Definition key_of (f : qfile) : option message_key :=
  match parse_incoming (qf_content f) with
  | Ok m => Some (im_channel m, im_message_id m)
  | Err _ => None
  end.
Definition key_at (s : queue_fs) (n : string) : option message_key :=
  f ← file_at Processing n s; key_of f.
(** The message has an answer in the outgoing directory. *)
Definition answered (s : queue_fs) (k : message_key) : Prop :=
  ∃ n f m, file_at Outgoing n s = Some f ∧ extension n = Some "json"
    ∧ parse_outgoing (qf_content f) = Ok m ∧ k = (om_channel m, om_message_id m).
Definition target (e : Z * string) : string := recovered_processing_filename e.1 (usable_name e.2).
(** The file [n] of [processing] is still there, or back in [incoming]. *)
Definition survives (s' : queue_fs) (n : string) (f : qfile) : Prop :=
  file_at Processing n s' = Some f ∨ ∃ i, file_at Incoming (target (i, n)) s' = Some f.

Lemma target_inj i j n m : (0 ≤ i)%Z → (0 ≤ j)%Z → target (i, n) = target (j, m) → i = j.
Proof.
  intros Hi Hj H. unfold target, recovered_processing_filename in H. cbn [fst snd] in H.
  apply (inj (String.append "recovered_")) in H.
  apply (f_equal (cut "_")) in H. rewrite !cut_app_not_in in H by (by apply fmt_int_name_chars).
  injection H as H _. by apply (inj fmt_int).
Qed.

(** *** Reading the directories *)
Lemma wp_entry_is_file (h : bool) {E} d name (Φ : result E bool → queue_fs → Prop)
    (s : queue_fs) :
  (h = false → Φ (Ok false) s) → Φ (Ok (bool_decide (is_Some (file_at d name s)))) s →
  wp h (entry_is_file d name) Φ s.
Proof.
  intros Hf Ht. apply wp_bind, wp_attempt, wp_sys.
  - intros Hh e. apply wp_ret. by apply Hf.
  - apply wp_ret. unfold fs_metadata_modified. simpl.
    destruct (file_at d name s); exact Ht.
Qed.

Lemma elem_of_dir_names d s m n : get_dir d s = Some m →
  n ∈ (map_to_list m).*1 ↔ is_Some (file_at d n s).
Proof.
  intros Hm. unfold file_at. rewrite Hm. simpl. rewrite list_elem_of_fmap. split.
  - intros ([n' f] & -> & Hf%elem_of_map_to_list). by exists f.
  - intros [f Hf]. exists (n, f). by rewrite elem_of_map_to_list.
Qed.

(** The keys collected are those of answered messages, and on a healthy disk
    all of them. *)
Lemma wp_collect_outgoing (h : bool) (Φ : result string (gset message_key) → queue_fs → Prop)
    (s : queue_fs) :
  (∀ e, h = false → Φ (Err e) s) →
  (∀ keys, (∀ k, k ∈ keys → answered s k) → (h = true → ∀ k, answered s k → k ∈ keys) →
     Φ (Ok keys) s) →
  wp h collect_outgoing_message_keys Φ s.
Proof.
  intros Herr Hok. apply wp_bind, wp_attempt, wp_sys.
  { intros Hh e. case_decide; [apply wp_ret, Hok|by apply wp_throw, Herr].
    - set_solver.
    - by intros ->. }
  unfold fs_read_dir. destruct (get_dir Outgoing s) as [m|] eqn:Hm; cbn [fst snd].
  2: { rewrite decide_True by done. apply wp_ret, Hok; [set_solver|]. intros _ k (n & f & _ & Hf & _).
       unfold file_at in Hf. by rewrite Hm in Hf. }
  apply (wp_for_fold h (λ keys rest s', s' = s ∧ (∀ k, k ∈ keys → answered s k)
    ∧ (h = true → ∀ n f g k, n ∉ rest → file_at Outgoing n s = Some f → extension n = Some "json" →
         parse_outgoing (qf_content f) = Ok g → k = (om_channel g, om_message_id g) → k ∈ keys))).
  - split; [done|]. split; [set_solver|]. intros _ n f g k Hn Hf. exfalso. apply Hn.
    apply (elem_of_dir_names Outgoing s m n Hm). by rewrite Hf.
  - intros keys n rest s' (-> & Hsound & Hcomplete). unfold collect_outgoing_entry.
    assert (∀ keys', keys ⊆ keys' → (∀ k, k ∈ keys' → answered s k) →
      (h = true → ∀ f g k, file_at Outgoing n s = Some f → extension n = Some "json" →
         parse_outgoing (qf_content f) = Ok g → k = (om_channel g, om_message_id g) → k ∈ keys') →
      s = s ∧ (∀ k, k ∈ keys' → answered s k)
      ∧ (h = true → ∀ n f g k, n ∉ rest → file_at Outgoing n s = Some f →
           extension n = Some "json" → parse_outgoing (qf_content f) = Ok g →
           k = (om_channel g, om_message_id g) → k ∈ keys')) as Hstep.
    { intros keys' Hsub Hs Hn. split; [done|]. split; [done|]. intros Hh n' f g k Hn' Hf He Hp Hk.
      destruct (decide (n' = n)) as [->|Hne]; [by eapply Hn|].
      apply Hsub. by eapply Hcomplete; [done| |done..]; set_solver. }
    case_bool_decide as Hext; simpl.
    2: { apply wp_ret, Hstep; [done|done|]. by intros _ f g k _ ?. }
    apply wp_bind, wp_entry_is_file; simpl.
    { intros ->. apply wp_ret, Hstep; done. }
    destruct (file_at Outgoing n s) as [f|] eqn:Hf; simpl.
    2: { apply wp_ret, Hstep; [done|done|]. by intros _ f g k. }
    apply wp_bind, wp_map_err, wp_sys; simpl.
    { intros -> e. by apply Herr. }
    rewrite Hf. simpl. destruct (parse_outgoing (qf_content f)) as [g|err] eqn:Hp; apply wp_ret, Hstep.
    + set_solver.
    + intros k [->%elem_of_singleton|Hk]%elem_of_union; [|by apply Hsound]. by exists n, f, g.
    + intros _ f' g' k [= <-] _ Hp' ->. rewrite Hp in Hp'. injection Hp' as <-. set_solver.
    + done.
    + done.
    + intros _ f' g' k [= <-] _ Hp'. by rewrite Hp in Hp'.
  - intros keys s' (-> & Hsound & Hcomplete). apply Hok; [done|].
    intros Hh k (n & f & g & ? & ? & ? & ?). by eapply Hcomplete; [done|apply not_elem_of_nil|done..].
Qed.
Lemma wp_message_key (h : bool) n f
    (Φ : result string (option message_key) → queue_fs → Prop) (s : queue_fs) :
  file_at Processing n s = Some f → (∀ e, h = false → Φ (Err e) s) → Φ (Ok (key_of f)) s →
  wp h (processing_message_key n) Φ s.
Proof.
  intros Hf Herr Hok. apply wp_bind, wp_map_err, wp_sys; [by intros ? ?; apply Herr|].
  unfold fs_read_to_string. rewrite Hf. by apply wp_ret.
Qed.

(** What the numbered list of entries is. *)
Definition entries_of (s : queue_fs) (entries : list (Z * string)) : Prop :=
  NoDup entries.*2
  ∧ (∀ n, n ∈ entries.*2 → is_Some (file_at Processing n s))
  ∧ ∀ e1 e2, e1 ∈ entries → e2 ∈ entries → target e1 = target e2 → e1 = e2.

Lemma numbered_snd (l : list string) : (imap (λ i n, (Z.of_nat i, n)) l).*2 = l.
Proof. rewrite fmap_imap. etrans; [apply (imap_const id)|apply list_fmap_id]. Qed.
Lemma numbered_target_inj (l : list string) e1 e2 :
  e1 ∈ imap (λ i n, (Z.of_nat i, n)) l → e2 ∈ imap (λ i n, (Z.of_nat i, n)) l →
  target e1 = target e2 → e1 = e2.
Proof.
  intros (i & n & -> & Hi)%elem_of_lookup_imap (j & m & -> & Hj)%elem_of_lookup_imap Ht.
  apply target_inj in Ht; [|lia..]. apply Nat2Z.inj in Ht as ->. congruence.
Qed.

Lemma wp_processing_entries (h : bool)
    (Φ : result string (list (Z * string)) → queue_fs → Prop) (s : queue_fs) :
  (∀ e, h = false ∨ q_processing s = None → Φ (Err e) s) →
  (∀ entries, entries_of s entries →
     (h = true → ∀ n, is_Some (file_at Processing n s) → n ∈ entries.*2) → Φ (Ok entries) s) →
  wp h processing_entries Φ s.
Proof.
  intros Herr Hok. apply wp_bind, wp_map_err, wp_sys; [by intros ? ?; apply Herr; left|].
  unfold fs_read_dir. destruct (get_dir Processing s) as [m|] eqn:Hm; cbn [fst snd map_err].
  2: { apply Herr. by right. }
  apply wp_bind, (wp_for_fold h (λ kept rest s', s' = s ∧ NoDup (kept ++ rest)
    ∧ (∀ n, n ∈ kept ++ rest → is_Some (file_at Processing n s))
    ∧ (h = true → ∀ n, is_Some (file_at Processing n s) → n ∈ kept ++ rest))).
  - split; [done|]. split; [apply NoDup_fst_map_to_list|].
    split; [intros n; apply (elem_of_dir_names Processing s m n Hm)|].
    intros _ n. apply (elem_of_dir_names Processing s m n Hm).
  - intros kept n rest s' (-> & Hnd & Hsound & Hall). apply wp_bind, wp_entry_is_file.
    + intros Hh. apply wp_ret. split; [done|].
      assert (sublist (kept ++ rest) (kept ++ n :: rest)) as Hsub
        by (apply sublist_app; [done|]; by constructor).
      split; [by eapply sublist_NoDup|].
      split; [|by rewrite Hh]. intros x Hx. apply Hsound. set_solver.
    + rewrite bool_decide_eq_true_2 by (apply Hsound; set_solver). apply wp_ret.
      by rewrite <- (assoc_L (++)).
  - intros kept s' (-> & Hnd & Hsound & Hall). apply wp_ret, Hok; rewrite ?app_nil_r in *.
    + split; [|split].
      * by rewrite numbered_snd, merge_sort_Permutation.
      * intros n. rewrite numbered_snd, merge_sort_Permutation. apply Hsound.
      * apply numbered_target_inj.
    + intros Hh n Hn. rewrite numbered_snd, merge_sort_Permutation. by apply Hall.
Qed.

(** *** The loop *)
Section loop.
Context (s0 : queue_fs) (okeys : gset message_key) (entries : list (Z * string)).
Hypothesis entries_s0 : entries_of s0 entries.

(** After some entries: those moved and those dropped, the state [s]. *)
Record rec_inv (moved dropped rest : list (Z * string))
    (acc : ProcessingRecoveryReport * gset message_key) (s : queue_fs) : Prop := {
  ri_entries : entries ≡ₚ moved ++ dropped ++ rest;
  ri_report : acc.1 = {| pr_recovered := target <$> moved; pr_dropped_duplicates := dropped.*2 |};
  ri_moved : ∀ e, e ∈ moved → ∃ f, file_at Processing e.2 s0 = Some f
    ∧ file_at Incoming (target e) s = Some f
    ∧ ∀ k, key_of f = Some k → k ∈ acc.2 ∧ k ∉ okeys;
  ri_dropped : ∀ e, e ∈ dropped → ∃ k, key_at s0 e.2 = Some k ∧ (k ∈ okeys ∨ k ∈ acc.2);
  ri_seen : ∀ k, k ∈ acc.2 → ∃ e, e ∈ moved ∧ key_at s0 e.2 = Some k;
  ri_once : NoDup (omap (λ e, key_at s0 e.2) moved);
  ri_gone : ∀ n, n ∈ (moved ++ dropped).*2 → file_at Processing n s = None;
  ri_kept : ∀ n, n ∉ (moved ++ dropped).*2 → file_at Processing n s = file_at Processing n s0;
  ri_incoming : ∀ n, n ∉ target <$> moved → file_at Incoming n s = file_at Incoming n s0;
  ri_others : ∀ d n, d ≠ Processing → d ≠ Incoming → file_at d n s = file_at d n s0;
  ri_dir : is_Some (q_incoming s) ↔ is_Some (q_incoming s0);
}.

Lemma rec_inv_init : rec_inv [] [] entries
  ({| pr_recovered := []; pr_dropped_duplicates := [] |}, ∅) s0.
Proof.
  split; try done; try (intros ? H; by apply not_elem_of_nil in H).
  constructor.
Qed.

(** The next entry has not been touched. *)
Lemma rec_inv_next moved dropped e rest acc s :
  rec_inv moved dropped (e :: rest) acc s →
  e.2 ∉ (moved ++ dropped).*2
  ∧ (∀ e', e' ∈ moved → target e' ≠ target e)
  ∧ ∃ f, file_at Processing e.2 s0 = Some f ∧ file_at Processing e.2 s = Some f.
Proof.
  intros [Hent _ _ _ _ _ _ Hkept _ _ _].
  destruct entries_s0 as (Hnd & Hin & Hinj).
  assert (e.2 ∉ (moved ++ dropped).*2) as Hnew.
  { rewrite Hent in Hnd. rewrite (assoc_L (++)), fmap_app, fmap_cons in Hnd.
    apply NoDup_app in Hnd as (_ & Hd & _). intros H. apply (Hd _ H). by left. }
  assert (∀ e', e' ∈ moved ∨ e' = e → e' ∈ entries) as Hent'.
  { intros e' He. rewrite Hent. set_solver. }
  split; [done|]. split.
  - intros e' He Ht. apply Hinj in Ht as ->; [|by apply Hent'; auto..].
    apply Hnew. rewrite fmap_app. apply elem_of_app. left. by apply list_elem_of_fmap_2.
  - destruct (Hin e.2) as [f Hf]; [by apply list_elem_of_fmap_2, Hent'; right|].
    exists f. split; [done|]. by rewrite Hkept.
Qed.

Lemma rec_inv_drop moved dropped e rest acc s s' k :
  rec_inv moved dropped (e :: rest) acc s →
  key_at s0 e.2 = Some k → k ∈ okeys ∨ k ∈ acc.2 →
  fs_remove_file Processing e.2 s = (s', Ok ()) →
  rec_inv moved (dropped ++ [e]) rest
    ({| pr_recovered := pr_recovered acc.1;
        pr_dropped_duplicates := pr_dropped_duplicates acc.1 ++ [e.2] |}, acc.2) s'.
Proof.
  intros Hi Hk Hdup Hrm. pose proof (rec_inv_next _ _ _ _ _ _ Hi) as (Hnew & _ & _).
  assert (is_Some (q_incoming s') ↔ is_Some (q_incoming s)) as Hdir.
  { revert Hrm. unfold fs_remove_file. destruct (file_at _ _ _); [|done]. by intros [= <-]. }
  apply fs_remove_lookup in Hrm as [Hgone Hsame]. destruct Hi. split; simpl.
  - rewrite ri_entries0, <- !(assoc_L (++)). done.
  - rewrite ri_report0. simpl. by rewrite fmap_app.
  - intros e' He. rewrite Hsame by done. by apply ri_moved0.
  - intros e' [He| ->%list_elem_of_singleton]%elem_of_app; [by apply ri_dropped0|by exists k].
  - done.
  - done.
  - intros n. rewrite (assoc_L (++)), fmap_app. intros [Hn| ->%list_elem_of_singleton]%elem_of_app.
    + rewrite Hsame; [by apply ri_gone0|]. intros [= ->]. done.
    + done.
  - intros n. rewrite (assoc_L (++)), fmap_app, not_elem_of_app.
    intros [Hn Hne%not_elem_of_cons]. rewrite Hsame by (destruct Hne; congruence). by apply ri_kept0.
  - intros n Hn. rewrite Hsame by done. by apply ri_incoming0.
  - intros d n Hd1 Hd2. rewrite Hsame by congruence. by apply ri_others0.
  - by rewrite Hdir.
Qed.

Lemma rec_inv_move moved dropped e rest acc s s' f seen' :
  rec_inv moved dropped (e :: rest) acc s →
  file_at Processing e.2 s0 = Some f →
  (∀ k, key_of f = Some k → k ∉ okeys ∧ k ∉ acc.2) →
  seen' = match key_of f with Some k => {[ k ]} ∪ acc.2 | None => acc.2 end →
  fs_rename Processing e.2 Incoming (target e) s = (s', Ok ()) →
  rec_inv (moved ++ [e]) dropped rest
    ({| pr_recovered := pr_recovered acc.1 ++ [target e];
        pr_dropped_duplicates := pr_dropped_duplicates acc.1 |}, seen') s'.
Proof.
  intros Hi Hf Hfresh Hseen Hmv. pose proof (rec_inv_next _ _ _ _ _ _ Hi) as (Hnew & Htar & f' & Hf' & Hfs).
  rewrite Hf in Hf'. injection Hf' as <-.
  assert (is_Some (q_incoming s') ↔ is_Some (q_incoming s)) as Hdir.
  { apply fs_rename_ok in Hmv as (g & m1 & m2 & H1 & _ & H2 & ->); [|done].
    simpl in H2. simpl. rewrite H2. split; by eexists. }
  apply fs_rename_lookup in Hmv as (_ & Hat & Hgone & Hsame); [|done]. rewrite Hfs in Hat.
  assert (acc.2 ⊆ seen') as Hsub by (rewrite Hseen; destruct (key_of f); set_solver).
  assert (key_at s0 e.2 = key_of f) as Hkey by (unfold key_at; by rewrite Hf).
  destruct Hi. split; simpl.
  - rewrite ri_entries0, <- !(assoc_L (++)). apply Permutation_app_head. simpl.
    by rewrite Permutation_middle.
  - rewrite ri_report0. simpl. by rewrite fmap_app.
  - intros e' [He| ->%list_elem_of_singleton]%elem_of_app.
    + destruct (ri_moved0 e' He) as (g & Hg1 & Hg2 & Hg3). exists g. split; [done|].
      pose proof (Htar e' He) as Hne.
      split; [by rewrite Hsame by congruence|].
      intros k Hk. split; [by apply Hsub, Hg3|by apply Hg3].
    + exists f. split; [done|]. split; [done|]. intros k Hk. split; [|by apply Hfresh].
      rewrite Hseen, Hk. set_solver.
  - intros e' He. destruct (ri_dropped0 e' He) as (k & Hk & [?|?]); exists k; split; auto.
  - intros k Hk. rewrite Hseen in Hk. destruct (key_of f) as [kf|] eqn:Ekf.
    + apply elem_of_union in Hk as [->%elem_of_singleton|Hk].
      * exists e. split; [set_solver|congruence].
      * destruct (ri_seen0 k Hk) as (e' & ? & ?). exists e'. split; [set_solver|done].
    + destruct (ri_seen0 k Hk) as (e' & ? & ?). exists e'. split; [set_solver|done].
  - rewrite omap_app. simpl. rewrite Hkey. destruct (key_of f) as [kf|] eqn:Ekf; [|by rewrite app_nil_r].
    apply NoDup_app. split; [done|]. split; [|apply NoDup_singleton].
    intros k Hk Hk'. apply list_elem_of_singleton in Hk' as ->.
    apply list_elem_of_omap in Hk as (e' & He' & Hke').
    destruct (ri_moved0 e' He') as (g & Hg1 & _ & Hg3). unfold key_at in Hke'. rewrite Hg1 in Hke'.
    destruct (Hfresh kf eq_refl) as [_ H]. by apply H, Hg3.
  - intros n. rewrite !fmap_app, !elem_of_app. intros [[Hn|Hn]|Hn].
    + rewrite Hsame by (done || intros [= ->]; apply Hnew; rewrite fmap_app; set_solver).
      apply ri_gone0. rewrite fmap_app. set_solver.
    + apply list_elem_of_singleton in Hn as ->. done.
    + rewrite Hsame by (done || intros [= ->]; apply Hnew; rewrite fmap_app; set_solver).
      apply ri_gone0. rewrite fmap_app. set_solver.
  - intros n Hn. rewrite Hsame; [|intros [= ->]; apply Hn; rewrite !fmap_app; set_solver|done].
    apply ri_kept0. rewrite !fmap_app in *. set_solver.
  - intros n Hn. rewrite fmap_app, not_elem_of_app in Hn.
    destruct Hn as [Hn [Hne _]%not_elem_of_cons]. rewrite Hsame by (done || congruence).
    by apply ri_incoming0.
  - intros d n Hd1 Hd2. rewrite Hsame by congruence. by apply ri_others0.
  - by rewrite Hdir.
Qed.

Lemma wp_recover_entry (h : bool) moved dropped e rest acc s :
  rec_inv moved dropped (e :: rest) acc s →
  wp h (recover_entry okeys acc e) (λ r s', match r with
    | Ok acc' => ∃ moved' dropped', rec_inv moved' dropped' rest acc' s'
    | Err _ => (h = false ∨ q_incoming s0 = None) ∧ rec_inv moved dropped (e :: rest) acc s'
    end) s.
Proof.
  intros Hi. pose proof (rec_inv_next _ _ _ _ _ _ Hi) as (_ & _ & f & Hf0 & Hf).
  destruct acc as [report seen], e as [i n]. simpl in Hf0, Hf.
  apply wp_bind, (wp_message_key _ n f); [done|by intros ? Hh; split; [left|]|].
  set (fresh := match key_of f with
    | Some k => bool_decide (k ∈ okeys) || bool_decide (k ∈ seen) | None => false end).
  destruct fresh eqn:Edup; unfold fresh in Edup; clear fresh.
  - destruct (key_of f) as [k|] eqn:Ek; [|done].
    apply wp_bind, wp_map_err, wp_sys; cbn [map_err].
    { intros Hh e. split; [by left|done]. }
    destruct (fs_remove_file Processing n s) as [s' r] eqn:Hrm; cbn [fst snd].
    assert (r = Ok ()) as ->.
    { revert Hrm. unfold fs_remove_file. rewrite Hf. by intros [= _ <-]. }
    apply wp_ret. exists moved, (dropped ++ [(i, n)]).
    assert (k ∈ okeys ∨ k ∈ seen) as Hk
      by (apply orb_true_iff in Edup; rewrite !bool_decide_eq_true in Edup; done).
    assert ((if bool_decide (k ∈ okeys) then seen else {[k]} ∪ seen) = seen) as ->.
    { case_bool_decide; [done|]. destruct Hk; [done|set_solver]. }
    apply (rec_inv_drop _ _ (i, n) _ (report, seen) s s' k Hi); [|done..].
    unfold key_at. simpl. by rewrite Hf0.
  - apply wp_bind, wp_map_err, wp_sys; cbn [map_err].
    { intros Hh e. split; [by left|done]. }
    destruct (fs_rename _ _ _ _ s) as [s' [[]|err]] eqn:Hmv; cbn [fst snd map_err].
    + apply wp_ret. exists (moved ++ [(i, n)]), dropped.
      apply (rec_inv_move _ _ (i, n) _ (report, seen) s s' f); [done|done| | |done].
      * intros k Hk. rewrite Hk in Edup. apply orb_false_iff in Edup.
        by rewrite !bool_decide_eq_false in Edup.
      * destruct (key_of f); [|done]. apply orb_false_iff in Edup as [-> _]. done.
    + pose proof (fs_rename_err _ _ _ _ _ _ _ Hmv) as ->. split; [|done]. right.
      revert Hmv. unfold fs_rename. rewrite Hf. simpl. destruct (q_incoming s) eqn:Ei; [done|].
      intros _. destruct (q_incoming s0) eqn:E0; [|done].
      assert (is_Some (q_incoming s)) as [? ?] by (apply (ri_dir _ _ _ _ _ Hi); by rewrite E0).
      congruence.
Qed.

Lemma wp_recover_loop (h : bool) (Φ : result string (ProcessingRecoveryReport * gset message_key) →
    queue_fs → Prop) :
  (∀ e moved dropped rest acc s, rec_inv moved dropped rest acc s →
     h = false ∨ q_incoming s0 = None → Φ (Err e) s) →
  (∀ moved dropped acc s, rec_inv moved dropped [] acc s → Φ (Ok acc) s) →
  wp h (io_for_fold (recover_entry okeys) entries
          ({| pr_recovered := []; pr_dropped_duplicates := [] |}, ∅)) Φ s0.
Proof.
  intros Herr Hok. apply (wp_for_fold h (λ acc rest s, ∃ moved dropped, rec_inv moved dropped rest acc s)).
  - exists [], []. apply rec_inv_init.
  - intros acc e rest s (moved & dropped & Hi). eapply wp_mono; [by apply wp_recover_entry|].
    intros [acc'|err] s'; [done|]. intros [Hh Hi']. by eapply Herr.
  - intros acc s (moved & dropped & Hi). by eapply Hok.
Qed.
End loop.

Lemma wp_recover (h : bool) (Φ : result string ProcessingRecoveryReport → queue_fs → Prop)
    (s : queue_fs) :
  (∀ e, h = false ∨ q_processing s = None → Φ (Err e) s) →
  (∀ okeys entries moved dropped rest acc r s',
     entries_of s entries → (∀ k, k ∈ okeys → answered s k) →
     (h = true → ∀ k, answered s k → k ∈ okeys) →
     (h = true → ∀ n, is_Some (file_at Processing n s) → n ∈ entries.*2) →
     rec_inv s okeys entries moved dropped rest acc s' →
     match r with
     | Ok report => rest = [] ∧ report = acc.1
     | Err _ => h = false ∨ q_incoming s = None
     end → Φ r s') →
  wp h recover_queue_processing_paths Φ s.
Proof.
  intros Herr Hok. apply wp_bind, wp_collect_outgoing; [intros e Hh; apply Herr; by left|].
  intros okeys Hsound Hcomplete.
  apply wp_bind, wp_processing_entries; [done|]. intros entries Hent Hall.
  apply wp_bind, (wp_recover_loop s okeys entries Hent h).
  - intros e moved dropped rest acc s' Hi Hh. by eapply Hok.
  - intros moved dropped acc s' Hi. apply wp_ret. by eapply Hok.
Qed.

(** The three parts of the guarantee. *)
Definition custody (s s' : queue_fs) : Prop := ∀ n f, file_at Processing n s = Some f →
  survives s' n f
  ∨ ∃ k, key_of f = Some k
      ∧ (answered s k ∨ ∃ n' f', file_at Processing n' s = Some f' ∧ key_of f' = Some k
           ∧ survives s' n' f').
Definition untouched (s s' : queue_fs) : Prop := ∀ d n, d ≠ Processing →
  (∀ i m, (d, n) ≠ (Incoming, target (i, m))) → file_at d n s' = file_at d n s.
Definition recovered_once (s s' : queue_fs) (report : ProcessingRecoveryReport) : Prop :=
  (∀ n, file_at Processing n s' = None)
  ∧ ∀ t, t ∈ pr_recovered report → ∃ f, file_at Incoming t s' = Some f
      ∧ ∀ k, key_of f = Some k → ¬ answered s k
          ∧ ∀ t' f', t' ∈ pr_recovered report → file_at Incoming t' s' = Some f' →
              key_of f' = Some k → t' = t.

Section parts.
Context (s s' : queue_fs) (okeys : gset message_key) (entries : list (Z * string)).
Context (moved dropped rest : list (Z * string)).
Context (acc : ProcessingRecoveryReport * gset message_key).
Hypothesis inv : rec_inv s okeys entries moved dropped rest acc s'.

Lemma rec_inv_survives e f :
  e ∈ moved → file_at Processing e.2 s = Some f → survives s' e.2 f.
Proof.
  intros He Hf. destruct (ri_moved _ _ _ _ _ _ _ _ inv e He) as (g & Hg & Hin & _).
  right. exists e.1. destruct e. simpl in *. congruence.
Qed.

Lemma rec_inv_custody : (∀ k, k ∈ okeys → answered s k) → custody s s'.
Proof.
  intros Hsound n f Hf. destruct (decide (n ∈ (moved ++ dropped).*2)) as [Hn|Hn].
  - rewrite fmap_app in Hn. apply elem_of_app in Hn as [Hn|Hn].
    + apply list_elem_of_fmap in Hn as (e & -> & He). left. by apply rec_inv_survives.
    + apply list_elem_of_fmap in Hn as (e & -> & He). right.
      destruct (ri_dropped _ _ _ _ _ _ _ _ inv e He) as (k & Hk & Hwhy). exists k.
      unfold key_at in Hk. rewrite Hf in Hk. split; [done|].
      destruct Hwhy as [?|Hseen]; [left; by apply Hsound|]. right.
      destruct (ri_seen _ _ _ _ _ _ _ _ inv k Hseen) as (e' & He' & Hk').
      destruct (ri_moved _ _ _ _ _ _ _ _ inv e' He') as (g & Hg & _).
      exists e'.2, g. unfold key_at in Hk'. rewrite Hg in Hk'.
      split; [done|]. split; [done|]. by apply rec_inv_survives.
  - left. left. by rewrite (ri_kept _ _ _ _ _ _ _ _ inv n Hn).
Qed.

Lemma rec_inv_untouched : untouched s s'.
Proof.
  intros d n Hd Hn. destruct (decide (d = Incoming)) as [->|?].
  - apply (ri_incoming _ _ _ _ _ _ _ _ inv). intros ((i & m) & -> & _)%list_elem_of_fmap.
    by apply (Hn i m).
  - by apply (ri_others _ _ _ _ _ _ _ _ inv).
Qed.

Lemma rec_inv_once : rest = [] → (∀ k, answered s k → k ∈ okeys) →
  (∀ n, is_Some (file_at Processing n s) → n ∈ entries.*2) → recovered_once s s' acc.1.
Proof.
  intros -> Hcomplete Hall. destruct inv. rewrite ri_report0. split; simpl.
  - intros n. destruct (decide (n ∈ (moved ++ dropped).*2)) as [Hn|Hn]; [by apply ri_gone0|].
    rewrite ri_kept0 by done. destruct (file_at Processing n s) eqn:E; [|done].
    destruct Hn. rewrite <- (app_nil_r dropped). setoid_rewrite <- ri_entries0. by apply Hall.
  - intros t (e & -> & He)%list_elem_of_fmap.
    destruct (ri_moved0 e He) as (f & Hf & Hin & Hkey). exists f. split; [done|].
    intros k Hk. destruct (Hkey k Hk) as [_ Hno]. split; [by intros ?%Hcomplete|].
    intros t' f' (e' & -> & He')%list_elem_of_fmap Hin' Hk'.
    destruct (ri_moved0 e' He') as (g & Hg & Hing & _). rewrite Hing in Hin'. injection Hin' as ->.
    f_equal. eapply NoDup_omap_inj; [exact ri_once0|done|done|..];
      unfold key_at; [rewrite Hg|rewrite Hf]; done.
Qed.
End parts.

(** C18: Recovery loses no message, for every pattern of I/O errors.  A file found
    in [processing] is still there or is back in [incoming], unless its message
    has an answer in [outgoing] or another file of the same message survives; no
    other file is touched, up to the names of the files put back.  On a healthy
    disk [processing] is empty afterwards, and the files put back are of
    different messages, none of them answered. *)
Theorem recovery_loses_no_message (s : queue_fs) (e : env) :
  let '(w', r) := recover_queue_processing_paths (World s e) in
  custody s (st w') ∧ untouched s (st w')
  ∧ (faults e = [] → is_Some (q_incoming s) → is_Some (q_processing s) →
       ∃ report, r = Ok report ∧ recovered_once s (st w') report).
Proof.
  pose (h := bool_decide (faults e = [])).
  assert (h = true ↔ faults e = []) as Hh by apply bool_decide_eq_true.
  set (Φ := λ (r : result string ProcessingRecoveryReport) (s' : queue_fs), custody s s' ∧ untouched s s'
    ∧ (faults e = [] → is_Some (q_incoming s) → is_Some (q_processing s) →
         ∃ report, r = Ok report ∧ recovered_once s s' report)).
  assert (wp h recover_queue_processing_paths Φ s) as Hwp.
  { apply wp_recover.
    - intros err Herr. split; [by intros n f Hf; left; left|]. split; [done|].
      intros Hc _ [? Hp]. apply Hh in Hc. destruct Herr; congruence.
    - intros okeys entries moved dropped rest acc r s' _ Hsound Hcomplete Hall Hi Hr.
      split; [by eapply rec_inv_custody|]. split; [by eapply rec_inv_untouched|].
      intros Hc [? Hp] _. apply Hh in Hc. destruct r as [report|err]; [|destruct Hr; congruence].
      destruct Hr as [-> ->]. exists acc.1. split; [done|]. eapply rec_inv_once; eauto. }
  apply (wp_run _ _ _ (World s e)) in Hwp; [|intros ?; by apply Hh].
  by destruct (recover_queue_processing_paths (World s e)).
Qed.
End recovery.
