(* ===== verification/TypedFields.v ===== *)
(** * Identifiers, tags, keys and templates

    [src/src/shared/ids.rs] and [src/src/config/typed_fields.rs]: the newtypes
    around [String] are the strings their [parse] functions accept. *)
From S2P Require Import Prelude RustStr RustPath Json.
From Stdlib Require Import Ascii.

Local Open Scope string_scope.
Local Open Scope list_scope.

(** ** Identifiers *)
Definition ident_char (ch : ascii) : bool :=
  is_ascii_alphanumeric ch || Ascii.eqb ch "-" || Ascii.eqb ch "_".

Definition validate_identifier_value (kind value : string) : result string () :=
  if is_empty value then Err (kind +:+ " must be non-empty")
  else if str_forall ident_char value then Ok ()
  else Err (kind +:+ " must use only ASCII letters, digits, '-' or '_'").

(** The types [define_id_type!] makes: the text itself when it is valid. *)
Definition parse_id (kind raw : string) : result string string :=
  validate_identifier_value kind raw ;; Ok raw.
Definition OrchestratorId_parse := parse_id "orchestrator id".
Definition WorkflowId_parse := parse_id "workflow id".
Definition StepId_parse := parse_id "step id".
Definition AgentId_parse := parse_id "agent id".

(** ** Workflow inputs and tags *)
Definition normalize_workflow_input_key (raw : string) : result string string :=
  let normalized := trim raw in
  validate_identifier_value "workflow input key" normalized ;; Ok normalized.

(** [WorkflowInputs::parse_keys]: the first occurrence of each key, in order. *)
Definition parse_keys (keys : list string) : result string (list string) :=
  '(values, _) ← for_fold (λ '(values, seen) raw,
      key ← normalize_workflow_input_key raw;
      Ok (if decide (key ∈ seen) then (values, seen) else (values ++ [key], key :: seen)))
    keys ([] : list string, [] : list string);
  Ok values.

(** [serde_yaml::Value] as far as workflow inputs look at it. *)
Inductive yaml_inputs := YNull | YString (s : string) | YSequence (vs : list (option string)) | YOther.
Definition WorkflowInputs_deserialize (value : yaml_inputs) : result string (list string) :=
  match value with
  | YNull => Ok []
  | YString raw => parse_keys [raw]
  | YSequence values =>
      keys ← for_fold (λ keys value,
        raw ← ok_or "workflow inputs must be a sequence of string keys" value;
        Ok (keys ++ [raw])) values [];
      parse_keys keys
  | YOther => Err "workflow inputs must be a sequence of string keys"
  end.

Definition normalize_workflow_tag (raw : string) : result string string :=
  let normalized := to_ascii_lowercase (trim raw) in
  validate_identifier_value "workflow tag" normalized ;; Ok normalized.

(** ** Output keys *)
Record OutputKey := { ok_name : string; ok_required : bool }.
#[export] Instance OutputKey_eq_dec : EqDecision OutputKey.
Proof. solve_decision. Defined.

Definition OutputKey_parse (raw : string) : result string OutputKey :=
  let trimmed := trim raw in
  if is_empty trimmed then Err "output key must be non-empty" else
  let '(name, required) :=
    match strip_suffix "?" trimmed with
    | Some optional => (trim optional, false)
    | None => (trimmed, true)
    end in
  if is_empty name then Err "output key must be non-empty" else
  if contains "?" name then
    Err "output key may only contain optional marker as trailing `?`" else
  validate_identifier_value "output key" name ;;
  Ok {| ok_name := name; ok_required := required |}.

Definition parse_output_file_key (raw : string) : result string OutputKey :=
  parsed ← OutputKey_parse raw;
  if ok_required parsed then Ok parsed
  else Err ("output_files keys must not include optional marker `?`; " +:+
            "declare optionality only in `outputs`").

Definition OutputKey_display (key : OutputKey) : string :=
  if ok_required key then ok_name key else ok_name key +:+ "?".

Definition PathTemplate_parse (raw : string) : result string string :=
  let normalized := trim raw in
  if is_empty normalized then Err "path template must be non-empty" else Ok normalized.

(** ** Facts *)
Definition is_ident (s : string) : bool := negb (is_empty s) && str_forall ident_char s.

Lemma validate_identifier_Ok kind value u :
  validate_identifier_value kind value = Ok u ↔ is_ident value = true.
Proof.
  unfold validate_identifier_value, is_ident. destruct u, (is_empty value); [done|].
  by destruct (str_forall ident_char value).
Qed.
Lemma parse_id_Ok kind raw id : parse_id kind raw = Ok id ↔ id = raw ∧ is_ident raw = true.
Proof.
  unfold parse_id. rewrite bind_Ok. setoid_rewrite validate_identifier_Ok. split.
  - by intros (_ & ? & [= ->]).
  - intros [-> ?]. by exists ().
Qed.

Lemma ident_char_facts a : ident_char a = true →
  solid a = true ∧ not_slash a = true ∧ negb (Ascii.eqb "." a) = true
  ∧ negb (Ascii.eqb "?" a) = true ∧ negb (Ascii.eqb "{" a) = true.
Proof. destruct a as [[] [] [] [] [] [] [] []]; done. Qed.

(** Identifiers are single path components. *)
Lemma is_ident_plain s : is_ident s = true → plain_name s = true.
Proof.
  unfold is_ident. intros [Hne Hs]%andb_true_iff. apply plain_name_spec.
  assert (no_dot s = true) as Hdot.
  { eapply str_forall_impl; [|exact Hs]. by intros a (_ & _ & ? & _)%ident_char_facts. }
  split; [|split; [by intros ->|split; by intros ->]].
  eapply str_forall_impl; [|exact Hs]. by intros a (_ & ? & _)%ident_char_facts.
Qed.
Lemma is_ident_trim s : is_ident s = true → trim s = s.
Proof.
  unfold is_ident. intros [_ Hs]%andb_true_iff. apply trim_solid.
  eapply str_forall_impl; [|exact Hs]. by intros a (? & _)%ident_char_facts.
Qed.

Lemma cut_single_not_in a s :
  str_forall (λ b, negb (Ascii.eqb a b)) s = true → cut (String a "") s = None.
Proof.
  induction s as [|b s IH]; cbn [str_forall cut strip_prefix]; [done|].
  intros [Hb Hs]%andb_true_iff. rewrite IH by done. by destruct (Ascii.eqb a b).
Qed.
Lemma is_ident_no_question s : is_ident s = true → contains "?" s = false.
Proof.
  unfold is_ident. intros [_ Hs]%andb_true_iff. unfold contains. rewrite cut_single_not_in; [done|].
  eapply str_forall_impl; [|exact Hs]. by intros a (_ & _ & _ & ? & _)%ident_char_facts.
Qed.

Lemma OutputKey_parse_ident raw key : OutputKey_parse raw = Ok key → is_ident (ok_name key) = true.
Proof.
  unfold OutputKey_parse. destruct (is_empty (trim raw)); [done|].
  destruct (strip_suffix "?" (trim raw)); destruct (is_empty _); try done;
    destruct (contains _ _); try done; intros (u & Hu & [= <-])%bind_Ok; simpl;
    by apply validate_identifier_Ok in Hu.
Qed.

Lemma strip_suffix_ident s : is_ident s = true → strip_suffix "?" s = None.
Proof.
  intros Hs. destruct (strip_suffix "?" s) as [r|] eqn:E; [|done].
  apply strip_suffix_Some in E as ->. unfold is_ident in Hs.
  rewrite str_forall_app in Hs. simpl in Hs.
  destruct (negb _), (str_forall ident_char r); done.
Qed.

(** Output keys survive printing and parsing: every key [OutputKey::parse]
    accepts is an identifier that prints to a text parsing back to the same
    key, optional marker included; and exactly the non-optional ones are
    accepted as [output_files] keys. *)
Theorem output_key_roundtrip (raw : string) (key : OutputKey)
    (Hparse : OutputKey_parse raw = Ok key) :
  is_ident (ok_name key) = true
  ∧ OutputKey_parse (OutputKey_display key) = Ok key
  ∧ is_ok (parse_output_file_key raw) = ok_required key.
Proof.
  pose proof (OutputKey_parse_ident _ _ Hparse) as Hid. split; [done|]. split.
  2:{ unfold parse_output_file_key. rewrite Hparse. simpl. by destruct (ok_required key). }
  destruct key as [name required]; simpl in *. unfold OutputKey_parse, OutputKey_display. simpl.
  pose proof (proj1 (andb_true_iff _ _) Hid) as [Hne Hall].
  destruct required.
  - rewrite is_ident_trim, strip_suffix_ident by done.
    destruct (is_empty name) eqn:Ee; [done|]. rewrite is_ident_no_question by done.
    by rewrite (proj2 (validate_identifier_Ok _ _ ()) Hid).
  - rewrite trim_solid.
    2:{ rewrite str_forall_app. apply andb_true_iff. split; [|done].
        eapply str_forall_impl; [|exact Hall]. by intros a (? & _)%ident_char_facts. }
    destruct (is_empty (name +:+ "?")) eqn:Ee; [by destruct name|].
    rewrite (proj2 (strip_suffix_Some "?" _ name)) by done.
    rewrite is_ident_trim by done.
    destruct (is_empty name); [done|]. rewrite is_ident_no_question by done.
    by rewrite (proj2 (validate_identifier_Ok _ _ ()) Hid).
Qed.
Lemma output_key_roundtrip_witness :
  OutputKey_parse " artifact? " = Ok {| ok_name := "artifact"; ok_required := false |}
  ∧ is_ok (parse_output_file_key " artifact? ") = false.
Proof.
  assert (OutputKey_parse " artifact? " = Ok {| ok_name := "artifact"; ok_required := false |})
    as H by (vm_compute; reflexivity).
  split; [exact H|]. exact (proj2 (proj2 (output_key_roundtrip _ _ H))).
Defined.
