(* ===== verification/Config.v ===== *)
(** * Configuration

    The data and the validation of [src/src/config/settings.rs],
    [src/src/config/orchestrator_file.rs], [src/src/memory/config.rs] and
    [src/src/local_llm/config.rs].  YAML itself is a parameter of the callers;
    what the hand-written [Deserialize] implementations do with the parsed
    fields is modelled. *)
From S2P Require Import Prelude RustStr RustPath Io Json TypedFields.
From Stdlib Require Import Ascii QArith.

Local Open Scope string_scope.
Local Open Scope list_scope.

Inductive ConfigError : Type :=
  | CRead (path : string) (source : io_error)
  | CCreateDir (path : string) (source : io_error)
  | CWrite (path : string) (source : io_error)
  | CEncode (path source : string)
  | CParse (path source : string)
  | CSettings (reason : string)
  | COrchestrator (reason : string)
  | CMissingOrchestrator (orchestrator_id : string)
  | CHomeDirectoryUnavailable.

(** [Display] of the error, as [thiserror] derives it. *)
Definition ConfigError_display (e : ConfigError) : string :=
  match e with
  | CRead path source => "failed to read file " +:+ path +:+ ": " +:+ ioe_display source
  | CCreateDir path source =>
      "failed to create directory " +:+ path +:+ ": " +:+ ioe_display source
  | CWrite path source => "failed to write file " +:+ path +:+ ": " +:+ ioe_display source
  | CEncode path source => "failed to encode yaml for " +:+ path +:+ ": " +:+ source
  | CParse path source => "invalid yaml in " +:+ path +:+ ": " +:+ source
  | CSettings reason => "settings validation failed: " +:+ reason
  | COrchestrator reason => "orchestrator validation failed: " +:+ reason
  | CMissingOrchestrator id => "orchestrator `" +:+ id +:+ "` is not configured in settings"
  | CHomeDirectoryUnavailable => "failed to resolve home directory for global config path"
  end.

(** ** Memory and local model settings *)
Record MemoryConfig := {
  mem_enabled : bool;
  mem_retrieval_top_n : Z;
  mem_retrieval_rrf_k : Z;
  mem_ingest_enabled : bool;
  mem_ingest_max_file_size_mb : Z;
  mem_worker_interval_seconds : Z;
  mem_scope_cross_orchestrator : bool;
}.
Definition MemoryConfig_default : MemoryConfig := {|
  mem_enabled := true;
  mem_retrieval_top_n := 20;
  mem_retrieval_rrf_k := 60;
  mem_ingest_enabled := true;
  mem_ingest_max_file_size_mb := 25;
  mem_worker_interval_seconds := 30;
  mem_scope_cross_orchestrator := false;
|}.

Definition MemoryConfig_validate (c : MemoryConfig) : result string () :=
  reject_if (bool_decide (mem_retrieval_top_n c = 0%Z)) "memory.retrieval.top_n must be >= 1" ;;
  reject_if (bool_decide (mem_retrieval_rrf_k c = 0%Z)) "memory.retrieval.rrf_k must be >= 1" ;;
  reject_if (bool_decide (mem_ingest_max_file_size_mb c = 0%Z))
    "memory.ingest.max_file_size_mb must be >= 1" ;;
  reject_if (bool_decide (mem_worker_interval_seconds c = 0%Z))
    "memory.worker_interval_seconds must be >= 1" ;;
  reject_if (mem_scope_cross_orchestrator c)
    "memory.scope.cross_orchestrator=true is not supported in v1; expected false".

(** An IEEE float as far as comparisons with 0 and 1 see it. *)
Inductive float := FNaN | FInf (negative : bool) | FFinite (q : Q).
(** [(0.0..=1.0).contains(&x)], [x == 0.0], [x < 0.0]. *)
Definition float_in_unit (x : float) : bool :=
  match x with FFinite q => Qle_bool 0 q && Qle_bool q 1 | _ => false end.
Definition float_is_zero (x : float) : bool :=
  match x with FFinite q => Qeq_bool q 0 | _ => false end.
Definition float_lt_zero (x : float) : bool :=
  match x with FFinite q => negb (Qle_bool 0 q) | FInf negative => negative | FNaN => false end.

Record LocalLlmConfig := {
  llm_enabled : bool;
  llm_memory_bulletin_preprocess : bool;
  llm_thread_context_preprocess : bool;
  llm_model_repo : string;
  llm_model_file : string;
  llm_model_revision : option string;
  llm_model_sha256 : option string;
  llm_max_input_chars : Z;
  llm_max_output_chars : Z;
  llm_max_new_tokens : Z;
  llm_max_generation_millis : Z;
  llm_temperature : float;
  llm_top_p : float;
  llm_seed : Z;
  llm_context_dedup_similarity_threshold : float;
  llm_bulletin_dedup_similarity_threshold : float;
}.
Definition LocalLlmConfig_default : LocalLlmConfig := {|
  llm_enabled := false;
  llm_memory_bulletin_preprocess := true;
  llm_thread_context_preprocess := true;
  llm_model_repo := "unsloth/Qwen3.5-0.8B-GGUF";
  llm_model_file := "Qwen3.5-0.8B-UD-IQ2_M.gguf";
  llm_model_revision := None;
  llm_model_sha256 := None;
  llm_max_input_chars := 8000;
  llm_max_output_chars := 3000;
  llm_max_new_tokens := 256;
  llm_max_generation_millis := 1500;
  llm_temperature := FFinite (2 # 10);
  llm_top_p := FFinite (9 # 10);
  llm_seed := 42;
  llm_context_dedup_similarity_threshold := FFinite (88 # 100);
  llm_bulletin_dedup_similarity_threshold := FFinite (88 # 100);
|}.

Definition LocalLlmConfig_validate (c : LocalLlmConfig) : result string () :=
  reject_if (is_empty (trim (llm_model_repo c))) "local_llm.model.repo must be non-empty" ;;
  reject_if (is_empty (trim (llm_model_file c))) "local_llm.model.file must be non-empty" ;;
  reject_if (bool_decide (llm_max_input_chars c = 0%Z))
    "local_llm.inference.max_input_chars must be >= 1" ;;
  reject_if (bool_decide (llm_max_output_chars c = 0%Z))
    "local_llm.inference.max_output_chars must be >= 1" ;;
  reject_if (bool_decide (llm_max_new_tokens c = 0%Z))
    "local_llm.inference.max_new_tokens must be >= 1" ;;
  reject_if (bool_decide (llm_max_generation_millis c = 0%Z))
    "local_llm.inference.max_generation_millis must be >= 1" ;;
  reject_if (negb (float_in_unit (llm_top_p c)) || float_is_zero (llm_top_p c))
    "local_llm.inference.top_p must be in (0.0, 1.0]" ;;
  reject_if (float_lt_zero (llm_temperature c))
    "local_llm.inference.temperature must be >= 0.0" ;;
  for_each (λ '(label, value),
      reject_if (negb (float_in_unit value)) (label +:+ " must be in [0.0, 1.0]"))
    [("local_llm.inference.context_dedup_similarity_threshold",
      llm_context_dedup_similarity_threshold c);
     ("local_llm.inference.bulletin_dedup_similarity_threshold",
      llm_bulletin_dedup_similarity_threshold c)].

(** ** Settings *)
Inductive ChannelKind := Local | Slack | Discord | Telegram | Whatsapp.
Definition ChannelKind_as_str (k : ChannelKind) : string :=
  match k with
  | Local => "local" | Slack => "slack" | Discord => "discord"
  | Telegram => "telegram" | Whatsapp => "whatsapp"
  end.
Definition ChannelKind_parse (raw : string) : result string ChannelKind :=
  let lowered := to_ascii_lowercase (trim raw) in
  if String.eqb lowered "local" then Ok Local
  else if String.eqb lowered "slack" then Ok Slack
  else if String.eqb lowered "discord" then Ok Discord
  else if String.eqb lowered "telegram" then Ok Telegram
  else if String.eqb lowered "whatsapp" then Ok Whatsapp
  else Err "channel must be one of: local, slack, discord, telegram, whatsapp".

Inductive ThreadResponseMode := AlwaysReply | SelectiveReply.
Inductive SlackInboundMode := Poll | Hybrid | Socket.

Record SharedWorkspaceConfig := { sw_path : string; sw_description : string }.
Record SettingsOrchestrator := {
  so_private_workspace : option string;
  so_shared_access : list string;
}.
Record ChannelProfile := {
  cp_channel : ChannelKind;
  cp_orchestrator_id : string;
  cp_identity_mention_tokens : list string;
  cp_slack_app_user_id : option string;
  cp_require_mention_in_channels : option bool;
  cp_thread_response_mode : ThreadResponseMode;
}.
Record ChannelConfig := {
  cc_enabled : bool;
  cc_allowlisted_channels : list string;
  cc_include_im_conversations : bool;
  cc_inbound_mode : SlackInboundMode;
  cc_socket_reconnect_backoff_ms : Z;
  cc_socket_idle_timeout_ms : Z;
  cc_history_backfill_enabled : bool;
  cc_history_backfill_interval_seconds : Z;
}.
Definition ChannelConfig_default : ChannelConfig := {|
  cc_enabled := false;
  cc_allowlisted_channels := [];
  cc_include_im_conversations := true;
  cc_inbound_mode := Socket;
  cc_socket_reconnect_backoff_ms := 1000;
  cc_socket_idle_timeout_ms := 30000;
  cc_history_backfill_enabled := true;
  cc_history_backfill_interval_seconds := 300;
|}.
Record AuthSyncSource := {
  as_backend : string;
  as_reference : string;
  as_destination : string;
  as_owner_only : bool;
}.
Record AuthSyncConfig := {
  auth_enabled : bool;
  auth_sources : list (string * AuthSyncSource);
}.
(** The [BTreeMap]s are association lists sorted by key. *)
Record Settings := {
  s_workspaces_path : string;
  s_shared_workspaces : list (string * SharedWorkspaceConfig);
  s_orchestrators : list (string * SettingsOrchestrator);
  s_channel_profiles : list (string * ChannelProfile);
  s_heartbeat_interval : option Z;
  s_channels : list (string * ChannelConfig);
  s_auth_sync : AuthSyncConfig;
  s_memory : MemoryConfig;
  s_local_llm : LocalLlmConfig;
}.
Record ValidationOptions := { require_shared_paths_exist : bool }.

Section settings_validation.
(** [fs::canonicalize] on a shared workspace path: does it succeed? *)
Context (canonicalizes : string → bool).

Definition validate_shared_workspace (options : ValidationOptions)
    (entry : string * SharedWorkspaceConfig) : result ConfigError () :=
  let '(key, shared_workspace) := entry in
  let path := sw_path shared_workspace in
  reject_if (is_empty (trim key)) (CSettings "`shared_workspaces` keys must be non-empty") ;;
  reject_if (is_empty (trim (sw_description shared_workspace)))
    (CSettings ("shared workspace `" +:+ key +:+ "` description must be non-empty")) ;;
  reject_if (negb (is_absolute path))
    (CSettings ("shared workspace `" +:+ key +:+ "` must use an absolute path")) ;;
  reject_if (require_shared_paths_exist options && negb (canonicalizes path))
    (CSettings ("shared workspace `" +:+ key +:+ "` path `" +:+ path +:+
      "` is missing or invalid")).

Definition validate_settings_orchestrator (shared_keys : list string)
    (entry : string * SettingsOrchestrator) : result ConfigError () :=
  let '(orchestrator_id, orchestrator) := entry in
  map_err CSettings (OrchestratorId_parse orchestrator_id) ;;
  for_each (λ grant,
    reject_if (negb (bool_decide (grant ∈ shared_keys)))
      (CSettings ("orchestrator `" +:+ orchestrator_id +:+
        "` references unknown shared workspace `" +:+ grant +:+ "`")))
    (so_shared_access orchestrator).

Definition validate_channel_profile (s : Settings) (entry : string * ChannelProfile) :
    result ConfigError () :=
  let '(profile_id, profile) := entry in
  reject_if (is_empty (trim profile_id)) (CSettings "channel profile id must be non-empty") ;;
  reject_if (negb (map_contains_key (cp_orchestrator_id profile) (s_orchestrators s)))
    (CSettings ("channel profile `" +:+ profile_id +:+ "` references unknown orchestrator `"
      +:+ cp_orchestrator_id profile +:+ "`")).

Definition validate_slack_channel (slack_cfg : ChannelConfig) : result ConfigError () :=
  for_each (λ channel_id, reject_if (is_empty (trim channel_id))
      (CSettings "channels.slack.allowlisted_channels entries must be non-empty"))
    (cc_allowlisted_channels slack_cfg) ;;
  reject_if (bool_decide (cc_socket_reconnect_backoff_ms slack_cfg = 0%Z))
    (CSettings "channels.slack.socket_reconnect_backoff_ms must be > 0") ;;
  reject_if (bool_decide (cc_socket_idle_timeout_ms slack_cfg = 0%Z))
    (CSettings "channels.slack.socket_idle_timeout_ms must be > 0") ;;
  reject_if (bool_decide (cc_history_backfill_interval_seconds slack_cfg = 0%Z))
    (CSettings "channels.slack.history_backfill_interval_seconds must be > 0").

Definition validate_auth_source (entry : string * AuthSyncSource) : result ConfigError () :=
  let '(source_id, source) := entry in
  reject_if (is_empty (trim source_id))
    (CSettings "`auth_sync.sources` keys must be non-empty") ;;
  reject_if (is_empty (trim (as_backend source)))
    (CSettings ("auth sync source `" +:+ source_id +:+ "` requires non-empty `backend`")) ;;
  reject_if (negb (String.eqb (trim (as_backend source)) "onepassword"))
    (CSettings ("auth sync source `" +:+ source_id +:+ "` has unsupported backend `" +:+
      as_backend source +:+ "`")) ;;
  reject_if (is_empty (trim (as_reference source)))
    (CSettings ("auth sync source `" +:+ source_id +:+ "` requires non-empty `reference`")) ;;
  reject_if (negb (is_absolute (as_destination source)
                   || starts_with "~/" (as_destination source)))
    (CSettings ("auth sync source `" +:+ source_id +:+ "` destination `" +:+
      as_destination source +:+ "` must be absolute or start with `~/`")).

Definition Settings_validate (s : Settings) (options : ValidationOptions) :
    result ConfigError () :=
  reject_if (negb (is_absolute (s_workspaces_path s)))
    (CSettings "`workspaces_path` must be an absolute path") ;;
  for_each (validate_shared_workspace options) (s_shared_workspaces s) ;;
  for_each (validate_settings_orchestrator (map_keys (s_shared_workspaces s)))
    (s_orchestrators s) ;;
  for_each (validate_channel_profile s) (s_channel_profiles s) ;;
  match map_get "slack" (s_channels s) with
  | Some slack_cfg => validate_slack_channel slack_cfg
  | None => Ok ()
  end ;;
  (if auth_enabled (s_auth_sync s) then
     reject_if (is_nil (auth_sources (s_auth_sync s)))
       (CSettings "`auth_sync.sources` must be non-empty when `auth_sync.enabled=true`") ;;
     for_each validate_auth_source (auth_sources (s_auth_sync s))
   else Ok ()) ;;
  map_err CSettings (MemoryConfig_validate (s_memory s)) ;;
  map_err CSettings (LocalLlmConfig_validate (s_local_llm s)).
End settings_validation.

Definition resolve_private_workspace (s : Settings) (orchestrator_id : string) :
    result ConfigError string :=
  map_err CSettings (OrchestratorId_parse orchestrator_id) ;;
  orchestrator ← ok_or (CMissingOrchestrator orchestrator_id)
                   (map_get orchestrator_id (s_orchestrators s));
  let resolved := match so_private_workspace orchestrator with
                  | Some override_path => override_path
                  | None => path_join (s_workspaces_path s) orchestrator_id
                  end in
  if negb (is_absolute resolved) then
    Err (CSettings ("resolved private workspace for `" +:+ orchestrator_id +:+
      "` is not absolute"))
  else Ok resolved.

Definition resolve_channel_profile_runtime_root (s : Settings) (profile_id : string) :
    result ConfigError string :=
  profile ← ok_or (CSettings ("unknown channel profile `" +:+ profile_id +:+ "`"))
              (map_get profile_id (s_channel_profiles s));
  resolve_private_workspace s (cp_orchestrator_id profile).

Definition mention_tokens (p : ChannelProfile) : list string :=
  let tokens := filter (λ token, is_empty token = false)
                  (trim <$> cp_identity_mention_tokens p) in
  match tokens with
  | [] =>
      match trim <$> cp_slack_app_user_id p with
      | Some slack_app_user_id =>
          if is_empty slack_app_user_id then [] else ["<@" +:+ slack_app_user_id +:+ ">"]
      | None => []
      end
  | _ => tokens
  end.
