(* ===== verification/OrchestratorFile.v ===== *)
(** * The orchestrator file

    [src/src/config/orchestrator_file.rs]: the configuration of agents,
    workflows and steps, what its [Deserialize] implementations add to the YAML
    fields, and its validation; then the declarative meaning of the validation. *)
From S2P Require Import Prelude RustStr RustPath Io Json TypedFields Config.
From Stdlib Require Import Ascii.

Local Open Scope string_scope.
Local Open Scope list_scope.

Inductive ConfigProviderKind := Anthropic | OpenAi.
Definition ConfigProviderKind_as_str (k : ConfigProviderKind) : string :=
  match k with Anthropic => "anthropic" | OpenAi => "openai" end.
Definition ConfigProviderKind_parse (raw : string) : result string ConfigProviderKind :=
  let lowered := to_ascii_lowercase (trim raw) in
  if String.eqb lowered "anthropic" then Ok Anthropic
  else if String.eqb lowered "openai" then Ok OpenAi
  else Err "provider must be one of: anthropic, openai".

Inductive WorkflowStepType := AgentTask | AgentReview.
#[export] Instance WorkflowStepType_eq_dec : EqDecision WorkflowStepType.
Proof. solve_decision. Defined.
Definition WorkflowStepType_as_str (t : WorkflowStepType) : string :=
  match t with AgentTask => "agent_task" | AgentReview => "agent_review" end.
Definition WorkflowStepType_parse (raw : string) : result string WorkflowStepType :=
  let lowered := to_ascii_lowercase (trim raw) in
  if String.eqb lowered "agent_task" then Ok AgentTask
  else if String.eqb lowered "agent_review" then Ok AgentReview
  else Err "step type must be one of: agent_task, agent_review".

Inductive WorkflowStepPromptType := WorkflowResultEnvelope | FileOutput.
#[export] Instance WorkflowStepPromptType_eq_dec : EqDecision WorkflowStepPromptType.
Proof. solve_decision. Defined.
Inductive WorkflowStepWorkspaceMode := OrchestratorWorkspace | RunWorkspace.

Record AgentConfig := {
  ag_provider : ConfigProviderKind;
  ag_model : string;
  ag_can_orchestrate_workflows : bool;
}.
Inductive AgentEditableField := EditProvider | EditModel | EditCanOrchestrateWorkflows.
Definition agent_editable_fields : list AgentEditableField :=
  [EditProvider; EditModel; EditCanOrchestrateWorkflows].
Definition field_label (f : AgentEditableField) : string :=
  match f with
  | EditProvider => "Provider"
  | EditModel => "Model"
  | EditCanOrchestrateWorkflows => "Can Orchestrate Workflows"
  end.
Definition display_value_for_field (a : AgentConfig) (f : AgentEditableField) : string :=
  match f with
  | EditProvider => ConfigProviderKind_as_str (ag_provider a)
  | EditModel => ag_model a
  | EditCanOrchestrateWorkflows => if ag_can_orchestrate_workflows a then "yes" else "no"
  end.

Record WorkflowOrchestrationConfig := {
  wo_max_total_iterations : option Z;
  wo_default_run_timeout_seconds : option Z;
  wo_default_step_timeout_seconds : option Z;
  wo_max_step_timeout_seconds : option Z;
}.
Record WorkflowLimitsConfig := {
  wl_max_total_iterations : option Z;
  wl_run_timeout_seconds : option Z;
}.
Record StepLimitsConfig := { sl_max_retries : option Z }.

(** The keys of [output_files] are [OutputKey]s whose optional marker is off
    ([parse_output_file_key]), so their names stand for them. *)
Record WorkflowStepConfig := {
  ws_id : string;
  ws_step_type : WorkflowStepType;
  ws_agent : string;
  ws_prompt : string;
  ws_prompt_type : WorkflowStepPromptType;
  ws_workspace_mode : WorkflowStepWorkspaceMode;
  ws_next : option string;
  ws_on_approve : option string;
  ws_on_reject : option string;
  ws_outputs : list OutputKey;
  ws_output_files : list (string * string);
  ws_final_output_priority : list OutputKey;
  ws_limits : option StepLimitsConfig;
}.
Record WorkflowConfig := {
  wf_id : string;
  wf_version : Z;
  wf_description : string;
  wf_tags : list string;
  wf_inputs : list string;
  wf_limits : option WorkflowLimitsConfig;
  wf_steps : list WorkflowStepConfig;
}.
Record OrchestratorConfig := {
  oc_id : string;
  oc_selector_agent : string;
  oc_default_workflow : string;
  oc_selection_max_retries : Z;
  oc_selector_timeout_seconds : Z;
  oc_agents : list (string * AgentConfig);
  oc_workflows : list WorkflowConfig;
  oc_workflow_orchestration : option WorkflowOrchestrationConfig;
}.

(** ** Deserialisation *)
Definition deserialize_optional_output_files (raw : option (list (string * string))) :
    result string (option (list (string * string))) :=
  match raw with
  | None => Ok None
  | Some raw =>
      parsed ← for_fold (λ parsed '(key, template),
        parsed_key ← map_err (λ err, "invalid output_files key `" +:+ key +:+ "`: " +:+ err)
                       (parse_output_file_key key);
        Ok (map_insert (ok_name parsed_key) template parsed)) raw [];
      Ok (Some parsed)
  end.

Definition deserialize_optional_output_priority (raw : option (list string)) :
    result string (option (list OutputKey)) :=
  match raw with
  | None => Ok None
  | Some raw =>
      parsed ← for_fold (λ parsed key,
        parsed_key ← map_err
          (λ err, "invalid final_output_priority key `" +:+ key +:+ "`: " +:+ err)
          (parse_output_file_key key);
        Ok (parsed ++ [parsed_key])) raw [];
      Ok (Some parsed)
  end.

Definition default_final_output_priority (outputs : list OutputKey) : list OutputKey :=
  let has name := existsb (λ key, String.eqb (ok_name key) name) outputs in
  (if has "artifact" then [{| ok_name := "artifact"; ok_required := true |}] else [])
  ++ (if has "summary" then [{| ok_name := "summary"; ok_required := true |}] else []).

(** [WorkflowStepConfigRaw] after its [deserialize_with] fields, and the
    [Deserialize] implementation of [WorkflowStepConfig]. *)
Record WorkflowStepConfigRaw := {
  wr_step : WorkflowStepConfig;  (** the fields copied as they are *)
  wr_outputs : option (list OutputKey);
  wr_output_files : option (list (string * string));
  wr_final_output_priority : option (list OutputKey);
}.
Definition WorkflowStepConfig_deserialize (raw : WorkflowStepConfigRaw) :
    result string WorkflowStepConfig :=
  outputs ← ok_or ("workflow step is missing required `outputs`; include explicit `outputs` "
    +:+ "and `output_files` contract fields") (wr_outputs raw);
  output_files ← ok_or ("workflow step is missing required `output_files`; include explicit "
    +:+ "`outputs` and `output_files` contract fields") (wr_output_files raw);
  let final_output_priority :=
    from_option id (default_final_output_priority outputs) (wr_final_output_priority raw) in
  let r := wr_step raw in
  Ok {| ws_id := ws_id r; ws_step_type := ws_step_type r; ws_agent := ws_agent r;
        ws_prompt := ws_prompt r; ws_prompt_type := ws_prompt_type r;
        ws_workspace_mode := ws_workspace_mode r; ws_next := ws_next r;
        ws_on_approve := ws_on_approve r; ws_on_reject := ws_on_reject r;
        ws_outputs := outputs; ws_output_files := output_files;
        ws_final_output_priority := final_output_priority; ws_limits := ws_limits r |}.

(** ** Validation *)
Definition orch_err {A} (parts : list string) : result ConfigError A :=
  Err (COrchestrator (String.concat "" parts)).
Definition orch_reject (b : bool) (parts : list string) : result ConfigError () :=
  if b then orch_err parts else Ok ().

Definition validate_step (c : OrchestratorConfig) (workflow : WorkflowConfig)
    (step : WorkflowStepConfig) : result ConfigError () :=
  let here := ["workflow `"; wf_id workflow; "` step `"; ws_id step] in
  orch_reject (negb (map_contains_key (ws_agent step) (oc_agents c)))
    (here ++ ["` references unknown agent `"; ws_agent step; "`"]) ;;
  orch_reject (is_nil (ws_outputs step)) (here ++ ["` requires non-empty `outputs`"]) ;;
  orch_reject (is_nil (ws_output_files step)) (here ++ ["` requires non-empty `output_files`"]) ;;
  orch_reject (negb (existsb (λ key, String.eqb (ok_name key) "summary") (ws_outputs step)))
    (here ++ ["` requires `summary` in `outputs`"]) ;;
  orch_reject (negb (map_contains_key "summary" (ws_output_files step)))
    (here ++ ["` requires `summary` mapping in `output_files`"]) ;;
  for_each (λ key,
    orch_reject (negb (map_contains_key (ok_name key) (ws_output_files step)))
      (here ++ ["` missing output_files mapping for `"; ok_name key; "`"])) (ws_outputs step) ;;
  orch_reject (is_nil (ws_final_output_priority step))
    (here ++ ["` requires non-empty `final_output_priority`"]) ;;
  for_fold (λ priority_keys key,
    orch_reject (bool_decide (ok_name key ∈ priority_keys))
      (here ++ ["` contains duplicate `final_output_priority` key `"; ok_name key; "`"]) ;;
    orch_reject (negb (existsb (λ output, String.eqb (ok_name output) (ok_name key))
                         (ws_outputs step)))
      (here ++ ["` `final_output_priority` key `"; ok_name key; "` must exist in `outputs`"]) ;;
    Ok (ok_name key :: priority_keys)) (ws_final_output_priority step) [] ;;
  Ok ().

Definition validate_workflow_steps (c : OrchestratorConfig) (workflow : WorkflowConfig) :
    result ConfigError () :=
  orch_reject (is_nil (wf_steps workflow))
    ["workflow `"; wf_id workflow; "` requires at least one step"] ;;
  for_fold (λ step_ids step,
    orch_reject (bool_decide (ws_id step ∈ step_ids))
      ["workflow `"; wf_id workflow; "` contains duplicate step id `"; ws_id step; "`"] ;;
    validate_step c workflow step ;;
    Ok (ws_id step :: step_ids)) (wf_steps workflow) [] ;;
  Ok ().

Definition validate_setup_invariants (c : OrchestratorConfig) : result ConfigError () :=
  orch_reject (is_nil (oc_workflows c)) ["`workflows` must be non-empty"] ;;
  orch_reject (is_nil (oc_agents c)) ["`agents` must be non-empty"] ;;
  match map_get (oc_selector_agent c) (oc_agents c) with
  | None => orch_err ["`selector_agent` `"; oc_selector_agent c; "` must exist in `agents`"]
  | Some selector =>
      orch_reject (negb (ag_can_orchestrate_workflows selector))
        ["selector agent `"; oc_selector_agent c;
         "` must set `can_orchestrate_workflows: true`"]
  end ;;
  workflow_ids ← for_fold (λ workflow_ids workflow,
    orch_reject (bool_decide (wf_id workflow ∈ workflow_ids))
      ["workflow id `"; wf_id workflow; "` must be unique"] ;;
    Ok (wf_id workflow :: workflow_ids)) (oc_workflows c) [];
  orch_reject (negb (bool_decide (oc_default_workflow c ∈ workflow_ids)))
    ["`default_workflow` `"; oc_default_workflow c; "` is not present in `workflows`"] ;;
  for_each (validate_workflow_steps c) (oc_workflows c).

Definition validate_step_text (workflow : WorkflowConfig) (step : WorkflowStepConfig) :
    result ConfigError () :=
  map_err COrchestrator (StepId_parse (ws_id step)) ;;
  map_err COrchestrator (AgentId_parse (ws_agent step)) ;;
  orch_reject (is_empty (trim (ws_prompt step)))
    ["workflow `"; wf_id workflow; "` step `"; ws_id step; "` requires non-empty prompt"].

Definition validate_workflow_text (workflow : WorkflowConfig) : result ConfigError () :=
  map_err COrchestrator (WorkflowId_parse (wf_id workflow)) ;;
  orch_reject (is_empty (trim (wf_description workflow)))
    ["workflow `"; wf_id workflow; "` requires non-empty `description`"] ;;
  orch_reject (is_nil (wf_tags workflow))
    ["workflow `"; wf_id workflow; "` requires non-empty `tags`"] ;;
  for_fold (λ seen_tags tag,
    orch_reject (bool_decide (tag ∈ seen_tags))
      ["workflow `"; wf_id workflow; "` has duplicate tag `"; tag; "`"] ;;
    Ok (tag :: seen_tags)) (wf_tags workflow) [] ;;
  for_each (validate_step_text workflow) (wf_steps workflow).

Definition OrchestratorConfig_validate (c : OrchestratorConfig) (settings : Settings)
    (orchestrator_id : string) : result ConfigError () :=
  map_err COrchestrator (OrchestratorId_parse orchestrator_id) ;;
  orch_reject (negb (String.eqb (oc_id c) orchestrator_id))
    ["orchestrator id mismatch: expected `"; orchestrator_id; "`, got `"; oc_id c; "`"] ;;
  orch_reject (bool_decide (oc_selection_max_retries c = 0%Z))
    ["`selection_max_retries` must be >= 1"] ;;
  orch_reject (bool_decide (oc_selector_timeout_seconds c = 0%Z))
    ["`selector_timeout_seconds` must be >= 1"] ;;
  validate_setup_invariants c ;;
  reject_if (negb (map_contains_key orchestrator_id (s_orchestrators settings)))
    (CMissingOrchestrator orchestrator_id) ;;
  for_each (λ '(agent_id, agent),
    map_err COrchestrator (AgentId_parse agent_id) ;;
    orch_reject (is_empty (trim (ag_model agent)))
      ["agent `"; agent_id; "` requires non-empty `model`"]) (oc_agents c) ;;
  for_each validate_workflow_text (oc_workflows c).

(** [load_orchestrator_config] of [src/src/config/load.rs], with the read and
    parsed file as [from_path]. *)
Definition load_orchestrator_config (from_path : string → result ConfigError OrchestratorConfig)
    (settings : Settings) (orchestrator_id : string) : result ConfigError OrchestratorConfig :=
  reject_if (negb (map_contains_key orchestrator_id (s_orchestrators settings)))
    (CMissingOrchestrator orchestrator_id) ;;
  workspace ← resolve_private_workspace settings orchestrator_id;
  config ← from_path (path_join workspace "orchestrator.yaml");
  OrchestratorConfig_validate config settings orchestrator_id ;;
  Ok config.

(** ** What a valid file is *)
Record step_wf (c : OrchestratorConfig) (step : WorkflowStepConfig) : Prop := {
  step_agent_known : ws_agent step ∈ map_keys (oc_agents c);
  step_has_summary : "summary" ∈ ok_name <$> ws_outputs step;
  step_summary_mapped : "summary" ∈ map_keys (ws_output_files step);
  step_outputs_mapped : ∀ key, key ∈ ws_outputs step →
    ok_name key ∈ map_keys (ws_output_files step);
  step_priority : ws_final_output_priority step ≠ [];
  step_priority_unique : NoDup (ok_name <$> ws_final_output_priority step);
  step_priority_known : ∀ key, key ∈ ws_final_output_priority step →
    ok_name key ∈ ok_name <$> ws_outputs step;
}.
Record workflow_wf (c : OrchestratorConfig) (workflow : WorkflowConfig) : Prop := {
  workflow_has_steps : wf_steps workflow ≠ [];
  workflow_steps_unique : NoDup (ws_id <$> wf_steps workflow);
  workflow_steps_wf : ∀ step, step ∈ wf_steps workflow → step_wf c step;
}.
Record setup_wf (c : OrchestratorConfig) : Prop := {
  setup_selector : ∃ selector, map_get (oc_selector_agent c) (oc_agents c) = Some selector
    ∧ ag_can_orchestrate_workflows selector = true;
  setup_workflows_unique : NoDup (wf_id <$> oc_workflows c);
  setup_default : oc_default_workflow c ∈ wf_id <$> oc_workflows c;
  setup_workflows_wf : ∀ workflow, workflow ∈ oc_workflows c → workflow_wf c workflow;
}.

Lemma orch_reject_Ok b parts u : orch_reject b parts = Ok u ↔ b = false.
Proof. destruct b, u; split; done. Qed.
#[export] Hint Rewrite orch_reject_Ok : direclaw.

(** The first check of a sequence of checks. *)
Lemma seq_Ok {E} (m : result E ()) {A} (k : result E A) a :
  (m ;; k) = Ok a ↔ m = Ok () ∧ k = Ok a.
Proof. destruct m as [[]|]; simpl; naive_solver. Qed.

Lemma existsb_name name (keys : list OutputKey) :
  existsb (λ key, String.eqb (ok_name key) name) keys = true ↔ name ∈ ok_name <$> keys.
Proof.
  rewrite list_elem_of_fmap, existsb_exists. split.
  - intros (k & Hk & E%String.eqb_eq). exists k. split; [done|]. by apply list_elem_of_In.
  - intros (k & -> & Hk). exists k. split; [by apply list_elem_of_In|]. apply String.eqb_refl.
Qed.
Lemma contains_key_keys {V} k (m : list (string * V)) :
  negb (map_contains_key k m) = false ↔ k ∈ map_keys m.
Proof. by rewrite negb_false_iff, map_contains_key_elem. Qed.

Lemma seq_tail_Ok {E A} (m : result E A) : (m ;; Ok ()) = Ok () ↔ ∃ a, m = Ok a.
Proof. destruct m; simpl; naive_solver. Qed.

Lemma not_seen_iff {K} `{EqDecision K} (k : K) (seen : list K) :
  bool_decide (k ∈ seen) = false ↔ k ∉ seen.
Proof. apply bool_decide_eq_false. Qed.

Lemma validate_step_Ok c workflow step :
  validate_step c workflow step = Ok () ↔ step_wf c step.
Proof.
  unfold validate_step. rewrite !seq_Ok, !orch_reject_Ok, seq_tail_Ok, for_each_Ok.
  setoid_rewrite (for_fold_unique ok_name (λ key, ok_name key ∈ ok_name <$> ws_outputs step)).
  2:{ intros seen x r. rewrite !seq_Ok, !orch_reject_Ok, not_seen_iff, negb_false_iff, existsb_name.
      naive_solver. }
  rewrite !is_nil_false, !contains_key_keys, negb_false_iff, existsb_name, !Forall_forall.
  setoid_rewrite orch_reject_Ok. setoid_rewrite contains_key_keys. split.
  - intros (? & ? & ? & ? & ? & Hm & ? & r & ? & _ & Hp & _).
    rewrite Forall_forall in Hp. by constructor.
  - intros [Ha Hs Hm Ho Hp Hu Hk]. split; [done|].
    split; [intros E; rewrite E in Hs; by apply elem_of_nil in Hs|].
    split; [intros E; rewrite E in Hm; by apply elem_of_nil in Hm|].
    do 4 (split; [done|]). eexists. split; [done|].
    split; [set_solver|]. split; [by apply Forall_forall|done].
Qed.

Lemma validate_workflow_steps_Ok c workflow :
  validate_workflow_steps c workflow = Ok () ↔ workflow_wf c workflow.
Proof.
  unfold validate_workflow_steps. rewrite seq_Ok, orch_reject_Ok, is_nil_false, seq_tail_Ok.
  setoid_rewrite (for_fold_unique ws_id (step_wf c)).
  2:{ intros seen x r. rewrite !seq_Ok, orch_reject_Ok, not_seen_iff, validate_step_Ok.
      naive_solver. }
  split.
  - intros (? & r & ? & _ & Hp & _). rewrite Forall_forall in Hp. by constructor.
  - intros []. split; [done|]. eexists. split; [done|]. split; [set_solver|].
    split; [by apply Forall_forall|done].
Qed.

(** Accepted files are well-formed. *)
Lemma validate_setup_sound c : validate_setup_invariants c = Ok () → setup_wf c.
Proof.
  unfold validate_setup_invariants. rewrite !seq_Ok, !orch_reject_Ok, !is_nil_false, bind_Ok.
  setoid_rewrite (for_fold_unique wf_id (λ _, True)).
  2:{ intros seen x r. rewrite seq_Ok, orch_reject_Ok, not_seen_iff. naive_solver. }
  setoid_rewrite seq_Ok. setoid_rewrite orch_reject_Ok. setoid_rewrite for_each_Ok.
  intros (_ & _ & Hsel & ids & (Hnd & _ & _ & ->) & Hdef & Hall).
  rewrite negb_false_iff, bool_decide_eq_true, app_nil_r, elem_of_reverse in Hdef.
  rewrite Forall_forall in Hall. split; try done.
  + destruct (map_get _ _) as [selector|]; [|done]. exists selector. split; [done|].
    by apply orch_reject_Ok, negb_false_iff in Hsel.
  + intros workflow Hw. by apply validate_workflow_steps_Ok, Hall.
Qed.

Lemma validate_setup_complete c : setup_wf c → validate_setup_invariants c = Ok ().
Proof.
  unfold validate_setup_invariants. rewrite !seq_Ok, !orch_reject_Ok, !is_nil_false, bind_Ok.
  setoid_rewrite (for_fold_unique wf_id (λ _, True)).
  2:{ intros seen x r. rewrite seq_Ok, orch_reject_Ok, not_seen_iff. naive_solver. }
  setoid_rewrite seq_Ok. setoid_rewrite orch_reject_Ok. setoid_rewrite for_each_Ok.
  intros [(selector & Hsel & Hcan) Hnd Hdef Hall]. rewrite Hsel.
  split; [by intros E; rewrite E in Hdef; apply elem_of_nil in Hdef|].
  split; [by intros E; rewrite E in Hsel|].
  split; [by rewrite Hcan|]. eexists. split; [split; [done|]; split; [set_solver|]; split;
    [by apply Forall_forall|done]|].
  rewrite negb_false_iff, bool_decide_eq_true, app_nil_r, elem_of_reverse.
  split; [done|]. apply Forall_forall. intros w Hw. by apply validate_workflow_steps_Ok, Hall.
Qed.

(** C32: The validation of an orchestrator file accepts exactly the well-formed
    files: a selector agent that exists and may orchestrate, distinct workflow
    ids among which the default one, and in every workflow distinct steps, each
    with a known agent, a [summary] output, a file mapping for each output and a
    priority list without duplicates over declared outputs. *)
Theorem validate_setup_invariants_exact (c : OrchestratorConfig) :
  validate_setup_invariants c = Ok () ↔ setup_wf c.
Proof. split; [apply validate_setup_sound|apply validate_setup_complete]. Qed.
