(* ===== verification/Templates.v ===== *)
(** * Default steps and orchestrator templates

    [src/src/templates/workflow_step_defaults.rs] and
    [src/src/templates/orchestrator_templates.rs]: the configuration a new
    orchestrator starts with.  The literal keys, templates and tags of the source
    go through parsers that accept them ([template_literals_parse]); a provider
    name that does not parse makes the source panic, [None] here. *)
From S2P Require Import Prelude RustStr RustPath Io Json TypedFields Config OrchestratorFile.

Local Open Scope string_scope.
Local Open Scope list_scope.

Definition default_prompt_rel_path (workflow_id step_id : string) : string :=
  "workflows/" +:+ workflow_id +:+ "/" +:+ step_id +:+ ".prompt.md".

(** [OutputKey::parse("..").expect(..)] of a literal. *)
Definition literal_key (name : string) : OutputKey := {| ok_name := name; ok_required := true |}.

(** ** Step defaults *)
Definition default_step_output_contract (step_type : string) : list OutputKey :=
  if String.eqb step_type "agent_review" then
    [literal_key "decision"; literal_key "summary"; literal_key "feedback"]
  else [literal_key "summary"; literal_key "artifact"].

Definition artifact_template (suffix : string) : string :=
  "artifacts/{{workflow.run_id}}/{{workflow.step_id}}-{{workflow.attempt}}" +:+ suffix +:+ ".txt".
Definition default_step_output_files (step_type : string) : list (string * string) :=
  if String.eqb step_type "agent_review" then
    map_from_iter [("decision", artifact_template "-decision");
                   ("summary", artifact_template "-summary");
                   ("feedback", artifact_template "-feedback")]
  else
    map_from_iter [("summary", artifact_template "-summary"); ("artifact", artifact_template "")].

Definition default_step_output_priority (step_type : string) : list OutputKey :=
  if String.eqb step_type "agent_review" then [literal_key "summary"]
  else [literal_key "artifact"; literal_key "summary"].

(** ** Templates *)
Inductive WorkflowTemplate := Minimal | Engineering | Product.
Definition WorkflowTemplate_as_str (t : WorkflowTemplate) : string :=
  match t with
  | Minimal => "minimal" | Engineering => "engineering" | Product => "product"
  end.

(** The step type is given as the constructor its literal parses to. *)
Definition workflow_step (workflow_id id : string) (step_type : WorkflowStepType)
    (agent prompt_rel_path : string) : WorkflowStepConfig := {|
  ws_id := id;
  ws_step_type := step_type;
  ws_agent := agent;
  ws_prompt := if is_empty (trim prompt_rel_path) then default_prompt_rel_path workflow_id id
               else prompt_rel_path;
  ws_prompt_type := FileOutput;
  ws_workspace_mode := OrchestratorWorkspace;
  ws_next := None;
  ws_on_approve := None;
  ws_on_reject := None;
  ws_outputs := default_step_output_contract (WorkflowStepType_as_str step_type);
  ws_output_files := default_step_output_files (WorkflowStepType_as_str step_type);
  ws_final_output_priority := default_step_output_priority (WorkflowStepType_as_str step_type);
  ws_limits := None;
|}.

(** [let mut step = ..; step.next = ..; step.on_approve = ..] *)
Definition with_transitions (next on_approve on_reject : option string)
    (step : WorkflowStepConfig) : WorkflowStepConfig := {|
  ws_id := ws_id step; ws_step_type := ws_step_type step; ws_agent := ws_agent step;
  ws_prompt := ws_prompt step; ws_prompt_type := ws_prompt_type step;
  ws_workspace_mode := ws_workspace_mode step;
  ws_next := next; ws_on_approve := on_approve; ws_on_reject := on_reject;
  ws_outputs := ws_outputs step; ws_output_files := ws_output_files step;
  ws_final_output_priority := ws_final_output_priority step; ws_limits := ws_limits step;
|}.
Definition with_outputs (outputs : list OutputKey) (output_files : list (string * string))
    (priority : list OutputKey) (step : WorkflowStepConfig) : WorkflowStepConfig := {|
  ws_id := ws_id step; ws_step_type := ws_step_type step; ws_agent := ws_agent step;
  ws_prompt := ws_prompt step; ws_prompt_type := ws_prompt_type step;
  ws_workspace_mode := ws_workspace_mode step; ws_next := ws_next step;
  ws_on_approve := ws_on_approve step; ws_on_reject := ws_on_reject step;
  ws_outputs := outputs; ws_output_files := output_files;
  ws_final_output_priority := priority; ws_limits := ws_limits step;
|}.

Definition agent_config (provider : ConfigProviderKind) (model : string)
    (can_orchestrate_workflows : bool) : AgentConfig := {|
  ag_provider := provider; ag_model := model;
  ag_can_orchestrate_workflows := can_orchestrate_workflows |}.

(** One workflow of a template, and a step with its default prompt path. *)
Definition template_workflow (id description : string) (tags : list string)
    (steps : list WorkflowStepConfig) : WorkflowConfig := {|
  wf_id := id; wf_version := 1; wf_description := description; wf_tags := tags;
  wf_inputs := []; wf_limits := None; wf_steps := steps |}.
Definition template_step (workflow_id id : string) (step_type : WorkflowStepType)
    (agent : string) : WorkflowStepConfig :=
  workflow_step workflow_id id step_type agent (default_prompt_rel_path workflow_id id).

Definition minimal_workflows (selector : string) : list WorkflowConfig :=
  [template_workflow "default" "General purpose workflow for direct requests" ["default"]
     [template_step "default" "step_1" AgentTask selector]].

Definition engineering_workflows : list WorkflowConfig :=
  let step := template_step "feature_delivery" in
  let task_file name ext := "tasks/" +:+ name +:+
    "__{{workflow.run_id}}__{{workflow.step_id}}__a{{workflow.attempt}}." +:+ ext in
  [template_workflow "feature_delivery"
     "Plan, implement, and review engineering work before final summary"
     ["engineering"; "implementation"; "review"]
     [with_transitions (Some "plan_review") None None (step "plan" AgentTask "planner");
      with_transitions None (Some "task_decompose") (Some "plan")
        (step "plan_review" AgentReview "reviewer");
      with_transitions (Some "implement") None None
        (with_outputs [literal_key "summary"; literal_key "task_list"]
           (map_from_iter [("summary", task_file "summary" "txt");
                           ("task_list", task_file "task_list" "json")])
           [literal_key "task_list"; literal_key "summary"]
           (step "task_decompose" AgentTask "planner"));
      with_transitions (Some "review") None None (step "implement" AgentTask "builder");
      with_transitions None (Some "task_loop_gate") (Some "implement")
        (step "review" AgentReview "reviewer");
      with_transitions None (Some "implement") (Some "done")
        (step "task_loop_gate" AgentReview "reviewer");
      step "done" AgentTask "planner"];
   template_workflow "quick_answer"
     "Short direct engineering responses without multi-step review"
     ["engineering"; "quick"; "answer"]
     [template_step "quick_answer" "answer" AgentTask "planner"]].

Definition product_workflows : list WorkflowConfig :=
  [template_workflow "prd_draft" "Research and draft a product requirements document"
     ["product"; "prd"; "research"]
     [with_transitions (Some "draft") None None
        (template_step "prd_draft" "research" AgentTask "researcher");
      template_step "prd_draft" "draft" AgentTask "writer"];
   template_workflow "release_notes" "Compose customer-facing release notes grouped by impact"
     ["product"; "release"; "notes"]
     [template_step "release_notes" "compose" AgentTask "writer"]].

Definition initial_orchestrator_config (id provider model : string)
    (workflow_template : WorkflowTemplate) : option OrchestratorConfig :=
  p ← result_ok (ConfigProviderKind_parse provider);
  let selector := "default" in
  let worker (name : string) := (name, agent_config p model false) in
  let '(extra_agents, default_workflow, workflows) :=
    match workflow_template with
    | Minimal => ([], "default", minimal_workflows selector)
    | Engineering => ([worker "planner"; worker "builder"; worker "reviewer"],
                      "feature_delivery", engineering_workflows)
    | Product => ([worker "researcher"; worker "writer"], "prd_draft", product_workflows)
    end in
  Some {|
    oc_id := id;
    oc_selector_agent := selector;
    oc_default_workflow := default_workflow;
    oc_selection_max_retries := 1;
    oc_selector_timeout_seconds := 30;
    oc_agents := map_from_iter ((selector, agent_config p model true) :: extra_agents);
    oc_workflows := workflows;
    oc_workflow_orchestration := None |}.

(** ** Facts *)
(** A transition names a step of its own workflow. *)
Definition transitions_resolve (workflow : WorkflowConfig) : bool :=
  let known (target : option string) := match target with
    | None => true
    | Some id => existsb (λ s, String.eqb (ws_id s) id) (wf_steps workflow)
    end in
  forallb (λ s, known (ws_next s) && known (ws_on_approve s) && known (ws_on_reject s))
    (wf_steps workflow).
(** A review has both its targets. *)
Definition reviews_complete (workflow : WorkflowConfig) : bool :=
  forallb (λ s, match ws_step_type s with
    | AgentTask => true
    | AgentReview => match ws_on_approve s, ws_on_reject s with Some _, Some _ => true | _, _ => false end
    end) (wf_steps workflow).

(** The literals of the templates are what their parsers return. *)
Lemma template_literals_parse :
  Forall (λ name, OutputKey_parse name = Ok (literal_key name)
                  ∧ parse_output_file_key name = Ok (literal_key name))
    ["decision"; "summary"; "feedback"; "artifact"; "task_list"]
  ∧ Forall (λ w, Forall (λ tag, normalize_workflow_tag tag = Ok tag) (wf_tags w)
        ∧ Forall (λ s, Forall (λ kv, PathTemplate_parse kv.2 = Ok kv.2) (ws_output_files s))
            (wf_steps w))
      (minimal_workflows "default" ++ engineering_workflows ++ product_workflows)
  ∧ Forall (λ t, WorkflowStepType_parse (WorkflowStepType_as_str t) = Ok t) [AgentTask; AgentReview].
Proof. split_and!; apply (bool_decide_unpack _); by vm_compute. Qed.

Lemma initial_setup_wf id provider model t c :
  initial_orchestrator_config id provider model t = Some c → setup_wf c.
Proof.
  intros H. apply validate_setup_sound. revert H. unfold initial_orchestrator_config.
  destruct (ConfigProviderKind_parse provider) as [p|]; [|done]. simpl.
  destruct t; intros [= <-]; vm_compute; reflexivity.
Qed.
