(* ===== verification/Assets.v ===== *)
(** * Prompt texts

    The templates under [src/src/prompts/assets] that [src/src/prompts/mod.rs]
    compiles in ([include_str!]), byte for byte; [dq] is the double quote. *)
From S2P Require Import Prelude.
From Stdlib Require Import Ascii.

Local Open Scope string_scope.

Definition dq : string := String (ascii_of_nat 34) EmptyString.

Definition SELECTOR_PROMPT_TEMPLATE : string :=
  "You are the workflow selector.
Read this selector request JSON and select the next action.
{{selector.request_json}}

Decision policy:
- Prioritize the user's explicit requested action over surrounding background context.
- Distinguish contextual setup/background from the actual ask before choosing an action.
- Use background details only to inform the action, not to override the direct request.
- When `threadContext` is present in the request JSON, use it to resolve follow-up references (for example " +:+ dq +:+ "this failed" +:+ dq +:+ " or " +:+ dq +:+ "that run" +:+ dq +:+ ").
- Choose from availableWorkflows/defaultWorkflow/availableFunctions exactly as provided.
- Action `no_response` is allowed only for low-value opportunistic context messages.
- Never use `no_response` when the inbound context indicates an explicit profile mention.

Instructions:
1. Read the selector request from the provided files.
2. Identify the user's requested action separately from contextual setup/background.
3. Select exactly one supported action and validate any selected workflow/function against the request fields.
4. Output exactly one structured JSON selector result to this path:
{{selector.result_path}}
5. The JSON result must include all keys below (camelCase) exactly:
   - selectorId
   - status
   - action
   - selectedWorkflow
   - functionId
   - functionArgs
   - reason
6. Set `selectorId` to the exact `selectorId` value from the selector request JSON.
7. `status` must be one of: `selected` | `failed`.
   - Use `selected` when a valid action decision is made.
   - Use `failed` only when no valid decision can be produced from the provided request.
   - Do not use any other status value (for example: `success`, `ok`, `complete`).
8. For keys that do not apply for the selected action, write `null` (do not omit keys).
9. Action-specific requirements:
   - workflow_start: set `selectedWorkflow` to one of `availableWorkflows`.
   - command_invoke: choose this only when the user explicitly typed a slash command with the exact function id (for example `/workflow.status`), then set `functionId` to one of `availableFunctions` and set `functionArgs` to an object.
10. Do not output structured JSON anywhere else and do not rely on stdout.
Do not use markdown fences.
".

Definition SELECTOR_CONTEXT_TEMPLATE : string :=
  "orchestratorId={{selector.orchestrator_id}}
selectorAgent={{selector.agent_id}}
attempt={{selector.attempt}}
selectorResultPath={{selector.result_path}}
".

Definition DEFAULT_TASK_PROMPT_TEMPLATE : string :=
  "Execute this step objective using available workflow context and workspace artifacts.

Instructions:
1. Read available context from the provided prompt/context/input files before acting.
2. Execute the step objective and follow the user request when it applies.
3. Follow the additional requirements below.
4. When complete, write structured output values to the exact file paths listed under " +:+ dq +:+ "Write outputs exactly to" +:+ dq +:+ ". Do not rely on stdout for structured output.
Execution requirements:
- Follow the step objective and constraints above.
- Use available workflow context and prior-step outputs when present.
Required structured output keys:
- status: " +:+ dq +:+ "complete" +:+ dq +:+ " | " +:+ dq +:+ "failed" +:+ dq +:+ "
- summary: concise step summary
- artifact: primary output text for this step
Status policy:
- complete only when the objective is fully satisfied.
- failed when waiting on missing dependency/permission; include unblock action in summary.
- failed only for unrecoverable errors.
Write outputs exactly to:
- summary -> {{workflow.output_paths.summary}}
- artifact -> {{workflow.output_paths.artifact}}
".

Definition DEFAULT_REVIEW_PROMPT_TEMPLATE : string :=
  "Review the target output against requirements and quality expectations.

Instructions:
1. Read available context from the provided prompt/context/input files before acting.
2. Execute the step objective and follow the user request when it applies.
3. Follow the additional requirements below.
4. When complete, write structured output values to the exact file paths listed under " +:+ dq +:+ "Write outputs exactly to" +:+ dq +:+ ". Do not rely on stdout for structured output.
Execution requirements:
- Evaluate the deliverable against the stated objective, constraints, and quality bar.
- Be explicit, concrete, and evidence-based in summary/feedback.
Required structured output keys:
- decision: " +:+ dq +:+ "approve" +:+ dq +:+ " or " +:+ dq +:+ "reject" +:+ dq +:+ "
- summary: concise reason for the decision
- feedback: concrete changes needed or verification notes
Decision policy:
- approve only when acceptance criteria are fully met.
- reject when fixes are required; feedback must be actionable.
Write outputs exactly to:
- decision -> {{workflow.output_paths.decision}}
- summary -> {{workflow.output_paths.summary}}
- feedback -> {{workflow.output_paths.feedback}}
".

Definition DEFAULT_CONTEXT_TEMPLATE : string :=
  "{{workflow.runtime_context_json}}
".

Definition MINIMAL_DEFAULT_STEP_1_PROMPT : string :=
  "Execute the user request end-to-end with clear, actionable output.
If requirements are ambiguous, choose reasonable assumptions and state them in summary.
Required outputs schema:
{{workflow.output_schema_json}}
Write outputs exactly to:
summary -> {{workflow.output_paths.summary}}
artifact -> {{workflow.output_paths.artifact}}

Instructions:
1. Read available context from the provided prompt/context/input files before acting.
2. Execute the step objective and follow the user request when it applies.
3. Follow the additional requirements below.
4. When complete, write structured output values to the exact file paths listed under " +:+ dq +:+ "Write outputs exactly to" +:+ dq +:+ ". Do not rely on stdout for structured output.
Execution requirements:
- Follow the step objective and constraints above.
- Use available workflow context and prior-step outputs when present.
Required structured output keys:
- status: " +:+ dq +:+ "complete" +:+ dq +:+ " | " +:+ dq +:+ "failed" +:+ dq +:+ "
- summary: concise step summary
- artifact: primary output text for this step
Status policy:
- complete only when the objective is fully satisfied.
- failed when waiting on missing dependency/permission; include unblock action in summary.
- failed only for unrecoverable errors.
Write outputs exactly to:
- summary -> {{workflow.output_paths.summary}}
- artifact -> {{workflow.output_paths.artifact}}
".

Definition MINIMAL_DEFAULT_STEP_1_CONTEXT : string :=
  "{{workflow.runtime_context_json}}
".

Definition ENG_FEATURE_DELIVERY_PLAN_PROMPT : string :=
  "Draft an implementation plan with risks, sequencing, and test strategy.
Write outputs exactly to:
summary -> {{workflow.output_paths.summary}}
artifact -> {{workflow.output_paths.artifact}}

Instructions:
1. Read available context from the provided prompt/context/input files before acting.
2. Execute the step objective and follow the user request when it applies.
3. Follow the additional requirements below.
4. When complete, write structured output values to the exact file paths listed under " +:+ dq +:+ "Write outputs exactly to" +:+ dq +:+ ". Do not rely on stdout for structured output.
Execution requirements:
- Follow the step objective and constraints above.
- Use available workflow context and prior-step outputs when present.
Required structured output keys:
- status: " +:+ dq +:+ "complete" +:+ dq +:+ " | " +:+ dq +:+ "failed" +:+ dq +:+ "
- summary: concise step summary
- artifact: primary output text for this step
Status policy:
- complete only when the objective is fully satisfied.
- failed when waiting on missing dependency/permission; include unblock action in summary.
- failed only for unrecoverable errors.
Write outputs exactly to:
- summary -> {{workflow.output_paths.summary}}
- artifact -> {{workflow.output_paths.artifact}}
".

Definition ENG_FEATURE_DELIVERY_PLAN_CONTEXT : string :=
  "{{workflow.runtime_context_json}}
".

Definition ENG_FEATURE_DELIVERY_TASK_DECOMPOSE_PROMPT : string :=
  "Break the approved plan into an ordered, dependency-aware task list.
Output `task_list` as strict JSON with shape:
{" +:+ dq +:+ "tasks" +:+ dq +:+ ":[{" +:+ dq +:+ "task_id" +:+ dq +:+ ":" +:+ dq +:+ "t-1" +:+ dq +:+ "," +:+ dq +:+ "title" +:+ dq +:+ ":" +:+ dq +:+ "..." +:+ dq +:+ "," +:+ dq +:+ "goal" +:+ dq +:+ ":" +:+ dq +:+ "..." +:+ dq +:+ "," +:+ dq +:+ "instructions" +:+ dq +:+ ":" +:+ dq +:+ "..." +:+ dq +:+ "," +:+ dq +:+ "acceptance_criteria" +:+ dq +:+ ":[" +:+ dq +:+ "..." +:+ dq +:+ "]," +:+ dq +:+ "depends_on" +:+ dq +:+ ":[" +:+ dq +:+ "..." +:+ dq +:+ "]," +:+ dq +:+ "status" +:+ dq +:+ ":" +:+ dq +:+ "todo" +:+ dq +:+ "}]}
Rules:
- `task_id` values must be unique.
- `status` must be `todo` for all newly created tasks.
- `depends_on` must only reference earlier or existing task ids.
Write outputs exactly to:
summary -> {{workflow.output_paths.summary}}
task_list -> {{workflow.output_paths.task_list}}
".

Definition ENG_FEATURE_DELIVERY_TASK_DECOMPOSE_CONTEXT : string :=
  "{{workflow.runtime_context_json}}
".

Definition ENG_FEATURE_DELIVERY_PLAN_REVIEW_PROMPT : string :=
  "Review the implementation plan for correctness, sequencing, and risk coverage.
Approve only if the plan is actionable and complete for delivery.
Decision semantics for this gate:
- `approve` => plan is acceptable; proceed to task decomposition.
- `reject` => plan needs revision; return actionable feedback.
Write outputs exactly to:
decision -> {{workflow.output_paths.decision}}
summary -> {{workflow.output_paths.summary}}
feedback -> {{workflow.output_paths.feedback}}
".

Definition ENG_FEATURE_DELIVERY_PLAN_REVIEW_CONTEXT : string :=
  "{{workflow.runtime_context_json}}
".

Definition ENG_FEATURE_DELIVERY_IMPLEMENT_PROMPT : string :=
  "Implement the approved plan with production-safe changes.
Include changed files and validation results in artifact.
Write outputs exactly to:
summary -> {{workflow.output_paths.summary}}
artifact -> {{workflow.output_paths.artifact}}

Instructions:
1. Read available context from the provided prompt/context/input files before acting.
2. Execute the step objective and follow the user request when it applies.
3. Follow the additional requirements below.
4. When complete, write structured output values to the exact file paths listed under " +:+ dq +:+ "Write outputs exactly to" +:+ dq +:+ ". Do not rely on stdout for structured output.
Execution requirements:
- Follow the step objective and constraints above.
- Use available workflow context and prior-step outputs when present.
Required structured output keys:
- status: " +:+ dq +:+ "complete" +:+ dq +:+ " | " +:+ dq +:+ "failed" +:+ dq +:+ "
- summary: concise step summary
- artifact: primary output text for this step
Status policy:
- complete only when the objective is fully satisfied.
- failed when waiting on missing dependency/permission; include unblock action in summary.
- failed only for unrecoverable errors.
Write outputs exactly to:
- summary -> {{workflow.output_paths.summary}}
- artifact -> {{workflow.output_paths.artifact}}
".

Definition ENG_FEATURE_DELIVERY_IMPLEMENT_CONTEXT : string :=
  "{{workflow.runtime_context_json}}
".

Definition ENG_FEATURE_DELIVERY_REVIEW_PROMPT : string :=
  "Review implementation quality, correctness, and test impact.
Approve only when the work is production-ready.
Write outputs exactly to:
decision -> {{workflow.output_paths.decision}}
summary -> {{workflow.output_paths.summary}}
feedback -> {{workflow.output_paths.feedback}}

Instructions:
1. Read available context from the provided prompt/context/input files before acting.
2. Execute the step objective and follow the user request when it applies.
3. Follow the additional requirements below.
4. When complete, write structured output values to the exact file paths listed under " +:+ dq +:+ "Write outputs exactly to" +:+ dq +:+ ". Do not rely on stdout for structured output.
Execution requirements:
- Evaluate the deliverable against the stated objective, constraints, and quality bar.
- Be explicit, concrete, and evidence-based in summary/feedback.
Required structured output keys:
- decision: " +:+ dq +:+ "approve" +:+ dq +:+ " or " +:+ dq +:+ "reject" +:+ dq +:+ "
- summary: concise reason for the decision
- feedback: concrete changes needed or verification notes
Decision policy:
- approve only when acceptance criteria are fully met.
- reject when fixes are required; feedback must be actionable.
Write outputs exactly to:
- decision -> {{workflow.output_paths.decision}}
- summary -> {{workflow.output_paths.summary}}
- feedback -> {{workflow.output_paths.feedback}}
".

Definition ENG_FEATURE_DELIVERY_REVIEW_CONTEXT : string :=
  "{{workflow.runtime_context_json}}
".

Definition ENG_FEATURE_DELIVERY_TASK_LOOP_GATE_PROMPT : string :=
  "Decide whether another task iteration is required.
Read the latest task list and completed work evidence before deciding.
Decision semantics for this gate:
- `approve` => more work remains; continue loop and execute the next task.
- `reject` => all required tasks are complete; exit loop to done.
Write outputs exactly to:
decision -> {{workflow.output_paths.decision}}
summary -> {{workflow.output_paths.summary}}
feedback -> {{workflow.output_paths.feedback}}
".

Definition ENG_FEATURE_DELIVERY_TASK_LOOP_GATE_CONTEXT : string :=
  "{{workflow.runtime_context_json}}
".

Definition ENG_FEATURE_DELIVERY_DONE_PROMPT : string :=
  "Summarize final outcome, residual risks, and concrete follow-up actions.
Write outputs exactly to:
summary -> {{workflow.output_paths.summary}}
artifact -> {{workflow.output_paths.artifact}}

Instructions:
1. Read available context from the provided prompt/context/input files before acting.
2. Execute the step objective and follow the user request when it applies.
3. Follow the additional requirements below.
4. When complete, write structured output values to the exact file paths listed under " +:+ dq +:+ "Write outputs exactly to" +:+ dq +:+ ". Do not rely on stdout for structured output.
Execution requirements:
- Follow the step objective and constraints above.
- Use available workflow context and prior-step outputs when present.
Required structured output keys:
- status: " +:+ dq +:+ "complete" +:+ dq +:+ " | " +:+ dq +:+ "failed" +:+ dq +:+ "
- summary: concise step summary
- artifact: primary output text for this step
Status policy:
- complete only when the objective is fully satisfied.
- failed when waiting on missing dependency/permission; include unblock action in summary.
- failed only for unrecoverable errors.
Write outputs exactly to:
- summary -> {{workflow.output_paths.summary}}
- artifact -> {{workflow.output_paths.artifact}}
".

Definition ENG_FEATURE_DELIVERY_DONE_CONTEXT : string :=
  "{{workflow.runtime_context_json}}
".

Definition ENG_QUICK_ANSWER_PROMPT : string :=
  "Answer the user request directly with correct, concise guidance.
Write outputs exactly to:
summary -> {{workflow.output_paths.summary}}
artifact -> {{workflow.output_paths.artifact}}

Instructions:
1. Read available context from the provided prompt/context/input files before acting.
2. Execute the step objective and follow the user request when it applies.
3. Follow the additional requirements below.
4. When complete, write structured output values to the exact file paths listed under " +:+ dq +:+ "Write outputs exactly to" +:+ dq +:+ ". Do not rely on stdout for structured output.
Execution requirements:
- Follow the step objective and constraints above.
- Use available workflow context and prior-step outputs when present.
Required structured output keys:
- status: " +:+ dq +:+ "complete" +:+ dq +:+ " | " +:+ dq +:+ "failed" +:+ dq +:+ "
- summary: concise step summary
- artifact: primary output text for this step
Status policy:
- complete only when the objective is fully satisfied.
- failed when waiting on missing dependency/permission; include unblock action in summary.
- failed only for unrecoverable errors.
Write outputs exactly to:
- summary -> {{workflow.output_paths.summary}}
- artifact -> {{workflow.output_paths.artifact}}
".

Definition ENG_QUICK_ANSWER_CONTEXT : string :=
  "{{workflow.runtime_context_json}}
".

Definition PRODUCT_PRD_RESEARCH_PROMPT : string :=
  "Extract product constraints, user goals, assumptions, and open questions.
Write outputs exactly to:
summary -> {{workflow.output_paths.summary}}
artifact -> {{workflow.output_paths.artifact}}

Instructions:
1. Read available context from the provided prompt/context/input files before acting.
2. Execute the step objective and follow the user request when it applies.
3. Follow the additional requirements below.
4. When complete, write structured output values to the exact file paths listed under " +:+ dq +:+ "Write outputs exactly to" +:+ dq +:+ ". Do not rely on stdout for structured output.
Execution requirements:
- Follow the step objective and constraints above.
- Use available workflow context and prior-step outputs when present.
Required structured output keys:
- status: " +:+ dq +:+ "complete" +:+ dq +:+ " | " +:+ dq +:+ "failed" +:+ dq +:+ "
- summary: concise step summary
- artifact: primary output text for this step
Status policy:
- complete only when the objective is fully satisfied.
- failed when waiting on missing dependency/permission; include unblock action in summary.
- failed only for unrecoverable errors.
Write outputs exactly to:
- summary -> {{workflow.output_paths.summary}}
- artifact -> {{workflow.output_paths.artifact}}
".

Definition PRODUCT_PRD_RESEARCH_CONTEXT : string :=
  "{{workflow.runtime_context_json}}
".

Definition PRODUCT_PRD_DRAFT_PROMPT : string :=
  "Write a concise PRD with problem, goals, scope, milestones, and risks.
Write outputs exactly to:
summary -> {{workflow.output_paths.summary}}
artifact -> {{workflow.output_paths.artifact}}

Instructions:
1. Read available context from the provided prompt/context/input files before acting.
2. Execute the step objective and follow the user request when it applies.
3. Follow the additional requirements below.
4. When complete, write structured output values to the exact file paths listed under " +:+ dq +:+ "Write outputs exactly to" +:+ dq +:+ ". Do not rely on stdout for structured output.
Execution requirements:
- Follow the step objective and constraints above.
- Use available workflow context and prior-step outputs when present.
Required structured output keys:
- status: " +:+ dq +:+ "complete" +:+ dq +:+ " | " +:+ dq +:+ "failed" +:+ dq +:+ "
- summary: concise step summary
- artifact: primary output text for this step
Status policy:
- complete only when the objective is fully satisfied.
- failed when waiting on missing dependency/permission; include unblock action in summary.
- failed only for unrecoverable errors.
Write outputs exactly to:
- summary -> {{workflow.output_paths.summary}}
- artifact -> {{workflow.output_paths.artifact}}
".

Definition PRODUCT_PRD_DRAFT_CONTEXT : string :=
  "{{workflow.runtime_context_json}}
".

Definition PRODUCT_RELEASE_NOTES_COMPOSE_PROMPT : string :=
  "Write release notes grouped by user impact, fixes, and breaking changes.
Write outputs exactly to:
summary -> {{workflow.output_paths.summary}}
artifact -> {{workflow.output_paths.artifact}}

Instructions:
1. Read available context from the provided prompt/context/input files before acting.
2. Execute the step objective and follow the user request when it applies.
3. Follow the additional requirements below.
4. When complete, write structured output values to the exact file paths listed under " +:+ dq +:+ "Write outputs exactly to" +:+ dq +:+ ". Do not rely on stdout for structured output.
Execution requirements:
- Follow the step objective and constraints above.
- Use available workflow context and prior-step outputs when present.
Required structured output keys:
- status: " +:+ dq +:+ "complete" +:+ dq +:+ " | " +:+ dq +:+ "failed" +:+ dq +:+ "
- summary: concise step summary
- artifact: primary output text for this step
Status policy:
- complete only when the objective is fully satisfied.
- failed when waiting on missing dependency/permission; include unblock action in summary.
- failed only for unrecoverable errors.
Write outputs exactly to:
- summary -> {{workflow.output_paths.summary}}
- artifact -> {{workflow.output_paths.artifact}}
".

Definition PRODUCT_RELEASE_NOTES_COMPOSE_CONTEXT : string :=
  "{{workflow.runtime_context_json}}
".

(** The skills of [src/src/skills/assets], in the order of [SKILL_FILES]. *)
Definition SKILL_DIRECLAW_ROUTING_SELECTOR_FORENSICS : string :=
  "---
name: direclaw-routing-selector-forensics
description: " +:+ dq +:+ "Use when explaining why a specific inbound message was routed to a workflow, including selector retries and fallback behavior." +:+ dq +:+ "
---

# DireClaw Routing and Selector Forensics

## Purpose
Reconstruct the selector decision path for one event end-to-end.

## DireClaw Context
- Selector inputs include `availableWorkflows` and `defaultWorkflow`.
- Routing may come from explicit selector choice or fallback (`default_workflow`).
- Evidence lives in selector artifacts, run artifacts, and outbound message records.
- Selector agent must be valid and allowed to orchestrate workflow decisions.

## What To Do
1. Identify target event/message id and time window.
2. Locate selector request/response/retry artifacts for that event.
3. Compare candidate workflows vs selector decision payload.
4. Determine whether outcome was:
   - explicit selector choice
   - fallback to default workflow
   - routing failure/no decision
5. Correlate route decision to created run id and resulting outbound artifact.
6. Explain first divergence point when observed route differs from expected.

## Where To Check
- `<current_working_directory>/orchestrator/select/`
- `<current_working_directory>/workflows/runs/`
- `<current_working_directory>/queue/outgoing/`
- `<current_working_directory>/logs/orchestrator.log`
- Orchestrator config:
  - `<current_working_directory>/orchestrator.yaml`

## How To Verify
1. Confirm selector input contained expected `availableWorkflows`.
2. Confirm returned workflow id is valid and configured.
3. Confirm retry behavior and final outcome match observed routing.
4. Confirm selected/fallback workflow matches run artifact and outbound message.

## Boundaries
- Focus on one event at a time.
- Report uncertainty if artifacts are missing.
- Do not infer selector intent without artifact evidence.

## Deliverable
Return:
- Decision timeline.
- Explicit-selection vs fallback conclusion.
- Evidence paths used for each conclusion.
- First divergence from expected routing (if any).
".

Definition SKILL_DIRECLAW_WORKFLOW_RUN_FORENSICS : string :=
  "---
name: direclaw-workflow-run-forensics
description: " +:+ dq +:+ "Use when diagnosing one workflow run's state, step outcomes, retries, and output-contract compliance." +:+ dq +:+ "
---

# DireClaw Workflow Run Forensics

## Purpose
Explain what happened in a run, where it diverged, and what to do next.

## DireClaw Context
- Run metadata captures state transitions.
- Step artifacts under run work directories provide execution evidence.
- Output contracts are file-based and must be checked by path presence/content.
- Retries and fallback behavior can hide the first real failure if timeline ordering is skipped.

## What To Do
1. Identify run id and target workflow/orchestrator context.
2. Load run metadata and terminal/current state.
3. Inspect each step in execution order, including retries.
4. Validate output contract files per step and final workflow outputs.
5. Build timeline of:
   - step start
   - step completion/failure
   - retry attempts
   - terminal run state
6. Identify first failing/divergent step and causal chain.

## Where To Check
- Run metadata/artifacts:
  - `<current_working_directory>/workflows/runs/<run_id>/`
- Related logs:
  - `<current_working_directory>/logs/`
- Workflow definition for expected contracts:
  - `<current_working_directory>/orchestrator.yaml`

## How To Verify
1. Confirm timeline ordering from timestamps/artifacts.
2. Confirm each claimed failure has direct artifact evidence.
3. Confirm output-file noncompliance with expected contract keys/paths.
4. Re-run smallest reproducible path when possible.

## Boundaries
- Do not generalize from one run to all runs without additional evidence.
- Treat missing artifacts as meaningful findings.
- Do not skip retry history when determining first failure.

## Deliverable
Return:
- Run timeline.
- First divergent/failing step.
- Evidence-backed root cause.
- Minimal next action.
- Confidence level and open unknowns.
".

Definition SKILL_DIRECLAW_SCHEDULER_CRON_MANAGEMENT : string :=
  "---
name: direclaw-scheduler-cron-management
description: " +:+ dq +:+ "Use when adding, editing, deleting, or debugging scheduled cron tasks, including tracing schedule -> enqueue -> route -> execute." +:+ dq +:+ "
---

# DireClaw Scheduler and Cron Management

## Purpose
Safely add, edit, delete, or debug cron tasks while preserving reliable scheduled execution.

## DireClaw Context
Scheduled behavior crosses stages:
- schedule definition and timing evaluation
- enqueue of trigger work
- selector routing
- workflow/function execution
- completion write-back
- timezone interpretation can change expected run times if not explicit

## What To Do
1. Identify requested action:
   - add cron task
   - edit cron task
   - delete cron task
   - debug existing cron task
2. For add/edit/delete actions, apply the smallest targeted scheduler job change via scheduler command paths (`schedule.create`, `schedule.update`, `schedule.delete`, `schedule.pause`, `schedule.resume`, `schedule.run_now`).
3. Normalize time window with explicit timezone and absolute times.
4. Validate schedule definition syntax and effective cadence.
5. Confirm scheduler evaluated and attempted enqueue at expected times.
6. Trace each expected enqueue through:
   - queue creation
   - selector routing
   - workflow run creation
   - step execution/completion
7. Identify first failing stage and classify failure type:
   - missed
   - late
   - duplicate
   - failed execution
8. Propose smallest fix at first failing stage.

## Where To Check
- Scheduler job definitions:
  - `<current_working_directory>/automation/jobs/`
- Scheduler worker state:
  - `<current_working_directory>/automation/scheduler_state.json`
- Scheduler run history:
  - `<current_working_directory>/automation/runs/`
- Scheduler-related logs:
  - `<current_working_directory>/logs/`
- Queue artifacts:
  - `<current_working_directory>/queue/`
- Selector and run artifacts:
  - `<current_working_directory>/orchestrator/select/`
  - `<current_working_directory>/workflows/runs/`

## How To Verify
1. Recompute expected trigger times for the same window/timezone.
2. Confirm job file state in `<current_working_directory>/automation/jobs/` matches intended action.
3. Match each expected trigger to enqueue artifacts.
4. Match enqueue artifacts to scheduler run history and workflow completion records.
5. Re-run a short validation window after applying fix.

## Boundaries
- Fix only the first failing stage unless asked for broader hardening.
- Keep timestamps explicit to avoid timezone confusion.
- Do not guess schedule semantics without checking configured timezone and cron expression.
- Do not modify unrelated workflows, agents, or prompt contracts.

## Deliverable
Return:
- Action summary (`added`, `edited`, `deleted`, or `debugged`).
- Stage-by-stage diagnosis.
- First failing stage.
- Evidence paths with timestamps.
- Minimal change/fix plan.
".

Definition SKILL_DIRECLAW_LOG_INVESTIGATION : string :=
  "---
name: direclaw-log-investigation
description: " +:+ dq +:+ "Use when reconstructing DireClaw behavior from logs for an incident window, with optional correlation/run/message identifiers." +:+ dq +:+ "
---

# DireClaw Log Investigation

## Purpose
Build a reliable event timeline and surface likely causes without over-claiming certainty.

## DireClaw Context
Relevant evidence often spans:
- runtime/supervisor logs
- orchestrator logs
- run-specific logs or diagnostic artifacts
- queue state transitions and selector artifacts near the same timestamps

## What To Do
1. Normalize incident window using explicit timezone and absolute timestamps.
2. Gather all relevant logs and artifacts in that window.
3. Filter by run id, message id, workflow id, or correlation id when available.
4. Build a strictly ordered timeline of facts.
5. Mark each causal statement as:
   - observed fact
   - strong inference
   - weak inference
6. Identify first anomaly and likely upstream/downstream impact.

## Where To Check
- `<current_working_directory>/logs/`
- `<current_working_directory>/queue/{incoming,processing,outgoing}/`
- `<current_working_directory>/orchestrator/select/`
- `<current_working_directory>/workflows/runs/`
- Any run-local diagnostics/output files referenced in logs

## How To Verify
1. Confirm timestamps are comparable (same timezone basis).
2. Validate that timeline events map to on-disk artifacts.
3. Re-check at least one alternative hypothesis for excluded causes.
4. Ensure every key conclusion points to a concrete artifact path.

## Boundaries
- Do not treat hypotheses as facts.
- Prefer concise excerpts plus source path references.
- Do not broaden beyond the requested window/scope unless needed to explain root cause.

## Deliverable
Return:
- Timeline summary.
- Key warnings/errors/anomalies.
- Affected runs/messages/workflows.
- Confidence level for each causal claim.
- Open unknowns blocking full certainty.
".

Definition SKILL_DIRECLAW_AGENT_MANAGEMENT : string :=
  "---
name: direclaw-agent-management
description: " +:+ dq +:+ "Use when adding, updating, or removing DireClaw agents in orchestrator configuration." +:+ dq +:+ "
---

# DireClaw Agent Management

## Purpose
Manage agent definitions only.

## DireClaw Context
- In DireClaw, an Agent is a configured runtime wrapper (for `codex` or `claude` execution).
- Workflows assign one agent per step.
- Selector/default workflow behavior depends on valid agent references.
- Agent execution command construction uses:
  - `provider` -> which CLI binary is invoked
  - `model` -> `--model` value (mapped or pass-through)
  - `can_orchestrate_workflows` -> selector/orchestrator capability flag

## What To Do
1. If the request is about agents, edit only orchestrator config keys related to agents.
2. When editing an agent, set explicit `provider` and `model` values and change only the requested agent fields.
3. Validate that workflows/selectors still reference valid agent ids.
4. Fix any invalid references immediately.

## Allowed Values
- `provider`:
  - `anthropic`
  - `openai`
- `model`:
  - For `anthropic`: `sonnet`, `opus`, `haiku`
  - For `openai`: `gpt-5.3-codex`, `gpt-5.3-codex-spark`
- `can_orchestrate_workflows`:
  - `true` or `false`
  - Controls whether an agent is allowed to perform workflow orchestration actions (for example, selector/default-workflow routing decisions).
  - Does not change provider/model execution behavior for normal workflow steps; it is an orchestration capability gate.
  - Selector agent must have `can_orchestrate_workflows: true`.
  - Use `false` for agents that should only execute assigned steps and never orchestrate workflows.

## Where To Change
- Agent definitions live in:
  - `<current_working_directory>/orchestrator.yaml`
- Agent section shape:
```yaml
agents:
  <agent_id>:
    provider: anthropic|openai
    model: <model_id>
    can_orchestrate_workflows: true|false
```
- Use the orchestrator private workspace path already in scope for the task.

## Examples on How To Choose a Model
- Router/selector agents: `gpt-5.3-codex-spark` or `haiku`
- Simple/fast tasks: `gpt-5.3-codex-spark` or `haiku`
- Code planning: `gpt-5.3-codex` or `opus`
- Research: `gpt-5.3-codex` or `opus`
- Complex decision making: `gpt-5.3-codex` or `opus`
- Medium difficulty tasks: `gpt-5.3-codex` or `sonnet`
- Coding/build agents: prefer OpenAI `gpt-5.3-codex`
- Concise, logical reasoning tasks: prefer OpenAI `gpt-5.3-codex`
- Creative tasks (eg: writing, branding, marketing): prefer Anthropic `opus` or `sonnet`
- UI design: prefer Anthropic `opus`
- Code/plan review: use alternate provider, ie: if plan/build is OpenAI, then use Anthropic to review
- Follow existing orchestrator patterns unless the user requests a capability change.

## How To Verify
1. Static config check:
   - `direclaw orchestrator-agent show <orchestrator_id> <agent_id>`
2. Invariant check:
   - Ensure selector agent exists and has `can_orchestrate_workflows: true`.
   - Ensure no workflow step references a missing agent.

## What Not To Do
- Do not invent input contracts that the runtime does not enforce.
- Do not make unrelated mount or workspace structure changes.

## Deliverable
Return:
- Agent definitions changed/created/deleted.
- Any broken references fixed.
".

Definition SKILL_DIRECLAW_SKILL_MANAGEMENT : string :=
  "---
name: direclaw-skill-management
description: " +:+ dq +:+ "Use when creating, updating, or reviewing workspace skill files used by Codex or Claude." +:+ dq +:+ "
---

# DireClaw Skill Management

## Purpose
Manage skill files only.

## DireClaw Context
- Skills are Markdown files mounted into tool environments.
- Canonical location is `skills/<skill-name>/SKILL.md` inside the orchestrator private workspace.
- A skill should be focused on one job with a clear trigger description.
- Reliable execution improves when skills include concrete steps, boundaries, and deterministic deliverables.

## What To Do
1. Create or edit only the target skill file(s).
2. Keep frontmatter `name` and `description` precise and unambiguous.
3. Keep instructions concrete, deterministic, and scoped to a single responsibility.
4. Keep DireClaw-specific context in the skill when domain behavior is non-obvious.
5. Include explicit sections that reduce ambiguity:
   - Purpose
   - DireClaw Context
   - What To Do
   - Where To Change/Check
   - How To Verify
   - What Not To Do
   - Deliverable

## Where To Change
- Target skill files under:
  - `<current_working_directory>/skills/<skill-name>/SKILL.md`

## How To Verify
1. Confirm frontmatter fields are present and correct.
2. Confirm instructions are deterministic and free of contradictory guidance.
3. Confirm skill scope is single-purpose and does not overlap unrelated config edits.
4. Confirm output expectations are explicit and file/path-based when relevant.

## What Not To Do
- Do not edit agent definitions in this skill.
- Do not conflate skill content changes with orchestrator config changes.
- Do not add ambiguous " +:+ dq +:+ "required inputs" +:+ dq +:+ " language as if runtime-enforced.
- Do not leave deliverables implicit.

## Deliverable
Return:
- Skill files changed.
- Purpose/trigger clarity improvements made.
- Any follow-up needed for related config or workflow references.
".

Definition SKILL_DIRECLAW_WORKFLOW_AUTHORING : string :=
  "---
name: direclaw-workflow-authoring
description: " +:+ dq +:+ "Use when creating or modifying workflow definitions while preserving DireClaw graph and output-contract invariants." +:+ dq +:+ "
---

# DireClaw Workflow Authoring

## Purpose
Produce safe workflow graph changes with predictable runtime behavior.

## DireClaw Context
- Workflow steps each use one configured agent.
- Transition keys (`next`, `on_approve`, `on_reject`) define graph flow.
- Outputs are file-based contracts consumed downstream.
- Invalid step references or transition paths can break runs at dispatch or mid-execution.

## What To Do
1. Identify target workflow(s) and requested behavior change.
2. Edit only affected workflow keys/steps/transitions.
3. Validate identifiers:
   - workflow ids
   - step ids
   - agent ids
4. Validate graph integrity:
   - reachable start path
   - no unintended dead ends
   - intentional loops only
5. Validate output contracts:
   - `outputs` definitions
   - `output_files` mappings
   - deterministic file path instructions in prompts
6. Re-check selector/default workflow references if routing behavior changed.

## Where To Change
- Workflow definitions in:
  - `<current_working_directory>/orchestrator.yaml`
  - workflow template files referenced by orchestrator config (if present)

## How To Verify
1. Static validation of workflow and agent references.
2. Run a minimal workflow execution path for changed step(s).
3. Confirm expected transitions occurred.
4. Confirm expected output files exist with parseable content.

## Boundaries
- Keep edits scoped to requested workflow behavior.
- Do not mix unrelated config rewrites into workflow work.
- Do not introduce implicit output contracts via stdout.

## Deliverable
Return:
- Workflow diff summary.
- Invariant check results.
- Expected execution impact.
- Any required follow-up for prompt/contract alignment.
".

Definition SKILL_DIRECLAW_PROMPT_CONTRACTS : string :=
  "---
name: direclaw-prompt-contracts
description: " +:+ dq +:+ "Use when editing selector/workflow prompts to keep output contracts deterministic and file-based." +:+ dq +:+ "
---

# DireClaw Prompt and Output Contracts

## Purpose
Ensure prompt templates produce structured outputs in exactly the files the workflow expects.

## DireClaw Context
- Agent tools (`codex`/`claude`) can emit noisy stdout.
- Structured workflow outputs must be written to explicit file paths.
- Workflow progression depends on downstream steps reading expected output files.
- Prompt wording must remove ambiguity about where structured output is written.

## What To Do
1. Identify the target prompt template and its consuming workflow step/output mapping.
2. Edit instructions so structured output is written to one exact file path per contract.
3. Ensure the prompt explicitly separates:
   - general tool stdout (non-contractual)
   - required structured output file content (contractual)
4. Verify placeholders/variables are valid for the runtime template context.
5. Ensure output schema instructions are stable and deterministic.

## Where To Change
- Prompt/template definitions in orchestrator or workflow config (where applicable):
  - `<current_working_directory>/orchestrator.yaml`
  - workflow template/prompt files referenced by config
- Output contract linkage:
  - workflow `outputs`
  - workflow `output_files`

## Valid Prompt Contract Patterns
- " +:+ dq +:+ "Once complete, write JSON to `<absolute_or_run_relative_path>` containing `<required_fields>`." +:+ dq +:+ "
- " +:+ dq +:+ "Do not rely on stdout for structured result parsing; only the file at `<path>` is contract output." +:+ dq +:+ "
- " +:+ dq +:+ "If generation fails, still write a structured error object to `<path>`." +:+ dq +:+ "

## How To Verify
1. Run a minimal workflow execution for the edited step.
2. Confirm expected output file exists at exact path.
3. Confirm file content matches required schema/keys.
4. Confirm downstream step can parse and proceed.

## Boundaries
- Never rely on stdout for machine-parsed outputs.
- Keep wording deterministic; avoid ambiguous output instructions.
- Do not change unrelated workflow graph logic unless required for contract alignment.

## Deliverable
Return:
- Prompt/context changes.
- Contract compliance notes.
- Any risks to parseability or output mapping.
".

Definition SKILL_FILES : list (string * string) :=
  [("direclaw-routing-selector-forensics/SKILL.md", SKILL_DIRECLAW_ROUTING_SELECTOR_FORENSICS);
   ("direclaw-workflow-run-forensics/SKILL.md", SKILL_DIRECLAW_WORKFLOW_RUN_FORENSICS);
   ("direclaw-scheduler-cron-management/SKILL.md", SKILL_DIRECLAW_SCHEDULER_CRON_MANAGEMENT);
   ("direclaw-log-investigation/SKILL.md", SKILL_DIRECLAW_LOG_INVESTIGATION);
   ("direclaw-agent-management/SKILL.md", SKILL_DIRECLAW_AGENT_MANAGEMENT);
   ("direclaw-skill-management/SKILL.md", SKILL_DIRECLAW_SKILL_MANAGEMENT);
   ("direclaw-workflow-authoring/SKILL.md", SKILL_DIRECLAW_WORKFLOW_AUTHORING);
   ("direclaw-prompt-contracts/SKILL.md", SKILL_DIRECLAW_PROMPT_CONTRACTS)]%list.
