(* ===== verification/Prompts.v ===== *)
(** * Prompt templates

    [src/src/prompts/mod.rs]: the files with the prompt and the context of a step,
    their placeholders, putting the files in place and checking them. *)
From S2P Require Import Prelude RustStr RustPath Io Json TypedFields Config OrchestratorFile Templates Assets.
From Stdlib Require Import Ascii.

Local Open Scope string_scope.
Local Open Scope list_scope.

Definition PROMPTS_DIR : string := "prompts".
Definition SELECTOR_PROMPT_REL_PATH : string := "selector/workflow_selector.prompt.md".
Definition SELECTOR_CONTEXT_REL_PATH : string := "selector/workflow_selector.context.md".

Definition default_step_prompt (step_type : WorkflowStepType) : string :=
  match step_type with
  | AgentTask => DEFAULT_TASK_PROMPT_TEMPLATE
  | AgentReview => DEFAULT_REVIEW_PROMPT_TEMPLATE
  end.
Definition default_step_context : string := DEFAULT_CONTEXT_TEMPLATE.
Definition default_selector_prompt : string := SELECTOR_PROMPT_TEMPLATE.
Definition default_selector_context : string := SELECTOR_CONTEXT_TEMPLATE.
Definition default_context_rel_path (workflow_id step_id : string) : string :=
  String.concat "" ["workflows/"; workflow_id; "/"; step_id; ".context.md"].

(** ** Paths *)
Definition is_normal (c : Component) : bool := match c with Normal _ => true | _ => false end.
Definition parse_relative_prompt_path (path : string) : result string string :=
  let trimmed := trim path in
  reject_if (is_empty trimmed) "prompt template path must be non-empty" ;;
  reject_if (is_absolute trimmed) "prompt template path must be relative" ;;
  reject_if (negb (forallb is_normal (components trimmed)))
    "prompt template path must not contain traversal or prefixes" ;;
  Ok trimmed.
Definition resolve_prompt_template_path (prompt_root path : string) : result string string :=
  relative ← parse_relative_prompt_path path;
  Ok (path_join prompt_root relative).

Definition newline : string := "
".
Definition is_prompt_template_reference (path : string) : bool :=
  let trimmed := trim path in
  ends_with ".md" trimmed && negb (contains newline trimmed).
Definition context_path_for_prompt_reference (path : string) : string :=
  match strip_suffix ".prompt.md" path with
  | Some base => base +:+ ".context.md"
  | None => path +:+ ".context.md"
  end.

(** ** Built-in templates *)
Definition builtin_template_content (workflow_id step_id : string) : option (string * string) :=
  let is_ w s := String.eqb workflow_id w && String.eqb step_id s in
  if is_ "default" "step_1" then
    Some (MINIMAL_DEFAULT_STEP_1_PROMPT, MINIMAL_DEFAULT_STEP_1_CONTEXT)
  else if is_ "feature_delivery" "plan" then
    Some (ENG_FEATURE_DELIVERY_PLAN_PROMPT, ENG_FEATURE_DELIVERY_PLAN_CONTEXT)
  else if is_ "feature_delivery" "task_decompose" then
    Some (ENG_FEATURE_DELIVERY_TASK_DECOMPOSE_PROMPT, ENG_FEATURE_DELIVERY_TASK_DECOMPOSE_CONTEXT)
  else if is_ "feature_delivery" "plan_review" then
    Some (ENG_FEATURE_DELIVERY_PLAN_REVIEW_PROMPT, ENG_FEATURE_DELIVERY_PLAN_REVIEW_CONTEXT)
  else if is_ "feature_delivery" "implement" then
    Some (ENG_FEATURE_DELIVERY_IMPLEMENT_PROMPT, ENG_FEATURE_DELIVERY_IMPLEMENT_CONTEXT)
  else if is_ "feature_delivery" "review" then
    Some (ENG_FEATURE_DELIVERY_REVIEW_PROMPT, ENG_FEATURE_DELIVERY_REVIEW_CONTEXT)
  else if is_ "feature_delivery" "task_loop_gate" then
    Some (ENG_FEATURE_DELIVERY_TASK_LOOP_GATE_PROMPT, ENG_FEATURE_DELIVERY_TASK_LOOP_GATE_CONTEXT)
  else if is_ "feature_delivery" "done" then
    Some (ENG_FEATURE_DELIVERY_DONE_PROMPT, ENG_FEATURE_DELIVERY_DONE_CONTEXT)
  else if is_ "quick_answer" "answer" then Some (ENG_QUICK_ANSWER_PROMPT, ENG_QUICK_ANSWER_CONTEXT)
  else if is_ "prd_draft" "research" then
    Some (PRODUCT_PRD_RESEARCH_PROMPT, PRODUCT_PRD_RESEARCH_CONTEXT)
  else if is_ "prd_draft" "draft" then Some (PRODUCT_PRD_DRAFT_PROMPT, PRODUCT_PRD_DRAFT_CONTEXT)
  else if is_ "release_notes" "compose" then
    Some (PRODUCT_RELEASE_NOTES_COMPOSE_PROMPT, PRODUCT_RELEASE_NOTES_COMPOSE_CONTEXT)
  else None.
(** [builtin_template_content(..).unwrap_or_else(..)] *)
Definition template_content (workflow_id : string) (step : WorkflowStepConfig) : string * string :=
  from_option id (default_step_prompt (ws_step_type step), default_step_context)
    (builtin_template_content workflow_id (ws_id step)).

(** ** Placeholders *)
Section rendering.
Context (resolve : string → result string string).
(** One placeholder is taken from the front in every round, so the length of the
    template is fuel enough ([render_fuel]). *)
Fixpoint render_loop (fuel : nat) (rendered cursor : string) : result string string :=
  match fuel, cut "{{" cursor with
  | S fuel, Some (text, after_open) =>
      let rendered := rendered +:+ text in
      match cut "}}" after_open with
      | None => Err "unclosed placeholder in template"
      | Some (raw, cursor) =>
          let token := trim raw in
          reject_if (is_empty token) "empty placeholder in template" ;;
          value ← resolve token;
          render_loop fuel (rendered +:+ value) cursor
      end
  | _, _ => Ok (rendered +:+ cursor)
  end.
Definition render_template_with_placeholders (template : string) : result string string :=
  render_loop (String.length template) "" template.
End rendering.

Definition non_blank (segment : string) : bool := negb (is_empty (trim segment)).
Definition has_non_empty_path_segments (raw : string) : bool :=
  negb (is_nil (filter (λ s, non_blank s = true) (split_on "." raw))).

(** The tokens with a fixed name. *)
Definition workflow_tokens : list string :=
  ["workflow.run_id"; "workflow.step_id"; "workflow.attempt"; "workflow.run_workspace";
   "workflow.output_schema_json"; "workflow.output_paths_json"; "workflow.runtime_context_json";
   "workflow.memory_context_bulletin"; "workflow.memory_context_citations";
   "workflow.memory_context_json"; "workflow.channel"; "workflow.channel_profile_id";
   "workflow.conversation_id"; "workflow.sender_id"; "workflow.selector_id"].
Definition is_supported_step_placeholder (token : string) : bool :=
  match strip_prefix "inputs." token with
  | Some path =>
      if String.eqb path "memory_bulletin" || String.eqb path "memory_bulletin_citations" then false
      else has_non_empty_path_segments path
  | None =>
  match strip_prefix "state." token with
  | Some path => has_non_empty_path_segments path
  | None =>
  match strip_prefix "steps." token with
  | Some path =>
      match split_on "." path with
      | step :: outputs :: key :: keys =>
          String.eqb outputs "outputs" && non_blank step && forallb non_blank (key :: keys)
      | _ => false
      end
  | None =>
  if existsb (String.eqb token) workflow_tokens then true else
  match strip_prefix "workflow.output_paths." token with
  | Some path_key => non_blank path_key
  | None => false
  end
  end
  end
  end.
Definition is_supported_selector_placeholder (token : string) : bool :=
  existsb (String.eqb token)
    ["selector.request_json"; "selector.result_path"; "selector.orchestrator_id";
     "selector.agent_id"; "selector.attempt"].
Definition placeholder_supported (kind : string) : string → bool :=
  if String.eqb kind "selector" then is_supported_selector_placeholder
  else is_supported_step_placeholder.
Definition validate_template_placeholders (template kind : string) : result string () :=
  _ ← render_template_with_placeholders (λ token,
    if placeholder_supported kind token then Ok ""
    else Err (String.concat "" ["unsupported "; kind; " placeholder `{{"; token; "}}`"])) template;
  Ok ().

(** ** Putting the templates in place *)
Definition io_create_dir_error (path : string) (source : io_error) : ConfigError :=
  CCreateDir path source.
Definition io_write_error (path : string) (source : io_error) : ConfigError := CWrite path source.
Definition ensure_file (path body : string) : IO disk ConfigError () :=
  exists_ ← path_exists (disk_exists path);
  if (exists_ : bool) then mret () else
  match path_parent path with
  | Some parent => io_map_err (io_create_dir_error parent) (sys (create_dir_all parent))
  | None => mret ()
  end ;;
  io_map_err (io_write_error path) (sys (disk_write path body)).

Section workspace.
Context (private_workspace : string).
Local Abbreviation prompt_root := (path_join private_workspace PROMPTS_DIR).

Definition ensure_step (workflow : WorkflowConfig) (step : WorkflowStepConfig) :
    IO disk ConfigError () :=
  if negb (is_prompt_template_reference (ws_prompt step)) then mret () else
  let prompt_rel := trim (ws_prompt step) in
  let context_rel := context_path_for_prompt_reference prompt_rel in
  prompt_path ← lift (map_err COrchestrator (resolve_prompt_template_path prompt_root prompt_rel));
  context_path ← lift (map_err COrchestrator (resolve_prompt_template_path prompt_root context_rel));
  let '(prompt_body, context_body) := template_content (wf_id workflow) step in
  ensure_file prompt_path prompt_body ;;
  ensure_file context_path context_body.
Definition ensure_orchestrator_prompt_templates (orchestrator : OrchestratorConfig) :
    IO disk ConfigError () :=
  io_map_err (io_create_dir_error prompt_root) (sys (create_dir_all prompt_root)) ;;
  ensure_file (path_join prompt_root SELECTOR_PROMPT_REL_PATH) SELECTOR_PROMPT_TEMPLATE ;;
  ensure_file (path_join prompt_root SELECTOR_CONTEXT_REL_PATH) SELECTOR_CONTEXT_TEMPLATE ;;
  io_for_each (λ workflow, io_for_each (ensure_step workflow) (wf_steps workflow))
    (oc_workflows orchestrator).

(** ** Checking them *)
(** The three questions about one file: [what] names it in an issue. *)
Definition check_template (what kind path : string) : IO disk ConfigError (list string) :=
  is_file ← path_exists (disk_exists path);
  if negb is_file then mret [what +:+ " missing at " +:+ path] else
  body ← attempt (sys (disk_read path));
  mret match body with
       | Err _ => [what +:+ " unreadable at " +:+ path]
       | Ok body =>
           match validate_template_placeholders body kind with
           | Ok _ => []
           | Err err => [what +:+ " invalid at " +:+ path +:+ ": " +:+ err]
           end
       end.
Definition check_step (workflow : WorkflowConfig) (step : WorkflowStepConfig) (issues : list string) :
    IO disk ConfigError (list string) :=
  let name := String.concat "" ["workflow `"; wf_id workflow; "` step `"; ws_id step; "`"] in
  if negb (is_prompt_template_reference (ws_prompt step)) then
    mret (issues ++ [name +:+ " prompt is inline; expected relative markdown path under prompts/"])
  else
  match resolve_prompt_template_path prompt_root (trim (ws_prompt step)) with
  | Err err =>
      mret (issues ++ [String.concat "" [name; " prompt path `"; ws_prompt step; "` invalid: "; err]])
  | Ok prompt_path =>
      prompt_issues ← check_template (name +:+ " prompt template") "step" prompt_path;
      let context_rel := context_path_for_prompt_reference (trim (ws_prompt step)) in
      match resolve_prompt_template_path prompt_root context_rel with
      | Err err =>
          mret (issues ++ prompt_issues
            ++ [String.concat "" [name; " context path `"; context_rel; "` invalid: "; err]])
      | Ok context_path =>
          context_issues ← check_template (name +:+ " context template") "step" context_path;
          mret (issues ++ prompt_issues ++ context_issues)
      end
  end.
Definition validate_orchestrator_prompt_templates (orchestrator : OrchestratorConfig) :
    IO disk ConfigError (list string) :=
  prompt_issues ← check_template "selector prompt template" "selector"
    (path_join prompt_root SELECTOR_PROMPT_REL_PATH);
  context_issues ← check_template "selector context template" "selector"
    (path_join prompt_root SELECTOR_CONTEXT_REL_PATH);
  io_for_fold (λ issues workflow,
      io_for_fold (λ issues step, check_step workflow step issues) (wf_steps workflow) issues)
    (oc_workflows orchestrator) (prompt_issues ++ context_issues).
End workspace.
