(* ===== verification/SetupDraft.v ===== *)
(** * The setup draft

    [src/src/config/setup_draft.rs]: the configuration the setup screens edit.
    Every operation is a computation on the draft, the configuration of one
    orchestrator, a workflow or a step; [zoom_opt] is the [get_mut] or [find] that
    leads there.  As in the source, what an operation changed before it fails
    stays changed. *)
From S2P Require Import Prelude RustStr RustPath Io Json TypedFields Config OrchestratorFile Templates.

Local Open Scope string_scope.
Local Open Scope list_scope.

(** An [Err] message, or a panic at an [expect]. *)
Inductive setup_failure := Rejected (message : string) | Panicked.
Abbreviation edit T := (IO T setup_failure ()).

Definition reject {T A} (message : string) : IO T setup_failure A := throw (Rejected message).
Definition reject_when {T} (b : bool) (message : string) : edit T :=
  if b then reject message else mret ().
(** [result?] where the error is a message. *)
Definition checked {T A} (r : result string A) : IO T setup_failure A := lift (map_err Rejected r).
Definition expect {T A} (o : option A) : IO T setup_failure A :=
  match o with Some a => mret a | None => throw Panicked end.

Record SetupDraft := {
  sd_workspaces_path : string;
  sd_orchestrator_id : string;
  sd_provider : string;
  sd_model : string;
  sd_workflow_template : WorkflowTemplate;
  sd_orchestrators : list (string * SettingsOrchestrator);
  sd_configs : list (string * OrchestratorConfig);
}.
Inductive OrchestrationLimitField :=
  | MaxTotalIterations | DefaultRunTimeoutSeconds | DefaultStepTimeoutSeconds | MaxStepTimeoutSeconds.

(** ** Field updates *)
Definition put_paths (v : string) (d : SetupDraft) : SetupDraft :=
  {| sd_workspaces_path := v; sd_orchestrator_id := sd_orchestrator_id d;
     sd_provider := sd_provider d; sd_model := sd_model d;
     sd_workflow_template := sd_workflow_template d;
     sd_orchestrators := sd_orchestrators d; sd_configs := sd_configs d |}.
Definition put_defaults (provider model : string) (t : WorkflowTemplate) (d : SetupDraft) :
    SetupDraft :=
  {| sd_workspaces_path := sd_workspaces_path d; sd_orchestrator_id := sd_orchestrator_id d;
     sd_provider := provider; sd_model := model; sd_workflow_template := t;
     sd_orchestrators := sd_orchestrators d; sd_configs := sd_configs d |}.
Definition put_registry (id : string) (os : list (string * SettingsOrchestrator))
    (cs : list (string * OrchestratorConfig)) (d : SetupDraft) : SetupDraft :=
  {| sd_workspaces_path := sd_workspaces_path d; sd_orchestrator_id := id;
     sd_provider := sd_provider d; sd_model := sd_model d;
     sd_workflow_template := sd_workflow_template d;
     sd_orchestrators := os; sd_configs := cs |}.

Definition put_config (selector default_workflow : string) (retries timeout : Z)
    (agents : list (string * AgentConfig)) (workflows : list WorkflowConfig)
    (orchestration : option WorkflowOrchestrationConfig) (c : OrchestratorConfig) :
    OrchestratorConfig :=
  {| oc_id := oc_id c; oc_selector_agent := selector; oc_default_workflow := default_workflow;
     oc_selection_max_retries := retries; oc_selector_timeout_seconds := timeout;
     oc_agents := agents; oc_workflows := workflows;
     oc_workflow_orchestration := orchestration |}.
Definition put_selector v c := put_config v (oc_default_workflow c) (oc_selection_max_retries c)
  (oc_selector_timeout_seconds c) (oc_agents c) (oc_workflows c) (oc_workflow_orchestration c) c.
Definition put_default_workflow v c := put_config (oc_selector_agent c) v
  (oc_selection_max_retries c) (oc_selector_timeout_seconds c) (oc_agents c) (oc_workflows c)
  (oc_workflow_orchestration c) c.
Definition put_retries v c := put_config (oc_selector_agent c) (oc_default_workflow c) v
  (oc_selector_timeout_seconds c) (oc_agents c) (oc_workflows c) (oc_workflow_orchestration c) c.
Definition put_timeout v c := put_config (oc_selector_agent c) (oc_default_workflow c)
  (oc_selection_max_retries c) v (oc_agents c) (oc_workflows c) (oc_workflow_orchestration c) c.
Definition put_agents v c := put_config (oc_selector_agent c) (oc_default_workflow c)
  (oc_selection_max_retries c) (oc_selector_timeout_seconds c) v (oc_workflows c)
  (oc_workflow_orchestration c) c.
Definition put_workflows v c := put_config (oc_selector_agent c) (oc_default_workflow c)
  (oc_selection_max_retries c) (oc_selector_timeout_seconds c) (oc_agents c) v
  (oc_workflow_orchestration c) c.
Definition put_orchestration v c := put_config (oc_selector_agent c) (oc_default_workflow c)
  (oc_selection_max_retries c) (oc_selector_timeout_seconds c) (oc_agents c) (oc_workflows c) v c.

Definition put_workflow (id : string) (version : Z) (inputs : list string)
    (limits : option WorkflowLimitsConfig) (steps : list WorkflowStepConfig) (w : WorkflowConfig) :
    WorkflowConfig :=
  {| wf_id := id; wf_version := version; wf_description := wf_description w; wf_tags := wf_tags w;
     wf_inputs := inputs; wf_limits := limits; wf_steps := steps |}.
Definition put_workflow_id v w :=
  put_workflow v (wf_version w) (wf_inputs w) (wf_limits w) (wf_steps w) w.
Definition put_version v w := put_workflow (wf_id w) v (wf_inputs w) (wf_limits w) (wf_steps w) w.
Definition put_inputs v w := put_workflow (wf_id w) (wf_version w) v (wf_limits w) (wf_steps w) w.
Definition put_limits v w := put_workflow (wf_id w) (wf_version w) (wf_inputs w) v (wf_steps w) w.
Definition put_steps v w := put_workflow (wf_id w) (wf_version w) (wf_inputs w) (wf_limits w) v w.

Definition put_step (id : string) (step_type : WorkflowStepType) (agent prompt : string)
    (mode : WorkflowStepWorkspaceMode) (limits : option StepLimitsConfig)
    (s : WorkflowStepConfig) : WorkflowStepConfig :=
  {| ws_id := id; ws_step_type := step_type; ws_agent := agent; ws_prompt := prompt;
     ws_prompt_type := ws_prompt_type s; ws_workspace_mode := mode; ws_next := ws_next s;
     ws_on_approve := ws_on_approve s; ws_on_reject := ws_on_reject s; ws_outputs := ws_outputs s;
     ws_output_files := ws_output_files s; ws_final_output_priority := ws_final_output_priority s;
     ws_limits := limits |}.
Definition put_step_id v s := put_step v (ws_step_type s) (ws_agent s) (ws_prompt s)
  (ws_workspace_mode s) (ws_limits s) s.
Definition put_agent v s := put_step (ws_id s) (ws_step_type s) v (ws_prompt s)
  (ws_workspace_mode s) (ws_limits s) s.
Definition put_type_and_prompt t p s := put_step (ws_id s) t (ws_agent s) p
  (ws_workspace_mode s) (ws_limits s) s.
Definition put_mode v s := put_step (ws_id s) (ws_step_type s) (ws_agent s) (ws_prompt s) v
  (ws_limits s) s.
Definition put_step_limits v s := put_step (ws_id s) (ws_step_type s) (ws_agent s) (ws_prompt s)
  (ws_workspace_mode s) v s.

(** ** The parts of the draft *)
Definition the_config {A} (orchestrator_id missing : string)
    (m : IO OrchestratorConfig setup_failure A) : IO SetupDraft setup_failure A :=
  zoom_opt (λ d, map_get orchestrator_id (sd_configs d))
    (λ c d, put_registry (sd_orchestrator_id d) (sd_orchestrators d)
              (map_insert orchestrator_id c (sd_configs d)) d)
    (Rejected missing) m.
Definition config_missing (orchestrator_id : string) : string :=
  "orchestrator `" +:+ orchestrator_id +:+ "` missing in setup state".

(** [iter_mut().find(..)]: the first element that satisfies the test. *)
Fixpoint update_first {A} (p : A → bool) (x' : A) (l : list A) : list A :=
  match l with
  | [] => []
  | x :: l => if p x then x' :: l else x :: update_first p x' l
  end.
Definition is_workflow (id : string) (w : WorkflowConfig) : bool := String.eqb (wf_id w) id.
Definition is_step (id : string) (s : WorkflowStepConfig) : bool := String.eqb (ws_id s) id.

Definition workflow_gone : string := "workflow no longer exists".
Definition step_gone : string := "step no longer exists".
Definition the_workflow {A} (workflow_id missing : string) (m : IO WorkflowConfig setup_failure A) :
    IO OrchestratorConfig setup_failure A :=
  zoom_opt (λ c, List.find (is_workflow workflow_id) (oc_workflows c))
    (λ w c, put_workflows (update_first (is_workflow workflow_id) w (oc_workflows c)) c)
    (Rejected missing) m.
Definition the_step {A} (step_id missing : string) (m : IO WorkflowStepConfig setup_failure A) :
    IO WorkflowConfig setup_failure A :=
  zoom_opt (λ w, List.find (is_step step_id) (wf_steps w))
    (λ s w, put_steps (update_first (is_step step_id) s (wf_steps w)) w)
    (Rejected missing) m.

(** [workflow_mut(..).ok_or("workflow no longer exists")] and
    [step_mut(..).ok_or("step no longer exists")]. *)
Definition workflow_mut {A} (orchestrator_id workflow_id : string)
    (m : IO WorkflowConfig setup_failure A) : IO SetupDraft setup_failure A :=
  the_config orchestrator_id workflow_gone (the_workflow workflow_id workflow_gone m).
Definition step_mut {A} (orchestrator_id workflow_id step_id : string)
    (m : IO WorkflowStepConfig setup_failure A) : IO SetupDraft setup_failure A :=
  the_config orchestrator_id step_gone
    (the_workflow workflow_id step_gone (the_step step_id step_gone m)).

Definition validate_orchestrator_invariants : edit OrchestratorConfig :=
  cfg ← get; checked (map_err ConfigError_display (validate_setup_invariants cfg)).

(** [validate_identifier(kind, value)] with one of its four kinds. *)
Definition validate_identifier (kind value : string) : result string () :=
  if String.eqb kind "orchestrator id" then (λ _, ()) <$> OrchestratorId_parse value
  else if String.eqb kind "workflow id" then (λ _, ()) <$> WorkflowId_parse value
  else if String.eqb kind "step id" then (λ _, ()) <$> StepId_parse value
  else if String.eqb kind "agent id" then (λ _, ()) <$> AgentId_parse value
  else Err ("unsupported identifier kind `" +:+ kind +:+ "`").

(** ** Defaults and the registry of orchestrators *)
Definition set_workspaces_path (value : string) : edit SetupDraft := modify (put_paths value).
Definition set_default_provider (provider : string) : edit SetupDraft :=
  modify (λ d, put_defaults provider (sd_model d) (sd_workflow_template d) d).
Definition set_default_model (model : string) : edit SetupDraft :=
  modify (λ d, put_defaults (sd_provider d) model (sd_workflow_template d) d).
Definition set_default_workflow_template (template : WorkflowTemplate) : edit SetupDraft :=
  modify (λ d, put_defaults (sd_provider d) (sd_model d) template d).

Definition set_primary_orchestrator (orchestrator_id : string) : edit SetupDraft :=
  d ← get;
  reject_when (negb (map_contains_key orchestrator_id (sd_orchestrators d)))
    ("orchestrator `" +:+ orchestrator_id +:+ "` does not exist") ;;
  put (put_registry orchestrator_id (sd_orchestrators d) (sd_configs d) d).

Definition empty_orchestrator : SettingsOrchestrator :=
  {| so_private_workspace := None; so_shared_access := [] |}.
(** The two insertions: the registry entry is there before the configuration is
    built, which may panic. *)
Definition insert_orchestrator (id : string) : edit SetupDraft :=
  d ← get;
  put (put_registry (sd_orchestrator_id d)
         (map_insert id empty_orchestrator (sd_orchestrators d)) (sd_configs d) d) ;;
  cfg ← expect (initial_orchestrator_config id (sd_provider d) (sd_model d)
                  (sd_workflow_template d));
  modify (λ d, put_registry id (sd_orchestrators d) (map_insert id cfg (sd_configs d)) d).

Definition ensure_minimum_orchestrator : edit SetupDraft :=
  d ← get;
  if is_nil (sd_orchestrators d) then insert_orchestrator "main" else mret ().

Definition add_orchestrator (orchestrator_id : string) : edit SetupDraft :=
  checked (validate_identifier "orchestrator id" orchestrator_id) ;;
  d ← get;
  reject_when (map_contains_key orchestrator_id (sd_orchestrators d))
    "orchestrator id already exists" ;;
  insert_orchestrator orchestrator_id.

Definition remove_orchestrator (orchestrator_id : string) : edit SetupDraft :=
  d ← get;
  reject_when (negb (map_contains_key orchestrator_id (sd_orchestrators d)))
    ("orchestrator `" +:+ orchestrator_id +:+ "` does not exist") ;;
  reject_when (bool_decide (length (sd_orchestrators d) ≤ 1)%nat)
    "at least one orchestrator must remain" ;;
  let orchestrators := map_remove orchestrator_id (sd_orchestrators d) in
  let primary :=
    if String.eqb (sd_orchestrator_id d) orchestrator_id then
      match map_keys orchestrators with
      | next_id :: _ => next_id
      | [] => sd_orchestrator_id d
      end
    else sd_orchestrator_id d in
  put (put_registry primary orchestrators (map_remove orchestrator_id (sd_configs d)) d).

Definition the_orchestrator (orchestrator_id : string) (m : edit SettingsOrchestrator) :
    edit SetupDraft :=
  zoom_opt (λ d, map_get orchestrator_id (sd_orchestrators d))
    (λ o d, put_registry (sd_orchestrator_id d) (map_insert orchestrator_id o (sd_orchestrators d))
              (sd_configs d) d)
    (Rejected (config_missing orchestrator_id)) m.
Definition set_orchestrator_private_workspace (orchestrator_id : string) (value : option string) :
    edit SetupDraft :=
  the_orchestrator orchestrator_id (modify (λ o,
    {| so_private_workspace := value; so_shared_access := so_shared_access o |})).
Definition set_orchestrator_shared_access (orchestrator_id : string) (shared_access : list string) :
    edit SetupDraft :=
  the_orchestrator orchestrator_id (modify (λ o,
    {| so_private_workspace := so_private_workspace o; so_shared_access := shared_access |})).

(** ** One orchestrator *)
Definition has_workflow (workflow_id : string) (c : OrchestratorConfig) : bool :=
  existsb (is_workflow workflow_id) (oc_workflows c).

Definition set_orchestrator_default_workflow (orchestrator_id workflow_id : string) :
    edit SetupDraft :=
  checked (validate_identifier "workflow id" workflow_id) ;;
  the_config orchestrator_id (config_missing orchestrator_id) (
    cfg ← get;
    reject_when (negb (has_workflow workflow_id cfg)) ("workflow `" +:+ workflow_id +:+ "` not found") ;;
    put (put_default_workflow workflow_id cfg) ;;
    validate_orchestrator_invariants).

Definition set_orchestrator_selection_max_retries (orchestrator_id : string) (value : Z) :
    edit SetupDraft :=
  reject_when (bool_decide (value < 1)%Z) "selection_max_retries must be >= 1" ;;
  the_config orchestrator_id (config_missing orchestrator_id) (modify (put_retries value)).
Definition set_orchestrator_selector_timeout_seconds (orchestrator_id : string) (value : Z) :
    edit SetupDraft :=
  reject_when (bool_decide (value < 1)%Z) "selector_timeout_seconds must be >= 1" ;;
  the_config orchestrator_id (config_missing orchestrator_id) (modify (put_timeout value)).

Definition no_limits : WorkflowOrchestrationConfig :=
  {| wo_max_total_iterations := None; wo_default_run_timeout_seconds := None;
     wo_default_step_timeout_seconds := None; wo_max_step_timeout_seconds := None |}.
Definition put_limit (field : OrchestrationLimitField) (v : option Z)
    (o : WorkflowOrchestrationConfig) : WorkflowOrchestrationConfig :=
  {| wo_max_total_iterations :=
       match field with MaxTotalIterations => v | _ => wo_max_total_iterations o end;
     wo_default_run_timeout_seconds :=
       match field with DefaultRunTimeoutSeconds => v | _ => wo_default_run_timeout_seconds o end;
     wo_default_step_timeout_seconds :=
       match field with DefaultStepTimeoutSeconds => v | _ => wo_default_step_timeout_seconds o end;
     wo_max_step_timeout_seconds :=
       match field with MaxStepTimeoutSeconds => v | _ => wo_max_step_timeout_seconds o end |}.
Definition limits_empty (o : WorkflowOrchestrationConfig) : bool :=
  match wo_max_total_iterations o, wo_default_run_timeout_seconds o,
        wo_default_step_timeout_seconds o, wo_max_step_timeout_seconds o with
  | None, None, None, None => true
  | _, _, _, _ => false
  end.

Definition set_orchestrator_workflow_orchestration_limit (orchestrator_id : string)
    (field : OrchestrationLimitField) (value : option Z) : edit SetupDraft :=
  the_config orchestrator_id (config_missing orchestrator_id) (
    cfg ← get;
    match value with
    | Some parsed =>
        reject_when (bool_decide (parsed < 1)%Z) "value must be >= 1" ;;
        (* [get_or_insert] happens before the range check below *)
        let orchestration := from_option id no_limits (oc_workflow_orchestration cfg) in
        put (put_orchestration (Some orchestration) cfg) ;;
        reject_when (match field with MaxTotalIterations => bool_decide (u32_max < parsed)%Z
                     | _ => false end) "max_total_iterations exceeds u32 range" ;;
        put (put_orchestration (Some (put_limit field (Some parsed) orchestration)) cfg)
    | None =>
        match oc_workflow_orchestration cfg with
        | Some orchestration =>
            let cleared := put_limit field None orchestration in
            put (put_orchestration (if limits_empty cleared then None else Some cleared) cfg)
        | None => mret ()
        end
    end).

(** ** Applying a template *)
Definition provider_model_for_orchestrator (d : SetupDraft) (orchestrator_id : string) :
    string * string :=
  let agent := cfg ← map_get orchestrator_id (sd_configs d);
    match map_get (oc_selector_agent cfg) (oc_agents cfg) with
    | Some agent => Some agent
    | None => snd <$> head (oc_agents cfg)
    end in
  match agent with
  | Some agent => (ConfigProviderKind_as_str (ag_provider agent), ag_model agent)
  | None => (sd_provider d, sd_model d)
  end.

(** [for idx in 2..1000 { .. }], then the number of workflows plus one. *)
Fixpoint first_free (taken : string → bool) (base : string) (n : nat) (idx : Z) : option string :=
  match n with
  | O => None
  | S n =>
      let candidate := base +:+ "_" +:+ fmt_int idx in
      if taken candidate then first_free taken base n (idx + 1) else Some candidate
  end.
Definition unique_workflow_id (existing : list (string * WorkflowConfig)) (base : string) : string :=
  if negb (map_contains_key base existing) then base
  else from_option id (base +:+ "_" +:+ fmt_int (Z.of_nat (length existing) + 1))
         (first_free (λ k, map_contains_key k existing) base 998 2).

(** The loop over the template's workflows. *)
Definition merge_workflow (template_default : string)
    (acc : list (string * WorkflowConfig) * option string) (workflow : WorkflowConfig) :
    list (string * WorkflowConfig) * option string :=
  let '(existing, new_default) := acc in
  let mapped_id := unique_workflow_id existing (wf_id workflow) in
  (map_insert mapped_id (put_workflow_id mapped_id workflow) existing,
   if String.eqb (wf_id workflow) template_default then Some mapped_id else new_default).
Definition merge_agents (template target : list (string * AgentConfig)) :
    list (string * AgentConfig) :=
  foldl (λ agents '(agent_id, agent_cfg),
    if map_contains_key agent_id agents then agents else map_insert agent_id agent_cfg agents)
    target template.

Definition apply_workflow_template_to_orchestrator (orchestrator_id : string)
    (workflow_template : WorkflowTemplate) : edit SetupDraft :=
  d ← get;
  let '(provider, model) := provider_model_for_orchestrator d orchestrator_id in
  template ← expect (initial_orchestrator_config orchestrator_id provider model workflow_template);
  the_config orchestrator_id (config_missing orchestrator_id) (
    target ← get;
    let existing := map_from_iter ((λ wf, (wf_id wf, wf)) <$> oc_workflows target) in
    let '(merged, new_default) :=
      foldl (merge_workflow (oc_default_workflow template)) (existing, None) (oc_workflows template) in
    put (put_default_workflow (from_option id (oc_default_workflow target) new_default)
           (put_workflows merged.*2
              (put_agents (merge_agents (oc_agents template) (oc_agents target)) target))) ;;
    validate_orchestrator_invariants).

(** ** Workflows *)
(** The step [add_workflow] and [add_step] make. *)
Definition new_step (workflow_id step_id agent : string) : WorkflowStepConfig :=
  workflow_step workflow_id step_id AgentTask agent (default_prompt_rel_path workflow_id step_id).

Definition add_workflow (orchestrator_id workflow_id : string) : edit SetupDraft :=
  checked (validate_identifier "workflow id" workflow_id) ;;
  the_config orchestrator_id "orchestrator missing" (
    cfg ← get;
    reject_when (has_workflow workflow_id cfg) "workflow id already exists" ;;
    tag ← checked (normalize_workflow_tag workflow_id);
    put (put_workflows (oc_workflows cfg ++ [{|
      wf_id := workflow_id; wf_version := 1; wf_description := workflow_id +:+ " workflow";
      wf_tags := [tag]; wf_inputs := []; wf_limits := None;
      wf_steps := [new_step workflow_id "step_1" (oc_selector_agent cfg)] |}]) cfg) ;;
    validate_orchestrator_invariants).

Definition remove_workflow (orchestrator_id workflow_id : string) : edit SetupDraft :=
  the_config orchestrator_id "orchestrator missing" (
    cfg ← get;
    reject_when (negb (has_workflow workflow_id cfg))
      ("workflow `" +:+ workflow_id +:+ "` does not exist") ;;
    reject_when (bool_decide (length (oc_workflows cfg) ≤ 1)%nat)
      "at least one workflow must remain" ;;
    let workflows := filter (λ w, is_workflow workflow_id w = false) (oc_workflows cfg) in
    let default_workflow :=
      if String.eqb (oc_default_workflow cfg) workflow_id then
        match workflows with next :: _ => wf_id next | [] => oc_default_workflow cfg end
      else oc_default_workflow cfg in
    put (put_default_workflow default_workflow (put_workflows workflows cfg)) ;;
    validate_orchestrator_invariants).

Definition rename_workflow (orchestrator_id current_id next_id : string) : edit SetupDraft :=
  checked (validate_identifier "workflow id" next_id) ;;
  the_config orchestrator_id "orchestrator missing" (
    cfg ← get;
    reject_when (existsb (λ w, is_workflow next_id w && negb (is_workflow current_id w))
                   (oc_workflows cfg)) "workflow id already exists" ;;
    the_workflow current_id workflow_gone (modify (put_workflow_id next_id)) ;;
    modify (λ cfg, if String.eqb (oc_default_workflow cfg) current_id
                   then put_default_workflow next_id cfg else cfg) ;;
    validate_orchestrator_invariants).

Definition set_workflow_version (orchestrator_id workflow_id : string) (version : Z) :
    edit SetupDraft :=
  reject_when (bool_decide (version < 1)%Z) "version must be >= 1" ;;
  workflow_mut orchestrator_id workflow_id (modify (put_version version)).

Definition set_workflow_inputs (orchestrator_id workflow_id : string) (keys : list string) :
    edit SetupDraft :=
  parsed ← checked (parse_keys keys);
  workflow_mut orchestrator_id workflow_id (modify (put_inputs parsed)).

Definition no_workflow_limits : WorkflowLimitsConfig :=
  {| wl_max_total_iterations := None; wl_run_timeout_seconds := None |}.

Definition set_workflow_max_total_iterations (orchestrator_id workflow_id : string)
    (value : option Z) : edit SetupDraft :=
  workflow_mut orchestrator_id workflow_id (
    workflow ← get;
    match value with
    | Some parsed =>
        reject_when (bool_decide (parsed < 1)%Z) "max_total_iterations must be >= 1" ;;
        let limits := from_option id no_workflow_limits (wf_limits workflow) in
        put (put_limits (Some {| wl_max_total_iterations := Some parsed;
                                 wl_run_timeout_seconds := wl_run_timeout_seconds limits |}) workflow)
    | None =>
        match wf_limits workflow with
        | Some limits =>
            put (put_limits match wl_run_timeout_seconds limits with
              | None => None
              | Some t => Some {| wl_max_total_iterations := None; wl_run_timeout_seconds := Some t |}
              end workflow)
        | None => mret ()
        end
    end).

Definition set_workflow_run_timeout_seconds (orchestrator_id workflow_id : string)
    (value : option Z) : edit SetupDraft :=
  workflow_mut orchestrator_id workflow_id (
    workflow ← get;
    match value with
    | Some parsed =>
        reject_when (bool_decide (parsed < 1)%Z) "run_timeout_seconds must be >= 1" ;;
        let limits := from_option id no_workflow_limits (wf_limits workflow) in
        put (put_limits (Some {| wl_max_total_iterations := wl_max_total_iterations limits;
                                 wl_run_timeout_seconds := Some parsed |}) workflow)
    | None =>
        match wf_limits workflow with
        | Some limits =>
            put (put_limits match wl_max_total_iterations limits with
              | None => None
              | Some n => Some {| wl_max_total_iterations := Some n; wl_run_timeout_seconds := None |}
              end workflow)
        | None => mret ()
        end
    end).

(** ** Steps *)
Definition has_step (step_id : string) (w : WorkflowConfig) : bool :=
  existsb (is_step step_id) (wf_steps w).

Definition add_step (orchestrator_id workflow_id step_id : string) : edit SetupDraft :=
  checked (validate_identifier "step id" step_id) ;;
  the_config orchestrator_id "orchestrator missing" (
    cfg ← get;
    the_workflow workflow_id workflow_gone (
      workflow ← get;
      reject_when (has_step step_id workflow) "step id already exists" ;;
      put (put_steps (wf_steps workflow ++
             [new_step workflow_id step_id (oc_selector_agent cfg)]) workflow)) ;;
    validate_orchestrator_invariants).

Definition remove_step (orchestrator_id workflow_id step_id : string) : edit SetupDraft :=
  the_config orchestrator_id "orchestrator missing" (
    the_workflow workflow_id workflow_gone (
      workflow ← get;
      reject_when (negb (has_step step_id workflow))
        ("step `" +:+ step_id +:+ "` does not exist") ;;
      reject_when (bool_decide (length (wf_steps workflow) ≤ 1)%nat)
        "at least one step must remain" ;;
      put (put_steps (filter (λ s, is_step step_id s = false) (wf_steps workflow)) workflow)) ;;
    validate_orchestrator_invariants).

Definition rename_step (orchestrator_id workflow_id current_id next_id : string) :
    edit SetupDraft :=
  checked (validate_identifier "step id" next_id) ;;
  workflow_mut orchestrator_id workflow_id (
    workflow ← get;
    reject_when (existsb (λ s, is_step next_id s && negb (is_step current_id s))
                   (wf_steps workflow)) "step id already exists" ;;
    the_step current_id step_gone (modify (put_step_id next_id))).

Definition toggle_step_type (orchestrator_id workflow_id step_id : string) : edit SetupDraft :=
  step_mut orchestrator_id workflow_id step_id (modify (λ step,
    let step_type := match ws_step_type step with
                     | AgentTask => AgentReview | AgentReview => AgentTask end in
    let name := WorkflowStepType_as_str step_type in
    with_outputs (default_step_output_contract name) (default_step_output_files name)
      (ws_final_output_priority step)
      (put_type_and_prompt step_type (default_prompt_rel_path workflow_id step_id) step))).

Definition set_step_agent (orchestrator_id workflow_id step_id agent_id : string) :
    edit SetupDraft :=
  reject_when (is_empty (trim agent_id)) "agent must be non-empty" ;;
  the_config orchestrator_id "orchestrator missing" (
    cfg ← get;
    reject_when (negb (map_contains_key agent_id (oc_agents cfg)))
      ("agent `" +:+ agent_id +:+ "` does not exist") ;;
    the_workflow workflow_id workflow_gone
      (the_step step_id step_gone (modify (put_agent agent_id)))).

Definition set_step_prompt (orchestrator_id workflow_id step_id prompt : string) :
    edit SetupDraft :=
  reject_when (is_empty (trim prompt)) "prompt must be non-empty" ;;
  step_mut orchestrator_id workflow_id step_id
    (modify (λ s, put_type_and_prompt (ws_step_type s) prompt s)).

Definition toggle_step_workspace_mode (orchestrator_id workflow_id step_id : string) :
    edit SetupDraft :=
  step_mut orchestrator_id workflow_id step_id (modify (λ s,
    put_mode match ws_workspace_mode s with
             | OrchestratorWorkspace => RunWorkspace
             | RunWorkspace => OrchestratorWorkspace
             end s)).

Definition set_step_next (orchestrator_id workflow_id step_id : string) (next : option string) :
    edit SetupDraft :=
  step_mut orchestrator_id workflow_id step_id
    (modify (λ s, with_transitions next (ws_on_approve s) (ws_on_reject s) s)).
Definition set_step_on_approve (orchestrator_id workflow_id step_id : string)
    (on_approve : option string) : edit SetupDraft :=
  step_mut orchestrator_id workflow_id step_id
    (modify (λ s, with_transitions (ws_next s) on_approve (ws_on_reject s) s)).
Definition set_step_on_reject (orchestrator_id workflow_id step_id : string)
    (on_reject : option string) : edit SetupDraft :=
  step_mut orchestrator_id workflow_id step_id
    (modify (λ s, with_transitions (ws_next s) (ws_on_approve s) on_reject s)).

Definition unmapped (files : list (string * string)) (key : OutputKey) : bool :=
  negb (map_contains_key (ok_name key) files).
Definition mapping_missing (key : OutputKey) : string :=
  "output_files must include mapping for output `" +:+ OutputKey_display key +:+ "`".

Definition set_step_outputs (orchestrator_id workflow_id step_id : string)
    (outputs : list OutputKey) : edit SetupDraft :=
  reject_when (is_nil outputs) "outputs must be non-empty" ;;
  step_mut orchestrator_id workflow_id step_id (
    step ← get;
    match List.find (unmapped (ws_output_files step)) outputs with
    | Some missing => reject (mapping_missing missing)
    | None => put (with_outputs outputs (ws_output_files step) (ws_final_output_priority step) step)
    end).

Definition set_step_output_files (orchestrator_id workflow_id step_id : string)
    (output_files : list (string * string)) : edit SetupDraft :=
  reject_when (is_nil output_files) "output_files must be non-empty" ;;
  step_mut orchestrator_id workflow_id step_id (
    step ← get;
    match List.find (unmapped output_files) (ws_outputs step) with
    | Some missing => reject (mapping_missing missing)
    | None => put (with_outputs (ws_outputs step) output_files (ws_final_output_priority step) step)
    end).

Definition set_step_max_retries (orchestrator_id workflow_id step_id : string)
    (max_retries : option Z) : edit SetupDraft :=
  step_mut orchestrator_id workflow_id step_id (
    step ← get;
    match max_retries with
    | Some parsed =>
        reject_when (bool_decide (parsed < 1)%Z) "max_retries must be >= 1" ;;
        put (put_step_limits (Some {| sl_max_retries := Some parsed |}) step)
    | None => put (put_step_limits None step)
    end).

(** ** Agents *)
Definition add_agent (orchestrator_id agent_id : string) : edit SetupDraft :=
  checked (validate_identifier "agent id" agent_id) ;;
  d ← get;
  the_config orchestrator_id "orchestrator missing" (
    cfg ← get;
    reject_when (map_contains_key agent_id (oc_agents cfg)) "agent id already exists" ;;
    provider ← expect (result_ok (ConfigProviderKind_parse (sd_provider d)));
    put (put_agents (map_insert agent_id (agent_config provider (sd_model d) false)
           (oc_agents cfg)) cfg) ;;
    validate_orchestrator_invariants).

Definition remove_agent (orchestrator_id agent_id : string) : edit SetupDraft :=
  the_config orchestrator_id "orchestrator missing" (
    cfg ← get;
    reject_when (negb (map_contains_key agent_id (oc_agents cfg)))
      ("agent `" +:+ agent_id +:+ "` does not exist") ;;
    reject_when (bool_decide (length (oc_agents cfg) ≤ 1)%nat) "at least one agent must remain" ;;
    let agents := map_remove agent_id (oc_agents cfg) in
    let selector :=
      if String.eqb (oc_selector_agent cfg) agent_id then
        match map_keys agents with next :: _ => next | [] => oc_selector_agent cfg end
      else oc_selector_agent cfg in
    put (put_selector selector (put_agents agents cfg)) ;;
    validate_orchestrator_invariants).

Definition the_agent (agent_id : string) (m : edit AgentConfig) : edit OrchestratorConfig :=
  zoom_opt (λ c, map_get agent_id (oc_agents c))
    (λ a c, put_agents (map_insert agent_id a (oc_agents c)) c)
    (Rejected "agent no longer exists") m.

Definition set_agent_provider (orchestrator_id agent_id provider : string) : edit SetupDraft :=
  parsed ← checked (ConfigProviderKind_parse provider);
  the_config orchestrator_id "orchestrator missing" (the_agent agent_id (modify (λ a,
    agent_config parsed (ag_model a) (ag_can_orchestrate_workflows a)))).

Definition set_agent_model (orchestrator_id agent_id model : string) : edit SetupDraft :=
  reject_when (is_empty (trim model)) "model must be non-empty" ;;
  the_config orchestrator_id "orchestrator missing" (the_agent agent_id (modify (λ a,
    agent_config (ag_provider a) model (ag_can_orchestrate_workflows a)))).

Definition toggle_agent_orchestration_capability (orchestrator_id agent_id : string) :
    edit SetupDraft :=
  the_config orchestrator_id "orchestrator missing" (
    cfg ← get;
    the_agent agent_id (
      agent ← get;
      reject_when (String.eqb (oc_selector_agent cfg) agent_id && ag_can_orchestrate_workflows agent)
        "selector agent must keep orchestration capability enabled" ;;
      put (agent_config (ag_provider agent) (ag_model agent)
             (negb (ag_can_orchestrate_workflows agent))))).

Definition set_selector_agent (orchestrator_id agent_id : string) : edit SetupDraft :=
  the_config orchestrator_id "orchestrator missing" (
    cfg ← get;
    reject_when (negb (map_contains_key agent_id (oc_agents cfg))) "agent no longer exists" ;;
    put (put_selector agent_id cfg) ;;
    the_agent agent_id (modify (λ a, agent_config (ag_provider a) (ag_model a) true))).

(** ** Saving *)
Definition validate_setup_bootstrap (settings : Settings) (bootstrap : SetupDraft) :
    result string () :=
  reject_if (is_nil (sd_orchestrators bootstrap)) "at least one orchestrator must be configured" ;;
  reject_if (negb (map_contains_key (sd_orchestrator_id bootstrap) (sd_orchestrators bootstrap)))
    ("primary orchestrator `" +:+ sd_orchestrator_id bootstrap +:+
     "` is missing from setup registry") ;;
  for_each (λ orchestrator_id,
    validate_identifier "orchestrator id" orchestrator_id ;;
    config ← ok_or ("missing orchestrator config for `" +:+ orchestrator_id +:+
                    "` in setup registry") (map_get orchestrator_id (sd_configs bootstrap));
    map_err ConfigError_display (OrchestratorConfig_validate config settings orchestrator_id))
    (map_keys (s_orchestrators settings)) ;;
  for_each (λ orchestrator_id,
    reject_if (negb (map_contains_key orchestrator_id (s_orchestrators settings)))
      ("orchestrator config `" +:+ orchestrator_id +:+ "` exists without settings entry"))
    (map_keys (sd_configs bootstrap)).

Definition local_profile (orchestrator_id : string) : ChannelProfile :=
  {| cp_channel := Local; cp_orchestrator_id := orchestrator_id; cp_identity_mention_tokens := [];
     cp_slack_app_user_id := None; cp_require_mention_in_channels := None;
     cp_thread_response_mode := AlwaysReply |}.

Definition put_settings (d : SetupDraft) (profiles : list (string * ChannelProfile))
    (s : Settings) : Settings :=
  {| s_workspaces_path := sd_workspaces_path d; s_shared_workspaces := s_shared_workspaces s;
     s_orchestrators := sd_orchestrators d; s_channel_profiles := profiles;
     s_heartbeat_interval := s_heartbeat_interval s; s_channels := s_channels s;
     s_auth_sync := s_auth_sync s; s_memory := s_memory s; s_local_llm := s_local_llm s |}.
Definition fresh_settings (d : SetupDraft) : Settings :=
  {| s_workspaces_path := sd_workspaces_path d; s_shared_workspaces := [];
     s_orchestrators := sd_orchestrators d; s_channel_profiles := [];
     s_heartbeat_interval := None; s_channels := [];
     s_auth_sync := {| auth_enabled := false; auth_sources := [] |};
     s_memory := MemoryConfig_default; s_local_llm := LocalLlmConfig_default |}.

(** A profile for the primary orchestrator is added when none leads there. *)
Definition with_primary_profile (primary : string) (profiles : list (string * ChannelProfile)) :
    list (string * ChannelProfile) :=
  let profiles :=
    if is_nil profiles then [("local-default", local_profile primary)] else profiles in
  if existsb (λ p, String.eqb (cp_orchestrator_id p.2) primary) profiles then profiles
  else map_insert (primary +:+ "-local") (local_profile primary) profiles.

Definition settings_to_save (existing_settings : option Settings) (d : SetupDraft) : Settings :=
  let settings := from_option id (fresh_settings d) existing_settings in
  put_settings d (with_primary_profile (sd_orchestrator_id d) (s_channel_profiles settings)) settings.
(** The checks at the end of [normalize_for_save]. *)
Definition checked_settings (canonicalizes : string → bool) (existing_settings : option Settings) :
    IO SetupDraft setup_failure Settings :=
  d ← get;
  let settings := settings_to_save existing_settings d in
  checked (map_err ConfigError_display
    (Settings_validate canonicalizes settings {| require_shared_paths_exist := false |})) ;;
  checked (validate_setup_bootstrap settings d) ;;
  mret settings.

Definition normalize_for_save (canonicalizes : string → bool) (existing_settings : option Settings) :
    IO SetupDraft setup_failure Settings :=
  ensure_minimum_orchestrator ;;
  modify (λ d, if map_contains_key (sd_orchestrator_id d) (sd_orchestrators d) then d else
    put_registry (sd_orchestrator_id d)
      (map_insert (sd_orchestrator_id d) empty_orchestrator (sd_orchestrators d)) (sd_configs d) d) ;;
  d ← get;
  (if map_contains_key (sd_orchestrator_id d) (sd_configs d) then mret () else
     cfg ← expect (initial_orchestrator_config (sd_orchestrator_id d) (sd_provider d) (sd_model d)
                     (sd_workflow_template d));
     put (put_registry (sd_orchestrator_id d) (sd_orchestrators d)
            (map_insert (sd_orchestrator_id d) cfg (sd_configs d)) d)) ;;
  checked_settings canonicalizes existing_settings.
