(* ===== verification/SetupScreens.v ===== *)
(** * The setup screens

    What drives the setup draft: the navigation state machine of
    [src/src/setup/navigation.rs], the helpers of [src/src/setup/state.rs] that
    turn typed text into edits, the first draft of [src/src/setup/persistence.rs]
    and the scripted run of [src/src/setup/actions.rs].  Drawing and reading the
    terminal are not modelled. *)
From S2P Require Import Prelude RustStr RustPath Io Json TypedFields Config OrchestratorFile Templates SetupDraft.
From Stdlib Require Import Ascii.

Local Open Scope string_scope.
Local Open Scope list_scope.

(** ** Texts and edits: [setup/state.rs] *)
Definition default_model_for_provider (provider : string) : string :=
  if String.eqb provider "openai" then "gpt-5.3-codex" else "sonnet".
Definition provider_options : list ConfigProviderKind := [Anthropic; OpenAi].
Definition model_options_for_provider (provider : ConfigProviderKind) : list string :=
  match provider with
  | OpenAi => ["gpt-5.3-codex"; "gpt-5.3-codex-spark"]
  | Anthropic => ["sonnet"; "opus"; "haiku"]
  end.

Definition infer_workflow_template (orchestrator : OrchestratorConfig) : WorkflowTemplate :=
  let has name := map_contains_key name (oc_agents orchestrator) in
  if has "planner" && has "builder" && has "reviewer" then Engineering
  else if has "researcher" && has "writer" then Product
  else Minimal.
Definition setup_workflow_template_index (template : WorkflowTemplate) : nat :=
  match template with Minimal => 0 | Engineering => 1 | Product => 2 end.
Definition workflow_template_from_index (index : nat) : WorkflowTemplate :=
  match index with 0 => Minimal | 1 => Engineering | _ => Product end.

Definition workflow_inputs_as_csv (inputs : list string) : string :=
  match inputs with [] => "<none>" | _ => join "," inputs end.
Definition parse_csv_values (raw : string) : list string :=
  filter (λ value, is_empty value = false) (trim <$> split_on "," raw).

(** The keys of [output_files] print as their names: their marker is off. *)
Definition output_file_entry (entry : string * string) : string := entry.1 +:+ "=" +:+ entry.2.
Definition output_files_as_csv (output_files : list (string * string)) : string :=
  if is_nil output_files then "<none>" else join "," (output_file_entry <$> output_files).
Definition parse_output_files (raw : string) : result string (list (string * string)) :=
  for_fold (λ output_files entry,
    '(key, value) ← ok_or "output_files must use key=path entries" (split_once "=" entry);
    let key := trim key in
    let value := trim value in
    reject_if (is_empty key || is_empty value)
      "output_files entries require non-empty key and path" ;;
    key ← parse_output_file_key key;
    value ← PathTemplate_parse value;
    Ok (map_insert (ok_name key) value output_files)) (parse_csv_values raw) [].

(** The search for a free suffix counts up without a bound; [None] is fuel. *)
Definition unique_step_id (existing : list WorkflowStepConfig) (base : string) : option string :=
  let taken id := existsb (is_step id) existing in
  if taken base then first_free taken base (S (length existing)) 2 else Some base.

(** ** The first draft: [load_setup_bootstrap] without a configuration file *)
Definition fresh_bootstrap (root : string) : option SetupDraft :=
  config ← initial_orchestrator_config "main" "anthropic" "sonnet" Minimal;
  Some {|
    sd_workspaces_path := path_join root "workspaces";
    sd_orchestrator_id := "main";
    sd_provider := "anthropic";
    sd_model := "sonnet";
    sd_workflow_template := Minimal;
    sd_orchestrators := map_from_iter [("main", empty_orchestrator)];
    sd_configs := map_from_iter [("main", config)];
  |}.

(** ... and from loaded settings; [files] gives what is found at the path of each
    orchestrator's file: nothing, a parsed configuration or an error message. *)
Definition load_setup_bootstrap (bootstrap : SetupDraft) (settings : Settings)
    (files : string → option (result string OrchestratorConfig)) :
    result setup_failure SetupDraft :=
  configs ← for_fold (λ configs orchestrator_id,
    private_workspace ← map_err (λ e, Rejected (ConfigError_display e))
      (resolve_private_workspace settings orchestrator_id);
    match files (path_join private_workspace "orchestrator.yaml") with
    | Some read =>
        config ← map_err Rejected read;
        Ok (map_insert orchestrator_id config configs)
    | None =>
        config ← ok_or Panicked (initial_orchestrator_config orchestrator_id
          (sd_provider bootstrap) (sd_model bootstrap) Minimal);
        Ok (map_insert orchestrator_id config configs)
    end) (map_keys (s_orchestrators settings)) [];
  let loaded := put_registry (sd_orchestrator_id bootstrap) (s_orchestrators settings) configs
                  (put_paths (s_workspaces_path settings) bootstrap) in
  match map_keys (s_orchestrators settings) with
  | [] => Ok loaded
  | first_orchestrator :: _ =>
      let loaded := put_registry first_orchestrator (s_orchestrators settings) configs loaded in
      Ok match map_get first_orchestrator configs with
         | Some orchestrator =>
             let template := infer_workflow_template orchestrator in
             match map_get (oc_selector_agent orchestrator) (oc_agents orchestrator),
                   head (oc_agents orchestrator) with
             | Some agent, _ | None, Some (_, agent) =>
                 put_defaults (ConfigProviderKind_as_str (ag_provider agent)) (ag_model agent)
                   template loaded
             | None, None => put_defaults (sd_provider loaded) (sd_model loaded) template loaded
             end
         | None => loaded
         end
  end.

(** ** Navigation: [setup/navigation.rs] *)
Inductive SetupScreen :=
  | Root | Workspaces | Orchestrators | InitialAgentDefaults | NewWorkflowTemplate
  | OrchestratorDetail | OrchestrationLimits | Workflows | WorkflowDetail | WorkflowSteps
  | WorkflowStepDetail | AddStarterWorkflows | Agents | AgentDetail.
#[export] Instance SetupScreen_eq_dec : EqDecision SetupScreen.
Proof. solve_decision. Defined.
Definition SetupScreen_as_str (s : SetupScreen) : string :=
  match s with
  | Root => "root" | Workspaces => "workspaces" | Orchestrators => "orchestrators"
  | InitialAgentDefaults => "initial_agent_defaults"
  | NewWorkflowTemplate => "new_workflow_template" | OrchestratorDetail => "orchestrator_detail"
  | OrchestrationLimits => "orchestration_limits" | Workflows => "workflows"
  | WorkflowDetail => "workflow_detail" | WorkflowSteps => "workflow_steps"
  | WorkflowStepDetail => "workflow_step_detail"
  | AddStarterWorkflows => "add_starter_workflows" | Agents => "agents"
  | AgentDetail => "agent_detail"
  end.
Inductive SetupAction :=
  | MovePrev | MoveNext | Enter | Back | Save | Cancel | Edit | Add | Delete | Toggle
  | ReconcileSelection (len : nat).
Definition SetupAction_as_str (a : SetupAction) : string :=
  match a with
  | MovePrev => "move_prev" | MoveNext => "move_next" | Enter => "enter" | Back => "back"
  | Save => "save" | Cancel => "cancel" | Edit => "edit" | Add => "add" | Delete => "delete"
  | Toggle => "toggle" | ReconcileSelection _ => "reconcile_selection"
  end.

(** Indices are [usize]; [nav_reachable_bounds] shows how small they stay. *)
Record NavState := {
  nav_screen : SetupScreen; nav_selected : nat; nav_status_text : string; nav_hint_text : string }.
Definition ROOT_STATUS_TEXT : string := "Enter opens a section. Esc cancels setup.".
Definition ROOT_HINT_TEXT : string := "Up/Down move | Enter open | Esc cancel".
Definition NavState_root : NavState := {|
  nav_screen := Root; nav_selected := 0;
  nav_status_text := ROOT_STATUS_TEXT; nav_hint_text := ROOT_HINT_TEXT |}.
Definition with_selected (v : nat) (s : NavState) : NavState := {|
  nav_screen := nav_screen s; nav_selected := v;
  nav_status_text := nav_status_text s; nav_hint_text := nav_hint_text s |}.
Definition with_status (v : string) (s : NavState) : NavState := {|
  nav_screen := nav_screen s; nav_selected := nav_selected s;
  nav_status_text := v; nav_hint_text := nav_hint_text s |}.
(** Going to a sub-screen, and back to the root (the status line stays). *)
Definition opened (screen : SetupScreen) (status hint : string) : NavState := {|
  nav_screen := screen; nav_selected := 0; nav_status_text := status; nav_hint_text := hint |}.
Definition to_root (s : NavState) : NavState := opened Root (nav_status_text s) ROOT_HINT_TEXT.

Inductive SetupNavEffect :=
  | NoEffect | OpenScreen (s : SetupScreen) | OpenOrchestratorManager | EditWorkspacePath
  | ToggleDefaultProvider | EditDefaultModel | SaveSetup | CancelSetup.
Record SetupTransition := { tr_effect : SetupNavEffect; tr_feedback : option string }.
Definition no_op (feedback : option string) : SetupTransition :=
  {| tr_effect := NoEffect; tr_feedback := feedback |}.
Definition effect (e : SetupNavEffect) : SetupTransition :=
  {| tr_effect := e; tr_feedback := None |}.
(** [Unreachable] is the panic of an [unreachable!()] arm. *)
Inductive nav_failure :=
  | InvalidTransition (screen : SetupScreen) (action : SetupAction) | Unreachable.
Definition SetupNavError_display (e : nav_failure) : string :=
  match e with
  | InvalidTransition screen action =>
      "invalid setup transition: screen=" +:+ SetupScreen_as_str screen
      +:+ " action=" +:+ SetupAction_as_str action
  | Unreachable => "internal error: entered unreachable code"
  end.

Definition clamp_selection (selected len : nat) : nat :=
  match len with O => 0 | S last => Nat.min selected last end.

Definition setup_transition (state : NavState) (action : SetupAction) (root_item_count : nat) :
    NavState * result nav_failure SetupTransition :=
  let invalid := (state, Err (InvalidTransition (nav_screen state) action)) in
  let stay t := (state, Ok t) in
  let select v := (with_selected v state, Ok (no_op None)) in
  match action with
  | ReconcileSelection len =>
      let clamped := clamp_selection (nav_selected state) len in
      (with_selected clamped state,
       Ok (no_op (if Nat.eqb (nav_selected state) clamped then None else Some "selection adjusted")))
  | _ =>
  match nav_screen state with
  | Root =>
      match action with
      | MovePrev => select (nav_selected state - 1)
      | MoveNext => select (Nat.min (nav_selected state + 1) (root_item_count - 1))
      | Enter =>
          match nav_selected state with
          | 0 => (opened Workspaces "Enter to edit workspace path. Esc back." "Enter edit | Esc back",
                  Ok (effect (OpenScreen Workspaces)))
          | 1 => stay (effect OpenOrchestratorManager)
          | 2 => (opened InitialAgentDefaults "Enter to edit/toggle. Esc back."
                    "Up/Down move | Enter edit/toggle | Esc back",
                  Ok (effect (OpenScreen InitialAgentDefaults)))
          | 3 => stay (effect SaveSetup)
          | _ => stay (effect CancelSetup)
          end
      | Back | Cancel => stay (effect CancelSetup)
      | Save => stay (effect SaveSetup)
      | Edit | Add | Delete | Toggle | ReconcileSelection _ => invalid
      end
  | Workspaces =>
      match action with
      | MovePrev | MoveNext => stay (no_op None)
      | Enter | Edit => stay (effect EditWorkspacePath)
      | Back => (to_root state, Ok (no_op (Some "Closed Workspaces.")))
      | Cancel => stay (effect CancelSetup)
      | Add | Delete | Toggle | Save => invalid
      | ReconcileSelection _ => (state, Err Unreachable)
      end
  | InitialAgentDefaults =>
      match action with
      | MovePrev => select (nav_selected state - 1)
      | MoveNext => select (Nat.min (nav_selected state + 1) 1)
      | Enter => stay (effect (if Nat.eqb (nav_selected state) 0 then ToggleDefaultProvider
                               else EditDefaultModel))
      | Back => (to_root state, Ok (no_op (Some "Closed Initial Agent Defaults.")))
      | Cancel => stay (effect CancelSetup)
      | Add | Delete | Save => invalid
      | Toggle =>
          if Nat.eqb (nav_selected state) 0 then stay (effect ToggleDefaultProvider)
          else stay (no_op (Some "Choose a compatible field before editing."))
      | Edit =>
          if Nat.eqb (nav_selected state) 1 then stay (effect EditDefaultModel)
          else stay (no_op (Some "Choose a compatible field before editing."))
      | ReconcileSelection _ => (state, Err Unreachable)
      end
  | _ =>
      match action with
      | Back => (to_root state, Ok (no_op (Some "Returned to setup menu.")))
      | Cancel => stay (effect CancelSetup)
      | Save | ReconcileSelection _ => invalid
      | MovePrev | MoveNext | Enter | Edit | Add | Delete | Toggle =>
          stay (no_op (Some "Action is not mapped for this setup screen."))
      end
  end end.

Definition setup_screen_item_count (screen : SetupScreen) (root_item_count : nat) : nat :=
  match screen with
  | Root => root_item_count | Workspaces => 1 | InitialAgentDefaults => 2 | _ => 0
  end.

(** ** Keys

    The part of the terminal library's [KeyEvent] the code looks at; a character
    beyond ASCII is [OtherKey], which nothing is bound to. *)
Inductive KeyCode := KUp | KDown | KEsc | KEnter | KChar (c : ascii) | OtherKey.
Inductive KeyEventKind := Press | Repeat | Release.
Record KeyEvent := { key_code : KeyCode; key_control : bool; key_kind : KeyEventKind }.
Definition line_feed : ascii := ascii_of_nat 10.
Definition carriage_return : ascii := ascii_of_nat 13.

Definition setup_action_from_key (screen : SetupScreen) (key : KeyEvent) : option SetupAction :=
  match key_kind key with
  | Release => None
  | _ =>
      match key_code key with
      | KUp => Some MovePrev
      | KDown => Some MoveNext
      | KEsc => Some (if decide (screen = Root) then Cancel else Back)
      | KEnter => Some Enter
      | KChar c =>
          if Ascii.eqb c "c" && key_control key then Some Cancel
          else if Ascii.eqb c line_feed || Ascii.eqb c carriage_return then Some Enter
          else if Ascii.eqb c "a" then Some Add
          else if Ascii.eqb c "d" then Some Delete
          else if Ascii.eqb c "e" then Some Edit
          else if Ascii.eqb c "t" then Some Toggle
          else if Ascii.eqb c "s" then Some Save
          else None
      | OtherKey => None
      end
  end.

Definition KeyEvent_new (code : KeyCode) (control : bool) : KeyEvent :=
  {| key_code := code; key_control := control; key_kind := Press |}.
Definition scripted_keys : list (string * KeyEvent) := [
  ("up", KeyEvent_new KUp false); ("down", KeyEvent_new KDown false);
  ("enter", KeyEvent_new KEnter false); ("esc", KeyEvent_new KEsc false);
  ("ctrl-c", KeyEvent_new (KChar "c") true);
  ("a", KeyEvent_new (KChar "a") false); ("d", KeyEvent_new (KChar "d") false);
  ("e", KeyEvent_new (KChar "e") false); ("t", KeyEvent_new (KChar "t") false);
  ("s", KeyEvent_new (KChar "s") false)].
Definition parse_scripted_setup_keys (raw : string) : result string (list KeyEvent) :=
  for_fold (λ keys token,
    let normalized := to_ascii_lowercase (trim token) in
    if is_empty normalized then Ok keys else
    key ← ok_or ("invalid DIRECLAW_SETUP_SCRIPT_KEYS token `" +:+ normalized +:+
                 "`; valid tokens: up,down,enter,esc,ctrl-c,a,d,e,t,s")
            (map_get normalized scripted_keys);
    Ok (keys ++ [key])) (split_on "," raw) [].

(** ** The scripted run: [setup/actions.rs] *)
Definition toggle_default_provider (bootstrap : SetupDraft) : SetupDraft * string :=
  let next_provider := if String.eqb (sd_provider bootstrap) "anthropic" then "openai"
                       else "anthropic" in
  let model := if String.eqb (sd_model bootstrap) "sonnet"
                  || String.eqb (sd_model bootstrap) "gpt-5.3-codex"
               then default_model_for_provider next_provider else sd_model bootstrap in
  (put_defaults next_provider model (sd_workflow_template bootstrap) bootstrap,
   "provider set to " +:+ next_provider).

Inductive SetupExit := ExitSave | ExitCancel.
(** [SETUP_MENU_ITEMS.len()] *)
Definition SETUP_MENU_ITEMS_len : nat := 5.

Definition apply_setup_effect_scripted (e : SetupNavEffect) (bootstrap : SetupDraft)
    (nav : NavState) : SetupDraft * NavState * result string (option SetupExit) :=
  match e with
  | NoEffect | OpenScreen _ => (bootstrap, nav, Ok None)
  | OpenOrchestratorManager =>
      (bootstrap, nav, Err "scripted setup does not support orchestrator manager actions")
  | EditWorkspacePath =>
      (bootstrap, nav, Err "scripted setup does not support workspace path prompt actions")
  | ToggleDefaultProvider =>
      let '(bootstrap, message) := toggle_default_provider bootstrap in
      (bootstrap, with_status message nav, Ok None)
  | EditDefaultModel =>
      (bootstrap, nav, Err "scripted setup does not support default model prompt actions")
  | SaveSetup => (bootstrap, nav, Ok (Some ExitSave))
  | CancelSetup => (bootstrap, nav, Ok (Some ExitCancel))
  end.
Definition with_feedback (t : SetupTransition) (nav : NavState) : NavState :=
  match tr_feedback t with Some feedback => with_status feedback nav | None => nav end.

(** One key: the selection is reconciled with the screen, then the key is
    interpreted and its effect carried out; [inr] ends the run. *)
Definition scripted_key (s : SetupDraft * NavState) (key : KeyEvent) :
    SetupDraft * NavState * result string (option SetupExit) :=
  let '(bootstrap, nav) := s in
  let item_count := setup_screen_item_count (nav_screen nav) SETUP_MENU_ITEMS_len in
  match setup_transition nav (ReconcileSelection item_count) SETUP_MENU_ITEMS_len with
  | (nav, Err e) => (bootstrap, nav, Err (SetupNavError_display e))
  | (nav, Ok reconcile) =>
      let nav := with_feedback reconcile nav in
      match setup_action_from_key (nav_screen nav) key with
      | None => (bootstrap, nav, Ok None)
      | Some action =>
          match setup_transition nav action SETUP_MENU_ITEMS_len with
          | (nav, Err e) => (bootstrap, nav, Err (SetupNavError_display e))
          | (nav, Ok transition) =>
              apply_setup_effect_scripted (tr_effect transition) bootstrap
                (with_feedback transition nav)
          end
      end
  end.
Fixpoint scripted_loop (s : SetupDraft * NavState) (keys : list KeyEvent) :
    SetupDraft * result string SetupExit :=
  match keys with
  | [] => (s.1, Err "scripted setup did not terminate; include save/cancel key")
  | key :: keys =>
      match scripted_key s key with
      | (s, Err e) => (s.1, Err e)
      | (s, Ok (Some exit)) => (s.1, Ok exit)
      | (s, Ok None) => scripted_loop s keys
      end
  end.
Definition run_setup_scripted (bootstrap : SetupDraft) (keys : list KeyEvent) :
    SetupDraft * result string SetupExit :=
  scripted_loop (bootstrap, NavState_root) keys.
