(* ===== verification/SetupEdits.v ===== *)
(** * Editing sessions

    Every edit of the setup screens as a value, sessions of edits, and the two
    invariants they keep: the draft stays consistent, and its configurations stay
    valid. *)
From S2P Require Import Prelude RustStr RustPath Io Json TypedFields Config OrchestratorFile Templates SetupDraft SetupScreens.
From Stdlib Require Import Ascii.

Local Open Scope string_scope.
Local Open Scope list_scope.

(** ** The edits *)
Inductive setup_edit :=
  | SetWorkspacesPath (value : string)
  | ToggleProvider
  | SetDefaultModel (model : string)
  | SetDefaultTemplate (template : WorkflowTemplate)
  | SetPrimary (o : string)
  | EnsureMinimum
  | AddOrchestrator (o : string)
  | RemoveOrchestrator (o : string)
  | SetPrivateWorkspace (o : string) (value : option string)
  | SetSharedAccess (o : string) (grants : list string)
  | SetDefaultWorkflow (o w : string)
  | SetSelectionRetries (o : string) (value : Z)
  | SetSelectorTimeout (o : string) (value : Z)
  | SetOrchestrationLimit (o : string) (field : OrchestrationLimitField) (value : option Z)
  | ApplyTemplate (o : string) (template : WorkflowTemplate)
  | AddWorkflow (o w : string)
  | RemoveWorkflow (o w : string)
  | RenameWorkflow (o w next : string)
  | SetVersion (o w : string) (version : Z)
  | SetInputs (o w : string) (keys : list string)
  | SetIterations (o w : string) (value : option Z)
  | SetRunTimeout (o w : string) (value : option Z)
  | AddStep (o w s : string)
  | RemoveStep (o w s : string)
  | RenameStep (o w s next : string)
  | ToggleStepType (o w s : string)
  | SetStepAgent (o w s a : string)
  | SetStepPrompt (o w s prompt : string)
  | ToggleWorkspaceMode (o w s : string)
  | SetNext (o w s : string) (target : option string)
  | SetOnApprove (o w s : string) (target : option string)
  | SetOnReject (o w s : string) (target : option string)
  | SetOutputs (o w s : string) (outputs : list OutputKey)
  | SetOutputFiles (o w s : string) (files : list (string * string))
  | SetMaxRetries (o w s : string) (value : option Z)
  | AddAgent (o a : string)
  | RemoveAgent (o a : string)
  | SetAgentProvider (o a provider : string)
  | SetAgentModel (o a model : string)
  | ToggleCapability (o a : string)
  | SetSelectorAgent (o a : string).

Definition run_edit (op : setup_edit) : edit SetupDraft :=
  match op with
  | SetWorkspacesPath v => set_workspaces_path v
  | ToggleProvider => modify (λ d, (toggle_default_provider d).1)
  | SetDefaultModel m => set_default_model m
  | SetDefaultTemplate t => set_default_workflow_template t
  | SetPrimary o => set_primary_orchestrator o
  | EnsureMinimum => ensure_minimum_orchestrator
  | AddOrchestrator o => add_orchestrator o
  | RemoveOrchestrator o => remove_orchestrator o
  | SetPrivateWorkspace o v => set_orchestrator_private_workspace o v
  | SetSharedAccess o l => set_orchestrator_shared_access o l
  | SetDefaultWorkflow o w => set_orchestrator_default_workflow o w
  | SetSelectionRetries o v => set_orchestrator_selection_max_retries o v
  | SetSelectorTimeout o v => set_orchestrator_selector_timeout_seconds o v
  | SetOrchestrationLimit o f v => set_orchestrator_workflow_orchestration_limit o f v
  | ApplyTemplate o t => apply_workflow_template_to_orchestrator o t
  | AddWorkflow o w => add_workflow o w
  | RemoveWorkflow o w => remove_workflow o w
  | RenameWorkflow o w n => rename_workflow o w n
  | SetVersion o w v => set_workflow_version o w v
  | SetInputs o w ks => set_workflow_inputs o w ks
  | SetIterations o w v => set_workflow_max_total_iterations o w v
  | SetRunTimeout o w v => set_workflow_run_timeout_seconds o w v
  | AddStep o w s => add_step o w s
  | RemoveStep o w s => remove_step o w s
  | RenameStep o w s n => rename_step o w s n
  | ToggleStepType o w s => toggle_step_type o w s
  | SetStepAgent o w s a => set_step_agent o w s a
  | SetStepPrompt o w s p => set_step_prompt o w s p
  | ToggleWorkspaceMode o w s => toggle_step_workspace_mode o w s
  | SetNext o w s t => set_step_next o w s t
  | SetOnApprove o w s t => set_step_on_approve o w s t
  | SetOnReject o w s t => set_step_on_reject o w s t
  | SetOutputs o w s ks => set_step_outputs o w s ks
  | SetOutputFiles o w s fs => set_step_output_files o w s fs
  | SetMaxRetries o w s v => set_step_max_retries o w s v
  | AddAgent o a => add_agent o a
  | RemoveAgent o a => remove_agent o a
  | SetAgentProvider o a p => set_agent_provider o a p
  | SetAgentModel o a m => set_agent_model o a m
  | ToggleCapability o a => toggle_agent_orchestration_capability o a
  | SetSelectorAgent o a => set_selector_agent o a
  end.

(** A session: the results of the edits, and the draft they leave.  A rejected
    edit shows its message and the session goes on. *)
Definition no_faults : env := Env [] [].
Fixpoint run_session (ops : list setup_edit) (d : SetupDraft) :
    SetupDraft * list (result setup_failure ()) :=
  match ops with
  | [] => (d, [])
  | op :: ops =>
      let '(w, r) := run_edit op (World d no_faults) in
      let '(d', rs) := run_session ops (st w) in (d', r :: rs)
  end.

(** ** Rules for the edits *)
Section edit_rules.
Context {T : Type}.
Implicit Types (s : T).

Lemma wp_put (v : T) (Φ : result setup_failure () → T → Prop) s :
  Φ (Ok ()) v → wp false (put v) Φ s.
Proof. intros H e He. by split. Qed.
Lemma wp_reject {A} msg (Φ : result setup_failure A → T → Prop) s :
  Φ (Err (Rejected msg)) s → wp false (reject msg) Φ s.
Proof. apply wp_throw. Qed.
Lemma wp_reject_when b msg (Φ : result setup_failure () → T → Prop) s :
  (b = true → Φ (Err (Rejected msg)) s) → (b = false → Φ (Ok ()) s) →
  wp false (reject_when b msg) Φ s.
Proof. intros Ht Hf. destruct b; [by apply wp_throw; auto|by apply wp_ret; auto]. Qed.
Lemma wp_checked {A} (r : result string A) (Φ : result setup_failure A → T → Prop) s :
  (∀ a, r = Ok a → Φ (Ok a) s) → (∀ msg, r = Err msg → Φ (Err (Rejected msg)) s) →
  wp false (checked r) Φ s.
Proof. intros Ho He. apply wp_lift. destruct r; simpl; auto. Qed.
Lemma wp_expect {A} (o : option A) (Φ : result setup_failure A → T → Prop) s :
  (o = None → Φ (Err Panicked) s) → (∀ a, o = Some a → Φ (Ok a) s) → wp false (expect o) Φ s.
Proof. intros Hn Hs. destruct o; [by apply wp_ret; auto|by apply wp_throw; auto]. Qed.
End edit_rules.

(** One step of symbolic execution. *)
Ltac edit_step :=
  lazymatch goal with
  | |- wp _ (_ ≫= _) _ _ => apply wp_bind
  | |- wp _ (let _ := _ in _) _ _ => cbv zeta
  | |- wp _ (mret _) _ _ => apply wp_ret
  | |- wp _ get _ _ => apply wp_get
  | |- wp _ (put _) _ _ => apply wp_put
  | |- wp _ (modify _) _ _ => apply wp_modify
  | |- wp _ (reject _) _ _ => apply wp_reject
  | |- wp _ (reject_when _ _) _ _ => apply wp_reject_when; intros ?
  | |- wp _ (checked _) _ _ => apply wp_checked; intros ? ?
  | |- wp _ validate_orchestrator_invariants _ _ => unfold validate_orchestrator_invariants
  | |- wp _ (match ?x with _ => _ end) _ _ => destruct x eqn:?
  end; cbv beta iota.
Ltac edit_steps := repeat edit_step.

(** ** The invariant of the draft *)
Definition provider_known (p : string) : Prop := is_ok (ConfigProviderKind_parse p) = true.
Record config_inv (o : string) (c : OrchestratorConfig) : Prop := {
  ci_id : oc_id c = o;
  ci_agents : map_sorted (oc_agents c);
  ci_retries : (1 ≤ oc_selection_max_retries c)%Z;
  ci_timeout : (1 ≤ oc_selector_timeout_seconds c)%Z;
}.
Record draft_inv (d : SetupDraft) : Prop := {
  di_orchestrators : map_sorted (sd_orchestrators d);
  di_configs : map_sorted (sd_configs d);
  di_same : ∀ k, k ∈ map_keys (sd_orchestrators d) ↔ k ∈ map_keys (sd_configs d);
  di_primary : sd_orchestrators d = [] ∨ sd_orchestrator_id d ∈ map_keys (sd_orchestrators d);
  di_ids : ∀ k, k ∈ map_keys (sd_orchestrators d) → is_ident k = true;
  di_config : ∀ k c, map_get k (sd_configs d) = Some c → config_inv k c;
  di_provider : provider_known (sd_provider d);
}.

Lemma provider_known_as_str p : provider_known (ConfigProviderKind_as_str p).
Proof. by destruct p. Qed.
Lemma provider_known_parse s : provider_known s → is_Some (result_ok (ConfigProviderKind_parse s)).
Proof. unfold provider_known. destruct (ConfigProviderKind_parse s); [by eexists|done]. Qed.
Lemma initial_some o p m t : provider_known p → is_Some (initial_orchestrator_config o p m t).
Proof.
  intros [k Hk]%provider_known_parse. unfold initial_orchestrator_config.
  rewrite Hk. simpl. destruct t; by eexists.
Qed.
Lemma initial_inv o p m t c : initial_orchestrator_config o p m t = Some c → config_inv o c.
Proof.
  unfold initial_orchestrator_config. destruct (result_ok _); simpl; [|done].
  destruct t; intros [= <-]; (constructor; [done|apply map_from_iter_sorted|simpl; lia..]).
Qed.
Lemma parse_id_ok kind o e : parse_id kind o = Ok e → is_ident o = true.
Proof. rewrite parse_id_Ok. by intros [_ ?]. Qed.
Lemma validate_identifier_ident kind o u : validate_identifier kind o = Ok u → is_ident o = true.
Proof.
  unfold validate_identifier. repeat case_match; try done;
    match goal with |- (_ <$> ?r) = _ → _ => destruct r eqn:E end; try done; intros _;
    by eapply parse_id_ok.
Qed.
Lemma map_insert_not_nil {V} k (v : V) m : map_insert k v m ≠ [].
Proof. destruct m as [|[k' v'] m]; simpl; repeat case_match; done. Qed.
Lemma map_keys_nil {V} (m : list (string * V)) : map_keys m = [] → m = [].
Proof. by destruct m. Qed.

(** A configuration that is replaced. *)
Lemma put_config_inv o c d :
  draft_inv d → is_Some (map_get o (sd_configs d)) → config_inv o c →
  draft_inv (put_registry (sd_orchestrator_id d) (sd_orchestrators d)
               (map_insert o c (sd_configs d)) d).
Proof.
  intros [] Ho%map_get_keys Hc. constructor; simpl; try done.
  - by apply map_insert_sorted.
  - intros k. rewrite map_insert_keys, di_same0. naive_solver.
  - intros k c'. destruct (decide (k = o)) as [->|Hne].
    + rewrite map_get_insert_eq. by intros [= <-].
    + rewrite map_get_insert_ne by done. auto.
Qed.
(** An orchestrator that is added. *)
Lemma insert_inv o oc c d :
  draft_inv d → is_ident o = true → config_inv o c →
  draft_inv (put_registry o (map_insert o oc (sd_orchestrators d)) (map_insert o c (sd_configs d)) d).
Proof.
  intros [] Ho Hc. constructor; simpl; try done.
  - by apply map_insert_sorted.
  - by apply map_insert_sorted.
  - intros k. rewrite !map_insert_keys, di_same0. done.
  - right. apply map_insert_keys. by left.
  - intros k [->|Hk]%map_insert_keys; auto.
  - intros k c'. destruct (decide (k = o)) as [->|Hne].
    + rewrite map_get_insert_eq. by intros [= <-].
    + rewrite map_get_insert_ne by done. auto.
Qed.
(** The registry entry of an orchestrator that is replaced. *)
Lemma put_orchestrator_inv o oc d :
  draft_inv d → is_Some (map_get o (sd_orchestrators d)) →
  draft_inv (put_registry (sd_orchestrator_id d) (map_insert o oc (sd_orchestrators d))
               (sd_configs d) d).
Proof.
  intros [] Ho%map_get_keys. constructor; simpl; try done.
  - by apply map_insert_sorted.
  - intros k. rewrite map_insert_keys, <- di_same0. naive_solver.
  - right. rewrite map_insert_keys. destruct di_primary0 as [E|]; [|by right].
    rewrite E in Ho. by apply elem_of_nil in Ho.
  - intros k [->|Hk]%map_insert_keys; auto.
Qed.
Lemma remove_inv o d :
  draft_inv d → map_contains_key o (sd_orchestrators d) = true →
  bool_decide (length (sd_orchestrators d) ≤ 1)%nat = false →
  draft_inv (put_registry
    (if String.eqb (sd_orchestrator_id d) o then
       match map_keys (map_remove o (sd_orchestrators d)) with
       | next_id :: _ => next_id | [] => sd_orchestrator_id d end
     else sd_orchestrator_id d)
    (map_remove o (sd_orchestrators d)) (map_remove o (sd_configs d)) d).
Proof.
  intros [] Ho Hlen. constructor; simpl; try done.
  - by apply map_remove_sorted.
  - by apply map_remove_sorted.
  - intros k. by rewrite !map_remove_keys, di_same0.
  - destruct (String.eqb_spec (sd_orchestrator_id d) o) as [->|Hne].
    + destruct (map_keys (map_remove o (sd_orchestrators d))) eqn:E; [|right; left].
      left. by apply map_keys_nil.
    + right. rewrite map_remove_keys. split; [done|].
      destruct di_primary0 as [E|]; [|done]. by rewrite E in Ho.
  - intros k [_ Hk]%map_remove_keys. auto.
  - intros k c Hk. destruct (decide (k = o)) as [->|Hne].
    + assert (o ∈ map_keys (map_remove o (sd_configs d))) as [? _]%map_remove_keys; [|done].
      apply map_get_keys. by exists c.
    + rewrite map_get_remove_ne in Hk by done. auto.
Qed.

Lemma merge_agents_sorted ts cs : map_sorted cs → map_sorted (merge_agents ts cs).
Proof.
  unfold merge_agents. revert cs. induction ts as [|[k a] ts IH]; intros cs Hs; simpl; [done|].
  apply IH. case_match; [done|by apply map_insert_sorted].
Qed.

(** *** The edits keep it *)
Definition calmly {T} (P : T → Prop) (r : result setup_failure ()) (s : T) : Prop :=
  P s ∧ r ≠ Err Panicked.

Lemma wp_the_config o missing m d :
  draft_inv d →
  (∀ c, config_inv o c → wp false m (calmly (config_inv o)) c) →
  wp false (the_config o missing m) (calmly draft_inv) d.
Proof.
  intros Hd Hm. apply wp_zoom_opt; [by split|]. intros c Hc.
  eapply wp_mono; [apply Hm, (di_config d Hd), Hc|].
  intros r c' [Hc' Hr]. split; [|done]. by apply put_config_inv.
Qed.
Lemma wp_insert_orchestrator o d :
  draft_inv d → is_ident o = true → wp false (insert_orchestrator o) (calmly draft_inv) d.
Proof.
  intros Hd Ho. unfold insert_orchestrator. edit_steps.
  destruct (initial_some o _ (sd_model d) (sd_workflow_template d) (di_provider d Hd)) as [c Hc].
  rewrite Hc. apply wp_expect; [done|]. intros c' [= <-]. edit_steps.
  split; [|done]. apply (insert_inv o empty_orchestrator c d); [done..|]. by eapply initial_inv.
Qed.
Lemma wp_the_orchestrator o (f : SettingsOrchestrator → SettingsOrchestrator) d :
  draft_inv d → wp false (the_orchestrator o (modify f)) (calmly draft_inv) d.
Proof.
  intros Hd. apply wp_zoom_opt; [by split|]. intros oc Hoc. edit_steps.
  split; [|done]. by apply put_orchestrator_inv.
Qed.
Lemma put_defaults_inv p m t d :
  draft_inv d → provider_known p → draft_inv (put_defaults p m t d).
Proof. intros [] Hp. by constructor. Qed.

(** Workflow and step edits leave what the invariant reads. *)
Ltac inv_step :=
  first
    [ edit_step
    | apply wp_the_config; [assumption|intros ? ?]
    | apply wp_zoom_opt; [intros _|intros ? ?]; cbv beta iota ].
Ltac inv_done :=
  split; [|done];
  first [ assumption
        | match goal with H : config_inv _ _ |- config_inv _ _ =>
            destruct H; try case_match; constructor; simpl; auto using map_insert_sorted, map_remove_sorted,
              merge_agents_sorted; repeat case_bool_decide; first [done|lia] end ].
Ltac config_edit := repeat inv_step; try inv_done.

Lemma wp_apply_template o t d :
  draft_inv d → wp false (apply_workflow_template_to_orchestrator o t) (calmly draft_inv) d.
Proof.
  intros Hd. unfold apply_workflow_template_to_orchestrator. edit_steps.
  assert (provider_known s) as Hs.
  { revert Heqp. unfold provider_model_for_orchestrator.
    repeat case_match; intros [= <- <-]; first [apply provider_known_as_str|apply Hd]. }
  destruct (initial_some o s s0 t Hs) as [c ->]. apply wp_expect; [done|].
  intros c' _. config_edit.
Qed.

Ltac unfold_edit := unfold set_workspaces_path, set_default_model, set_default_workflow_template,
  set_primary_orchestrator, ensure_minimum_orchestrator, add_orchestrator, remove_orchestrator,
  set_orchestrator_private_workspace, set_orchestrator_shared_access,
  set_orchestrator_default_workflow, set_orchestrator_selection_max_retries,
  set_orchestrator_selector_timeout_seconds, set_orchestrator_workflow_orchestration_limit,
  add_workflow, remove_workflow, rename_workflow, set_workflow_version, set_workflow_inputs,
  set_workflow_max_total_iterations, set_workflow_run_timeout_seconds, add_step, remove_step,
  rename_step, toggle_step_type, set_step_agent, set_step_prompt, toggle_step_workspace_mode,
  set_step_next, set_step_on_approve, set_step_on_reject, set_step_outputs, set_step_output_files,
  set_step_max_retries, add_agent, remove_agent, set_agent_provider, set_agent_model,
  toggle_agent_orchestration_capability, set_selector_agent, workflow_mut, step_mut.

Lemma edit_keeps_inv op d : draft_inv d → wp false (run_edit op) (calmly draft_inv) d.
Proof.
  intros Hd. destruct op; simpl; try apply wp_the_orchestrator; try apply wp_apply_template;
    unfold_edit; try assumption; repeat inv_step; try inv_done.
  - split; [|done]. destruct Hd; by constructor.
  - split; [|done]. apply put_defaults_inv; [done|]. by case_match.
  - split; [|done]. apply put_defaults_inv; [done|apply Hd].
  - split; [|done]. apply put_defaults_inv; [done|apply Hd].
  - split; [|done]. destruct Hd; constructor; try done. right.
    by apply map_contains_key_elem, negb_false_iff.
  - by apply wp_insert_orchestrator.
  - apply wp_insert_orchestrator; [done|]. by eapply validate_identifier_ident.
  - split; [|done]. apply remove_inv; [done| |done]. by apply negb_false_iff.
  - destruct (provider_known_parse _ (di_provider d Hd)) as [p ->].
    apply wp_expect; [done|]. intros p' _. config_edit.
Qed.

Lemma wp_session (P : SetupDraft → Prop) (Q : result setup_failure () → Prop) ops d :
  P d → Forall (λ op, ∀ d, P d → wp false (run_edit op) (λ r d', P d' ∧ Q r) d) ops →
  P (run_session ops d).1 ∧ Forall Q (run_session ops d).2.
Proof.
  revert d. induction ops as [|op ops IH]; intros d Hd Hops; simpl; [by split|].
  apply Forall_cons in Hops as [Hop Hops].
  assert (calm false (ev (World d no_faults))) as Hcalm by done.
  pose proof (wp_run false (run_edit op) _ (World d no_faults) (Hop d Hd) Hcalm) as [Hd' Hr].
  destruct (run_edit op (World d no_faults)) as [w r]. simpl in *.
  specialize (IH (st w) Hd' Hops). destruct (run_session ops (st w)) as [d' rs]. simpl in *.
  destruct IH. split; [done|by constructor].
Qed.


Lemma fresh_bootstrap_inv root d : fresh_bootstrap root = Some d → draft_inv d.
Proof.
  unfold fresh_bootstrap. destruct (initial_orchestrator_config _ _ _ _) as [c|] eqn:Ec; [|done].
  intros [= <-]. constructor; simpl.
  - apply map_from_iter_sorted.
  - apply map_from_iter_sorted.
  - done.
  - right. by left.
  - by intros k ->%list_elem_of_singleton.
  - intros k c'. destruct (decide (k = "main")) as [->|]; [|done].
    intros [= <-]. by eapply initial_inv.
  - done.
Qed.

(** ** Validity under edits *)
Lemma update_first_elem {A} (p : A → bool) (x y : A) l : y ∈ update_first p x l → y = x ∨ y ∈ l.
Proof.
  induction l as [|z l IH]; simpl; [set_solver|]. destruct (p z); set_solver.
Qed.
Lemma find_elem {A} (p : A → bool) l x : List.find p l = Some x → x ∈ l ∧ p x = true.
Proof. intros [? ?]%find_some. by rewrite list_elem_of_In. Qed.
(** The replaced element keeps its key, or takes one nobody else has. *)
Lemma update_first_NoDup {A K} (f : A → K) (p : A → bool) (x x' : A) l :
  NoDup (f <$> l) → List.find p l = Some x → (∀ y, y ∈ l → f y = f x' → f y = f x) →
  NoDup (f <$> update_first p x' l).
Proof.
  induction l as [|z l IH]; simpl; [done|].
  rewrite NoDup_cons. intros [Hz Hnd] Hfind Hkey. destruct (p z).
  - simplify_eq. apply NoDup_cons. split; [|done]. intros (y & Hy & Hin)%list_elem_of_fmap.
    apply Hz. apply list_elem_of_fmap. exists y. split; [|done].
    symmetry. apply Hkey; [by right|done].
  - apply NoDup_cons. split; [|by apply IH; auto using list_elem_of_further].
    intros (y & Hy & [->|Hin]%update_first_elem)%list_elem_of_fmap.
    + apply Hz. apply find_elem in Hfind as [Hx _]. apply list_elem_of_fmap. exists x.
      split; [|done]. apply Hkey; [by left|done].
    + apply Hz. apply list_elem_of_fmap. by exists y.
Qed.
Lemma update_first_keys {A K} (f : A → K) (p : A → bool) (x x' : A) l :
  List.find p l = Some x → f x' = f x → f <$> update_first p x' l = f <$> l.
Proof.
  induction l as [|z l IH]; simpl; [done|]. intros Hfind Hf. destruct (p z); simpl.
  - simplify_eq. by rewrite Hf.
  - f_equal. by apply IH.
Qed.
Lemma update_first_not_nil {A} (p : A → bool) (x : A) l : l ≠ [] → update_first p x l ≠ [].
Proof. destruct l as [|y l]; simpl; [done|]. by case_match. Qed.

Lemma step_wf_agents c c' s :
  map_keys (oc_agents c) ⊆ map_keys (oc_agents c') → step_wf c s → step_wf c' s.
Proof. intros Hsub []. constructor; auto. Qed.
Lemma workflow_wf_agents c c' w :
  map_keys (oc_agents c) ⊆ map_keys (oc_agents c') → workflow_wf c w → workflow_wf c' w.
Proof. intros Hsub []. constructor; eauto using step_wf_agents. Qed.

Lemma setup_wf_workflows ws c :
  setup_wf c → NoDup (wf_id <$> ws) → oc_default_workflow c ∈ wf_id <$> ws →
  (∀ w, w ∈ ws → workflow_wf c w) → setup_wf (put_workflows ws c).
Proof.
  intros [] Hnd Hdef Hws. constructor; simpl; try done.
  intros w Hw. by apply (workflow_wf_agents c), Hws.
Qed.
Lemma setup_wf_agents agents selector c :
  setup_wf c → map_keys (oc_agents c) ⊆ map_keys agents →
  (∃ a, map_get selector agents = Some a ∧ ag_can_orchestrate_workflows a = true) →
  setup_wf (put_selector selector (put_agents agents c)).
Proof.
  intros [] Hsub Hsel. constructor; simpl; try done.
  intros w Hw. apply (workflow_wf_agents c); [done|]. auto.
Qed.
Lemma setup_wf_default w c :
  setup_wf c → w ∈ wf_id <$> oc_workflows c → setup_wf (put_default_workflow w c).
Proof.
  intros [] Hw. constructor; simpl; try done. intros w' Hw'. apply (workflow_wf_agents c); auto.
Qed.
Lemma setup_wf_same c c' :
  setup_wf c → oc_selector_agent c' = oc_selector_agent c → oc_agents c' = oc_agents c →
  oc_default_workflow c' = oc_default_workflow c → oc_workflows c' = oc_workflows c → setup_wf c'.
Proof.
  intros [] E1 E2 E3 E4. constructor; rewrite ?E1, ?E2, ?E3, ?E4; try done.
  intros w Hw. apply (workflow_wf_agents c); [by rewrite E2|auto].
Qed.

Lemma has_workflow_elem w c : has_workflow w c = true ↔ w ∈ wf_id <$> oc_workflows c.
Proof.
  unfold has_workflow, is_workflow. rewrite existsb_exists, list_elem_of_fmap.
  setoid_rewrite <- list_elem_of_In. setoid_rewrite String.eqb_eq. naive_solver.
Qed.
Lemma has_step_elem s w : has_step s w = true ↔ s ∈ ws_id <$> wf_steps w.
Proof.
  unfold has_step, is_step. rewrite existsb_exists, list_elem_of_fmap.
  setoid_rewrite <- list_elem_of_In. setoid_rewrite String.eqb_eq. naive_solver.
Qed.
(** An element that may be renamed to [next]. *)
Lemma rename_free {A} (f : A → string) (cur next : string) (l : list A) x y :
  existsb (λ z, String.eqb (f z) next && negb (String.eqb (f z) cur)) l = false →
  f x = cur → y ∈ l → f y = next → f y = f x.
Proof.
  intros Hfree Hx Hy Hn. destruct (String.eqb_spec (f y) (f x)) as [|Hne]; [done|].
  exfalso. apply not_true_iff_false in Hfree. apply Hfree. apply existsb_exists.
  exists y. split; [by apply list_elem_of_In|]. apply andb_true_iff. split.
  - by apply String.eqb_eq.
  - apply negb_true_iff, String.eqb_neq. congruence.
Qed.

(** The step an editor makes: all its contract is in place. *)
Lemma new_step_wf c w s a : a ∈ map_keys (oc_agents c) → step_wf c (new_step w s a).
Proof.
  intros Ha. apply validate_step_Ok with (workflow := template_workflow w "" [] []).
  unfold validate_step. simpl. apply map_contains_key_elem in Ha. rewrite Ha. reflexivity.
Qed.

(** *** Rules for the parts *)
Definition configs_valid (d : SetupDraft) : Prop :=
  ∀ k c, map_get k (sd_configs d) = Some c → setup_wf c.

Lemma wp_config_valid o missing (m : edit OrchestratorConfig) d :
  configs_valid d → (∀ c, setup_wf c → wp false m (λ _, setup_wf) c) →
  wp false (the_config o missing m) (λ _, configs_valid) d.
Proof.
  intros Hd Hm. apply wp_zoom_opt; [done|]. intros c Hc.
  eapply wp_mono; [apply Hm, (Hd o), Hc|]. intros r c' Hc' k x. simpl in *.
  destruct (decide (k = o)) as [->|Hne].
  - rewrite map_get_insert_eq. by intros [= <-].
  - rewrite map_get_insert_ne by done. apply Hd.
Qed.
Lemma wp_workflow_valid wid missing (m : edit WorkflowConfig) c :
  setup_wf c →
  (∀ w, w ∈ oc_workflows c → wf_id w = wid → workflow_wf c w →
     wp false m (λ _ w', workflow_wf c w' ∧ wf_id w' = wid) w) →
  wp false (the_workflow wid missing m) (λ _, setup_wf) c.
Proof.
  intros Hc Hm. apply wp_zoom_opt; [done|]. intros w Hfind.
  destruct (find_elem _ _ _ Hfind) as [Hw Hid%String.eqb_eq].
  eapply wp_mono; [apply Hm; [done..|by apply Hc]|]. intros r w' [Hw' Hid'].
  apply setup_wf_workflows; [done|..].
  - rewrite (update_first_keys _ _ w); [apply Hc|done|congruence].
  - rewrite (update_first_keys _ _ w); [apply Hc|done|congruence].
  - intros y [->|Hy]%update_first_elem; [done|by apply Hc].
Qed.
Lemma wp_step_valid c sid wid missing (m : edit WorkflowStepConfig) w :
  workflow_wf c w → wf_id w = wid →
  (∀ s, s ∈ wf_steps w → ws_id s = sid → step_wf c s →
     wp false m (λ _ s', step_wf c s' ∧ (∀ y, y ∈ wf_steps w → ws_id y = ws_id s' → ws_id y = sid)) s) →
  wp false (the_step sid missing m) (λ _ w', workflow_wf c w' ∧ wf_id w' = wid) w.
Proof.
  intros Hw Hwid Hm. apply wp_zoom_opt; [by split|]. intros s Hfind.
  destruct (find_elem _ _ _ Hfind) as [Hs Hid%String.eqb_eq].
  eapply wp_mono; [apply Hm; [done..|by apply Hw]|]. intros r s' [Hs' Hid'].
  split; [|done]. constructor; simpl.
  - apply update_first_not_nil, Hw.
  - eapply update_first_NoDup; [apply Hw|done|]. intros y Hy Hyx. rewrite Hid. auto.
  - intros y [->|Hy]%update_first_elem; [done|by apply Hw].
Qed.

(** *** Applying a template *)
Lemma merge_agents_keys ts cs k :
  k ∈ map_keys (merge_agents ts cs) ↔ k ∈ map_keys ts ∨ k ∈ map_keys cs.
Proof.
  unfold merge_agents. revert cs. induction ts as [|[k' a] ts IH]; intros cs; simpl; [set_solver|].
  rewrite IH, elem_of_cons. destruct (map_contains_key k' cs) eqn:E.
  - apply map_contains_key_elem in E. naive_solver.
  - rewrite map_insert_keys. naive_solver.
Qed.
Lemma merge_agents_get ts cs k a :
  map_get k cs = Some a → map_get k (merge_agents ts cs) = Some a.
Proof.
  unfold merge_agents. revert cs. induction ts as [|[k' a'] ts IH]; intros cs Hk; simpl; [done|].
  apply IH. destruct (map_contains_key k' cs) eqn:E; [done|].
  rewrite map_get_insert_ne; [done|]. intros ->.
  apply not_true_iff_false in E. apply E, map_contains_key_elem, map_get_keys. by exists a.
Qed.

(** A workflow map: keys are the ids, in order, of well-formed workflows. *)
Definition workflow_map_wf (c : OrchestratorConfig) (m : list (string * WorkflowConfig)) : Prop :=
  map_sorted m ∧ ∀ k w, (k, w) ∈ m → wf_id w = k ∧ workflow_wf c w.
Lemma workflow_map_ids c m : workflow_map_wf c m → wf_id <$> m.*2 = map_keys m.
Proof.
  intros [_ Hm]. unfold map_keys. rewrite <- list_fmap_compose. apply list_fmap_ext.
  intros i [k w] Hkw. apply list_elem_of_lookup_2 in Hkw. by destruct (Hm k w Hkw).
Qed.
Lemma merge_workflow_wf c def acc w :
  workflow_map_wf c acc.1 → (∀ id, acc.2 = Some id → id ∈ map_keys acc.1) → workflow_wf c w →
  let acc' := merge_workflow def acc w in
  workflow_map_wf c acc'.1 ∧ (∀ id, acc'.2 = Some id → id ∈ map_keys acc'.1)
  ∧ (∀ k, k ∈ map_keys acc.1 → k ∈ map_keys acc'.1).
Proof.
  destruct acc as [m d]. simpl. intros [Hs Hm] Hd Hw.
  set (k := unique_workflow_id m (wf_id w)). split; [split|split].
  - by apply map_insert_sorted.
  - intros k' w' [[-> ->]|Hkw]%map_insert_elem; [|by apply Hm].
    split; [done|]. by destruct Hw.
  - intros x. rewrite map_insert_keys. case_match; [|naive_solver]. intros [= <-]. by left.
  - intros x Hx. apply map_insert_keys. by right.
Qed.
Lemma merge_workflows_wf c def ws acc :
  workflow_map_wf c acc.1 → (∀ id, acc.2 = Some id → id ∈ map_keys acc.1) →
  (∀ w, w ∈ ws → workflow_wf c w) →
  let acc' := foldl (merge_workflow def) acc ws in
  workflow_map_wf c acc'.1 ∧ (∀ id, acc'.2 = Some id → id ∈ map_keys acc'.1)
  ∧ (∀ k, k ∈ map_keys acc.1 → k ∈ map_keys acc'.1).
Proof.
  revert acc. induction ws as [|w ws IH]; intros acc Hm Hd Hws; simpl; [done|].
  destruct (merge_workflow_wf c def acc w Hm Hd) as (H1 & H2 & H3); [apply Hws; left|].
  destruct (IH _ H1 H2) as (? & ? & ?); [intros; apply Hws; by right|].
  split_and!; [done..|]. auto.
Qed.
Lemma workflow_map_initial c :
  setup_wf c → ∀ c', map_keys (oc_agents c) ⊆ map_keys (oc_agents c') →
  workflow_map_wf c' (map_from_iter ((λ wf, (wf_id wf, wf)) <$> oc_workflows c))
  ∧ (∀ k, k ∈ wf_id <$> oc_workflows c →
       k ∈ map_keys (map_from_iter ((λ wf, (wf_id wf, wf)) <$> oc_workflows c))).
Proof.
  intros [] c' Hsub. set (kvs := (λ wf, (wf_id wf, wf)) <$> oc_workflows c).
  assert (∀ k w, map_get k (map_from_iter kvs) = Some w ↔ (k, w) ∈ kvs) as Hget.
  { intros k w. apply map_get_from_iter.
    intros x w1 w2 (? & [= -> ->] & H1)%list_elem_of_fmap (? & [= E ->] & H2)%list_elem_of_fmap.
    by apply (NoDup_map_inj wf_id (oc_workflows c)). }
  split; [split; [apply map_from_iter_sorted|]|].
  - intros k w Hkw.
    assert ((k, w) ∈ kvs) as (w' & [= -> ->] & Hw)%list_elem_of_fmap.
    { apply Hget. apply map_sorted_get; [apply map_from_iter_sorted|done]. }
    split; [done|]. apply (workflow_wf_agents c); auto.
  - intros k (w & -> & Hw)%list_elem_of_fmap. apply map_get_keys. exists w. apply Hget.
    apply list_elem_of_fmap. by exists w.
Qed.

Lemma apply_template_valid target template :
  setup_wf target → setup_wf template →
  let existing := map_from_iter ((λ wf, (wf_id wf, wf)) <$> oc_workflows target) in
  let acc := foldl (merge_workflow (oc_default_workflow template)) (existing, None)
               (oc_workflows template) in
  setup_wf (put_default_workflow (from_option id (oc_default_workflow target) acc.2)
    (put_workflows acc.1.*2
       (put_agents (merge_agents (oc_agents template) (oc_agents target)) target))).
Proof.
  intros Ht Hp existing acc. set (agents := merge_agents _ _).
  set (c' := put_agents agents target).
  assert (map_keys (oc_agents target) ⊆ map_keys (oc_agents c')) as Hsub1.
  { intros k Hk. apply merge_agents_keys. by right. }
  assert (map_keys (oc_agents template) ⊆ map_keys (oc_agents c')) as Hsub2.
  { intros k Hk. apply merge_agents_keys. by left. }
  destruct (workflow_map_initial target Ht c' Hsub1) as [Hinit Hids].
  destruct (merge_workflows_wf c' (oc_default_workflow template) (oc_workflows template)
              (existing, None)) as (Hm & Hd & Hold); [done|done| |].
  { intros w Hw. apply (workflow_wf_agents template); [done|]. by apply Hp. }
  fold acc in Hm, Hd, Hold. pose proof (workflow_map_ids c' _ Hm) as Hkeys.
  constructor; simpl.
  - destruct (setup_selector target Ht) as (a & Ha & Hcan). exists a.
    split; [by apply merge_agents_get|done].
  - rewrite Hkeys. apply map_sorted_NoDup, Hm.
  - rewrite Hkeys. destruct acc.2 as [id|] eqn:E; [by apply Hd|]. simpl.
    apply Hold, Hids, Ht.
  - intros w ([k w'] & -> & Hkw)%list_elem_of_fmap.
    apply (workflow_wf_agents c'); [done|]. by apply (proj2 Hm k).
Qed.

(** *** Adding, removing and renaming *)
Lemma wp_then_validate (m : edit OrchestratorConfig) c :
  wp false m (λ _, setup_wf) c → wp false (m ;; validate_orchestrator_invariants) (λ _, setup_wf) c.
Proof.
  intros Hm. apply wp_bind. eapply wp_mono; [exact Hm|]. intros [[]|e] c' Hc'; [|done].
  edit_steps; done.
Qed.
Lemma NoDup_snoc {A} (l : list A) x : NoDup l → x ∉ l → NoDup (l ++ [x]).
Proof.
  intros Hl Hx. apply NoDup_app. split; [done|]. split; [|by apply NoDup_singleton].
  by intros y Hy ->%list_elem_of_singleton.
Qed.
Lemma has_workflow_false w c : has_workflow w c = false → w ∉ wf_id <$> oc_workflows c.
Proof. intros H Hin%has_workflow_elem. congruence. Qed.
Lemma has_step_false s w : has_step s w = false → s ∉ ws_id <$> wf_steps w.
Proof. intros H Hin%has_step_elem. congruence. Qed.
Lemma selector_known c : setup_wf c → oc_selector_agent c ∈ map_keys (oc_agents c).
Proof. intros [(a & Ha & _) _ _ _]. apply map_get_keys. by exists a. Qed.

Lemma add_workflow_valid c w :
  setup_wf c → wf_id w ∉ wf_id <$> oc_workflows c → workflow_wf c w →
  setup_wf (put_workflows (oc_workflows c ++ [w]) c).
Proof.
  intros Hc Hid Hw. apply setup_wf_workflows; [done|..]; rewrite ?fmap_app.
  - apply NoDup_snoc; [apply Hc|done].
  - apply elem_of_app. left. apply Hc.
  - intros x [Hx| ->%list_elem_of_singleton]%elem_of_app; [by apply Hc|done].
Qed.
Lemma NoDup_fmap_filter {A K} (f : A → K) (P : A → Prop) `{∀ x, Decision (P x)} l :
  NoDup (f <$> l) → NoDup (f <$> filter P l).
Proof.
  induction l as [|x l IH]; simpl; [done|]. rewrite NoDup_cons, filter_cons. intros [Hx Hl].
  case_decide; [|auto]. apply NoDup_cons. split; [|auto].
  intros (y & Hy & [_ Hin]%list_elem_of_filter)%list_elem_of_fmap. apply Hx.
  apply list_elem_of_fmap. by exists y.
Qed.
(** Removing one of several elements with distinct keys leaves some. *)
Lemma filter_others_not_nil {A} (f : A → string) k (l : list A) :
  NoDup (f <$> l) → (1 < length l)%nat → filter (λ x, String.eqb (f x) k = false) l ≠ [].
Proof.
  destruct l as [|x [|y l]]; simpl; [lia..|]. rewrite !NoDup_cons, !filter_cons.
  intros [Hx _] _. destruct (String.eqb_spec (f x) k) as [Ex|]; [|done].
  destruct (String.eqb_spec (f y) k) as [Ey|]; [|done].
  destruct Hx. rewrite Ex, <- Ey. by left.
Qed.
Lemma remove_workflow_valid c w :
  setup_wf c → (1 < length (oc_workflows c))%nat →
  let ws := filter (λ x, is_workflow w x = false) (oc_workflows c) in
  setup_wf (put_default_workflow
    (if String.eqb (oc_default_workflow c) w then
       match ws with next :: _ => wf_id next | [] => oc_default_workflow c end
     else oc_default_workflow c) (put_workflows ws c)).
Proof.
  intros Hc Hlen ws.
  assert (∀ x, x ∈ ws ↔ wf_id x ≠ w ∧ x ∈ oc_workflows c) as Hws.
  { intros x. unfold ws, is_workflow. by rewrite list_elem_of_filter, String.eqb_neq. }
  constructor; simpl.
  - apply Hc.
  - apply NoDup_fmap_filter, Hc.
  - destruct (String.eqb_spec (oc_default_workflow c) w) as [E|Hne].
    + assert (ws ≠ []) as Hne.
      { apply (filter_others_not_nil wf_id); [apply Hc|done]. }
      destruct ws as [|x ws']; [done|by left].
    + pose proof (setup_default c Hc) as (x & Hx & Hin)%list_elem_of_fmap.
      apply list_elem_of_fmap. exists x. split; [done|]. apply Hws. split; [congruence|done].
  - intros x [_ Hx]%Hws. apply (workflow_wf_agents c); [done|by apply Hc].
Qed.
Lemma rename_workflow_valid c w x next :
  setup_wf c → List.find (is_workflow w) (oc_workflows c) = Some x →
  existsb (λ y, is_workflow next y && negb (is_workflow w y)) (oc_workflows c) = false →
  let ws := update_first (is_workflow w) (put_workflow_id next x) (oc_workflows c) in
  let c' := put_workflows ws c in
  setup_wf (if String.eqb (oc_default_workflow c') w then put_default_workflow next c' else c').
Proof.
  intros Hc Hfind Hfree ws c'. destruct (find_elem _ _ _ Hfind) as [Hx Hid%String.eqb_eq].
  assert (next ∈ wf_id <$> ws) as Hnext.
  { unfold ws. clear -Hfind. induction (oc_workflows c) as [|y l IH]; simpl in *; [done|].
    destruct (is_workflow w y); [by left|]. right. by apply IH. }
  assert (∀ y, y ∈ oc_workflows c → wf_id y ≠ w → y ∈ ws) as Hkeep.
  { unfold ws. clear. intros y. induction (oc_workflows c) as [|z l IH]; simpl; [set_solver|].
    intros [->|Hy]%elem_of_cons Hne.
    - rewrite (proj2 (String.eqb_neq (wf_id z) w) Hne : is_workflow w z = false). by left.
    - destruct (is_workflow w z); [by right|]. right. by apply IH. }
  assert (∀ y, y ∈ ws → workflow_wf c' y) as Hall.
  { intros y Hy%update_first_elem. apply (workflow_wf_agents c); [done|].
    destruct Hy as [->|Hy]; [|by apply Hc]. destruct (setup_workflows_wf c Hc x Hx).
    by constructor. }
  assert (NoDup (wf_id <$> ws)) as Hnd.
  { eapply update_first_NoDup; [apply Hc|exact Hfind|]. intros y Hy Hyn. simpl in Hyn.
    by apply (rename_free wf_id w next (oc_workflows c)). }
  destruct (String.eqb_spec (oc_default_workflow c') w) as [E|Hne].
  - constructor; simpl; try done; [apply Hc|].
    intros y Hy. apply (workflow_wf_agents c'); [done|auto].
  - constructor; simpl; try done; [apply Hc|].
    pose proof (setup_default c Hc) as (y & Hy & Hin)%list_elem_of_fmap.
    apply list_elem_of_fmap. exists y. split; [done|]. apply Hkeep; [done|]. by rewrite <- Hy.
Qed.

Lemma add_step_valid c w s :
  workflow_wf c w → ws_id s ∉ ws_id <$> wf_steps w → step_wf c s →
  workflow_wf c (put_steps (wf_steps w ++ [s]) w).
Proof.
  intros [] Hid Hs. constructor; simpl.
  - by destruct (wf_steps w).
  - rewrite fmap_app. by apply NoDup_snoc.
  - intros x [Hx| ->%list_elem_of_singleton]%elem_of_app; auto.
Qed.
Lemma remove_step_valid c w s :
  workflow_wf c w → (1 < length (wf_steps w))%nat →
  workflow_wf c (put_steps (filter (λ x, is_step s x = false) (wf_steps w)) w).
Proof.
  intros [] Hlen. constructor; simpl.
  - by apply (filter_others_not_nil ws_id).
  - by apply NoDup_fmap_filter.
  - intros x [_ Hx]%list_elem_of_filter. auto.
Qed.
Lemma output_files_valid c s files :
  step_wf c s → List.find (unmapped files) (ws_outputs s) = None →
  step_wf c (with_outputs (ws_outputs s) files (ws_final_output_priority s) s).
Proof.
  intros [Ha Hs Hm Ho Hp Hu Hk] Hnone.
  assert (∀ key, key ∈ ws_outputs s → ok_name key ∈ map_keys files) as Hall.
  { intros key Hkey. apply contains_key_keys. apply (find_none _ _ Hnone). by apply list_elem_of_In. }
  constructor; simpl; try done.
  apply list_elem_of_fmap in Hs as (key & -> & Hkey). auto.
Qed.
Lemma put_agent_valid c k a selector :
  setup_wf c → (k = selector → ag_can_orchestrate_workflows a = true) →
  (selector = oc_selector_agent c ∨ selector = k) →
  setup_wf (put_selector selector (put_agents (map_insert k a (oc_agents c)) c)).
Proof.
  intros Hc Hk Hsel. apply setup_wf_agents; [done| |].
  - intros x Hx. apply map_insert_keys. by right.
  - destruct (decide (selector = k)) as [->|Hne].
    + exists a. rewrite map_get_insert_eq. auto.
    + rewrite map_get_insert_ne by done. destruct Hsel as [->|]; [apply Hc|done].
Qed.
Lemma wp_agent_valid k (m : edit AgentConfig) c :
  setup_wf c →
  (∀ a, map_get k (oc_agents c) = Some a →
     wp false m (λ _ a', k = oc_selector_agent c → ag_can_orchestrate_workflows a' = true) a) →
  wp false (the_agent k m) (λ _, setup_wf) c.
Proof.
  intros Hc Hm. apply wp_zoom_opt; [done|]. intros a Ha.
  eapply wp_mono; [by apply Hm|]. intros r a' Ha'. simpl in Ha'.
  apply (put_agent_valid c k a' (oc_selector_agent c)); auto.
Qed.
Lemma selector_can c a :
  setup_wf c → map_get (oc_selector_agent c) (oc_agents c) = Some a →
  ag_can_orchestrate_workflows a = true.
Proof. intros [(a' & Ha & Hcan) _ _ _] Hg. congruence. Qed.

(** *** The edits keep validity

    Three edits do not: toggling the type of a step keeps its output priority,
    replacing the outputs of a step may drop [summary], and removing an agent
    that steps still use is refused only after the removal. *)
Definition tame (op : setup_edit) : bool :=
  match op with ToggleStepType _ _ _ | SetOutputs _ _ _ _ | RemoveAgent _ _ => false | _ => true end.

Lemma wp_insert_valid o d :
  configs_valid d → wp false (insert_orchestrator o) (λ _, configs_valid) d.
Proof.
  intros Hd. unfold insert_orchestrator. edit_steps.
  apply wp_expect; intros; [done|]. edit_steps. intros k c. simpl.
  destruct (decide (k = o)) as [->|].
  - rewrite map_get_insert_eq. intros [= <-]. by eapply initial_setup_wf.
  - rewrite map_get_insert_ne by done. apply Hd.
Qed.
Lemma wp_template_valid o t d :
  configs_valid d → wp false (apply_workflow_template_to_orchestrator o t) (λ _, configs_valid) d.
Proof.
  intros Hd. unfold apply_workflow_template_to_orchestrator. edit_steps.
  apply wp_expect; intros; [done|]. apply wp_config_valid; [done|]. intros target Htarget.
  apply wp_bind, wp_get. cbv beta iota.
  match goal with H : initial_orchestrator_config _ _ _ _ = Some ?c |- _ =>
    pose proof (apply_template_valid target c Htarget (initial_setup_wf _ _ _ _ _ H)) as Hwf end.
  cbv zeta in Hwf |- *. destruct (foldl _ _ _) as [merged new_default].
  apply wp_then_validate, wp_put. exact Hwf.
Qed.

Ltac valid_step :=
  first
    [ lazymatch goal with
      | |- wp _ (_ ≫= λ _, validate_orchestrator_invariants) _ _ => apply wp_then_validate
      | |- wp _ (insert_orchestrator _) _ _ => apply wp_insert_valid
      | |- wp _ (apply_workflow_template_to_orchestrator _ _) _ _ => apply wp_template_valid
      | |- wp _ (expect _) _ _ => apply wp_expect; intros; cbv beta iota
      end
    | edit_step
    | apply wp_config_valid; [assumption|intros ? ?]
    | apply wp_workflow_valid; [assumption|intros ? ? ? ?]
    | eapply wp_step_valid; [eassumption|eassumption|intros ? ? ? ?]
    | apply wp_agent_valid; [assumption|intros ? ?] ].
Ltac valid_done :=
  cbv beta;
  first [ assumption | by split | by auto
        | match goal with H : setup_wf ?c |- setup_wf _ =>
            apply (setup_wf_same c); [exact H|by repeat case_match..] end
        | match goal with H : workflow_wf _ _ |- workflow_wf _ _ ∧ _ =>
            split; [destruct H; by constructor|done] end
        | match goal with H : step_wf _ _ |- step_wf _ _ ∧ _ =>
            split; [destruct H; by constructor|intros ? _ ?; simpl in *; congruence] end ].

Lemma edit_keeps_valid op d :
  tame op = true → configs_valid d → wp false (run_edit op) (λ _, configs_valid) d.
Proof.
  intros Htame Hd. destruct op; try discriminate Htame; simpl;
    unfold_edit; try assumption; repeat valid_step; try valid_done.
  - intros k c. simpl. destruct (decide (k = o)) as [->|Hne].
    + intros Hk. assert (o ∈ map_keys (map_remove o (sd_configs d))) as [? _]%map_remove_keys; [|done].
      apply map_get_keys. by exists c.
    + rewrite map_get_remove_ne by done. apply Hd.
  - by apply wp_zoom_opt; intros; [|edit_steps].
  - by apply wp_zoom_opt; intros; [|edit_steps].
  - apply setup_wf_default; [done|]. by apply has_workflow_elem, negb_false_iff.
  - apply add_workflow_valid; [done|by apply has_workflow_false|]. constructor; simpl; [done|..].
    + apply NoDup_singleton.
    + intros x ->%list_elem_of_singleton. by apply new_step_wf, selector_known.
  - apply remove_workflow_valid; [done|]. case_bool_decide; [done|lia].
  - apply wp_zoom_opt; [done|]. intros x Hx. edit_steps; by apply rename_workflow_valid.
  - split; [|done]. apply add_step_valid; [done|by apply has_step_false|].
    by apply new_step_wf, selector_known.
  - split; [|done]. apply remove_step_valid; [done|]. case_bool_decide; [done|lia].
  - split; [match goal with H : step_wf _ _ |- _ => destruct H; by constructor end|].
    intros y Hy Hn. match goal with H : ws_id ?x = s |- _ => rewrite <- H end.
    by apply (rename_free ws_id s next (wf_steps w0)).
  - split; [|intros y _ Hy; simpl in Hy; congruence].
    match goal with H : step_wf _ _ |- _ => destruct H; constructor; simpl; try done end.
    by apply map_contains_key_elem, negb_false_iff.
  - split; [by apply output_files_valid|intros y _ Hy; simpl in Hy; congruence].
  - apply (put_agent_valid c a _ (oc_selector_agent c)); [done|intros ->|by left].
    match goal with H : map_contains_key _ _ = false |- _ => apply not_true_iff_false in H as []  end.
    by apply map_contains_key_elem, selector_known.
  - intros ->. simpl. by eapply selector_can.
  - intros ->. simpl. by eapply selector_can.
  - intros ->. by eapply selector_can.
  - intros ->. match goal with H : _ && _ = false |- _ => rewrite String.eqb_refl in H; simpl in * end.
    by apply negb_true_iff.
  - apply wp_zoom_opt; simpl.
    + intros Hx. exfalso. match goal with H : negb _ = false |- _ =>
        apply negb_false_iff, map_contains_key_elem, map_get_keys in H as [? H] end. congruence.
    + intros x Hx. edit_steps. apply (put_agent_valid c a _ a); [done..|by right].
Qed.

Lemma remove_agent_valid o a d :
  configs_valid d → wp false (remove_agent o a) (λ r d', r = Ok () → configs_valid d') d.
Proof.
  intros Hd. apply wp_zoom_opt; [done|]. intros c Hc.
  eapply (wp_mono _ _ (λ r c', r = Ok () → setup_wf c')).
  - edit_steps; try done. intros _. apply validate_setup_sound.
    match goal with H : map_err _ _ = Ok ?u |- _ => destruct u; by apply map_err_Ok in H end.
  - intros r c' Hc' Hr k x. simpl. destruct (decide (k = o)) as [->|Hne].
    + rewrite map_get_insert_eq. intros [= <-]. by apply Hc'.
    + rewrite map_get_insert_ne by done. apply Hd.
Qed.

(** What is asked of one edit and its result. *)
Definition guarded (op : setup_edit) (r : result setup_failure ()) : Prop :=
  match op with RemoveAgent _ _ => r = Ok () | _ => tame op = true end.

Lemma session_inv (P : SetupDraft → Prop) (R : setup_edit → result setup_failure () → Prop) ops d :
  (∀ op d, P d → wp false (run_edit op) (λ r d', R op r → P d') d) →
  P d → Forall2 R ops (run_session ops d).2 → P (run_session ops d).1.
Proof.
  intros Hop. revert d. induction ops as [|op ops IH]; intros d Hd; simpl; [done|].
  assert (calm false (ev (World d no_faults))) as Hcalm by done.
  pose proof (wp_run false (run_edit op) _ (World d no_faults) (Hop op d Hd) Hcalm) as Hd'.
  destruct (run_edit op (World d no_faults)) as [w r]. simpl in *.
  specialize (IH (st w)). destruct (run_session ops (st w)) as [d' rs]. simpl in *.
  intros [Hr Hrs]%Forall2_cons. auto.
Qed.

(** The setup screens keep valid configurations valid: if every configuration
    passes [validate_setup_invariants], it still does after any session of edits,
    accepted or rejected, as long as no step type is toggled, no step's outputs
    are replaced, and every removal of an agent was accepted. *)
Theorem setup_session_keeps_valid (ops : list setup_edit) (d : SetupDraft)
    (Hvalid : ∀ k c, map_get k (sd_configs d) = Some c → validate_setup_invariants c = Ok ())
    (Hops : Forall2 guarded ops (run_session ops d).2) :
  ∀ k c, map_get k (sd_configs (run_session ops d).1) = Some c →
    validate_setup_invariants c = Ok ().
Proof.
  intros k c Hk. apply validate_setup_complete. revert Hk.
  assert (configs_valid (run_session ops d).1) as H; [|apply H].
  apply (session_inv configs_valid guarded); [| |done].
  - intros op d' Hd'. destruct (tame op) eqn:Htame.
    + eapply wp_mono; [by apply edit_keeps_valid|done].
    + destruct op; try discriminate Htame; simpl.
      * by intros e He; destruct (toggle_step_type _ _ _ _).
      * by intros e He; destruct (set_step_outputs _ _ _ _ _).
      * by apply remove_agent_valid.
  - intros k' c' Hk'. by apply validate_setup_sound, (Hvalid k').
Qed.

(** ** The hypotheses hold *)
Definition demo_draft : SetupDraft :=
  from_option (λ d, d) (put_paths "" {| sd_workspaces_path := ""; sd_orchestrator_id := "";
    sd_provider := ""; sd_model := ""; sd_workflow_template := Minimal;
    sd_orchestrators := []; sd_configs := [] |}) (fresh_bootstrap "/srv").
Lemma demo_draft_inv : draft_inv demo_draft.
Proof. by apply (fresh_bootstrap_inv "/srv"). Qed.
Definition demo_edits : list setup_edit :=
  [AddOrchestrator "alpha"; ApplyTemplate "alpha" Engineering; AddWorkflow "alpha" "triage";
   RenameStep "alpha" "triage" "step_1" "first"; AddAgent "alpha" "helper";
   RemoveAgent "alpha" "helper"; RemoveOrchestrator "main"; AddOrchestrator "alpha"].

Lemma setup_session_keeps_valid_witness :
  is_ok <$> (run_session demo_edits demo_draft).2 = [true; true; true; true; true; true; true; false]
  ∧ ∀ k c, map_get k (sd_configs (run_session demo_edits demo_draft).1) = Some c →
      validate_setup_invariants c = Ok ().
Proof.
  split; [vm_compute; reflexivity|].
  apply (setup_session_keeps_valid demo_edits demo_draft).
  - intros k c. unfold demo_draft. simpl. destruct (decide (k = "main")); [|discriminate].
    intros [= <-]. vm_compute. reflexivity.
  - vm_compute. repeat constructor.
Defined.
