(* ===== verification/SetupGuarantees.v ===== *)
(** * What the setup guarantees

    What an accepted save promises, the ids the screens suggest, the navigation of
    the menu, the scripted setup from its first key to the saved files, and the
    starter templates. *)
From S2P Require Import Prelude RustStr RustPath Io Json TypedFields Config OrchestratorFile Templates SetupDraft SetupScreens SetupEdits.
From Stdlib Require Import Ascii.

Local Open Scope string_scope.
Local Open Scope list_scope.

(** ** Saving *)
Lemma with_primary_profile_leads primary ps :
  existsb (λ p, String.eqb (cp_orchestrator_id p.2) primary) (with_primary_profile primary ps) = true.
Proof.
  unfold with_primary_profile. set (ps' := if is_nil ps then _ else ps).
  destruct (existsb _ ps') eqn:E; [done|]. apply existsb_exists.
  exists (primary +:+ "-local", local_profile primary). simpl. rewrite String.eqb_refl.
  split; [|done]. apply list_elem_of_In, map_get_elem, map_get_insert_eq.
Qed.
(** The profiles that were there stay, but for one with the name of the added one. *)
Lemma with_primary_profile_keeps primary ps k p :
  map_get k ps = Some p → k ≠ primary +:+ "-local" →
  map_get k (with_primary_profile primary ps) = Some p.
Proof.
  intros Hk Hne. unfold with_primary_profile. destruct ps as [|q ps]; [done|]. cbn [is_nil].
  case_match; [done|]. by rewrite map_get_insert_ne.
Qed.

(** What saved settings and configurations are. *)
Record saved_wf (canonicalizes : string → bool) (d : SetupDraft) (settings : Settings) : Prop := {
  sv_settings :
    Settings_validate canonicalizes settings {| require_shared_paths_exist := false |} = Ok ();
  sv_registry : s_orchestrators settings = sd_orchestrators d;
  sv_primary : sd_orchestrator_id d ∈ map_keys (s_orchestrators settings);
  sv_profile : ∃ k p, (k, p) ∈ s_channel_profiles settings
                      ∧ cp_orchestrator_id p = sd_orchestrator_id d;
  sv_configs : ∀ o, o ∈ map_keys (s_orchestrators settings) →
    ∃ c, map_get o (sd_configs d) = Some c ∧ OrchestratorConfig_validate c settings o = Ok ();
  sv_no_extra : ∀ o, o ∈ map_keys (sd_configs d) → o ∈ map_keys (s_orchestrators settings);
}.

Lemma for_each_elem {E A} (body : A → result E ()) xs x :
  for_each body xs = Ok () → x ∈ xs → body x = Ok ().
Proof. rewrite for_each_Ok, Forall_forall. auto. Qed.

Lemma bootstrap_saved canonicalizes settings d :
  s_orchestrators settings = sd_orchestrators d →
  existsb (λ p, String.eqb (cp_orchestrator_id p.2) (sd_orchestrator_id d))
    (s_channel_profiles settings) = true →
  Settings_validate canonicalizes settings {| require_shared_paths_exist := false |} = Ok () →
  validate_setup_bootstrap settings d = Ok () → saved_wf canonicalizes d settings.
Proof.
  intros Hreg Hprof Hset Hboot. unfold validate_setup_bootstrap in Hboot.
  rewrite !seq_Ok, !reject_if_Ok in Hboot. destruct Hboot as (_ & Hprim & Hcfg & Hextra).
  constructor; try done.
  - rewrite Hreg. by apply map_contains_key_elem, negb_false_iff.
  - apply existsb_exists in Hprof as ([k p] & Hin%list_elem_of_In & Hp%String.eqb_eq). eauto.
  - intros o Ho. pose proof (for_each_elem _ _ _ Hcfg Ho) as H. cbv beta in H.
    apply seq_Ok in H as [_ H]. apply bind_Ok in H as (c & Hc%ok_or_Ok & Hv%map_err_Ok). eauto.
  - intros o Ho. pose proof (for_each_elem _ _ _ Hextra Ho) as H. cbv beta in H.
    apply reject_if_Ok in H. by apply map_contains_key_elem, negb_false_iff.
Qed.

Lemma wp_checked_settings canonicalizes existing d :
  wp false (checked_settings canonicalizes existing)
    (λ r d', r ≠ Err Panicked ∧ ∀ settings, r = Ok settings →
       saved_wf canonicalizes d' settings ∧ settings = settings_to_save existing d') d.
Proof.
  unfold checked_settings. edit_steps; (split; [done|]); try done. intros settings [= <-].
  repeat match goal with u : () |- _ => destruct u end.
  match goal with H : map_err _ _ = Ok _ |- _ => apply map_err_Ok in H end.
  split; [|done]. apply bootstrap_saved; try done. apply with_primary_profile_leads.
Qed.

Lemma wp_normalize canonicalizes existing d :
  draft_inv d →
  wp false (normalize_for_save canonicalizes existing)
    (λ r d', r ≠ Err Panicked ∧ ∀ settings, r = Ok settings →
       saved_wf canonicalizes d' settings ∧ settings = settings_to_save existing d') d.
Proof.
  intros Hd. unfold normalize_for_save. apply wp_bind.
  eapply wp_mono; [apply (edit_keeps_inv EnsureMinimum), Hd|].
  intros [[]|e] d1 [Hd1 He]; [|by split; [intros [= ->]|]].
  apply wp_bind, wp_modify.
  set (d2 := if map_contains_key _ _ then d1 else _).
  assert (sd_provider d2 = sd_provider d1) as Hprov by (unfold d2; by case_match).
  apply wp_bind, wp_get, wp_bind.
  destruct (initial_some (sd_orchestrator_id d2) (sd_provider d2) (sd_model d2)
              (sd_workflow_template d2)) as [cfg ->]; [rewrite Hprov; apply Hd1|].
  destruct (map_contains_key (sd_orchestrator_id d2) (sd_configs d2)); edit_steps.
  - apply wp_checked_settings.
  - apply wp_expect; [done|]. intros c [= <-]. edit_steps. apply wp_checked_settings.
Qed.


(** ** Suggested ids *)
Definition numbered (base : string) (i : Z) : string := base +:+ "_" +:+ fmt_int i.
Lemma numbered_inj base i j : numbered base i = numbered base j → i = j.
Proof. unfold numbered. intros H. apply (inj (String.append base)) in H. by simplify_eq. Qed.
Lemma numbered_ident base i : (0 ≤ i)%Z → is_ident base = true → is_ident (numbered base i) = true.
Proof.
  unfold is_ident, numbered. intros Hi [Hne Hs]%andb_true_iff. rewrite !str_forall_app, Hs. simpl.
  apply andb_true_iff. split; [by destruct base|].
  eapply str_forall_impl; [|by apply fmt_int_digits]. by intros [[] [] [] [] [] [] [] []].
Qed.
Lemma first_free_spec taken base n idx :
  match first_free taken base n idx with
  | Some id => taken id = false ∧ ∃ i, (idx ≤ i)%Z ∧ id = numbered base i
  | None => ∀ k, (k < n)%nat → taken (numbered base (idx + Z.of_nat k)) = true
  end.
Proof.
  revert idx. induction n as [|n IH]; intros idx; cbn [first_free]; [intros k Hk; lia|].
  change (base +:+ "_" +:+ fmt_int idx) with (numbered base idx).
  destruct (taken (numbered base idx)) eqn:E; [|split; [done|]; exists idx; by split].
  specialize (IH (idx + 1)%Z). destruct (first_free _ _ _ _) as [id|].
  - destruct IH as (? & i & ? & ->). split; [done|]. exists i. split; [lia|done].
  - intros [|k] Hk; [by rewrite Z.add_0_r|].
    replace (idx + Z.of_nat (S k))%Z with (idx + 1 + Z.of_nat k)%Z by lia. apply IH. lia.
Qed.
(** With more candidates than names, the search succeeds. *)
Lemma first_free_found taken names base n idx :
  (∀ id, taken id = true → id ∈ names) → (length names < n)%nat →
  is_Some (first_free taken base n idx).
Proof.
  intros Htaken Hlen. pose proof (first_free_spec taken base n idx) as H.
  destruct (first_free taken base n idx); [by eexists|exfalso].
  assert (n ≤ length names)%nat; [|lia].
  apply (pigeonhole (λ k, numbered base (idx + Z.of_nat k))).
  - intros i j _ _ Hij%numbered_inj. lia.
  - auto.
Qed.

(** The ids the screens suggest are free: the unbounded search for a step id
    always ends with one no step has, an identifier [add_step] accepts if the base
    is one; and the name a template's workflow gets is not one of the existing
    workflows as long as there are fewer than 998 of them. *)
Theorem suggested_ids_are_free (steps : list WorkflowStepConfig)
    (workflows : list (string * WorkflowConfig)) (base : string) :
  (∃ id, unique_step_id steps base = Some id ∧ id ∉ ws_id <$> steps
    ∧ (base ∉ ws_id <$> steps → id = base)
    ∧ (is_ident base = true → validate_identifier "step id" id = Ok ()))
  ∧ ((length workflows < 998)%nat → unique_workflow_id workflows base ∉ map_keys workflows).
Proof.
  assert (∀ id, existsb (is_step id) steps = true ↔ id ∈ ws_id <$> steps) as Htaken.
  { intros id. apply (has_step_elem id (template_workflow "" "" [] steps)). }
  assert (∀ id, is_ident id = true → validate_identifier "step id" id = Ok ()) as Hvalid.
  { intros id Hid. assert (StepId_parse id = Ok id) as Hp by (by apply parse_id_Ok).
    change (validate_identifier "step id" id) with ((λ _, ()) <$> StepId_parse id).
    by rewrite Hp. }
  split.
  - unfold unique_step_id. destruct (existsb (is_step base) steps) eqn:E.
    + destruct (first_free_found (λ id, existsb (is_step id) steps) (ws_id <$> steps) base
                  (S (length steps)) 2) as [id Hid];
        [by intros id Hid%Htaken|rewrite length_fmap; lia|].
      pose proof (first_free_spec (λ id, existsb (is_step id) steps) base (S (length steps)) 2) as H.
      rewrite Hid in *. destruct H as (Hfree & i & Hi & ->). eexists. split; [done|].
      split; [by rewrite <- Htaken, Hfree|]. split; [by apply Htaken in E|].
      intros Hb. apply Hvalid, numbered_ident; [lia|done].
    + exists base. split; [done|]. split; [by rewrite <- Htaken, E|]. auto.
  - intros Hlen. unfold unique_workflow_id. rewrite <- map_contains_key_elem.
    destruct (map_contains_key base workflows) eqn:E; cbn [negb]; [|by rewrite E].
    destruct (first_free_found (λ k, map_contains_key k workflows) (map_keys workflows) base 998 2)
      as [id Hid].
    { intros id. by apply map_contains_key_elem. }
    { unfold map_keys. by rewrite length_fmap. }
    pose proof (first_free_spec (λ k, map_contains_key k workflows) base 998 2) as H.
    rewrite Hid in *. destruct H as [H _]. cbv beta in H. cbn [from_option].
    change (map_contains_key id workflows ≠ true). by rewrite H.
Qed.

(** ** Navigation *)
(** The states the keys lead to. *)
Inductive nav_reachable (n : nat) : NavState → Prop :=
  | nav_start : nav_reachable n NavState_root
  | nav_key s action : nav_reachable n s → nav_reachable n (setup_transition s action n).1
  | nav_status s text : nav_reachable n s → nav_reachable n (with_status text s).

Definition nav_inv (n : nat) (s : NavState) : Prop :=
  nav_screen s ∈ [Root; Workspaces; InitialAgentDefaults]
  ∧ (nav_selected s < setup_screen_item_count (nav_screen s) n)%nat.

Lemma clamp_selection_le selected len : (clamp_selection selected len ≤ selected)%nat.
Proof. destruct len; simpl; lia. Qed.
Lemma nav_inv_select n s v :
  nav_inv n s → (v < setup_screen_item_count (nav_screen s) n)%nat → nav_inv n (with_selected v s).
Proof. by intros [? _] ?. Qed.
Lemma nav_inv_step n s action :
  (0 < n)%nat → nav_inv n s →
  nav_inv n (setup_transition s action n).1 ∧ (setup_transition s action n).2 ≠ Err Unreachable.
Proof.
  intros Hn Hs. pose proof Hs as [Hscreen Hsel].
  destruct action as [| | | | | | | | | |len].
  11: { split; [|done]. apply nav_inv_select; [done|].
        pose proof (clamp_selection_le (nav_selected s) len). lia. }
  all: unfold setup_transition; destruct (nav_screen s) eqn:E; try (exfalso; clear -Hscreen; set_solver);
    simpl in Hsel; repeat case_match; (split; [|done]); simpl; try done;
    try (apply nav_inv_select; [done|]; rewrite E; simpl; lia);
    (split; [set_solver|simpl; lia]).
Qed.
Lemma nav_reachable_inv n s : (0 < n)%nat → nav_reachable n s → nav_inv n s.
Proof.
  intros Hn. induction 1 as [|s action _ IH|s text _ IH]; [|by apply nav_inv_step|done].
  split; [left|simpl; lia].
Qed.

Definition esc : KeyEvent := KeyEvent_new KEsc false.
Definition ctrl_c : KeyEvent := KeyEvent_new (KChar "c") true.
(** The effect of a key on a screen. *)
Definition key_effect (n : nat) (s : NavState) (key : KeyEvent) : NavState * option SetupNavEffect :=
  match setup_action_from_key (nav_screen s) key with
  | None => (s, Some NoEffect)
  | Some action =>
      let '(s', r) := setup_transition s action n in
      (s', match r with Ok t => Some (tr_effect t) | Err _ => None end)
  end.

(** The setup menu cannot get lost: in every state the keys lead to, the
    screen is the root or one of its two sub-screens, the selection is within the
    items of the screen, no [unreachable!] is reached by any action, Ctrl-C
    cancels the setup, and Escape cancels it from the root and leads there from a
    sub-screen, so that two Escapes always leave. *)
Theorem navigation_stays_in_bounds (n : nat) (s : NavState) (Hn : (0 < n)%nat)
    (Hreach : nav_reachable n s) :
  nav_screen s ∈ [Root; Workspaces; InitialAgentDefaults]
  ∧ (nav_selected s < setup_screen_item_count (nav_screen s) n)%nat
  ∧ (∀ action, (setup_transition s action n).2 ≠ Err Unreachable)
  ∧ (key_effect n s ctrl_c).2 = Some CancelSetup
  ∧ (if decide (nav_screen s = Root) then (key_effect n s esc).2 = Some CancelSetup
     else nav_screen (key_effect n s esc).1 = Root
          ∧ (key_effect n (key_effect n s esc).1 esc).2 = Some CancelSetup).
Proof.
  pose proof (nav_reachable_inv n s Hn Hreach) as Hinv. pose proof Hinv as [Hscreen Hsel].
  split; [done|]. split; [done|]. split; [intros action; by apply nav_inv_step|].
  destruct s as [screen selected status hint]. simpl in *.
  repeat (apply elem_of_cons in Hscreen as [->|Hscreen]; [by vm_compute|]).
  by apply elem_of_nil in Hscreen.
Qed.

(** *** The scripted setup *)
(** Scripted keys change the default provider and model, nothing else. *)
Record defaults_of (d d' : SetupDraft) : Prop := {
  df_paths : sd_workspaces_path d' = sd_workspaces_path d;
  df_id : sd_orchestrator_id d' = sd_orchestrator_id d;
  df_template : sd_workflow_template d' = sd_workflow_template d;
  df_orchestrators : sd_orchestrators d' = sd_orchestrators d;
  df_configs : sd_configs d' = sd_configs d;
  df_provider : provider_known (sd_provider d) → provider_known (sd_provider d');
}.
#[export] Instance defaults_of_preorder : PreOrder defaults_of.
Proof.
  split; [by constructor|].
  intros d1 d2 d3 [] []. constructor; [by etrans..|auto].
Qed.
Lemma scripted_key_defaults s key : defaults_of s.1 (scripted_key s key).1.1.
Proof.
  destruct s as [d nav]. unfold scripted_key. simpl.
  destruct (setup_action_from_key _ _) as [action|]; [|reflexivity].
  destruct (setup_transition _ _ _) as [nav' [t|e]]; [|reflexivity].
  destruct (tr_effect t); simpl; try reflexivity.
  constructor; try done. simpl. by case_match.
Qed.
Lemma scripted_loop_defaults s keys : defaults_of s.1 (scripted_loop s keys).1.
Proof.
  revert s. induction keys as [|key keys IH]; intros s; simpl; [reflexivity|].
  pose proof (scripted_key_defaults s key) as Hk.
  destruct (scripted_key s key) as [s' [[exit|]|e]]; simpl in *; [done| |done].
  etrans; [exact Hk|apply IH].
Qed.

Lemma checked_settings_run canonicalizes existing d e :
  Settings_validate canonicalizes (settings_to_save existing d)
    {| require_shared_paths_exist := false |} = Ok () →
  validate_setup_bootstrap (settings_to_save existing d) d = Ok () →
  checked_settings canonicalizes existing (World d e)
  = (World d e, Ok (settings_to_save existing d)).
Proof.
  intros H1 H2. unfold checked_settings. rewrite !bind_run. simpl. rewrite bind_run.
  unfold checked, lift. rewrite H1. simpl. rewrite bind_run, H2. done.
Qed.
(** Nothing is missing: only the checks are left. *)
Lemma normalize_run canonicalizes existing d e :
  map_contains_key (sd_orchestrator_id d) (sd_orchestrators d) = true →
  map_contains_key (sd_orchestrator_id d) (sd_configs d) = true →
  normalize_for_save canonicalizes existing (World d e) = checked_settings canonicalizes existing (World d e).
Proof.
  intros H1 H2. unfold normalize_for_save. rewrite bind_run. unfold ensure_minimum_orchestrator.
  rewrite bind_run. simpl. assert (is_nil (sd_orchestrators d) = false) as -> by by destruct (sd_orchestrators d).
  cbn. rewrite bind_run. cbn. rewrite H1, bind_run. cbn. by rewrite bind_run, H2.
Qed.

(** A first setup run by script saves a working configuration: on a machine
    without a configuration file, with an absolute state root, every key script
    that ends the setup with a save leaves a draft that [normalize_for_save]
    accepts unchanged, and the saved settings and the configuration of the
    orchestrator [main] are valid. *)
Theorem scripted_setup_saves (canonicalizes : string → bool) (root : string) (d : SetupDraft)
    (keys : list KeyEvent) (Hroot : is_absolute root = true) (Hd : fresh_bootstrap root = Some d)
    (Hsave : (run_setup_scripted d keys).2 = Ok ExitSave) :
  let d' := (run_setup_scripted d keys).1 in
  ∃ settings,
    normalize_for_save canonicalizes None (World d' no_faults) = (World d' no_faults, Ok settings)
    ∧ saved_wf canonicalizes d' settings
    ∧ map_keys (s_orchestrators settings) = ["main"]
    ∧ resolve_private_workspace settings "main" = Ok (path_join (path_join root "workspaces") "main").
Proof.
  cbv zeta. pose proof (scripted_loop_defaults (d, NavState_root) keys) as Hdf.
  change (scripted_loop (d, NavState_root) keys) with (run_setup_scripted d keys) in Hdf.
  set (d' := (run_setup_scripted d keys).1) in *. clearbody d'. clear Hsave.
  pose proof (is_absolute_join root "workspaces" Hroot) as Habs.
  unfold fresh_bootstrap in Hd. simpl in Hd. injection Hd as <-.
  set (paths := path_join root "workspaces") in *. clearbody paths.
  destruct Hdf; simpl in *. destruct d' as [? ? provider model ? ? ?]. simpl in *. subst.
  set (d' := {| sd_provider := provider |}).
  assert (Settings_validate canonicalizes (settings_to_save None d')
            {| require_shared_paths_exist := false |} = Ok ()) as Hset.
  { unfold Settings_validate. cbn. rewrite Habs. reflexivity. }
  assert (validate_setup_bootstrap (settings_to_save None d') d' = Ok ()) as Hboot by reflexivity.
  exists (settings_to_save None d'). split_and!.
  - rewrite normalize_run by done. by apply checked_settings_run.
  - apply bootstrap_saved; try done.
  - done.
  - unfold resolve_private_workspace. simpl. by rewrite (is_absolute_join paths "main" Habs).
Qed.

(** ** Templates *)
(** Every starter template is a valid configuration: for an id the settings
    register, a provider that parses and a model that is not blank, it passes
    [OrchestratorConfig::validate], every transition names a step of its workflow,
    every review has both targets, every agent runs the given provider and model,
    and only the selector may orchestrate; with another provider there is none. *)
Theorem templates_are_valid (id provider model : string) (t : WorkflowTemplate)
    (settings : Settings) (Hid : is_ident id = true) (Hmodel : is_empty (trim model) = false)
    (Hreg : map_contains_key id (s_orchestrators settings) = true) :
  match initial_orchestrator_config id provider model t with
  | Some c =>
      OrchestratorConfig_validate c settings id = Ok ()
      ∧ forallb (λ w, transitions_resolve w && reviews_complete w) (oc_workflows c) = true
      ∧ (∀ k a, (k, a) ∈ oc_agents c → ConfigProviderKind_parse provider = Ok (ag_provider a)
           ∧ ag_model a = model ∧ ag_can_orchestrate_workflows a = String.eqb k "default")
  | None => is_ok (ConfigProviderKind_parse provider) = false
  end.
Proof.
  destruct (initial_orchestrator_config id provider model t) as [c|] eqn:Hc.
  - pose proof (validate_setup_complete c (initial_setup_wf _ _ _ _ _ Hc)) as Hsetup.
    assert (OrchestratorId_parse id = Ok id) as Hparse by by apply parse_id_Ok.
    unfold OrchestratorConfig_validate. rewrite Hparse, Hsetup, Hreg.
    revert Hc. unfold initial_orchestrator_config.
    destruct (ConfigProviderKind_parse provider) as [p|]; simpl; [|done].
    destruct t; intros [= <-]; simpl; rewrite String.eqb_refl, ?Hmodel; (split; [|split]);
      try (by vm_compute); intros k a Hka;
      repeat (apply elem_of_cons in Hka as [[= -> ->]|Hka]; [done|]); by apply elem_of_nil in Hka.
  - revert Hc. unfold initial_orchestrator_config.
    destruct (ConfigProviderKind_parse provider); [by destruct t|done].
Qed.

(** Two ways to a draft that cannot be saved.  Toggling the type of the only
    step of a new orchestrator is accepted, but keeps [artifact] as its output
    priority, which a review does not produce: [normalize_for_save] then fails.
    Removing an agent a step uses is refused, but the agent is gone all the same
    and [normalize_for_save] fails too. *)
Theorem edits_that_block_saving (canonicalizes : string → bool) :
  let save ops := match fresh_bootstrap "/srv" with
    | Some d =>
        let '(d, rs) := run_session ops d in
        Some (rs, (normalize_for_save canonicalizes None (World d no_faults)).2)
    | None => None
    end in
  save [ToggleStepType "main" "default" "step_1"]
    = Some ([Ok ()], Err (Rejected ("orchestrator validation failed: workflow `default` step "
        +:+ "`step_1` `final_output_priority` key `artifact` must exist in `outputs`")))
  ∧ save [AddAgent "main" "helper"; SetStepAgent "main" "default" "step_1" "helper";
          RemoveAgent "main" "helper"]
    = let unknown := Err (Rejected ("orchestrator validation failed: workflow `default` step "
                       +:+ "`step_1` references unknown agent `helper`")) in
      Some ([Ok (); Ok (); unknown],
            Err (Rejected ("orchestrator validation failed: workflow `default` step "
              +:+ "`step_1` references unknown agent `helper`"))).
Proof. split; vm_compute; reflexivity. Qed.

Lemma navigation_stays_in_bounds_witness :
  ∃ s, nav_screen s = Workspaces ∧ (nav_selected s < 1)%nat.
Proof.
  exists (setup_transition NavState_root Enter 5).1. split; [reflexivity|].
  refine (proj1 (proj2 (navigation_stays_in_bounds 5
    (setup_transition NavState_root Enter 5).1 _ _))); [lia|].
  apply nav_key, nav_start.
Defined.
Lemma scripted_setup_saves_witness :
  ∃ keys d, parse_scripted_setup_keys "down,down,enter,t,esc,s" = Ok keys
    ∧ fresh_bootstrap "/srv" = Some d ∧ sd_provider (run_setup_scripted d keys).1 = "openai"
    ∧ ∃ settings, saved_wf (λ _, false) (run_setup_scripted d keys).1 settings.
Proof.
  eexists. eexists. split; [reflexivity|]. split; [reflexivity|]. split; [reflexivity|].
  edestruct (scripted_setup_saves (λ _, false) "/srv") as (settings & _ & H & _);
    [reflexivity|reflexivity| |exists settings; exact H]. reflexivity.
Defined.
Lemma templates_are_valid_witness :
  match initial_orchestrator_config "main" "openai" "gpt-5.3-codex" Engineering with
  | Some c => OrchestratorConfig_validate c (fresh_settings demo_draft) "main" = Ok ()
  | None => False
  end.
Proof.
  pose proof (templates_are_valid "main" "openai" "gpt-5.3-codex" Engineering
    (fresh_settings demo_draft) eq_refl eq_refl eq_refl) as H.
  exact (proj1 H).
Defined.
