(* ===== verification/OrchestratorError.v ===== *)
(** * Run states and orchestration errors

    The run state machine of [src/src/orchestration/run_store.rs] and the error
    type of [src/src/orchestration/error.rs] with its [Display]. *)
From S2P Require Import Prelude RustStr Io Config.

Local Open Scope string_scope.
Local Open Scope list_scope.

Inductive RunState := Queued | Running | Waiting | Succeeded | Failed | Canceled.
#[export] Instance RunState_eq_dec : EqDecision RunState.
Proof. solve_decision. Defined.

Definition can_transition_to (self next : RunState) : bool :=
  match self, next with
  | Queued, Running | Queued, Failed | Queued, Canceled
  | Running, Waiting | Running, Succeeded | Running, Failed | Running, Canceled
  | Waiting, Running | Waiting, Failed | Waiting, Canceled => true
  | _, _ => false
  end.
Definition is_terminal (self : RunState) : bool :=
  match self with Succeeded | Failed | Canceled => true | _ => false end.
Definition RunState_display (self : RunState) : string :=
  match self with
  | Queued => "queued" | Running => "running" | Waiting => "waiting"
  | Succeeded => "succeeded" | Failed => "failed" | Canceled => "canceled"
  end.

Inductive OrchestratorError : Type :=
  | MissingChannelProfileId (message_id : string)
  | UnknownChannelProfileId (channel_profile_id : string)
  | SelectorJson (reason : string)
  | SelectorValidation (reason : string)
  | UnknownFunction (function_id : string)
  | MissingFunctionArg (arg : string)
  | UnknownFunctionArg (function_id arg : string)
  | InvalidFunctionArgType (function_id arg expected : string)
  | UnknownRunId (run_id : string)
  | InvalidRunTransition (from to : RunState)
  | WorkflowEnvelope (reason : string)
  | InvalidReviewDecision (decision : string)
  | StepPromptRender (step_id reason : string)
  | StepExecution (step_id reason : string)
  | MaxIterationsExceeded (max_total_iterations : Z)
  | RunTimeout (run_timeout_seconds : Z)
  | StepTimeout (step_timeout_seconds : Z)
  | WorkspaceAccessDenied (orchestrator_id path : string)
  | WorkspacePathValidation (path reason : string)
  | OutputPathValidation (step_id template reason : string)
  | OutputContractValidation (step_id reason : string)
  | TransitionValidation (step_id reason : string)
  | ScheduledExecutionCompletion (job_id execution_id reason : string)
  | ConfigErr (reason : string)
  | IoErr (path : string) (source : io_error)
  | JsonErr (path source : string).

Definition from_config_error (value : ConfigError) : OrchestratorError :=
  ConfigErr (ConfigError_display value).

Definition error_display (e : OrchestratorError) : string :=
  match e with
  | MissingChannelProfileId message_id =>
      "channel message `" +:+ message_id +:+ "` is missing `channelProfileId`"
  | UnknownChannelProfileId id => "unknown channel profile `" +:+ id +:+ "`"
  | SelectorJson reason => "selector result is not valid json: " +:+ reason
  | SelectorValidation reason => "selector validation failed: " +:+ reason
  | UnknownFunction function_id => "unknown function id `" +:+ function_id +:+ "`"
  | MissingFunctionArg arg => "missing required function argument `" +:+ arg +:+ "`"
  | UnknownFunctionArg function_id arg =>
      "unknown function argument `" +:+ arg +:+ "` for `" +:+ function_id +:+ "`"
  | InvalidFunctionArgType function_id arg expected =>
      "invalid argument type for `" +:+ function_id +:+ "." +:+ arg +:+ "`; expected "
      +:+ expected
  | UnknownRunId run_id => "workflow run `" +:+ run_id +:+ "` not found"
  | InvalidRunTransition from to =>
      "workflow run state transition `" +:+ RunState_display from +:+ "` -> `"
      +:+ RunState_display to +:+ "` is invalid"
  | WorkflowEnvelope reason => "workflow result envelope parse failed: " +:+ reason
  | InvalidReviewDecision decision =>
      "workflow review decision must be `approve` or `reject`, got `" +:+ decision +:+ "`"
  | StepPromptRender step_id reason =>
      "step prompt render failed for step `" +:+ step_id +:+ "`: " +:+ reason
  | StepExecution step_id reason =>
      "step execution failed for step `" +:+ step_id +:+ "`: " +:+ reason
  | MaxIterationsExceeded n =>
      "workflow execution exceeded max total iterations (" +:+ fmt_int n +:+ ")"
  | RunTimeout n => "workflow run timed out after " +:+ fmt_int n +:+ "s"
  | StepTimeout n => "workflow step timed out after " +:+ fmt_int n +:+ "s"
  | WorkspaceAccessDenied orchestrator_id path =>
      "workspace access denied for orchestrator `" +:+ orchestrator_id +:+ "` at path `"
      +:+ path +:+ "`"
  | WorkspacePathValidation path reason =>
      "workspace path validation failed for `" +:+ path +:+ "`: " +:+ reason
  | OutputPathValidation step_id template reason =>
      "output path validation failed for step `" +:+ step_id +:+ "` template `"
      +:+ template +:+ "`: " +:+ reason
  | OutputContractValidation step_id reason =>
      "step `" +:+ step_id +:+ "` output contract validation failed: " +:+ reason
  | TransitionValidation step_id reason =>
      "step `" +:+ step_id +:+ "` transition validation failed: " +:+ reason
  | ScheduledExecutionCompletion job_id execution_id reason =>
      "scheduled execution completion failed for job `" +:+ job_id +:+ "` execution `"
      +:+ execution_id +:+ "`: " +:+ reason
  | ConfigErr reason => "config error: " +:+ reason
  | IoErr path source => "io error at " +:+ path +:+ ": " +:+ ioe_display source
  | JsonErr path source => "json error at " +:+ path +:+ ": " +:+ source
  end.

(** ** The run state machine *)
Inductive run_reaches : RunState → RunState → Prop :=
  | reaches_here s : run_reaches s s
  | reaches_step s s' s'' :
      can_transition_to s s' = true → run_reaches s' s'' → run_reaches s s''.

(** The states a run can end in are exactly the absorbing ones: a terminal
    state reaches only itself, every other state can still fail and be
    cancelled, and no state comes back to [Queued]. *)
Theorem terminal_states_absorbing (s : RunState) :
  (is_terminal s = true ↔ ∀ s', run_reaches s s' → s' = s)
  ∧ (is_terminal s = false → run_reaches s Failed ∧ run_reaches s Canceled)
  ∧ (∀ s', can_transition_to s' Queued = false).
Proof.
  split; [|split].
  - split.
    + intros Ht s' H. destruct H as [|s s1 s' Hs _]; [done|]. by destruct s, s1.
    + intros H. destruct (is_terminal s) eqn:E; [done|].
      assert (Canceled = s) as <-; [|done]. apply H.
      apply (reaches_step _ Canceled); [by destruct s|constructor].
  - intros H. split; (eapply reaches_step; [|constructor]); by destruct s.
  - by intros [].
Qed.
