(* ===== verification/WorkspaceAccess.v ===== *)
(** * Workspace access

    [src/src/orchestration/workspace_access.rs].  [fs::canonicalize] is a
    parameter: what the operating system answers for a path. *)
From S2P Require Import Prelude RustStr RustPath Io Json TypedFields Config OrchestratorFile OrchestratorError.

Local Open Scope string_scope.
Local Open Scope list_scope.

Record SharedWorkspaceAccess := { sa_root : string; sa_description : string }.
Record WorkspaceAccessContext := {
  wa_orchestrator_id : string;
  wa_private_workspace_root : string;
  wa_shared_workspaces : list (string * SharedWorkspaceAccess);
}.

Definition normalize_step (path : string) (normalized : string) (c : Component) :
    result OrchestratorError string :=
  match c with
  | RootDir => Ok (path_join normalized "/")
  | Normal v => Ok (path_join normalized v)
  | CurDir => Ok normalized
  | ParentDir =>
      ok_or (WorkspacePathValidation path "path escapes filesystem root")
        (path_parent normalized)
  end.
Definition normalize_absolute_path (path : string) : result OrchestratorError string :=
  if negb (is_absolute path) then
    Err (WorkspacePathValidation path "path must be absolute")
  else for_fold (normalize_step path) (components path) "".

Section access.
Context (canonicalize : string → result io_error string).

Definition canonicalize_absolute_path_if_exists (path : string) :
    result OrchestratorError string :=
  match canonicalize path with
  | Ok canonical => normalize_absolute_path canonical
  | Err err =>
      if decide (ioe_kind err = NotFound) then normalize_absolute_path path
      else Err (IoErr path err)
  end.

Definition resolve_workspace_access_context (settings : Settings) (orchestrator_id : string) :
    result OrchestratorError WorkspaceAccessContext :=
  private ← map_err from_config_error (resolve_private_workspace settings orchestrator_id);
  private_workspace ← canonicalize_absolute_path_if_exists private;
  orchestrator ← ok_or
    (ConfigErr ("missing orchestrator `" +:+ orchestrator_id +:+ "` in settings"))
    (map_get orchestrator_id (s_orchestrators settings));
  shared_workspaces ← for_fold (λ shared_workspaces grant,
    shared ← ok_or (ConfigErr ("orchestrator `" +:+ orchestrator_id +:+
        "` references unknown shared workspace `" +:+ grant +:+ "`"))
      (map_get grant (s_shared_workspaces settings));
    normalized ← canonicalize_absolute_path_if_exists (sw_path shared);
    Ok (map_insert grant {| sa_root := normalized; sa_description := sw_description shared |}
          shared_workspaces)) (so_shared_access orchestrator) [];
  Ok {| wa_orchestrator_id := orchestrator_id;
        wa_private_workspace_root := private_workspace;
        wa_shared_workspaces := shared_workspaces |}.

Definition path_allowed (context : WorkspaceAccessContext) (normalized : string) : bool :=
  path_starts_with normalized (wa_private_workspace_root context)
  || existsb (λ shared, path_starts_with normalized (sa_root shared.2))
       (wa_shared_workspaces context).

Definition enforce_workspace_access (context : WorkspaceAccessContext)
    (requested_paths : list string) : result OrchestratorError () :=
  for_each (λ requested,
    normalized ← canonicalize_absolute_path_if_exists requested;
    reject_if (negb (path_allowed context normalized))
      (WorkspaceAccessDenied (wa_orchestrator_id context) normalized)) requested_paths.

Definition collect_orchestrator_requested_paths (context : WorkspaceAccessContext) :
    result OrchestratorError (list string) := Ok [wa_private_workspace_root context].

Definition verify_orchestrator_workspace_access (settings : Settings)
    (orchestrator_id : string) : result OrchestratorError WorkspaceAccessContext :=
  workspace_context ← resolve_workspace_access_context settings orchestrator_id;
  requested_paths ← collect_orchestrator_requested_paths workspace_context;
  enforce_workspace_access workspace_context requested_paths ;;
  Ok workspace_context.
End access.

(** ** Lexical normalisation *)

(** The names a component list resolves to, [..] popping a name; [None] when it
    pops above the root. *)
Fixpoint lex_resolve (names : list string) (cs : list Component) : option (list string) :=
  match cs with
  | [] => Some names
  | Normal n :: cs => lex_resolve (names ++ [n]) cs
  | (CurDir | RootDir) :: cs => lex_resolve names cs
  | ParentDir :: cs =>
      match reverse names with [] => None | _ :: rest => lex_resolve (reverse rest) cs end
  end.

Lemma lex_resolve_normal names ns : lex_resolve names (Normal <$> ns) = Some (names ++ ns).
Proof.
  revert names. induction ns as [|n ns IH]; intros names; simpl; [by rewrite app_nil_r|].
  by rewrite IH, <- (assoc (++)).
Qed.

Lemma normalize_fold path cs names :
  Forall (λ n, plain_name n = true) names →
  (∀ n, Normal n ∈ cs → plain_name n = true) → RootDir ∉ cs →
  for_fold (normalize_step path) cs (abs_path names)
  = match lex_resolve names cs with
    | Some ns => Ok (abs_path ns)
    | None => Err (WorkspacePathValidation path "path escapes filesystem root")
    end.
Proof.
  revert names. induction cs as [|c cs IH]; intros names Hn Hc Hr; [done|].
  simpl. destruct c as [| | |n]; simpl.
  - destruct Hr. left.
  - apply IH; set_solver.
  - destruct names as [|n names _] using rev_ind; [done|].
    rewrite path_parent_abs by done. rewrite reverse_app. simpl. rewrite reverse_involutive.
    apply IH; [by apply Forall_app in Hn as [? _]|set_solver..].
  - rewrite <- abs_path_snoc. apply IH; [|set_solver..].
    apply Forall_app. split; [done|]. apply Forall_singleton, Hc. left.
Qed.

Lemma lex_resolve_plain names cs ns :
  Forall (λ n, plain_name n = true) names →
  (∀ n, Normal n ∈ cs → plain_name n = true) →
  lex_resolve names cs = Some ns → Forall (λ n, plain_name n = true) ns.
Proof.
  revert names. induction cs as [|c cs IH]; intros names Hn Hc; simpl; [by intros [= <-]|].
  destruct c as [| | |n]; [apply IH; set_solver..| |].
  - destruct names as [|n names _] using rev_ind; [done|].
    rewrite reverse_app. simpl. rewrite reverse_involutive.
    apply IH; [by apply Forall_app in Hn as [? _]|set_solver].
  - apply IH; [|set_solver]. apply Forall_app. split; [done|]. apply Forall_singleton, Hc. left.
Qed.

Lemma components_absolute_split p : is_absolute p = true →
  ∃ cs, components p = RootDir :: cs ∧ RootDir ∉ cs.
Proof.
  intros Hp. unfold components. rewrite Hp. eexists. split; [reflexivity|].
  intros (piece & _ & H)%list_elem_of_omap. unfold piece_component in H. by repeat case_match.
Qed.

(** [normalize_absolute_path] as a function of the components. *)
Lemma normalize_absolute_path_eq path : is_absolute path = true →
  ∃ cs, components path = RootDir :: cs ∧
  normalize_absolute_path path
  = match lex_resolve [] cs with
    | Some ns => Ok (abs_path ns)
    | None => Err (WorkspacePathValidation path "path escapes filesystem root")
    end.
Proof.
  intros Hp. destruct (components_absolute_split path Hp) as (cs & Hcs & Hroot).
  exists cs. split; [done|]. unfold normalize_absolute_path. rewrite Hp, Hcs. simpl.
  apply (normalize_fold path cs []); [done| |done].
  intros n Hn. apply (components_plain_names path). rewrite Hcs. by right.
Qed.

Lemma normalize_absolute_path_Ok path n :
  normalize_absolute_path path = Ok n →
  is_absolute path = true ∧ ∃ ns, Forall (λ n, plain_name n = true) ns ∧ n = abs_path ns
    ∧ lex_resolve [] (components path) = Some ns.
Proof.
  destruct (is_absolute path) eqn:Hp; [|by unfold normalize_absolute_path; rewrite Hp].
  destruct (normalize_absolute_path_eq path Hp) as (cs & Hcs & ->).
  destruct (lex_resolve [] cs) as [ns|] eqn:E; [|done]. intros [= <-].
  split; [done|]. exists ns. rewrite Hcs. split; [|by split].
  eapply lex_resolve_plain; [by constructor| |exact E].
  intros n Hn. apply (components_plain_names path). rewrite Hcs. by right.
Qed.

Lemma normalize_abs_path ns : Forall (λ n, plain_name n = true) ns →
  normalize_absolute_path (abs_path ns) = Ok (abs_path ns).
Proof.
  intros Hns. destruct (normalize_absolute_path_eq _ (abs_path_absolute ns)) as (cs & Hcs & ->).
  rewrite abs_path_components in Hcs by done. injection Hcs as <-.
  by rewrite lex_resolve_normal.
Qed.

(** Normalising a path removes every [.] and [..]: the result is the root
    followed by ordinary names, exactly the names the components of the path
    resolve to; it fails precisely for a relative path or one that climbs above
    the root, and normalising again changes nothing. *)
Theorem normalize_absolute_path_lexical (path : string) :
  match normalize_absolute_path path with
  | Ok n => is_absolute path = true
      ∧ (∃ ns, lex_resolve [] (components path) = Some ns
          ∧ components n = RootDir :: (Normal <$> ns))
      ∧ normalize_absolute_path n = Ok n
  | Err _ => is_absolute path = false ∨ lex_resolve [] (components path) = None
  end.
Proof.
  destruct (normalize_absolute_path path) as [n|e] eqn:E.
  - apply normalize_absolute_path_Ok in E as (Hp & ns & Hns & -> & Hlex).
    split; [done|]. split; [exists ns; split; [done|by apply abs_path_components]|].
    by apply normalize_abs_path.
  - destruct (is_absolute path) eqn:Hp; [right|by left].
    destruct (normalize_absolute_path_eq path Hp) as (cs & Hcs & Heq). rewrite Heq in E.
    rewrite Hcs. simpl. by destruct (lex_resolve [] cs).
Qed.

(** What is inside a workspace: its names extend the names of the root. *)
Definition inside (root path : string) : Prop :=
  ∃ ns, components path = components root ++ ns.

Lemma path_starts_with_inside path root : path_starts_with path root = true ↔ inside root path.
Proof. unfold path_starts_with. apply components_prefix_spec. Qed.

Lemma path_allowed_inside context normalized :
  path_allowed context normalized = true ↔
  inside (wa_private_workspace_root context) normalized
  ∨ ∃ name shared, (name, shared) ∈ wa_shared_workspaces context
      ∧ inside (sa_root shared) normalized.
Proof.
  unfold path_allowed. rewrite orb_true_iff, path_starts_with_inside, existsb_exists. f_equiv.
  split.
  - intros ([name shared] & Hin%list_elem_of_In & H%path_starts_with_inside). eauto.
  - intros (name & shared & Hin%list_elem_of_In & H). exists (name, shared).
    split; [done|]. by apply path_starts_with_inside.
Qed.

