(* ===== verification/OutputContract.v ===== *)
(** * Output contracts

    [src/src/orchestration/output_contract.rs]: extracting a step's outputs from
    the provider's answer or from files, checking them against the declared
    contract, choosing the next step, and resolving output file paths.  JSON
    parsing and printing are parameters. *)
From S2P Require Import Prelude RustStr RustPath Io Json TypedFields Config OrchestratorFile OrchestratorError WorkspaceAccess.
From Stdlib Require Import Ascii.

Local Open Scope string_scope.
Local Open Scope list_scope.

Definition RESERVED_ATTEMPT_ROOT_OUTPUT_TARGETS : list string :=
  ["prompt.md"; "context.md"; "provider_invocation.json"].

Definition open_tag : string := "[workflow_result]".
Definition close_tag : string := "[/workflow_result]".

(** [s.find(p)] and the slices [s[i..]], [s[i..j]]; an out-of-range slice
    panics. *)
Definition find (p s : string) : option nat := String.length ∘ fst <$> cut p s.
Definition slice_from (i : nat) (s : string) : option string :=
  if decide (i ≤ String.length s)%nat then Some (String.substring i (String.length s - i)%nat s) else None.
Definition slice (i j : nat) (s : string) : option string :=
  if decide (i ≤ j ∧ j ≤ String.length s)%nat then Some (String.substring i (j - i)%nat s) else None.

Definition double_quote : ascii := ascii_of_nat 34.

(** ** Review decisions *)
Fixpoint normalize_review_decision_fuel (fuel : nat) (raw : string) : option bool :=
  let trimmed := trim_matches "'" (trim_matches double_quote (trim raw)) in
  let lowered := to_ascii_lowercase trimmed in
  if String.eqb lowered "approve" then Some true
  else if String.eqb lowered "reject" then Some false
  else match fuel with
  | O => None
  | S fuel =>
      let after (delimiter : string) :=
        '(key, value) ← split_once delimiter trimmed;
        if eq_ignore_ascii_case (trim key) "decision" then Some value else None in
      match after ":" with
      | Some value => normalize_review_decision_fuel fuel value
      | None =>
          match after "=" with
          | Some value => normalize_review_decision_fuel fuel value
          | None => None
          end
      end
  end.
(** [Some true] is ["approve"], [Some false] is ["reject"]; each recursive call
    is on a shorter text. *)
Definition normalize_review_decision (raw : string) : option bool :=
  normalize_review_decision_fuel (String.length raw) raw.

Definition parse_review_decision (outputs : JMap) : result OrchestratorError bool :=
  let decision := from_option trim "" (map_get "decision" outputs ≫= as_str) in
  match normalize_review_decision decision with
  | Some b => Ok b
  | None => Err (InvalidReviewDecision decision)
  end.

(** ** The contract *)
Definition parse_output_contract (step : WorkflowStepConfig) : list OutputKey := ws_outputs step.

Definition required_issue (outputs : JMap) (key : OutputKey) : option string :=
  match map_get (ok_name key) outputs with
  | None => Some (ok_name key +:+ "=missing")
  | Some (VString text) =>
      if is_empty (trim text) then Some (ok_name key +:+ "=empty") else None
  | Some _ => None
  end.

Definition validate_outputs_contract (step : WorkflowStepConfig) (outputs : JMap) :
    result OrchestratorError () :=
  let contract := parse_output_contract step in
  let required_issues :=
    omap (required_issue outputs) (filter (λ key, ok_required key = true) contract) in
  if is_nil contract then Ok () else
  if is_nil required_issues then Ok () else
  let required_issues := merge_sort String.le required_issues in
  let reason_prefix :=
    if forallb (ends_with "=missing") required_issues then "missing required output keys"
    else "invalid required output keys" in
  Err (OutputContractValidation (ws_id step)
    (reason_prefix +:+ ": " +:+ join ", " required_issues)).

Definition validation_entry (entry : string) : option (string * string) :=
  '(key, detail) ← split_once "=" (trim entry);
  let key := trim key in let detail := trim detail in
  if is_empty key || is_empty detail then None else Some (key, detail).

Definition output_validation_errors_for (error : OrchestratorError) : list (string * string) :=
  match error with
  | OutputContractValidation _ reason =>
      let details :=
        match strip_prefix "missing required output keys:" (trim reason) with
        | Some details => details
        | None =>
            from_option id reason (strip_prefix "invalid required output keys:" (trim reason))
        end in
      map_from_iter (omap validation_entry (split_on "," details))
  | _ => []
  end.

(** ** Transitions *)
Definition validate_transition_target (workflow : WorkflowConfig) (step : WorkflowStepConfig)
    (target : option string) (reason : string) : result OrchestratorError (option string) :=
  match target with
  | None => Ok None
  | Some target =>
      if existsb (λ candidate, String.eqb (ws_id candidate) target) (wf_steps workflow)
      then Ok (Some target)
      else Err (TransitionValidation (ws_id step)
        (reason +:+ " targets unknown step `" +:+ target +:+ "`"))
  end.

Fixpoint next_step_after (step_id : string) (steps : list WorkflowStepConfig) : option string :=
  match steps with
  | [] => None
  | s :: steps =>
      if String.eqb (ws_id s) step_id then ws_id <$> head steps else next_step_after step_id steps
  end.
Definition next_step_in_workflow (workflow : WorkflowConfig) (step_id : string) : option string :=
  next_step_after step_id (wf_steps workflow).

Record StepEvaluation := {
  se_outputs : JMap;
  se_output_files : list (string * string);
  se_next_step_id : option string;
}.

(** The part of [evaluate_step_result] after the outputs are known. *)
Definition conclude_step (workflow : WorkflowConfig) (step : WorkflowStepConfig)
    (parsed : JMap) : result OrchestratorError StepEvaluation :=
  validate_outputs_contract step parsed ;;
  next ← match ws_step_type step with
    | AgentReview =>
        approve ← parse_review_decision parsed;
        let next := if (approve : bool) then ws_on_approve step else ws_on_reject step in
        match next with
        | None => Err (TransitionValidation (ws_id step)
            (if approve then "decision `approve` requires `on_approve` transition target"
             else "decision `reject` requires `on_reject` transition target"))
        | Some _ => validate_transition_target workflow step next "review transition"
        end
    | AgentTask =>
        let next := match ws_next step with
                    | Some n => Some n
                    | None => next_step_in_workflow workflow (ws_id step)
                    end in
        validate_transition_target workflow step next "step transition"
    end;
  Ok {| se_outputs := parsed; se_output_files := []; se_next_step_id := next |}.

(** ** Output paths *)
Definition interpolate_output_template (template run_id step_id : string) (attempt : Z) : string :=
  replace "{{workflow.attempt}}" (fmt_int attempt)
    (replace "{{workflow.step_id}}" step_id
      (replace "{{workflow.run_id}}" run_id template)).

Definition is_reserved_attempt_root_output_target (relative : string) : bool :=
  if negb (Nat.eqb (length (components relative)) 1) then false
  else match file_name relative with
       | Some file_name => existsb (String.eqb file_name) RESERVED_ATTEMPT_ROOT_OUTPUT_TARGETS
       | None => false
       end.

Definition validate_relative_output_template (interpolated step_id template : string) :
    result OrchestratorError string :=
  let reject reason := OutputPathValidation step_id template reason in
  if is_absolute interpolated then Err (reject "output path template must be relative") else
  has_normal ← for_fold (λ has_normal component,
    match component with
    | Normal _ => Ok true
    | CurDir | ParentDir =>
        Err (reject "non-canonical relative segments (`.` or `..`) are not allowed")
    | RootDir => Err (reject "absolute-style segments are not allowed")
    end) (components interpolated) false;
  if negb has_normal then Err (reject "output template must resolve to a file path")
  else Ok interpolated.

Definition attempt_root (state_root run_id step_id : string) (attempt : Z) : string :=
  path_join (path_join (path_join (path_join (path_join (path_join state_root
    "workflows/runs") run_id) "steps") step_id) "attempts") (fmt_int attempt).

Definition resolve_output_path (output_root run_id : string) (step : WorkflowStepConfig)
    (attempt : Z) (template : string) : result OrchestratorError string :=
  let interpolated := interpolate_output_template template run_id (ws_id step) attempt in
  relative ← validate_relative_output_template interpolated (ws_id step) template;
  reject_if (is_reserved_attempt_root_output_target relative)
    (OutputPathValidation (ws_id step) template
      ("output template targets reserved attempt artifact `" +:+ relative +:+ "`")) ;;
  resolved ← normalize_absolute_path (path_join output_root relative);
  reject_if (negb (path_starts_with resolved output_root))
    (OutputPathValidation (ws_id step) template
      ("resolved path `" +:+ resolved +:+ "` escapes output root `" +:+ output_root +:+ "`")) ;;
  Ok resolved.

Definition resolve_step_output_paths (state_root run_id : string) (step : WorkflowStepConfig)
    (attempt : Z) : result OrchestratorError (list (string * string)) :=
  output_root ← normalize_absolute_path (attempt_root state_root run_id (ws_id step) attempt);
  for_fold (λ output_paths '(key, template),
    resolved ← resolve_output_path output_root run_id step attempt template;
    Ok (map_insert key resolved output_paths)) (ws_output_files step) [].

(** ** [str::parse::<f64>().is_ok()]: Rust's grammar of float literals *)
Fixpoint drop_digits (s : string) : string :=
  match s with String a s' => if is_ascii_digit a then drop_digits s' else s | "" => "" end.
Definition all_digits1 (s : string) : bool := negb (is_empty s) && str_forall is_ascii_digit s.
Definition unsign (s : string) : string :=
  match s with String "+" s' | String "-" s' => s' | _ => s end.
Definition f64_exponent (s : string) : bool :=
  match s with
  | "" => true
  | String "e" s' | String "E" s' => all_digits1 (unsign s')
  | _ => false
  end.
Definition parses_as_f64 (s : string) : bool :=
  let s := unsign s in
  let lowered := to_ascii_lowercase s in
  if String.eqb lowered "inf" || String.eqb lowered "infinity" || String.eqb lowered "nan"
  then true else
  let rest := drop_digits s in
  let has_int := negb (String.eqb rest s) in
  match rest with
  | String "." frac =>
      let rest' := drop_digits frac in
      (has_int || negb (String.eqb rest' frac)) && f64_exponent rest'
  | _ => has_int && f64_exponent rest
  end.

Section evaluation.
(** [serde_json::from_str::<Value>] and [to_vec_pretty]. *)
Context (from_str : string → result string Value).
Context (to_vec_pretty : Value → string).

(** [None] is a panic on an out-of-range slice. *)
Definition parse_workflow_result_envelope (output : string) :
    option (result OrchestratorError JMap) :=
  match find open_tag output, find close_tag output with
  | None, _ => Some (Err (WorkflowEnvelope "missing [workflow_result] tag"))
  | Some _, None => Some (Err (WorkflowEnvelope "missing [/workflow_result] tag"))
  | Some start, Some end_ =>
      after_open ← slice_from (start + String.length open_tag)%nat output;
      if contains open_tag after_open then
        Some (Err (WorkflowEnvelope "multiple [workflow_result] tags are not allowed")) else
      after_close ← slice_from (end_ + String.length close_tag)%nat output;
      if contains close_tag after_close then
        Some (Err (WorkflowEnvelope "multiple [/workflow_result] tags are not allowed")) else
      if decide (end_ ≤ start)%nat then
        Some (Err (WorkflowEnvelope "invalid workflow_result tag ordering")) else
      json_str ← slice (start + String.length open_tag)%nat end_ output;
      Some (value ← map_err (λ e, WorkflowEnvelope ("invalid json: " +:+ e))
              (from_str (trim json_str));
            ok_or (WorkflowEnvelope "workflow_result payload must be a JSON object")
              (as_object value))
  end.

Definition file_value (raw : string) : Value :=
  let trimmed := trim raw in
  if starts_with "{" trimmed || starts_with "[" trimmed || starts_with (String double_quote "") trimmed
     || String.eqb trimmed "true" || String.eqb trimmed "false" || String.eqb trimmed "null"
     || parses_as_f64 trimmed
  then match from_str trimmed with Ok v => v | Err _ => VString raw end
  else VString raw.

Fixpoint load_outputs_loop (step : WorkflowStepConfig) (output_paths : list (string * string))
    (contract : list OutputKey) (outputs : JMap) (missing_required : list string) :
    IO disk OrchestratorError (JMap * list string) :=
  match contract with
  | [] => mret (outputs, missing_required)
  | key :: contract =>
      match map_get (ok_name key) output_paths with
      | None => throw (OutputContractValidation (ws_id step)
          ("missing output_files mapping for key `" +:+ ok_name key +:+ "`"))
      | Some path =>
          d ← get;
          if disk_is_file path d then
            raw ← io_map_err (IoErr path) (sys (disk_read path));
            load_outputs_loop step output_paths contract
              (map_insert (ok_name key) (file_value raw) outputs) missing_required
          else
            load_outputs_loop step output_paths contract outputs
              (if ok_required key then missing_required ++ [ok_name key +:+ "=file_not_found"]
               else missing_required)
      end
  end.

Definition load_outputs_from_files (step : WorkflowStepConfig)
    (output_paths : list (string * string)) : IO disk OrchestratorError JMap :=
  let contract := parse_output_contract step in
  if is_nil contract then mret [] else
  '(outputs, missing_required) ← load_outputs_loop step output_paths contract [] [];
  if is_nil missing_required then mret outputs
  else throw (OutputContractValidation (ws_id step)
    ("missing required output keys: " +:+ join ", " (merge_sort String.le missing_required))).

Definition evaluate_step_result (workflow : WorkflowConfig) (step : WorkflowStepConfig)
    (raw_output : string) (output_paths : list (string * string)) :
    IO disk OrchestratorError (option StepEvaluation) :=
  parsed ← match ws_prompt_type step with
    | WorkflowResultEnvelope =>
        match parse_workflow_result_envelope raw_output with
        | Some r => Some <$> lift r
        | None => mret None
        end
    | FileOutput => Some <$> load_outputs_from_files step output_paths
    end;
  match parsed with
  | None => mret None
  | Some parsed => Some <$> lift (conclude_step workflow step parsed)
  end.

Fixpoint materialize_loop (step : WorkflowStepConfig) (outputs : JMap)
    (output_paths : list (string * string)) (contract : list OutputKey)
    (path_by_key : list (string * string)) :
    IO disk OrchestratorError (list (string * string)) :=
  match contract with
  | [] => mret path_by_key
  | key :: contract =>
      match map_get (ok_name key) outputs with
      | None => materialize_loop step outputs output_paths contract path_by_key
      | Some value =>
          match map_get (ok_name key) output_paths with
          | None => throw (OutputContractValidation (ws_id step)
              ("missing output_files mapping for key `" +:+ ok_name key +:+ "`"))
          | Some path =>
              (if decide (ws_prompt_type step = WorkflowResultEnvelope) then
                match path_parent path with
                | Some parent => io_map_err (IoErr parent) (sys (create_dir_all parent))
                | None => mret ()
                end ;;
                let content := match as_str value with
                               | Some text => text
                               | None => to_vec_pretty value
                               end in
                io_map_err (IoErr path) (sys (disk_write path content))
              else mret ()) ;;
              materialize_loop step outputs output_paths contract
                (map_insert (ok_name key) path path_by_key)
          end
      end
  end.

Definition materialize_output_files (step : WorkflowStepConfig) (outputs : JMap)
    (output_paths : list (string * string)) :
    IO disk OrchestratorError (list (string * string)) :=
  if is_nil output_paths then mret [] else
  materialize_loop step outputs output_paths (parse_output_contract step) [].
End evaluation.
