(* ===== verification/OutputGuarantees.v ===== *)
(** * Guarantees of the output contract

    Theorems about [OutputContract]: where output files can be, what the envelope
    parser accepts, how contract violations are reported, where a step can go. *)
From S2P Require Import Prelude RustStr RustPath Io Json TypedFields Config OrchestratorFile OrchestratorError WorkspaceAccess OutputContract.
From Stdlib Require Import Ascii.

Local Open Scope string_scope.
Local Open Scope list_scope.

(** ** Output paths *)
Lemma has_normal_fold {E} (reject : string → E) cs b r :
  for_fold (λ (has_normal : bool) component,
    match component with
    | Normal _ => Ok true
    | CurDir | ParentDir => Err (reject "non-canonical relative segments (`.` or `..`) are not allowed")
    | RootDir => Err (reject "absolute-style segments are not allowed")
    end) cs b = Ok r →
  ∃ names, cs = Normal <$> names ∧ r = (b || negb (is_nil names)).
Proof.
  revert b. induction cs as [|c cs IH]; intros b; simpl.
  { intros [= <-]. exists []. split; [done|]. by rewrite orb_false_r. }
  destruct c as [| | |n]; simpl; try done. intros (names & -> & ->)%IH. exists (n :: names).
  split; [done|]. simpl. by rewrite orb_true_r.
Qed.

Lemma validate_relative_output_template_Ok interpolated step_id template relative :
  validate_relative_output_template interpolated step_id template = Ok relative →
  relative = interpolated ∧ is_absolute relative = false
  ∧ ∃ names, components relative = Normal <$> names ∧ names ≠ [].
Proof.
  unfold validate_relative_output_template. destruct (is_absolute interpolated) eqn:Ha; [done|].
  intros (b & Hb & H)%bind_Ok. apply has_normal_fold in Hb as (names & Hc & ->).
  destruct names as [|n names]; [done|]. injection H as <-.
  split; [done|]. split; [done|]. by exists (n :: names).
Qed.

Lemma normal_components_no_dot p names :
  components p = Normal <$> names → ∀ xs, split_on "/" p ≠ "." :: xs.
Proof.
  intros Hc xs Hs. unfold components in Hc. rewrite Hs in Hc.
  destruct (is_absolute p); by destruct names.
Qed.

Lemma resolve_output_path_Ok root_names run_id step attempt template path :
  Forall (λ n, plain_name n = true) root_names →
  resolve_output_path (abs_path root_names) run_id step attempt template = Ok path →
  ∃ names, names ≠ [] ∧ components path = RootDir :: (Normal <$> root_names ++ names)
    ∧ ∀ r, r ∈ RESERVED_ATTEMPT_ROOT_OUTPUT_TARGETS → names ≠ [r].
Proof.
  intros Hroot. unfold resolve_output_path.
  intros (relative & Hrel & H)%bind_Ok.
  apply validate_relative_output_template_Ok in Hrel as (Hi & Hrel & names & Hc & Hne).
  apply seq_Ok in H as [Hres H]. apply bind_Ok in H as (resolved & Hn & H).
  apply seq_Ok in H as [_ [= <-]].
  exists names. split; [done|]. split.
  - apply normalize_absolute_path_Ok in Hn as (_ & ns & Hns & -> & Hlex).
    rewrite components_join, abs_path_components, Hc in Hlex; try done.
    + simpl in Hlex. rewrite <- fmap_app, lex_resolve_normal in Hlex. injection Hlex as <-.
      by apply abs_path_components.
    + apply abs_path_absolute.
    + by eapply normal_components_no_dot.
  - intros r Hr ->. apply reject_if_Ok in Hres.
    unfold is_reserved_attempt_root_output_target, file_name in Hres. rewrite Hc in Hres.
    cbn -[existsb RESERVED_ATTEMPT_ROOT_OUTPUT_TARGETS] in Hres.
    rewrite <- not_true_iff_false, existsb_exists in Hres. apply Hres.
    exists r. split; [by apply list_elem_of_In|apply String.eqb_refl].
Qed.

Lemma resolve_fold_spec {E} (f : string → result E string) xs acc paths :
  for_fold (λ output_paths '(key, template),
    resolved ← f template; Ok (map_insert key resolved output_paths)) xs acc = Ok paths →
  (∀ key : string, key ∈ map_keys paths ↔ key ∈ map_keys xs ∨ key ∈ map_keys acc)
  ∧ ∀ key path, (key, path) ∈ paths →
      (key, path) ∈ acc ∨ ∃ template, (key, template) ∈ xs ∧ f template = Ok path.
Proof.
  revert acc. induction xs as [|[k t] xs IH]; intros acc; simpl.
  { intros [= <-]. unfold map_keys. simpl. split; [set_solver|auto]. }
  intros (acc' & (r & Hr & [= <-])%bind_Ok & H)%bind_Ok. apply IH in H as [Hk Hp]. split.
  - intros key. rewrite Hk, map_insert_keys. unfold map_keys. simpl. set_solver.
  - intros key path [Hin|(t' & Ht' & Hf)]%Hp.
    + apply map_insert_elem in Hin as [[-> ->]|Hin]; [right; exists t; split; [left|done]|by left].
    + right. exists t'. split; [by right|done].
Qed.

(** C8: Output files stay inside the directory of their attempt: whatever
    templates the configuration declares, each declared key gets a path, the path
    is that directory extended by at least one ordinary name ([..] can not
    escape), and it is none of the prompt, context and invocation-log files. *)
Theorem resolve_step_output_paths_contained (state_root run_id : string)
    (step : WorkflowStepConfig) (attempt : Z) (paths : list (string * string))
    (H : resolve_step_output_paths state_root run_id step attempt = Ok paths) :
  ∃ root_names,
    normalize_absolute_path (attempt_root state_root run_id (ws_id step) attempt)
    = Ok (abs_path root_names)
    ∧ (∀ key, key ∈ map_keys paths ↔ key ∈ map_keys (ws_output_files step))
    ∧ ∀ key path, (key, path) ∈ paths → ∃ names, names ≠ []
        ∧ components path = RootDir :: (Normal <$> root_names ++ names)
        ∧ ∀ r, r ∈ RESERVED_ATTEMPT_ROOT_OUTPUT_TARGETS → names ≠ [r].
Proof.
  unfold resolve_step_output_paths in H. apply bind_Ok in H as (root & Hroot & H).
  pose proof Hroot as (_ & ns & Hns & -> & _)%normalize_absolute_path_Ok.
  apply resolve_fold_spec in H as [Hkeys Hpaths]. exists ns. split; [done|]. split.
  - intros key. rewrite Hkeys. set_solver.
  - intros key path [Hin|(t & _ & Ht)]%Hpaths; [by apply elem_of_nil in Hin|].
    by eapply resolve_output_path_Ok.
Qed.

Definition demo_step (output_files : list (string * string)) : WorkflowStepConfig := {|
  ws_id := "plan"; ws_step_type := AgentTask; ws_agent := "main"; ws_prompt := "do it";
  ws_prompt_type := WorkflowResultEnvelope; ws_workspace_mode := OrchestratorWorkspace;
  ws_next := None; ws_on_approve := None; ws_on_reject := None;
  ws_outputs := [{| ok_name := "summary"; ok_required := true |}];
  ws_output_files := output_files;
  ws_final_output_priority := [{| ok_name := "summary"; ok_required := true |}];
  ws_limits := None |}.

Lemma resolve_step_output_paths_contained_witness :
  let step := demo_step [("summary", "out/{{workflow.run_id}}.md")] in
  let path := "/state/workflows/runs/run-1/steps/plan/attempts/2/out/run-1.md" in
  resolve_step_output_paths "/state" "run-1" step 2 = Ok [("summary", path)]
  ∧ ∃ root_names, normalize_absolute_path (attempt_root "/state" "run-1" "plan" 2)
      = Ok (abs_path root_names).
Proof.
  cbv zeta.
  assert (resolve_step_output_paths "/state" "run-1"
    (demo_step [("summary", "out/{{workflow.run_id}}.md")]) 2 = Ok [("summary",
    "/state/workflows/runs/run-1/steps/plan/attempts/2/out/run-1.md")]) as H
    by (vm_compute; reflexivity).
  split; [exact H|].
  destruct (resolve_step_output_paths_contained _ _ _ _ _ H) as (ns & Hns & _).
  exists ns. exact Hns.
Defined.

(** The engine's own record of the attempt is not protected: a step that
    declares the output template [result.json] gets exactly the path at which
    the run store keeps the attempt record, so writing the output destroys the
    record (or the other way round). *)
Theorem output_template_can_target_result_record :
  ∃ step, resolve_step_output_paths "/state" "run-1" step 1
          = Ok [("summary", path_join (attempt_root "/state" "run-1" (ws_id step) 1) "result.json")]
    ∧ step_wf {| oc_id := "main"; oc_selector_agent := "main"; oc_default_workflow := "w";
                 oc_selection_max_retries := 1; oc_selector_timeout_seconds := 30;
                 oc_agents := [("main", {| ag_provider := Anthropic; ag_model := "m";
                                           ag_can_orchestrate_workflows := true |})];
                 oc_workflows := []; oc_workflow_orchestration := None |} step.
Proof.
  exists (demo_step [("summary", "result.json")]). split; [vm_compute; reflexivity|].
  constructor; simpl; try set_solver. apply NoDup_singleton.
Qed.

(** ** The result envelope *)
Lemma slice_from_app a b : slice_from (String.length a) (a +:+ b) = Some b.
Proof.
  unfold slice_from. rewrite str_length_app, decide_True by lia.
  replace (String.length a + String.length b - String.length a)%nat with (String.length b) by lia.
  pose proof (substring_middle a b "") as H. by rewrite str_app_nil_r in H; rewrite H.
Qed.
Lemma slice_app a b c :
  slice (String.length a) (String.length a + String.length b) (a +:+ b +:+ c) = Some b.
Proof.
  unfold slice. rewrite !str_length_app, decide_True by lia.
  replace (String.length a + String.length b - String.length a)%nat with (String.length b) by lia.
  by rewrite substring_middle.
Qed.

(** The tags cannot overlap: each has its only bracket in front. *)
Lemma tags_disjoint x y x2 y2 :
  x +:+ open_tag +:+ y = x2 +:+ close_tag +:+ y2 → (String.length x < String.length x2)%nat →
  ∃ body, x2 = x +:+ open_tag +:+ body ∧ y = body +:+ close_tag +:+ y2.
Proof.
  intros H Hl. apply app_eq_split in H as (z & -> & H); [|lia].
  rewrite str_length_app in Hl.
  destruct (decide (String.length open_tag ≤ String.length z)%nat) as [Hz|Hz].
  { apply app_eq_split in H as (body & -> & ->); [|done]. by exists body. }
  symmetry in H. apply app_eq_split in H as (w & Hw & H); [|lia]. exfalso.
  destruct z as [|a z]; [simpl in Hl; lia|].
  destruct w as [|b w].
  { apply Hz. by rewrite Hw, str_app_nil_r. }
  assert (b = "["%char) as ->.
  { unfold close_tag in H. simpl in H. by injection H as <- _. }
  unfold open_tag in Hw. simpl in Hw. injection Hw as <- Hw.
  apply (f_equal (str_forall (λ c, negb (Ascii.eqb "[" c)))) in Hw.
  rewrite str_forall_app in Hw. cbn [str_forall] in Hw.
  rewrite Ascii.eqb_refl in Hw. simpl in Hw. rewrite andb_false_r in Hw. done.
Qed.

Lemma find_cut p s : find p s = String.length ∘ fst <$> cut p s.
Proof. done. Qed.

(** The envelope parser never slices out of range, whatever the provider
    answers, and it succeeds exactly when the answer holds one opening and one
    closing tag, in this order, around text that parses as a JSON object: that
    object is the result. *)
Theorem parse_workflow_result_envelope_exact (from_str : string → result string Value)
    (output : string) :
  parse_workflow_result_envelope from_str output ≠ None
  ∧ ∀ m, parse_workflow_result_envelope from_str output = Some (Ok m) ↔
      ∃ pre body post,
        cut open_tag output = Some (pre, body +:+ close_tag +:+ post)
        ∧ cut close_tag output = Some (pre +:+ open_tag +:+ body, post)
        ∧ contains open_tag (body +:+ close_tag +:+ post) = false
        ∧ contains close_tag post = false
        ∧ from_str (trim body) = Ok (VObject m).
Proof.
  unfold parse_workflow_result_envelope. rewrite !find_cut.
  destruct (cut open_tag output) as [[x y]|] eqn:E1; [|split; [done|naive_solver]].
  destruct (cut close_tag output) as [[x2 y2]|] eqn:E2; [|split; [done|naive_solver]].
  pose proof (cut_Some _ _ _ _ E1) as Hs1. pose proof (cut_Some _ _ _ _ E2) as Hs2.
  rewrite <- str_app_assoc in Hs1, Hs2.
  assert (slice_from (String.length x + String.length open_tag)%nat output = Some y) as H1.
  { rewrite Hs1, <- str_length_app. apply slice_from_app. }
  assert (slice_from (String.length x2 + String.length close_tag)%nat output = Some y2) as H2.
  { rewrite Hs2, <- str_length_app. apply slice_from_app. }
  cbn [fmap option_fmap option_map compose fst].
  rewrite H1. cbn [mbind option_bind].
  destruct (contains open_tag y) eqn:Hy.
  { split; [done|]. intros m. split; [done|]. intros (p & b & q & E & _ & H & _).
    assert (y = b +:+ close_tag +:+ q) as -> by congruence. congruence. }
  rewrite H2. cbn [mbind option_bind]. destruct (contains close_tag y2) eqn:Hy2.
  { split; [done|]. intros m. split; [done|]. intros (p & b & q & _ & E & _ & H & _).
    assert (y2 = q) as -> by congruence. congruence. }
  destruct (decide _) as [Hle|Hlt].
  { split; [done|]. intros m. split; [done|]. intros (p & b & q & E & E' & _).
    assert (x = p) as -> by congruence. assert (x2 = p +:+ open_tag +:+ b) as -> by congruence.
    rewrite !str_length_app in Hle. simpl in Hle. lia. }
  destruct (tags_disjoint x y x2 y2) as (body & -> & ->); [|lia|].
  { rewrite <- !str_app_assoc. congruence. }
  assert (slice (String.length x + String.length open_tag)%nat
    (String.length (x +:+ open_tag +:+ body)) output = Some body) as H3.
  { rewrite Hs1, <- str_app_assoc, str_length_app, <- str_length_app. apply slice_app. }
  rewrite H3. cbn [mbind option_bind].
  split; [done|]. intros m. rewrite (inj_iff Some), bind_Ok. setoid_rewrite map_err_Ok.
  setoid_rewrite ok_or_Ok. split.
  - intros (v & Hv & Hm). destruct v; try done. injection Hm as ->.
    by exists x, body, y2.
  - intros (p & b & q & E & E' & _ & _ & Hf). exists (VObject m). split; [|done].
    assert (x = p) as -> by congruence.
    assert (p +:+ open_tag +:+ body = p +:+ open_tag +:+ b) as Hb by congruence.
    apply (inj (String.append p)), (inj (String.append open_tag)) in Hb. by rewrite Hb.
Qed.

(** ** What a concluded step guarantees *)
Lemma validate_transition_target_Ok workflow step target reason t :
  validate_transition_target workflow step target reason = Ok t →
  t = target ∧ ∀ id, t = Some id → id ∈ ws_id <$> wf_steps workflow.
Proof.
  unfold validate_transition_target. destruct target as [target|]; [|by intros [= <-]].
  destruct (existsb _ _) eqn:E; [|done]. intros [= <-]. split; [done|]. intros id [= <-].
  apply existsb_exists in E as (s & Hs%list_elem_of_In & <-%String.eqb_eq).
  by apply list_elem_of_fmap_2.
Qed.

Definition nonblank (v : Value) : Prop :=
  ∀ text, v = VString text → is_empty (trim text) = false.

Lemma required_issue_None outputs key :
  required_issue outputs key = None ↔ ∃ v, map_get (ok_name key) outputs = Some v ∧ nonblank v.
Proof.
  unfold required_issue, nonblank. destruct (map_get _ _) as [v|]; [|naive_solver].
  destruct v as [| | |text| |]; try naive_solver.
  destruct (is_empty (trim text)) eqn:E; split; try naive_solver congruence.
Qed.

Lemma validate_outputs_contract_Ok step outputs :
  validate_outputs_contract step outputs = Ok () →
  ∀ key, key ∈ ws_outputs step → ok_required key = true →
    ∃ v, map_get (ok_name key) outputs = Some v ∧ nonblank v.
Proof.
  unfold validate_outputs_contract, parse_output_contract. intros H key Hin Hreq.
  destruct (ws_outputs step) as [|k ks]; [by apply elem_of_nil in Hin|].
  simpl is_nil in H. cbv iota in H. destruct (is_nil _) eqn:E; [|done].
  apply required_issue_None. destruct (required_issue outputs key) as [issue|] eqn:Ei; [|done].
  assert (issue ∈ omap (required_issue outputs)
    (filter (λ key, ok_required key = true) (k :: ks))) as Hiss.
  { apply list_elem_of_omap. exists key. split; [|done]. by apply list_elem_of_filter. }
  destruct (omap _ _); [by apply elem_of_nil in Hiss|done].
Qed.

(** A step that ends successfully obeyed its contract: the outputs are the
    parsed ones, every required output is present and not blank, the next step is
    a step of the workflow, a review went where its decision points and a task
    to its [next] step or else the following one; only a task without successor
    ends the workflow. *)
Theorem conclude_step_sound (workflow : WorkflowConfig) (step : WorkflowStepConfig)
    (parsed : JMap) (evaluation : StepEvaluation)
    (H : conclude_step workflow step parsed = Ok evaluation) :
  se_outputs evaluation = parsed
  ∧ (∀ key, key ∈ ws_outputs step → ok_required key = true →
       ∃ v, map_get (ok_name key) parsed = Some v ∧ nonblank v)
  ∧ (∀ id, se_next_step_id evaluation = Some id → id ∈ ws_id <$> wf_steps workflow)
  ∧ match ws_step_type step with
    | AgentReview => ∃ approve target, parse_review_decision parsed = Ok approve
        ∧ se_next_step_id evaluation = Some target
        ∧ (if (approve : bool) then ws_on_approve step else ws_on_reject step) = Some target
    | AgentTask => se_next_step_id evaluation
        = match ws_next step with
          | Some n => Some n
          | None => next_step_in_workflow workflow (ws_id step)
          end
    end.
Proof.
  unfold conclude_step in H. apply seq_Ok in H as [Hc H].
  apply bind_Ok in H as (next & Hnext & [= <-]). simpl. split; [done|].
  split; [by apply validate_outputs_contract_Ok|].
  destruct (ws_step_type step).
  - by apply validate_transition_target_Ok in Hnext as [-> ?].
  - apply bind_Ok in Hnext as (approve & Ha & Hnext).
    destruct (if approve then _ else _) as [target|] eqn:Et; [|by destruct approve].
    apply validate_transition_target_Ok in Hnext as [-> Hin]. split; [done|].
    exists approve, target. by rewrite Et.
Qed.

Definition demo_workflow : WorkflowConfig := {|
  wf_id := "w"; wf_version := 1; wf_description := "d"; wf_tags := ["t"]; wf_inputs := [];
  wf_limits := None; wf_steps := [demo_step [("summary", "summary.md")]] |}.
Lemma conclude_step_sound_witness :
  let step := demo_step [("summary", "summary.md")] in
  ∃ evaluation, conclude_step demo_workflow step [("summary", VString "done")] = Ok evaluation
    ∧ se_next_step_id evaluation = None.
Proof.
  cbv zeta. eexists. split; [vm_compute; reflexivity|].
  exact (proj2 (proj2 (proj2 (conclude_step_sound demo_workflow
    (demo_step [("summary", "summary.md")]) [("summary", VString "done")] _ eq_refl)))).
Defined.

(** ** Reporting contract violations *)
Definition issue_detail (outputs : JMap) (name : string) : option string :=
  match map_get name outputs with
  | None => Some "missing"
  | Some (VString text) => if is_empty (trim text) then Some "empty" else None
  | Some _ => None
  end.
Lemma required_issue_detail outputs key :
  required_issue outputs key
  = (λ detail, ok_name key +:+ String "=" detail) <$> issue_detail outputs (ok_name key).
Proof. unfold required_issue, issue_detail. by repeat case_match. Qed.
Lemma issue_detail_cases outputs name detail :
  issue_detail outputs name = Some detail → detail = "missing" ∨ detail = "empty".
Proof. unfold issue_detail. repeat case_match; intros [= <-]; auto. Qed.

Lemma ident_forall p name :
  is_ident name = true → (∀ a, ident_char a = true → p a = true) → str_forall p name = true.
Proof.
  unfold is_ident. intros [_ H]%andb_true_iff Hp. by eapply str_forall_impl.
Qed.

Lemma validation_entry_issue name detail :
  is_ident name = true → detail = "missing" ∨ detail = "empty" →
  validation_entry (String " " (name +:+ String "=" detail)) = Some (name, detail).
Proof.
  intros Hn Hd. unfold validation_entry.
  assert (str_forall solid (name +:+ String "=" detail) = true) as Hsolid.
  { rewrite str_forall_app, (ident_forall solid) by (done || by intros a (? & _)%ident_char_facts).
    by destruct Hd as [-> | ->]. }
  assert (trim (String " " (name +:+ String "=" detail)) = name +:+ String "=" detail) as ->.
  { by rewrite <- (trim_solid (name +:+ String "=" detail)) at 2. }
  unfold split_once. change (String "=" detail) with ("=" +:+ detail).
  rewrite (cut_app_not_in "" "=" name detail).
  - simpl. rewrite is_ident_trim by done.
    destruct (is_empty name) eqn:He; [by destruct name|].
    by destruct Hd as [-> | ->].
  - apply ident_forall; [done|]. intros a. destruct a as [[] [] [] [] [] [] [] []]; done.
Qed.

(** The issues listed for a contract, with their details. *)
Definition issue_pairs (step : WorkflowStepConfig) (outputs : JMap) : list (string * string) :=
  omap (λ key, pair (ok_name key) <$> issue_detail outputs (ok_name key))
    (filter (λ key, ok_required key = true) (ws_outputs step)).
Definition issue_text (p : string * string) : string := p.1 +:+ String "=" p.2.

Lemma issues_of_pairs step outputs :
  omap (required_issue outputs) (filter (λ key, ok_required key = true) (ws_outputs step))
  = issue_text <$> issue_pairs step outputs.
Proof.
  unfold issue_pairs. induction (filter _ _) as [|k ks IH]; [done|]. simpl.
  rewrite required_issue_detail. destruct (issue_detail _ _); simpl.
  - f_equal. exact IH.
  - exact IH.
Qed.

(** The text [OutputContractValidation] carries reads back as the issues. *)
Lemma errors_of_reason step_id prefix issues :
  prefix = "missing required output keys" ∨ prefix = "invalid required output keys" →
  issues ≠ [] →
  Forall (λ p, is_ident p.1 = true ∧ (p.2 = "missing" ∨ p.2 = "empty")) issues →
  output_validation_errors_for (OutputContractValidation step_id
    (prefix +:+ ": " +:+ join ", " (issue_text <$> issues))) = map_from_iter issues.
Proof.
  intros Hprefix Hne Hall. unfold output_validation_errors_for.
  assert (∃ m z, join ", " (issue_text <$> issues) = m +:+ String z "" ∧ solid z = true)
    as (m & z & Hj & Hz).
  { clear Hprefix. induction issues as [|[n d] issues IH]; [done|].
    apply Forall_cons in Hall as [[_ Hd] Hall]. destruct issues as [|p issues].
    - simpl. unfold issue_text. destruct Hd as [Hd|Hd]; simpl in *; subst d.
      + exists (n +:+ "=missin"), "g"%char. by rewrite str_app_assoc.
      + exists (n +:+ "=empt"), "y"%char. by rewrite str_app_assoc.
    - destruct IH as (m & z & Hm & Hz); [done..|]. simpl fmap in *. rewrite join_cons, Hm.
      exists (issue_text (n, d) +:+ ", " +:+ m), z. by rewrite !str_app_assoc. }
  assert (split_on "," (String " " (join ", " (issue_text <$> issues)))
    = String " " <$> (issue_text <$> issues)) as Hsplit.
  { destruct issues as [|p issues]; [done|]. rewrite fmap_cons. apply (split_join_comma (issue_text p) (issue_text <$> issues)).
    apply (Forall_fmap issue_text _ (p :: issues)). eapply Forall_impl; [exact Hall|]. intros [n d] [Hn Hd]. simpl in *.
    unfold issue_text. simpl. rewrite str_forall_app, ident_forall;
      [by destruct Hd as [-> | ->]|done|].
    intros a. destruct a as [[] [] [] [] [] [] [] []]; done. }
  assert (omap validation_entry (String " " <$> (issue_text <$> issues)) = issues) as Hentries.
  { clear -Hall. induction issues as [|[n d] issues IH]; [done|].
    apply Forall_cons in Hall as [[Hn Hd] Hall]. simpl in Hn, Hd.
    pose proof (validation_entry_issue n d Hn Hd) as Hentry. specialize (IH Hall).
    change (String " " (n +:+ String "=" d)) with (String " " (issue_text (n, d))) in Hentry.
    cbn [fmap list_fmap omap list_omap]. rewrite Hentry. f_equal. exact IH. }
  destruct Hprefix as [-> | ->].
  - assert (trim ("missing required output keys" +:+ ": " +:+ join ", " (issue_text <$> issues))
      = "missing required output keys" +:+ ": " +:+ join ", " (issue_text <$> issues)) as ->.
    { rewrite Hj. by apply (trim_solid_ends "m" _ ("missing required output keys: " +:+ m) z). }
    change ("missing required output keys" +:+ ": " +:+ join ", " (issue_text <$> issues))
      with ("missing required output keys:" +:+ String " " (join ", " (issue_text <$> issues))).
    rewrite (proj2 (strip_prefix_Some _ _ _) eq_refl). by rewrite Hsplit, Hentries.
  - assert (trim ("invalid required output keys" +:+ ": " +:+ join ", " (issue_text <$> issues))
      = "invalid required output keys" +:+ ": " +:+ join ", " (issue_text <$> issues)) as ->.
    { rewrite Hj. by apply (trim_solid_ends "i" _ ("invalid required output keys: " +:+ m) z). }
    change ("invalid required output keys" +:+ ": " +:+ join ", " (issue_text <$> issues))
      with ("invalid required output keys:" +:+ String " " (join ", " (issue_text <$> issues))).
    rewrite (proj2 (strip_prefix_Some "invalid required output keys:" _ _) eq_refl).
    destruct (strip_prefix "missing required output keys:" _) as [t|] eqn:E; [done|].
    simpl. by rewrite Hsplit, Hentries.
Qed.

Lemma merge_sort_fmap_pairs (issues : list (string * string)) sorted :
  sorted ≡ₚ issue_text <$> issues → ∃ issues', issues' ≡ₚ issues ∧ sorted = issue_text <$> issues'.
Proof. intros (issues' & -> & Hp)%Permutation_map_inv. by exists issues'. Qed.

(** The engine reports a contract violation without losing information:
    the per-key errors it stores for a failed attempt, which it reads back from
    the text of the error, are exactly the required keys that are missing or
    blank, each with its reason. *)
Theorem contract_violations_roundtrip (step : WorkflowStepConfig) (outputs : JMap)
    (e : OrchestratorError)
    (Hids : ∀ key, key ∈ ws_outputs step → is_ident (ok_name key) = true)
    (H : validate_outputs_contract step outputs = Err e) :
  is_nil (output_validation_errors_for e) = false
  ∧ ∀ name detail, map_get name (output_validation_errors_for e) = Some detail ↔
      ∃ key, key ∈ ws_outputs step ∧ ok_required key = true ∧ ok_name key = name
        ∧ issue_detail outputs name = Some detail.
Proof.
  unfold validate_outputs_contract, parse_output_contract in H.
  destruct (is_nil (ws_outputs step)); [done|].
  rewrite issues_of_pairs in H.
  destruct (is_nil (issue_text <$> issue_pairs step outputs)) eqn:Enil; [done|].
  set (sorted := merge_sort String.le (issue_text <$> issue_pairs step outputs)) in *.
  destruct (merge_sort_fmap_pairs (issue_pairs step outputs) sorted) as (issues & Hperm & Hs).
  { apply merge_sort_Permutation. }
  assert (issues ≠ []) as Hne.
  { intros ->. apply Permutation_nil in Hperm. by rewrite Hperm in Enil. }
  assert (∀ p, p ∈ issues ↔ ∃ key, key ∈ ws_outputs step ∧ ok_required key = true
    ∧ ok_name key = p.1 ∧ issue_detail outputs p.1 = Some p.2) as Hin.
  { intros [name detail]. rewrite Hperm. unfold issue_pairs. rewrite list_elem_of_omap. split.
    - intros (key & [Hr Hk]%list_elem_of_filter & Hd). exists key.
      destruct (issue_detail outputs (ok_name key)) as [d|] eqn:Ed; [|done]. simpl in Hd.
      injection Hd as <- <-. simpl. by rewrite Ed.
    - intros (key & Hk & Hr & Hn & Hd). simpl in Hn, Hd. exists key.
      split; [by apply list_elem_of_filter|]. by rewrite Hn, Hd. }
  assert (output_validation_errors_for e = map_from_iter issues) as ->.
  { rewrite Hs in H. injection H as <-. apply errors_of_reason.
    - destruct (forallb _ _); auto.
    - exact Hne.
    - apply Forall_forall. intros p Hp. apply Hin in Hp as (key & Hk & _ & Hn & Hd).
      split; [rewrite <- Hn; by apply Hids|]. by eapply issue_detail_cases. }
  assert (∀ k v v', (k, v) ∈ issues → (k, v') ∈ issues → v = v') as Hfun.
  { intros k v v' (? & _ & _ & _ & H1)%Hin (? & _ & _ & _ & H2)%Hin. simpl in *. congruence. }
  assert (∀ name detail, map_get name (map_from_iter issues) = Some detail ↔
    (name, detail) ∈ issues) as Hget by (intros; by apply map_get_from_iter).
  split; [|intros name detail; rewrite Hget, Hin; done].
  destruct issues as [|[n d] issues]; [done|].
  destruct (map_from_iter _) eqn:Em; [|done].
  assert ((n, d) ∈ (n, d) :: issues) as Hnd by left. by apply Hget in Hnd.
Qed.

Lemma contract_violations_roundtrip_witness :
  let step := demo_step [("summary", "summary.md")] in
  ∃ e, validate_outputs_contract step [] = Err e
    ∧ map_get "summary" (output_validation_errors_for e) = Some "missing".
Proof.
  cbv zeta. eexists. split; [vm_compute; reflexivity|].
  refine (proj2 (proj2 (contract_violations_roundtrip (demo_step [("summary", "summary.md")]) []
    _ _ eq_refl) "summary" "missing") _).
  - intros key ->%list_elem_of_singleton. reflexivity.
  - eexists. split; [left|]. split; [reflexivity|]. split; reflexivity.
Defined.

(** ** Files of a valid configuration *)
(** In a valid configuration no step can fail for lack of an output file:
    every declared output, optional ones included, has a resolved path, so
    loading the outputs from files ends with the outputs, an I/O error, or the
    report of required files that do not exist. *)
Theorem valid_step_outputs_have_files (c : OrchestratorConfig) (step : WorkflowStepConfig)
    (state_root run_id : string) (attempt : Z) (paths : list (string * string))
    (from_str : string → result string Value) (w : world disk)
    (Hwf : step_wf c step)
    (Hpaths : resolve_step_output_paths state_root run_id step attempt = Ok paths) :
  (∀ key, key ∈ ws_outputs step → is_Some (map_get (ok_name key) paths))
  ∧ match (load_outputs_from_files from_str step paths w).2 with
    | Ok _ => True
    | Err (IoErr path _) => path ∈ paths.*2
    | Err (OutputContractValidation id reason) =>
        id = ws_id step ∧ starts_with "missing required output keys: " reason = true
    | Err _ => False
    end.
Proof.
  assert (∀ key, key ∈ ws_outputs step → is_Some (map_get (ok_name key) paths)) as Hget.
  { intros key Hk. apply (step_outputs_mapped _ _ Hwf) in Hk.
    unfold resolve_step_output_paths in Hpaths.
    apply bind_Ok in Hpaths as (root & _ & Hf). apply resolve_fold_spec in Hf as [Hkeys _].
    assert (ok_name key ∈ map_keys paths) as Hin by (apply Hkeys; by left).
    apply map_contains_key_elem in Hin. unfold map_contains_key in Hin.
    by destruct (map_get _ _). }
  split; [done|].
  assert (∀ contract outputs missing w, (∀ key, key ∈ contract → key ∈ ws_outputs step) →
    match (load_outputs_loop from_str step paths contract outputs missing w).2 with
    | Ok _ => True
    | Err (IoErr path _) => path ∈ paths.*2
    | Err _ => False
    end) as Hloop.
  { intros contract. induction contract as [|key contract IH]; intros outputs missing w' Hsub;
      [done|].
    cbn [load_outputs_loop]. destruct (Hget key) as [path Hp]; [apply Hsub; left|]. rewrite Hp.
    rewrite bind_run. cbn [get]. destruct (disk_is_file path (st w')).
    - rewrite bind_run. unfold io_map_err. destruct (sys _ w') as [w1 [raw|e]].
      + apply IH. intros k Hk. apply Hsub. by right.
      + simpl. apply map_get_elem in Hp. by apply (list_elem_of_fmap_2 snd) in Hp.
    - apply IH. intros k Hk. apply Hsub. by right. }
  unfold load_outputs_from_files, parse_output_contract.
  destruct (is_nil (ws_outputs step)); [done|]. rewrite bind_run.
  specialize (Hloop (ws_outputs step) [] [] w ltac:(done)).
  destruct (load_outputs_loop _ _ _ _ _ _ w) as [w1 [[outputs missing]|e]]; simpl in *.
  - destruct (is_nil missing); simpl; [done|]. split; [done|].
    apply (starts_with_app "missing required output keys: ").
  - by destruct e.
Qed.
Lemma valid_step_outputs_have_files_witness :
  is_Some (map_get "summary"
    [("summary", "/state/workflows/runs/run-1/steps/plan/attempts/1/summary.md")]).
Proof.
  refine (proj1 (valid_step_outputs_have_files
    {| oc_id := "main"; oc_selector_agent := "main"; oc_default_workflow := "w";
       oc_selection_max_retries := 1; oc_selector_timeout_seconds := 30;
       oc_agents := [("main", {| ag_provider := Anthropic; ag_model := "m";
                                 ag_can_orchestrate_workflows := true |})];
       oc_workflows := []; oc_workflow_orchestration := None |}
    (demo_step [("summary", "summary.md")]) "/state" "run-1" 1 _ (Ok ∘ VString) (World ∅ (Env [] [])) _ _)
    {| ok_name := "summary"; ok_required := true |} _).
  - constructor; simpl; try set_solver. apply NoDup_singleton.
  - vm_compute; reflexivity.
  - left.
Defined.
