(* ===== verification/RunStore.v ===== *)
(** * The workflow run store

    [src/src/orchestration/run_store.rs] and [progress.rs]: records of runs,
    step attempts and progress, kept as JSON files.  The store is three maps from
    file path to record: encoding a record and decoding it again gives the same
    record, and a file that is not a record is [Corrupt].  Functions that take
    [run: &mut WorkflowRunRecord] are computations over the store and that
    record, which keeps its changes when a later call fails. *)
From S2P Require Import Prelude RustStr RustPath Io Json OrchestratorError.

Local Open Scope string_scope.
Local Open Scope list_scope.

Record RunMemoryContext := { mc_bulletin : string; mc_citations : list string }.
Definition RunMemoryContext_default : RunMemoryContext :=
  {| mc_bulletin := ""; mc_citations := [] |}.
Definition from_selector_request (bulletin : option string) (citations : list string) :
    RunMemoryContext :=
  {| mc_bulletin := from_option id "" bulletin; mc_citations := citations |}.

Record WorkflowRunRecord := {
  wr_run_id : string;
  wr_workflow_id : string;
  wr_state : RunState;
  wr_channel_profile_id : option string;
  wr_inputs : JMap;
  wr_memory_context : RunMemoryContext;
  wr_current_step_id : option string;
  wr_current_attempt : option Z;
  wr_started_at : Z;
  wr_updated_at : Z;
  wr_total_iterations : Z;
  wr_source_message_id : option string;
  wr_selector_id : option string;
  wr_selected_workflow : option string;
  wr_status_conversation_id : option string;
  wr_terminal_reason : option string;
}.

(** The fields the engine assigns. *)
Definition set_state (state : RunState) (updated_at : Z) (reason : option string)
    (r : WorkflowRunRecord) : WorkflowRunRecord :=
  {| wr_run_id := wr_run_id r; wr_workflow_id := wr_workflow_id r; wr_state := state;
     wr_channel_profile_id := wr_channel_profile_id r; wr_inputs := wr_inputs r;
     wr_memory_context := wr_memory_context r; wr_current_step_id := wr_current_step_id r;
     wr_current_attempt := wr_current_attempt r; wr_started_at := wr_started_at r;
     wr_updated_at := updated_at; wr_total_iterations := wr_total_iterations r;
     wr_source_message_id := wr_source_message_id r; wr_selector_id := wr_selector_id r;
     wr_selected_workflow := wr_selected_workflow r;
     wr_status_conversation_id := wr_status_conversation_id r;
     wr_terminal_reason := reason |}.
Definition set_step (step : option string) (attempt : option Z) (r : WorkflowRunRecord) :
    WorkflowRunRecord :=
  {| wr_run_id := wr_run_id r; wr_workflow_id := wr_workflow_id r; wr_state := wr_state r;
     wr_channel_profile_id := wr_channel_profile_id r; wr_inputs := wr_inputs r;
     wr_memory_context := wr_memory_context r; wr_current_step_id := step;
     wr_current_attempt := attempt; wr_started_at := wr_started_at r;
     wr_updated_at := wr_updated_at r; wr_total_iterations := wr_total_iterations r;
     wr_source_message_id := wr_source_message_id r; wr_selector_id := wr_selector_id r;
     wr_selected_workflow := wr_selected_workflow r;
     wr_status_conversation_id := wr_status_conversation_id r;
     wr_terminal_reason := wr_terminal_reason r |}.
Definition set_counters (total_iterations updated_at : Z) (r : WorkflowRunRecord) :
    WorkflowRunRecord :=
  {| wr_run_id := wr_run_id r; wr_workflow_id := wr_workflow_id r; wr_state := wr_state r;
     wr_channel_profile_id := wr_channel_profile_id r; wr_inputs := wr_inputs r;
     wr_memory_context := wr_memory_context r; wr_current_step_id := wr_current_step_id r;
     wr_current_attempt := wr_current_attempt r; wr_started_at := wr_started_at r;
     wr_updated_at := updated_at; wr_total_iterations := total_iterations;
     wr_source_message_id := wr_source_message_id r; wr_selector_id := wr_selector_id r;
     wr_selected_workflow := wr_selected_workflow r;
     wr_status_conversation_id := wr_status_conversation_id r;
     wr_terminal_reason := wr_terminal_reason r |}.

Record StepAttemptRecord := {
  sa_run_id : string;
  sa_step_id : string;
  sa_attempt : Z;
  sa_started_at : Z;
  sa_ended_at : Z;
  sa_state : string;
  sa_outputs : JMap;
  sa_output_files : list (string * string);
  sa_final_output_priority : list string;
  sa_next_step_id : option string;
  sa_error : option string;
  sa_output_validation_errors : list (string * string);
}.

Record ProgressSnapshot := {
  pr_run_id : string;
  pr_workflow_id : string;
  pr_state : RunState;
  pr_input_count : nat;
  pr_input_keys : list string;
  pr_current_step_id : option string;
  pr_current_attempt : option Z;
  pr_started_at : Z;
  pr_updated_at : Z;
  pr_last_progress_at : Z;
  pr_summary : string;
  pr_pending_human_input : bool;
  pr_next_expected_action : string;
}.

Record SelectorStartedRunMetadata := {
  md_source_message_id : option string;
  md_selector_id : option string;
  md_selected_workflow : option string;
  md_channel_profile_id : option string;
  md_status_conversation_id : option string;
  md_memory_context : RunMemoryContext;
}.
Definition metadata_default : SelectorStartedRunMetadata :=
  {| md_source_message_id := None; md_selector_id := None; md_selected_workflow := None;
     md_channel_profile_id := None; md_status_conversation_id := None;
     md_memory_context := RunMemoryContext_default |}.

(** ** The files *)
Inductive stored (A : Type) := Parsed (a : A) | Corrupt (error : string).
Arguments Parsed {A} a.
Arguments Corrupt {A} error.

(** [rs_files]: what is not a record of the store, the prompts, outputs and logs of
    the steps. *)
Record run_store := {
  rs_runs : gmap string (stored WorkflowRunRecord);
  rs_progress : gmap string (stored ProgressSnapshot);
  rs_attempts : gmap string (stored StepAttemptRecord);
  rs_log : list string;
  rs_files : disk;
}.
Definition set_files (files : disk) (s : run_store) : run_store :=
  {| rs_runs := rs_runs s; rs_progress := rs_progress s; rs_attempts := rs_attempts s;
     rs_log := rs_log s; rs_files := files |}.
(** A computation on the files. *)
Definition on_step_files {E A} (m : IO disk E A) : IO run_store E A := zoom rs_files set_files m.
Definition put_run (path : string) (r : WorkflowRunRecord) (s : run_store) :
    run_store * result io_error () :=
  ({| rs_runs := <[path := Parsed r]> (rs_runs s); rs_progress := rs_progress s;
      rs_attempts := rs_attempts s; rs_log := rs_log s; rs_files := rs_files s |}, Ok ()).
Definition put_progress (path : string) (p : ProgressSnapshot) (s : run_store) :
    run_store * result io_error () :=
  ({| rs_runs := rs_runs s; rs_progress := <[path := Parsed p]> (rs_progress s);
      rs_attempts := rs_attempts s; rs_log := rs_log s; rs_files := rs_files s |}, Ok ()).
Definition put_attempt (path : string) (a : StepAttemptRecord) (s : run_store) :
    run_store * result io_error () :=
  ({| rs_runs := rs_runs s; rs_progress := rs_progress s;
      rs_attempts := <[path := Parsed a]> (rs_attempts s); rs_log := rs_log s;
      rs_files := rs_files s |}, Ok ()).
Definition append_log_line (line : string) (s : run_store) : run_store * result io_error () :=
  ({| rs_runs := rs_runs s; rs_progress := rs_progress s; rs_attempts := rs_attempts s;
      rs_log := rs_log s ++ [line]; rs_files := rs_files s |}, Ok ()).
Definition read_file {A} (files : run_store → gmap string (stored A)) (path : string)
    (s : run_store) : run_store * result io_error (stored A) :=
  (s, ok_or not_found (files s !! path)).

Definition sorted_input_keys (inputs : JMap) : list string :=
  merge_sort String.le (map_keys inputs).

Section store.
Context (state_root : string).

Definition runs_root : string := path_join state_root "workflows/runs".
Definition run_dir (run_id : string) : string := path_join runs_root run_id.
Definition run_metadata_path (run_id : string) : string :=
  path_join runs_root (run_id +:+ ".json").
Definition progress_path (run_id : string) : string :=
  path_join (run_dir run_id) "progress.json".
Definition step_attempt_path (run_id step_id : string) (attempt : Z) : string :=
  path_join (path_join (path_join (path_join (path_join (run_dir run_id) "steps") step_id)
    "attempts") (fmt_int attempt)) "result.json".
Definition orchestrator_log_path : string := path_join state_root "logs/orchestrator.log".

(** [create_dir_all] of the parent, then the write. *)
Definition write_json (path : string) (put : run_store → run_store * result io_error ()) :
    IO run_store OrchestratorError () :=
  match path_parent path with
  | Some parent => io_map_err (IoErr parent) (sys (create_dir_all parent))
  | None => mret ()
  end ;;
  io_map_err (IoErr path) (sys put).

Definition read_json {A} (files : run_store → gmap string (stored A)) (path : string) :
    IO run_store OrchestratorError A :=
  raw ← io_map_err (IoErr path) (sys (read_file files path));
  match raw with
  | Parsed a => mret a
  | Corrupt e => throw (JsonErr path e)
  end.

Definition load_run (run_id : string) : IO run_store OrchestratorError WorkflowRunRecord :=
  read_json rs_runs (run_metadata_path run_id).
Definition persist_run (run : WorkflowRunRecord) : IO run_store OrchestratorError () :=
  let path := run_metadata_path (wr_run_id run) in write_json path (put_run path run).
Definition persist_progress (progress : ProgressSnapshot) :
    IO run_store OrchestratorError () :=
  let path := progress_path (pr_run_id progress) in write_json path (put_progress path progress).
Definition load_progress (run_id : string) : IO run_store OrchestratorError ProgressSnapshot :=
  read_json rs_progress (progress_path run_id).

(** The snapshot of a run every operation records. *)
Definition snapshot (run : WorkflowRunRecord) (now : Z) (summary : string)
    (pending_human_input : bool) (next_expected_action : string) : ProgressSnapshot :=
  {| pr_run_id := wr_run_id run; pr_workflow_id := wr_workflow_id run;
     pr_state := wr_state run; pr_input_count := length (wr_inputs run);
     pr_input_keys := sorted_input_keys (wr_inputs run);
     pr_current_step_id := wr_current_step_id run;
     pr_current_attempt := wr_current_attempt run; pr_started_at := wr_started_at run;
     pr_updated_at := now; pr_last_progress_at := now; pr_summary := summary;
     pr_pending_human_input := pending_human_input;
     pr_next_expected_action := next_expected_action |}.

Definition create_run_with_metadata (run_id workflow_id : string)
    (metadata : SelectorStartedRunMetadata) (inputs : JMap) (now : Z) :
    IO run_store OrchestratorError WorkflowRunRecord :=
  let run := {|
    wr_run_id := run_id; wr_workflow_id := workflow_id; wr_state := Queued;
    wr_channel_profile_id := md_channel_profile_id metadata; wr_inputs := inputs;
    wr_memory_context := md_memory_context metadata; wr_current_step_id := None;
    wr_current_attempt := None; wr_started_at := now; wr_updated_at := now;
    wr_total_iterations := 0; wr_source_message_id := md_source_message_id metadata;
    wr_selector_id := md_selector_id metadata;
    wr_selected_workflow := md_selected_workflow metadata;
    wr_status_conversation_id := md_status_conversation_id metadata;
    wr_terminal_reason := None |} in
  persist_run run ;;
  persist_progress (snapshot run now "queued" false "workflow start") ;;
  mret run.
Definition create_run_with_inputs (run_id workflow_id : string) (inputs : JMap) (now : Z) :
    IO run_store OrchestratorError WorkflowRunRecord :=
  create_run_with_metadata run_id workflow_id metadata_default inputs now.
Definition create_run (run_id workflow_id : string) (now : Z) :
    IO run_store OrchestratorError WorkflowRunRecord :=
  create_run_with_inputs run_id workflow_id [] now.

Definition heartbeat_tick (run : WorkflowRunRecord) (now : Z) (summary : string) :
    IO run_store OrchestratorError () :=
  let waiting := bool_decide (wr_state run = Waiting) in
  persist_progress (snapshot run now summary waiting
    (if waiting then "await human response" else "continue workflow")).

Definition persist_step_attempt (attempt : StepAttemptRecord) :
    IO run_store OrchestratorError string :=
  let path := step_attempt_path (sa_run_id attempt) (sa_step_id attempt) (sa_attempt attempt) in
  write_json path (put_attempt path attempt) ;;
  run ← load_run (sa_run_id attempt);
  let run := set_counters (u32_sat_add (wr_total_iterations run) 1) (sa_ended_at attempt) run in
  persist_run run ;;
  persist_progress {|
    pr_run_id := wr_run_id run; pr_workflow_id := wr_workflow_id run;
    pr_state := wr_state run; pr_input_count := length (wr_inputs run);
    pr_input_keys := sorted_input_keys (wr_inputs run);
    pr_current_step_id := Some (sa_step_id attempt);
    pr_current_attempt := Some (sa_attempt attempt); pr_started_at := wr_started_at run;
    pr_updated_at := sa_ended_at attempt; pr_last_progress_at := sa_ended_at attempt;
    pr_summary := "step " +:+ sa_step_id attempt +:+ " attempt " +:+
      fmt_int (sa_attempt attempt) +:+ " " +:+ sa_state attempt;
    pr_pending_human_input := bool_decide (wr_state run = Waiting);
    pr_next_expected_action :=
      from_option id "workflow terminal transition" (sa_next_step_id attempt) |} ;;
  mret path.

Definition load_step_attempt (run_id step_id : string) (attempt : Z) :
    IO run_store OrchestratorError StepAttemptRecord :=
  read_json rs_attempts (step_attempt_path run_id step_id attempt).

Definition append_engine_log (run_id : string) (now : Z) (message : string) :
    IO run_store OrchestratorError () :=
  io_map_err (IoErr orchestrator_log_path)
    (match path_parent orchestrator_log_path with
     | Some parent => sys (create_dir_all parent)
     | None => mret ()
     end ;;
     sys (append_log_line ("ts=" +:+ fmt_int now +:+ " run_id=" +:+ run_id +:+ " " +:+ message))).

(** ** Operations on a borrowed run *)
Definition run_st : Type := run_store * WorkflowRunRecord.
Definition with_store {E A} (m : IO run_store E A) : IO run_st E A :=
  zoom fst (λ s rs, (s, rs.2)) m.
Definition get_run {E} : IO run_st E WorkflowRunRecord := λ w, (w, Ok (st w).2).
Definition set_run {E} (r : WorkflowRunRecord) : IO run_st E () :=
  modify (λ rs, (rs.1, r)).

Definition transition_state (next : RunState) (now : Z) (summary : string)
    (pending_human_input : bool) (next_expected_action : string) :
    IO run_st OrchestratorError () :=
  run ← get_run;
  if negb (can_transition_to (wr_state run) next) then
    throw (InvalidRunTransition (wr_state run) next)
  else
    let run := set_state next now (if is_terminal next then Some summary else None) run in
    set_run run ;;
    with_store (persist_run run) ;;
    with_store (persist_progress
      (snapshot run now summary pending_human_input next_expected_action)).

Definition mark_step_attempt_started (step_id : string) (attempt now : Z) :
    IO run_st OrchestratorError () :=
  run ← get_run;
  let run := set_counters (wr_total_iterations run) now
               (set_step (Some step_id) (Some attempt) run) in
  set_run run ;;
  with_store (persist_run run) ;;
  with_store (persist_progress (snapshot run now
    ("step " +:+ step_id +:+ " attempt " +:+ fmt_int attempt +:+ " running") false
    "await step output")).

Definition checkpoint (now : Z) (summary : string) (pending_human_input : bool)
    (next_expected_action : string) : IO run_st OrchestratorError () :=
  run ← get_run;
  let run := set_counters (wr_total_iterations run) now run in
  set_run run ;;
  with_store (persist_run run) ;;
  with_store (persist_progress
    (snapshot run now summary pending_human_input next_expected_action)).

(** ** Searches over all runs *)
Definition newer (run current : WorkflowRunRecord) : bool :=
  bool_decide (wr_updated_at current < wr_updated_at run)%Z
  || (bool_decide (wr_updated_at run = wr_updated_at current)
      && bool_decide (wr_started_at current < wr_started_at run)%Z).

Fixpoint latest_loop (keep : WorkflowRunRecord → bool) (paths : list string)
    (latest : option WorkflowRunRecord) :
    IO run_store OrchestratorError (option WorkflowRunRecord) :=
  match paths with
  | [] => mret latest
  | path :: paths =>
      if negb (bool_decide (extension path = Some "json")) then latest_loop keep paths latest
      else
        run ← read_json rs_runs path;
        if keep run && (match latest with Some current => newer run current | None => true end)
        then latest_loop keep paths (Some run)
        else latest_loop keep paths latest
  end.

Definition latest_run (keep : WorkflowRunRecord → bool) :
    IO run_store OrchestratorError (option WorkflowRunRecord) :=
  entries ← attempt (sys (λ s, (s, Ok (map_to_list (rs_runs s)).*1)));
  match entries with
  | Ok entries => latest_loop keep entries None
  | Err source =>
      if decide (ioe_kind source = NotFound) then mret None else throw (IoErr runs_root source)
  end.

Definition latest_run_for_source_message_id (source_message_id : string) :
    IO run_store OrchestratorError (option WorkflowRunRecord) :=
  latest_run (λ run, bool_decide (wr_source_message_id run = Some source_message_id)).

Definition latest_run_for_conversation (channel_profile_id conversation_id : string)
    (include_terminal : bool) : IO run_store OrchestratorError (option WorkflowRunRecord) :=
  latest_run (λ run,
    bool_decide (wr_channel_profile_id run = Some channel_profile_id)
    && bool_decide (wr_status_conversation_id run = Some conversation_id)
    && (include_terminal || negb (is_terminal (wr_state run)))).
End store.
