(* ===== verification/PromptRender.v ===== *)
(** * Rendering the prompt of a step

    [src/src/orchestration/prompt_render.rs]: what the placeholders of a prompt and
    a context template stand for.  Printing JSON values and output keys is a
    parameter ([serde_json::to_string] and [to_string_pretty], which do not fail on
    them). *)
From S2P Require Import Prelude RustStr RustPath Io Json TypedFields Config OrchestratorFile OrchestratorError OutputContract RunStore Prompts.
From Stdlib Require Import Ascii.

Local Open Scope string_scope.
Local Open Scope list_scope.

Definition MEMORY_CONTEXT_MAX_BULLETIN_CHARS : nat := 4000.
Definition MEMORY_CONTEXT_MAX_CITATIONS : nat := 32.
Record StepSharedWorkspaceContext := {
  sc_name : string;
  sc_path : string;
  sc_description : string;
}.
Record StepPromptRendering := { sr_prompt : string; sr_context : string }.

(** ** The memory a prompt may carry *)
Record MemoryContextBundle := {
  mb_bulletin : string;
  mb_citations : list string;
  mb_truncated : bool;
}.

(** [str::lines]: pieces between line feeds, a carriage return before the line
    feed dropped, and no piece after a final line feed. *)
Definition strip_cr (line : string) : string :=
  match strip_suffix (String (ascii_of_nat 13) "") line with Some line => line | None => line end.
Fixpoint lines_of (pieces : list string) : list string :=
  match pieces with
  | [] => []
  | [last] => if is_empty last then [] else [last]
  | piece :: pieces => strip_cr piece :: lines_of pieces
  end.
Definition str_lines (s : string) : list string := lines_of (split_on (ascii_of_nat 10) s).

(** The loop over the lines: text so far, characters used, and how it ended. *)
Inductive truncation := HardCut (line : string) | Kept (out : string) (used : nat) (truncated : bool).
Fixpoint truncate_lines (max_chars : nat) (out : string) (used : nat) (lines : list string) :
    truncation :=
  match lines with
  | [] => Kept out used false
  | line :: lines =>
      let line_chars := chars_count line in
      let separator := if is_empty out then 0%nat else 1%nat in
      if (max_chars <? used + separator + line_chars)%nat then
        if is_empty out then HardCut (chars_take max_chars line) else Kept out used true
      else
        truncate_lines max_chars
          ((if (separator =? 1)%nat then out +:+ newline else out) +:+ line)
          (used + separator + line_chars) lines
  end.
Definition truncate_memory_bulletin_by_lines (input : string) (max_chars : nat) : string * bool :=
  if (chars_count input <=? max_chars)%nat then (input, false) else
  match truncate_lines max_chars "" 0 (str_lines input) with
  | HardCut line => (line, true)
  | Kept out used truncated => (out, truncated || (used <? chars_count input)%nat)
  end.

Definition build_memory_context_bundle (memory_context : RunMemoryContext) : MemoryContextBundle :=
  let over s := (MEMORY_CONTEXT_MAX_BULLETIN_CHARS <? chars_count s)%nat in
  let bulletin := mc_bulletin memory_context in
  let '(bulletin, truncated) :=
    if over bulletin
    then truncate_memory_bulletin_by_lines bulletin MEMORY_CONTEXT_MAX_BULLETIN_CHARS
    else (bulletin, false) in
  let '(bulletin, truncated) :=
    if over bulletin
    then (chars_take MEMORY_CONTEXT_MAX_BULLETIN_CHARS bulletin, true)
    else (bulletin, truncated) in
  let citations := mc_citations memory_context in
  if (MEMORY_CONTEXT_MAX_CITATIONS <? length citations)%nat
  then {| mb_bulletin := bulletin; mb_citations := take MEMORY_CONTEXT_MAX_CITATIONS citations;
          mb_truncated := true |}
  else {| mb_bulletin := bulletin; mb_citations := citations; mb_truncated := truncated |}.

(** ** Values *)
Fixpoint resolve_json_path (value : Value) (path : list string) : option Value :=
  match path with
  | [] => Some value
  | segment :: path =>
      object ← as_object value;
      current ← map_get segment object;
      resolve_json_path current path
  end.

(** [while !parent.starts_with(&root) { if !root.pop() { .. } }]; a path has as many
    parents as components. *)
Fixpoint pop_until (fuel : nat) (parent root : string) : option string :=
  if path_starts_with parent root then Some root else
  match fuel with
  | O => None
  | S fuel => root ← path_parent root; pop_until fuel parent root
  end.
(** [for path in output_paths.values()] with the root found so far. *)
Fixpoint shared_root_loop (shared_root : option string) (paths : list string) : option string :=
  match paths with
  | [] => shared_root
  | path :: paths =>
      match path_parent path with
      | None => None
      | Some parent =>
          let shared_root := match shared_root with
                             | None => Some parent
                             | Some root => pop_until (length (components root)) parent root
                             end in
          match shared_root with
          | None => None
          | Some _ => shared_root_loop shared_root paths
          end
      end
  end.
(** [Path::strip_prefix]: the text after the components of the prefix, without
    empty pieces and ["."] at its ends.  The first piece is a component of its own:
    the root, a leading ["."] or a name. *)
Definition path_noise (piece : string) : bool := is_empty piece || String.eqb piece ".".
Fixpoint skip_components (n : nat) (pieces : list string) : list string :=
  match pieces with
  | [] => []
  | piece :: rest =>
      if path_noise piece then skip_components n rest
      else match n with O => pieces | S n => skip_components n rest end
  end.
Definition drop_noise_end (pieces : list string) : list string :=
  rev (skip_components 0 (rev pieces)).
Definition path_strip_prefix (root path : string) : option string :=
  if negb (path_starts_with path root) then None else
  match length (components root), split_on "/" path with
  | S n, _ :: pieces => Some (String.concat "/" (drop_noise_end (skip_components n pieces)))
  | _, first :: pieces => Some (String.concat "/" (first :: drop_noise_end pieces))
  | _, [] => None
  end.
Definition shared_output_root_and_paths (output_paths : list (string * string)) :
    option string * list (string * string) :=
  let shared_root := shared_root_loop None output_paths.*2 in
  (shared_root,
   (λ '(key, path), (key, from_option id path (shared_root ≫= λ root, path_strip_prefix root path)))
     <$> output_paths).

Section render.
Context (to_string to_string_pretty : Value → string)
  (output_keys_to_string : list OutputKey → string).

Definition value_to_rendered_text (value : Value) : string :=
  match as_str value with Some text => text | None => to_string value end.

Definition VUnsigned (n : Z) : Value := VNumber (NPosInt n).
Definition VInt (n : Z) : Value := VNumber (if (0 <=? n)%Z then NPosInt n else NNegInt n).
Definition strings_value (items : list string) : Value := VArray (VString <$> items).
Definition memory_value (bundle : MemoryContextBundle) : list (string * Value) :=
  [("bulletin", VString (mb_bulletin bundle));
   ("citations", strings_value (mb_citations bundle));
   ("truncated", VBool (mb_truncated bundle))].

(** [state_map] *)
Definition prompt_state (run : WorkflowRunRecord) (step_outputs : list (string * JMap)) : JMap :=
  let state := map_from_iter
    [("run_state", VString (RunState_display (wr_state run)));
     ("total_iterations", VUnsigned (wr_total_iterations run));
     ("started_at", VInt (wr_started_at run));
     ("updated_at", VInt (wr_updated_at run))] in
  let state := match wr_current_step_id run with
               | Some step_id => map_insert "current_step_id" (VString step_id) state
               | None => state
               end in
  let state := match wr_current_attempt run with
               | Some attempt => map_insert "current_attempt" (VUnsigned attempt) state
               | None => state
               end in
  foldl (λ state '(step_id, outputs),
    foldl (λ state '(key, value), map_insert (step_id +:+ "_" +:+ key) value state) state outputs)
    state step_outputs.

(** What a token may refer to. *)
Record prompt_scope := {
  ps_run : WorkflowRunRecord;
  ps_workflow : WorkflowConfig;
  ps_step : WorkflowStepConfig;
  ps_attempt : Z;
  ps_run_workspace : string;
  ps_output_paths : list (string * string);
  ps_step_outputs : list (string * JMap);
  ps_shared_workspaces : list StepSharedWorkspaceContext;
}.
Section scope.
Context (scope : prompt_scope).
Local Abbreviation run := (ps_run scope).
Local Abbreviation step := (ps_step scope).

Definition output_paths_value : Value :=
  VObject (map_from_iter ((λ '(k, v), (k, VString v)) <$> ps_output_paths scope)).
Definition runtime_context_value : Value :=
  let memory_context := build_memory_context_bundle (wr_memory_context run) in
  let '(output_path_root, context_output_paths) :=
    shared_output_root_and_paths (ps_output_paths scope) in
  VObject (map_from_iter
    [("runId", VString (wr_run_id run));
     ("workflowId", VString (wf_id (ps_workflow scope)));
     ("stepId", VString (ws_id step));
     ("attempt", VUnsigned (ps_attempt scope));
     ("runWorkspace", VString (ps_run_workspace scope));
     ("inputs", VObject (wr_inputs run));
     ("state", VObject (prompt_state run (ps_step_outputs scope)));
     ("availableStepOutputs", VObject (map_from_iter
        ((λ '(step_id, outputs), (step_id, VObject outputs)) <$> ps_step_outputs scope)));
     ("outputPaths", VObject (map_from_iter
        ((λ '(k, path), (k, VString path)) <$> context_output_paths)));
     ("outputPathRoot", match output_path_root with Some root => VString root | None => VNull end);
     ("memoryContext", VObject (map_from_iter (memory_value memory_context
        ++ [("maxBulletinChars", VUnsigned (Z.of_nat MEMORY_CONTEXT_MAX_BULLETIN_CHARS))])));
     ("sharedWorkspaces", VArray ((λ shared, VObject (map_from_iter
        [("name", VString (sc_name shared)); ("path", VString (sc_path shared));
         ("description", VString (sc_description shared))])) <$> ps_shared_workspaces scope))]).

Definition placeholder (token : string) : string := "`{{" +:+ token +:+ "}}`".
Definition render_error (reason : string) : OrchestratorError := StepPromptRender (ws_id step) reason.
Definition missing_placeholder (token : string) : OrchestratorError :=
  render_error ("missing required placeholder " +:+ placeholder token).
Definition unsupported_placeholder (token : string) : OrchestratorError :=
  render_error ("unsupported placeholder " +:+ placeholder token).
Definition path_segments (path : string) : list string :=
  filter (λ s, non_blank s = true) (split_on "." path).

Definition resolve_input (token path : string) : result OrchestratorError string :=
  match resolve_json_path (VObject (wr_inputs run)) (path_segments path) with
  | None => Err (missing_placeholder token)
  | Some value => Ok (value_to_rendered_text value)
  end.
Definition resolve_step_output (token path : string) : result OrchestratorError string :=
  match split_on "." path with
  | source_step_id :: outputs :: key :: keys =>
      if negb (String.eqb outputs "outputs") then Err (unsupported_placeholder token) else
      match map_get source_step_id (ps_step_outputs scope) with
      | None => Err (render_error ("missing outputs for placeholder " +:+ placeholder token))
      | Some outputs =>
          match resolve_json_path (VObject outputs) (key :: keys) with
          | None => Err (render_error ("missing output key for placeholder " +:+ placeholder token))
          | Some value => Ok (value_to_rendered_text value)
          end
      end
  | _ => Err (unsupported_placeholder token)
  end.
Definition resolve_state (path : string) : string :=
  match resolve_json_path (VObject (prompt_state run (ps_step_outputs scope))) (path_segments path) with
  | None => ""
  | Some value => value_to_rendered_text value
  end.
(** The tokens with a fixed name, and the name of an input field. *)
Definition workflow_value (token : string) : option string :=
  let bundle := build_memory_context_bundle (wr_memory_context run) in
  map_get token
    [("workflow.run_id", wr_run_id run);
     ("workflow.step_id", ws_id step);
     ("workflow.attempt", fmt_int (ps_attempt scope));
     ("workflow.run_workspace", ps_run_workspace scope);
     ("workflow.output_schema_json", output_keys_to_string (ws_outputs step));
     ("workflow.output_paths_json", to_string_pretty output_paths_value);
     ("workflow.runtime_context_json", to_string_pretty runtime_context_value);
     ("workflow.memory_context_bulletin", mb_bulletin bundle);
     ("workflow.memory_context_citations", to_string (strings_value (mb_citations bundle)));
     ("workflow.memory_context_json", to_string (VObject (map_from_iter (memory_value bundle))))].
Definition input_field (token : string) : option string :=
  map_get token
    [("workflow.channel", "channel"); ("workflow.channel_profile_id", "channel_profile_id");
     ("workflow.conversation_id", "conversation_id"); ("workflow.sender_id", "sender_id");
     ("workflow.selector_id", "selector_id")].
Definition resolve_token (token : string) : result OrchestratorError string :=
  match strip_prefix "inputs." token with
  | Some path => resolve_input token path
  | None =>
  match strip_prefix "steps." token with
  | Some path => resolve_step_output token path
  | None =>
  match strip_prefix "state." token with
  | Some path => Ok (resolve_state path)
  | None =>
  match workflow_value token with
  | Some value => Ok value
  | None =>
  match strip_prefix "workflow.output_paths." token with
  | Some path_key =>
      ok_or (render_error ("missing output path for placeholder " +:+ placeholder token))
        (map_get path_key (ps_output_paths scope))
  | None =>
  match input_field token with
  | Some field =>
      match map_get field (wr_inputs run) with
      | None => Err (missing_placeholder token)
      | Some value => Ok (value_to_rendered_text value)
      end
  | None => Err (unsupported_placeholder token)
  end
  end
  end
  end
  end
  end.

Definition render_template (template : string) : result OrchestratorError string :=
  map_err render_error (render_template_with_placeholders
    (λ token, map_err error_display (resolve_token token)) template).
Definition render_step_prompt (prompt_template context_template : string) :
    result OrchestratorError StepPromptRendering :=
  rendered_prompt ← render_template prompt_template;
  context ← render_template context_template;
  Ok {| sr_prompt := rendered_prompt; sr_context := context |}.
End scope.
End render.
