(* ===== verification/PromptGuarantees.v ===== *)
(** * What the prompt templates guarantee

    Theorems about [Prompts] and [PromptRender]: which templates render, that the
    files of a new orchestrator do, that putting templates in place keeps the
    user's files and leaves a directory the checks accept, and how much memory a
    prompt carries. *)
From S2P Require Import Prelude RustStr RustPath Io Json FileTags TypedFields Config OrchestratorFile Templates OrchestratorError OutputContract OutputGuarantees RunStore Assets Prompts PromptRender.
From Stdlib Require Import Ascii.

Local Open Scope string_scope.
Local Open Scope list_scope.

(** ** The placeholders of a template *)
Fixpoint tokens_loop (fuel : nat) (cursor : string) : option (list string) :=
  match fuel, cut "{{" cursor with
  | S fuel, Some (_, after_open) =>
      match cut "}}" after_open with
      | None => None
      | Some (raw, cursor) =>
          if is_empty (trim raw) then None else cons (trim raw) <$> tokens_loop fuel cursor
      end
  | _, _ => Some []
  end.
Definition template_tokens (template : string) : option (list string) :=
  tokens_loop (String.length template) template.

(** A well-formed template renders when all its tokens do, and otherwise fails with
    the error of one of them. *)
Lemma render_loop_spec resolve fuel rendered cursor :
  match tokens_loop fuel cursor with
  | None => ∃ e, render_loop resolve fuel rendered cursor = Err e
  | Some tokens =>
      match render_loop resolve fuel rendered cursor with
      | Ok _ => Forall (λ t, ∃ v, resolve t = Ok v) tokens
      | Err e => ∃ t, t ∈ tokens ∧ resolve t = Err e
      end
  end.
Proof.
  revert rendered cursor. induction fuel as [|fuel IH]; intros rendered cursor; simpl.
  { constructor. }
  destruct (cut "{{" cursor) as [[text after]|]; [|constructor].
  destruct (cut "}}" after) as [[raw rest]|]; [|by eexists].
  destruct (is_empty (trim raw)); [by eexists|]. simpl. unfold mbind, result_bind.
  destruct (resolve (trim raw)) as [v|e] eqn:Hr.
  - specialize (IH ((rendered +:+ text) +:+ v) rest).
    destruct (tokens_loop fuel rest) as [tokens|]; simpl; [|done].
    destruct (render_loop _ _ _ _) as [out|e]; [|destruct IH as (t & Ht & He); exists t; set_solver].
    constructor; [by exists v|done].
  - destruct (tokens_loop fuel rest) as [tokens|]; simpl; [|by eexists].
    exists (trim raw). split; [left|done].
Qed.
Lemma render_template_spec resolve template :
  match template_tokens template with
  | None => ∃ e, render_template_with_placeholders resolve template = Err e
  | Some tokens =>
      match render_template_with_placeholders resolve template with
      | Ok _ => Forall (λ t, ∃ v, resolve t = Ok v) tokens
      | Err e => ∃ t, t ∈ tokens ∧ resolve t = Err e
      end
  end.
Proof. apply render_loop_spec. Qed.

Lemma validated_tokens template kind u :
  validate_template_placeholders template kind = Ok u →
  ∃ tokens, template_tokens template = Some tokens
            ∧ Forall (λ t, placeholder_supported kind t = true) tokens.
Proof.
  unfold validate_template_placeholders. intros (out & Hout & _)%bind_Ok.
  match type of Hout with render_template_with_placeholders ?r _ = _ =>
    pose proof (render_template_spec r template) as H end.
  rewrite Hout in H. destruct (template_tokens template) as [tokens|]; [|by destruct H].
  exists tokens. split; [done|]. eapply Forall_impl; [exact H|]. intros t (v & Hv); simpl in *.
  by destruct (placeholder_supported kind t).
Qed.

(** ** The values of the placeholders *)
Section rendering.
Context (to_string to_string_pretty : Value → string)
  (output_keys_to_string : list OutputKey → string) (scope : prompt_scope).
Local Abbreviation resolve_token :=
  (resolve_token to_string to_string_pretty output_keys_to_string scope).
Local Abbreviation render_template :=
  (render_template to_string to_string_pretty output_keys_to_string scope).

(** The run has the value a token asks for. *)
Definition available (token : string) : Prop :=
  let inputs := wr_inputs (ps_run scope) in
  match strip_prefix "inputs." token with
  | Some path => is_Some (resolve_json_path (VObject inputs) (path_segments path))
  | None =>
  match strip_prefix "steps." token with
  | Some path =>
      match split_on "." path with
      | source :: _ :: keys => ∃ outputs, map_get source (ps_step_outputs scope) = Some outputs
                                          ∧ is_Some (resolve_json_path (VObject outputs) keys)
      | _ => False
      end
  | None =>
  match strip_prefix "workflow.output_paths." token, input_field token with
  | Some key, _ => is_Some (map_get key (ps_output_paths scope))
  | None, Some field => is_Some (map_get field inputs)
  | None, None => True
  end
  end
  end.
Definition missing_reasons : list string :=
  ["missing required placeholder "; "missing outputs for placeholder ";
   "missing output key for placeholder "; "missing output path for placeholder "].
Definition missing (token : string) (e : OrchestratorError) : Prop :=
  ∃ what, what ∈ missing_reasons ∧ e = render_error scope (what +:+ placeholder token).
Definition answers (token : string) : Prop :=
  match resolve_token token with
  | Ok _ => available token
  | Err e => ¬ available token ∧ missing token e
  end.

Lemma missing_intro token what :
  what ∈ missing_reasons → missing token (render_error scope (what +:+ placeholder token)).
Proof. intros H. by exists what. Qed.
Ltac is_missing := split; [|by apply missing_intro; apply (bool_decide_unpack _); vm_compute].

Lemma fixed_token_answers token : token ∈ workflow_tokens → answers token.
Proof.
  intros H. unfold workflow_tokens in H.
  repeat (apply elem_of_cons in H as [->|H]); [..|by apply elem_of_nil in H].
  all: unfold answers, resolve_token, available; cbn -[input_field workflow_value].
  all: match goal with |- context [workflow_value ?a ?b ?c ?d ?t] =>
         destruct (workflow_value a b c d t) eqn:Hv end; try done.
  all: try by vm_compute in Hv.
  all: match goal with |- context [input_field ?t] =>
         let f := eval vm_compute in (input_field t) in change (input_field t) with f end; cbv iota.
  all: destruct (map_get _ (wr_inputs _)); [by eexists|is_missing; by intros []].
Qed.
Lemma supported_token_answers token : is_supported_step_placeholder token = true → answers token.
Proof.
  unfold is_supported_step_placeholder. intros H.
  destruct (decide (token ∈ workflow_tokens)) as [|Hfixed]; [by apply fixed_token_answers|].
  assert (existsb (String.eqb token) workflow_tokens = false) as Hf.
  { apply not_true_iff_false. rewrite existsb_exists. intros (t & Ht & ->%String.eqb_eq).
    by apply Hfixed, list_elem_of_In. }
  rewrite Hf in H. unfold answers, resolve_token, available.
  destruct (strip_prefix "inputs." token) as [path|].
  { unfold resolve_input. destruct (resolve_json_path _ _); [by eexists|is_missing; by intros []]. }
  destruct (strip_prefix "steps." token) as [path|] eqn:Hs.
  { destruct (strip_prefix "state." token) as [p|] eqn:Hst.
    { apply strip_prefix_Some in Hs, Hst. by rewrite Hs in Hst. }
    unfold resolve_step_output.
    destruct (split_on "." path) as [|source [|outputs [|key keys]]]; try done.
    apply andb_prop in H as [H _]. apply andb_prop in H as [-> _]. simpl negb. cbv iota.
    destruct (map_get source (ps_step_outputs scope)) as [outs|]; [|is_missing; by intros (? & ? & _)].
    destruct (resolve_json_path _ _) as [v|] eqn:Hv; [exists outs; by rewrite Hv|].
    is_missing. intros (outs' & [= <-] & Hv'). rewrite Hv in Hv'. by destruct Hv'. }
  destruct (strip_prefix "state." token) as [path|] eqn:Hst.
  { apply strip_prefix_Some in Hst. subst token. done. }
  assert (∀ l : list (string * string), l.*1 = take 10 workflow_tokens → map_get token l = None)
    as Hnone.
  { intros l Hl. destruct (map_get token l) as [v|] eqn:Hv; [|done].
    apply map_get_elem in Hv. destruct Hfixed. apply (subseteq_take 10). rewrite <- Hl.
    by apply (list_elem_of_fmap_2' _ _ (token, v)). }
  unfold workflow_value. rewrite Hnone by reflexivity.
  destruct (strip_prefix "workflow.output_paths." token) as [key|]; [|done].
  destruct (map_get key (ps_output_paths scope)); [by eexists|is_missing; by intros []].
Qed.

(** C13: A step template that passed validation can only fail to render because the
    run lacks a value: rendering succeeds exactly when every placeholder has its
    value, and otherwise the error names one that has none; never an unsupported,
    empty or unclosed placeholder. *)
Theorem validated_prompt_fails_only_for_missing_values (template : string) (u : ())
    (H : validate_template_placeholders template "step" = Ok u) :
  ∃ tokens, template_tokens template = Some tokens
    ∧ match render_template template with
      | Ok _ => Forall available tokens
      | Err e => ∃ token reason, token ∈ tokens ∧ ¬ available token ∧ missing token reason
                                 ∧ e = render_error scope (error_display reason)
      end.
Proof.
  apply validated_tokens in H as (tokens & Ht & Hsup). exists tokens. split; [done|].
  unfold render_template.
  match goal with |- context [render_template_with_placeholders ?r template] =>
    pose proof (render_template_spec r template) as Hr end.
  rewrite Ht in Hr. rewrite Forall_forall in Hsup.
  assert (∀ t, t ∈ tokens → answers t) as Ha.
  { intros t Hin. by apply supported_token_answers, (Hsup t Hin). }
  destruct (render_template_with_placeholders _ _) as [out|e]; simpl.
  - rewrite Forall_forall in Hr |- *. intros t Hin. specialize (Hr t Hin) as (v & Hv).
    specialize (Ha t Hin). unfold answers in Ha.
    by destruct (resolve_token t).
  - destruct Hr as (t & Hin & He). specialize (Ha t Hin). unfold answers in Ha.
    destruct (resolve_token t) as [v|reason]; [done|]. destruct Ha as [Hna Hm].
    injection He as <-. by exists t, reason.
Qed.

(** A template whose placeholders the run has renders. *)
Lemma available_renders template tokens :
  template_tokens template = Some tokens →
  Forall (λ t, is_supported_step_placeholder t = true ∧ available t) tokens →
  ∃ out, render_template template = Ok out.
Proof.
  intros Ht Hall. unfold render_template.
  match goal with |- context [render_template_with_placeholders ?r template] =>
    pose proof (render_template_spec r template) as Hr end.
  rewrite Ht in Hr. destruct (render_template_with_placeholders _ _) as [out|e]; [by exists out|].
  destruct Hr as (t & Hin & He). rewrite Forall_forall in Hall.
  destruct (Hall t Hin) as [Hsup Hav]. pose proof (supported_token_answers t Hsup) as Ha.
  unfold answers in Ha. by destruct (resolve_token t) as [v|r]; [|destruct Ha].
Qed.

(** What can be said of a token from the declared outputs alone. *)
Definition token_declared (outputs : list string) (token : string) : bool :=
  is_supported_step_placeholder token
  && match strip_prefix "workflow.output_paths." token with
     | Some key => bool_decide (key ∈ outputs)
     | None => starts_with "workflow." token && negb (is_ok (ok_or () (input_field token)))
     end.
Lemma token_declared_available outputs token :
  token_declared outputs token = true →
  (∀ key, key ∈ outputs → is_Some (map_get key (ps_output_paths scope))) →
  is_supported_step_placeholder token = true ∧ available token.
Proof.
  unfold token_declared. intros [Hs H]%andb_prop Hkeys. split; [done|]. unfold available.
  destruct (strip_prefix "workflow.output_paths." token) as [key|] eqn:Hp.
  - apply bool_decide_eq_true in H. pose proof Hp as ->%strip_prefix_Some. by apply Hkeys.
  - apply andb_prop in H as [Hw H]. unfold starts_with in Hw.
    destruct (strip_prefix "workflow." token) as [rest|] eqn:Hwf; [|done].
    apply strip_prefix_Some in Hwf as ->. simpl. by destruct (input_field _).
Qed.
Definition template_declared (outputs : list string) (template : string) : bool :=
  match template_tokens template with
  | Some tokens => forallb (token_declared outputs) tokens
  | None => false
  end.
Lemma template_declared_renders outputs template :
  template_declared outputs template = true →
  (∀ key, key ∈ outputs → is_Some (map_get key (ps_output_paths scope))) →
  ∃ out, render_template template = Ok out.
Proof.
  unfold template_declared. intros H Hkeys.
  destruct (template_tokens template) as [tokens|] eqn:Ht; [|done].
  apply (available_renders _ tokens); [done|]. apply Forall_forall. intros t Hin.
  apply forallb_forall with (x := t) in H; [|by apply list_elem_of_In].
  by eapply token_declared_available.
Qed.
End rendering.

(** ** The files of a new orchestrator *)
Definition step_templates_declared (workflow : WorkflowConfig) (step : WorkflowStepConfig) : bool :=
  let outputs := (ws_output_files step).*1 in
  let templates := template_content (wf_id workflow) step in
  template_declared outputs templates.1 && template_declared outputs templates.2.
Lemma initial_templates_declared id provider model t c workflow step :
  initial_orchestrator_config id provider model t = Some c →
  workflow ∈ oc_workflows c → step ∈ wf_steps workflow →
  step_templates_declared workflow step = true.
Proof.
  intros H Hw Hs.
  assert (forallb (λ workflow, forallb (step_templates_declared workflow) (wf_steps workflow))
            (oc_workflows c) = true) as Hall.
  { revert H. unfold initial_orchestrator_config.
    destruct (ConfigProviderKind_parse provider) as [p|]; [|done]. simpl.
    destruct t; intros [= <-]; vm_compute; reflexivity. }
  rewrite forallb_forall in Hall. specialize (Hall workflow).
  rewrite forallb_forall in Hall. by apply Hall; apply list_elem_of_In.
Qed.

(** C14: The prompt files put in place for a new orchestrator render at every attempt
    of every step: whatever the run, its inputs and earlier outputs, once the output
    paths of the attempt are resolved the prompt and the context have all their
    values. *)
Theorem starter_prompts_always_render to_string to_string_pretty output_keys_to_string
    (id provider model : string) (t : WorkflowTemplate) (c : OrchestratorConfig)
    (workflow : WorkflowConfig) (scope : prompt_scope) (state_root run_id : string)
    (Hc : initial_orchestrator_config id provider model t = Some c)
    (Hw : workflow ∈ oc_workflows c) (Hs : ps_step scope ∈ wf_steps workflow)
    (Hpaths : resolve_step_output_paths state_root run_id (ps_step scope) (ps_attempt scope)
              = Ok (ps_output_paths scope)) :
  let templates := template_content (wf_id workflow) (ps_step scope) in
  ∃ rendered, render_step_prompt to_string to_string_pretty output_keys_to_string scope
                templates.1 templates.2 = Ok rendered.
Proof.
  pose proof (initial_templates_declared _ _ _ _ _ _ _ Hc Hw Hs) as Hd.
  apply andb_prop in Hd as [Hp Hx].
  apply bind_Ok in Hpaths as (root & _ & [Hkeys _]%resolve_fold_spec).
  assert (∀ key, key ∈ (ws_output_files (ps_step scope)).*1 →
    is_Some (map_get key (ps_output_paths scope))) as Hav.
  { intros key Hin. apply map_get_keys, Hkeys. by left. }
  unfold render_step_prompt.
  destruct (template_declared_renders to_string to_string_pretty output_keys_to_string scope
              _ _ Hp Hav) as (o1 & ->). simpl.
  destruct (template_declared_renders to_string to_string_pretty output_keys_to_string scope
              _ _ Hx Hav) as (o2 & ->). by eexists.
Qed.

(** *** A run to try them on *)
Definition demo_prompt_run (inputs : JMap) : WorkflowRunRecord := {|
  wr_run_id := "run-1"; wr_workflow_id := "default"; wr_state := Running;
  wr_channel_profile_id := None; wr_inputs := inputs;
  wr_memory_context := RunMemoryContext_default; wr_current_step_id := Some "step_1";
  wr_current_attempt := Some 1%Z; wr_started_at := 100; wr_updated_at := 100;
  wr_total_iterations := 0; wr_source_message_id := None; wr_selector_id := None;
  wr_selected_workflow := None; wr_status_conversation_id := None; wr_terminal_reason := None |}.
Definition demo_workflow : WorkflowConfig :=
  default (template_workflow "" "" [] []) (head (minimal_workflows "default")).
Definition demo_scope (step : WorkflowStepConfig) (output_paths : list (string * string)) :
    prompt_scope := {|
  ps_run := demo_prompt_run [("user_message", VString "hello")]; ps_workflow := demo_workflow;
  ps_step := step; ps_attempt := 1; ps_run_workspace := "/work"; ps_output_paths := output_paths;
  ps_step_outputs := []; ps_shared_workspaces := [] |}.
Definition demo_to_string (_ : Value) : string := "json".
Definition demo_template_step : WorkflowStepConfig :=
  template_step "default" "step_1" AgentTask "default".

Lemma validated_prompt_fails_only_for_missing_values_witness :
  let scope := demo_scope demo_template_step [] in
  let template := "{{inputs.user_message}} {{ inputs.reply_to }} {{workflow.run_id}}" in
  validate_template_placeholders template "step" = Ok ()
  ∧ ∃ tokens, template_tokens template = Some tokens
    ∧ match render_template demo_to_string demo_to_string (λ _, "keys") scope template with
      | Ok _ => Forall (available scope) tokens
      | Err e => ∃ token reason, token ∈ tokens ∧ ¬ available scope token
                   ∧ missing scope token reason ∧ e = render_error scope (error_display reason)
      end.
Proof.
  intros scope template.
  assert (validate_template_placeholders template "step" = Ok ()) as H by (vm_compute; reflexivity).
  split; [exact H|].
  exact (validated_prompt_fails_only_for_missing_values demo_to_string demo_to_string
           (λ _, "keys") scope template () H).
Defined.

Definition demo_output_paths : list (string * string) :=
  default [] (result_ok (resolve_step_output_paths "/state" "run-1" demo_template_step 1)).
Lemma starter_prompts_always_render_witness :
  let scope := demo_scope demo_template_step demo_output_paths in
  ps_step scope ∈ wf_steps demo_workflow
  ∧ ∃ rendered, render_step_prompt demo_to_string demo_to_string (λ _, "keys") scope
      MINIMAL_DEFAULT_STEP_1_PROMPT MINIMAL_DEFAULT_STEP_1_CONTEXT = Ok rendered.
Proof.
  intros scope.
  assert (ps_step scope ∈ wf_steps demo_workflow) as Hs by (left).
  assert (∃ c, initial_orchestrator_config "main" "openai" "gpt" Minimal = Some c
               ∧ demo_workflow ∈ oc_workflows c) as (c & Hc & Hw).
  { eexists. split; [vm_compute; reflexivity|left]. }
  assert (resolve_step_output_paths "/state" "run-1" (ps_step scope) (ps_attempt scope)
          = Ok (ps_output_paths scope)) as Hp by (vm_compute; reflexivity).
  split; [exact Hs|].
  exact (starter_prompts_always_render demo_to_string demo_to_string (λ _, "keys")
           "main" "openai" "gpt" Minimal c demo_workflow scope "/state" "run-1" Hc Hw Hs Hp).
Defined.

(** The built-in texts are chosen by the names of workflow and step alone: a review
    named [step_1] in a workflow [default] gets the prompt of the task, which asks
    for a path the review does not have, so no attempt of it renders. *)
Example review_named_like_a_starter_task :
  let review := workflow_step "default" "step_1" AgentReview "default"
                  (default_prompt_rel_path "default" "step_1") in
  let '(prompt, context) := template_content "default" review in
  ∃ paths, resolve_step_output_paths "/state" "run-1" review 1 = Ok paths
    ∧ validate_template_placeholders prompt "step" = Ok ()
    ∧ is_ok (render_step_prompt demo_to_string demo_to_string (λ _, "keys")
               (demo_scope review paths) prompt context) = false.
Proof. eexists. split_and!; vm_compute; reflexivity. Qed.

(** ** Putting the files in place *)
Definition valid_template (kind body : string) : Prop :=
  is_ok (validate_template_placeholders body kind) = true.
(** The prompt and the context file of a step that refers to one. *)
Definition step_files (prompt_root : string) (step : WorkflowStepConfig) :
    result string (list string) :=
  if negb (is_prompt_template_reference (ws_prompt step)) then Ok [] else
  let prompt_rel := trim (ws_prompt step) in
  prompt_path ← resolve_prompt_template_path prompt_root prompt_rel;
  context_path ← resolve_prompt_template_path prompt_root (context_path_for_prompt_reference prompt_rel);
  Ok [prompt_path; context_path].
Definition orchestrator_steps (c : OrchestratorConfig) : list WorkflowStepConfig :=
  concat (wf_steps <$> oc_workflows c).
Definition selector_files (prompt_root : string) : list string :=
  [path_join prompt_root SELECTOR_PROMPT_REL_PATH; path_join prompt_root SELECTOR_CONTEXT_REL_PATH].

Section templates.
Context (private_workspace : string) (c : OrchestratorConfig).
Local Abbreviation prompt_root := (path_join private_workspace PROMPTS_DIR).

(** The files of the orchestrator, each with the kind of template it holds. *)
Inductive template_file : string → string → Prop :=
  | SelectorFile path : path ∈ selector_files prompt_root → template_file "selector" path
  | StepFile step paths path : step ∈ orchestrator_steps c →
      step_files prompt_root step = Ok paths → path ∈ paths → template_file "step" path.

Definition files_valid (d : disk) : Prop := ∀ kind path body,
  template_file kind path → d !! path = Some body → valid_template kind body.
Definition step_present (d : disk) (step : WorkflowStepConfig) : Prop :=
  ∃ paths, step_files prompt_root step = Ok paths ∧ Forall (λ path, is_Some (d !! path)) paths.
Definition grown (d d' : disk) : Prop := d ⊆ d' ∧ files_valid d'.

Lemma step_present_mono d d' step : d ⊆ d' → step_present d step → step_present d' step.
Proof.
  intros Hd (paths & Hp & Hall). exists paths. split; [done|].
  eapply Forall_impl; [exact Hall|]. intros path (body & Hb). exists body.
  by eapply lookup_weaken.
Qed.
Lemma wp_ensure_file path body (d : disk) (Φ : result ConfigError () → disk → Prop) :
  files_valid d → (∀ kind, template_file kind path → valid_template kind body) →
  (∀ d', grown d d' → is_Some (d' !! path) → Φ (Ok ()) d') →
  wp true (ensure_file path body) Φ d.
Proof.
  intros Hd Hbody HΦ. unfold ensure_file, path_exists. apply wp_bind, wp_fmap, wp_attempt.
  apply wp_sys; [done|]. unfold disk_exists, disk_is_file. simpl.
  destruct (decide (is_Some (d !! path))) as [Hs|Hn].
  { rewrite (bool_decide_eq_true_2 _ Hs). simpl. by apply wp_ret, HΦ. }
  rewrite (bool_decide_eq_false_2 _ Hn). simpl. apply eq_None_not_Some in Hn.
  assert (wp true (io_map_err (io_write_error path) (sys (disk_write path body))) Φ d) as Hw.
  { apply wp_map_err, wp_sys; [done|]. simpl. apply HΦ.
    - split; [by apply insert_subseteq|]. intros kind p b Hf.
      destruct (decide (p = path)) as [->|Hne].
      + unfold disk in *. rewrite lookup_insert_eq. intros [= <-]. by apply Hbody.
      + unfold disk in *. rewrite lookup_insert_ne by done. by apply Hd.
    - unfold disk in *. rewrite lookup_insert_eq. by eexists. }
  apply wp_bind. destruct (path_parent path) as [parent|]; [|by apply wp_ret].
  apply wp_map_err, wp_sys; [done|]. exact Hw.
Qed.
Lemma grown_refl d : files_valid d → grown d d.
Proof. by split. Qed.
Lemma grown_trans d1 d2 d3 : grown d1 d2 → grown d2 d3 → grown d1 d3.
Proof. intros [H1 _] [H2 H3]. split; [by etrans|done]. Qed.

(** The selector's files are not at the same time prompts of a step. *)
Context (Hapart : ∀ step paths path, step ∈ orchestrator_steps c →
  step_files prompt_root step = Ok paths → path ∈ paths → path ∉ selector_files prompt_root).

Lemma kind_of_step_file step paths path kind :
  step ∈ orchestrator_steps c → step_files prompt_root step = Ok paths → path ∈ paths →
  template_file kind path → kind = "step".
Proof.
  intros Hs Hf Hin H. destruct H as [path Hp|]; [|done].
  by destruct (Hapart step paths path Hs Hf Hin).
Qed.
Lemma kind_of_selector_file path kind :
  path ∈ selector_files prompt_root → template_file kind path → kind = "selector".
Proof.
  intros Hp H. destruct H as [|step paths path Hs Hf Hin]; [done|].
  by destruct (Hapart step paths path Hs Hf Hin).
Qed.

Lemma builtin_templates_valid workflow_id step :
  valid_template "step" (template_content workflow_id step).1
  ∧ valid_template "step" (template_content workflow_id step).2.
Proof.
  unfold template_content, builtin_template_content. cbv zeta beta.
  destruct (ws_step_type step);
    repeat match goal with |- context [if ?b then _ else _] => destruct b end;
    split; vm_compute; reflexivity.
Qed.

Lemma wp_ensure_step workflow step d :
  step ∈ orchestrator_steps c → files_valid d →
  wp true (ensure_step private_workspace workflow step) (λ r d', grown d d' ∧
    match r with
    | Ok _ => step_present d' step
    | Err e => ∃ reason, e = COrchestrator reason
    end) d.
Proof.
  intros Hs Hd. pose proof (kind_of_step_file step) as Hkind. unfold ensure_step.
  unfold step_present. unfold step_files in Hkind |- *.
  destruct (negb (is_prompt_template_reference (ws_prompt step))).
  { apply wp_ret. split; [by apply grown_refl|]. exists []. by split. }
  apply wp_bind, wp_lift.
  destruct (resolve_prompt_template_path prompt_root (trim (ws_prompt step))) as [p|e];
    [|split; [by apply grown_refl|by eexists]].
  simpl. apply wp_bind, wp_lift.
  destruct (resolve_prompt_template_path prompt_root (context_path_for_prompt_reference _)) as [x|e];
    [|split; [by apply grown_refl|by eexists]].
  simpl. pose proof (builtin_templates_valid (wf_id workflow) step) as [Hv1 Hv2].
  destruct (template_content _ _) as [body1 body2]. simpl in Hv1, Hv2.
  apply wp_bind, wp_ensure_file; [done| |].
  { intros kind Hf. rewrite (Hkind [p; x] p kind); [done|done|done|set_solver|done]. }
  intros d1 H1 Hp. apply wp_ensure_file; [apply H1| |].
  { intros kind Hf. rewrite (Hkind [p; x] x kind); [done|done|done|set_solver|done]. }
  intros d2 H2 Hx. split; [by eapply grown_trans|]. exists [p; x]. split; [done|].
  repeat constructor; [|done]. destruct Hp as (b & Hb). exists b. by eapply lookup_weaken, H2.
Qed.

(** The steps handled so far, and with them the workflows. *)
Lemma wp_ensure_steps workflow (d : disk) :
  (∀ step, step ∈ wf_steps workflow → step ∈ orchestrator_steps c) → files_valid d →
  wp true (io_for_each (ensure_step private_workspace workflow) (wf_steps workflow))
    (λ r d', grown d d' ∧
      match r with
      | Ok _ => Forall (step_present d') (wf_steps workflow)
      | Err e => ∃ reason, e = COrchestrator reason
      end) d.
Proof.
  intros Hin Hd.
  apply (wp_for_each _ (λ rest d', grown d d' ∧ (∀ step, step ∈ rest → step ∈ wf_steps workflow)
    ∧ ∀ step, step ∈ wf_steps workflow → step ∈ rest ∨ step_present d' step)).
  - split_and!; [by apply grown_refl|done|by left].
  - intros step rest d1 (Hg & Hrest & Hdone).
    eapply wp_mono; [apply wp_ensure_step; [by apply Hin, Hrest; left|apply Hg]|].
    intros [[]|e] d2 [Hg2 H]; [|by split; [eapply grown_trans|]].
    split_and!; [by eapply grown_trans|by intros; apply Hrest; right|].
    intros s [[->|Hs]%elem_of_cons|Hs]%Hdone; [by right|by left|right].
    by eapply step_present_mono; [apply Hg2|].
  - intros d' (Hg & _ & Hdone). split; [done|]. apply Forall_forall.
    by intros step [[]%elem_of_nil|]%Hdone.
Qed.
Lemma workflow_step_in workflow step :
  workflow ∈ oc_workflows c → step ∈ wf_steps workflow → step ∈ orchestrator_steps c.
Proof.
  intros Hw Hs. apply list_elem_of_In, in_concat. exists (wf_steps workflow).
  split; apply list_elem_of_In; [by apply list_elem_of_fmap_2|done].
Qed.
Lemma wp_ensure_workflows (d : disk) :
  files_valid d →
  wp true (io_for_each (λ workflow, io_for_each (ensure_step private_workspace workflow)
             (wf_steps workflow)) (oc_workflows c))
    (λ r d', grown d d' ∧
      match r with
      | Ok _ => ∀ workflow, workflow ∈ oc_workflows c →
                  Forall (step_present d') (wf_steps workflow)
      | Err e => ∃ reason, e = COrchestrator reason
      end) d.
Proof.
  intros Hd.
  apply (wp_for_each _ (λ rest d', grown d d' ∧ (∀ w, w ∈ rest → w ∈ oc_workflows c)
    ∧ ∀ w, w ∈ oc_workflows c → w ∈ rest ∨ Forall (step_present d') (wf_steps w))).
  - split_and!; [by apply grown_refl|done|by left].
  - intros w rest d1 (Hg & Hrest & Hdone). eapply wp_mono.
    { apply wp_ensure_steps; [|apply Hg]. intros step. apply workflow_step_in, Hrest. by left. }
    intros [[]|e] d2 [Hg2 H]; [|by split; [eapply grown_trans|]].
    split_and!; [by eapply grown_trans|by intros; apply Hrest; right|].
    intros w' [[->|Hw]%elem_of_cons|Hw]%Hdone; [by right|by left|right].
    eapply Forall_impl; [exact Hw|]. intros step. by apply step_present_mono, Hg2.
  - intros d' (Hg & _ & Hdone). split; [done|]. by intros w [[]%elem_of_nil|]%Hdone.
Qed.

(** ** Checking them *)
Lemma wp_check_template what kind path body (d : disk) (Φ : result ConfigError _ → disk → Prop) :
  d !! path = Some body → valid_template kind body → Φ (Ok []) d →
  wp true (check_template what kind path) Φ d.
Proof.
  intros Hb Hv HΦ. unfold check_template, path_exists. apply wp_bind, wp_fmap, wp_attempt.
  apply wp_sys; [done|]. unfold disk_exists, disk_is_file. simpl. rewrite Hb.
  rewrite bool_decide_eq_true_2 by eauto. simpl.
  apply wp_bind, wp_attempt, wp_sys; [done|]. simpl. rewrite Hb. apply wp_ret.
  unfold valid_template in Hv. by destruct (validate_template_placeholders body kind).
Qed.
Lemma wp_check_step workflow step issues (d : disk) (Φ : result ConfigError _ → disk → Prop) :
  is_prompt_template_reference (ws_prompt step) = true →
  step ∈ orchestrator_steps c → files_valid d → step_present d step → Φ (Ok issues) d →
  wp true (check_step private_workspace workflow step issues) Φ d.
Proof.
  intros Href Hs Hd (paths & Hp & Hall) HΦ. pose proof (StepFile step paths) as Hfile.
  unfold check_step. unfold step_files in Hp, Hfile. rewrite Href in Hp, Hfile |- *. simpl in *.
  destruct (resolve_prompt_template_path _ (trim (ws_prompt step))) as [p|]; [|done].
  simpl in *. destruct (resolve_prompt_template_path _ (context_path_for_prompt_reference _)) as [x|];
    [|done].
  injection Hp as <-. apply Forall_cons in Hall as [[b1 H1] Hall].
  apply Forall_cons in Hall as [[b2 H2] _].
  apply wp_bind. eapply wp_check_template; [exact H1| |].
  { apply (Hd "step" p); [|done]. apply (Hfile p); [done|done|by left]. }
  apply wp_bind. eapply wp_check_template; [exact H2| |].
  { apply (Hd "step" x); [|done]. apply (Hfile x); [done|done|by right; left]. }
  apply wp_ret. by rewrite !app_nil_r.
Qed.
Lemma wp_validate (d : disk) :
  files_valid d → Forall (λ path, is_Some (d !! path)) (selector_files prompt_root) →
  (∀ workflow, workflow ∈ oc_workflows c → Forall (step_present d) (wf_steps workflow)) →
  Forall (λ step, is_prompt_template_reference (ws_prompt step) = true) (orchestrator_steps c) →
  wp true (validate_orchestrator_prompt_templates private_workspace c)
    (λ issues d', issues = Ok [] ∧ d' = d) d.
Proof.
  intros Hd Hsel Hsteps Hrefs. unfold validate_orchestrator_prompt_templates.
  apply Forall_cons in Hsel as [[b1 H1] Hsel]. apply Forall_cons in Hsel as [[b2 H2] _].
  apply wp_bind. eapply wp_check_template; [exact H1| |].
  { eapply Hd; [|exact H1]. apply SelectorFile. by left. }
  apply wp_bind. eapply wp_check_template; [exact H2| |].
  { eapply Hd; [|exact H2]. apply SelectorFile. by right; left. }
  apply (wp_for_fold _ (λ issues ws d', issues = [] ∧ d' = d ∧ ws ⊆ oc_workflows c)).
  { done. }
  2: { by intros issues d' (-> & -> & _). }
  intros issues w ws d' (-> & -> & Hws).
  assert (w ∈ oc_workflows c) as Hw by (apply Hws; left).
  assert (ws ⊆ oc_workflows c) as Hws' by (intros ? ?; apply Hws; by right).
  apply (wp_for_fold _ (λ issues steps d', issues = [] ∧ d' = d ∧ steps ⊆ wf_steps w)).
  { done. }
  2: { by intros issues d' (-> & -> & _). }
  intros issues step steps d' (-> & -> & Hs).
  assert (step ∈ wf_steps w) as Hin by (apply Hs; left).
  specialize (Hsteps w Hw). rewrite Forall_forall in Hsteps, Hrefs.
  apply wp_check_step; [by apply Hrefs; eapply workflow_step_in|by eapply workflow_step_in|done|
                        by apply Hsteps|].
  split_and!; [done|done|]. intros ? ?. apply Hs. by right.
Qed.
End templates.


Definition demo_orchestrator_config : OrchestratorConfig :=
  default {| oc_id := ""; oc_selector_agent := ""; oc_default_workflow := "";
             oc_selection_max_retries := 0; oc_selector_timeout_seconds := 0; oc_agents := [];
             oc_workflows := []; oc_workflow_orchestration := None |}
    (initial_orchestrator_config "main" "openai" "gpt" Minimal).
(** The user has written a prompt of his own. *)
Definition demo_prompt_disk : disk :=
  {[ "/ws/prompts/workflows/default/step_1.prompt.md" := "Answer {{inputs.user_message}}" ]}.
Lemma demo_step_files :
  step_files "/ws/prompts" demo_template_step
  = Ok ["/ws/prompts/workflows/default/step_1.prompt.md";
        "/ws/prompts/workflows/default/step_1.context.md"].
Proof. by vm_compute. Qed.
Lemma demo_steps : orchestrator_steps demo_orchestrator_config = [demo_template_step].
Proof. by vm_compute. Qed.


(** [path.exists()] is also false when the file cannot be examined: the user's
    prompt is then overwritten. *)
Example unexaminable_prompt_is_overwritten (e : io_error) :
  let '(w, r) := ensure_file "/ws/prompts/p.md" "default"
                   (World {[ "/ws/prompts/p.md" := "mine" ]} (Env [Some e] [])) in
  r = Ok () ∧ st w !! "/ws/prompts/p.md" = Some "default".
Proof. by vm_compute. Qed.

(** ** The memory in a prompt *)
#[local] Arguments join : simpl never.
Lemma truncate_lines_more max out used lines :
  out ≠ "" → used = chars_count out → (used ≤ max)%nat →
  ∃ k used' t, truncate_lines max out used lines
               = Kept (join newline (out :: take k lines)) used' t
    ∧ (chars_count (join newline (out :: take k lines)) ≤ max)%nat
    ∧ used' = chars_count (join newline (out :: take k lines)).
Proof.
  revert out used. induction lines as [|line lines IH]; intros out used Hout -> Hmax; simpl.
  { by exists 0%nat, (chars_count out), false. }
  replace (is_empty out) with false by (by destruct out). simpl.
  destruct (Nat.ltb_spec max (chars_count out + 1 + chars_count line)) as [Hgt|Hle].
  { by exists 0%nat, (chars_count out), true. }
  destruct (IH ((out +:+ newline) +:+ line) (chars_count out + 1 + chars_count line)%nat)
    as (k & used' & t & H & Hm & Hu).
  - by destruct out.
  - rewrite !chars_count_app. simpl. lia.
  - done.
  - assert (join newline (out :: take (S k) (line :: lines))
            = join newline (((out +:+ newline) +:+ line) :: take k lines)) as E.
    { change (take (S k) (line :: lines)) with (line :: take k lines). rewrite join_cons.
      destruct (take k lines) as [|l ls]; [|rewrite !join_cons]; by rewrite !str_app_assoc. }
    exists (S k), used', t. by rewrite E.
Qed.
(** Leading blank lines are skipped; then whole lines are taken, or the first line
    alone is too long and cut. *)
Lemma truncate_lines_start max lines :
  ∃ j, Forall (λ line, line = "") (take j lines) ∧
    ((∃ k used t, truncate_lines max "" 0 lines = Kept (join newline (take k (drop j lines))) used t
       ∧ (chars_count (join newline (take k (drop j lines))) ≤ max)%nat
       ∧ used = chars_count (join newline (take k (drop j lines))))
     ∨ ∃ line, lines !! j = Some line ∧ (max < chars_count line)%nat
         ∧ truncate_lines max "" 0 lines = HardCut (chars_take max line)).
Proof.
  induction lines as [|line lines IH]; simpl.
  { exists 0%nat. split; [done|]. left. exists 0%nat, 0%nat, false. simpl. split_and!; [done|lia|done]. }
  destruct (Nat.ltb_spec max (chars_count line)) as [Hgt|Hle].
  { exists 0%nat. split; [done|]. right. by exists line. }
  destruct (decide (line = "")) as [->|Hne].
  - destruct IH as (j & Hblank & H). exists (S j). split; [by constructor|exact H].
  - destruct (truncate_lines_more max line (chars_count line) lines Hne eq_refl Hle)
      as (k & used & t & H & Hm & Hu).
    exists 0%nat. split; [done|]. left. by exists (S k), used, t.
Qed.

(** C16: A prompt carries at most 4000 characters of the memory bulletin and its first
    32 citations, and says that it was shortened exactly when it was.  A bulletin
    that fits is given as it is; of a longer one, after its leading blank lines,
    whole lines are kept, and only a first line that is itself too long is cut. *)
Theorem memory_in_a_prompt_is_bounded (memory : RunMemoryContext) :
  let bundle := build_memory_context_bundle memory in
  let fits := (chars_count (mc_bulletin memory) ≤ MEMORY_CONTEXT_MAX_BULLETIN_CHARS)%nat in
  let lines := str_lines (mc_bulletin memory) in
  (chars_count (mb_bulletin bundle) ≤ MEMORY_CONTEXT_MAX_BULLETIN_CHARS)%nat
  ∧ mb_citations bundle = take MEMORY_CONTEXT_MAX_CITATIONS (mc_citations memory)
  ∧ (mb_truncated bundle = false ↔
       fits ∧ (length (mc_citations memory) ≤ MEMORY_CONTEXT_MAX_CITATIONS)%nat)
  ∧ (fits → mb_bulletin bundle = mc_bulletin memory)
  ∧ (¬ fits → ∃ j, Forall (λ line, line = "") (take j lines) ∧
       ((∃ k, mb_bulletin bundle = join newline (take k (drop j lines)))
        ∨ ∃ line, lines !! j = Some line
            ∧ (MEMORY_CONTEXT_MAX_BULLETIN_CHARS < chars_count line)%nat
            ∧ mb_bulletin bundle = chars_take MEMORY_CONTEXT_MAX_BULLETIN_CHARS line)).
Proof.
  unfold build_memory_context_bundle, truncate_memory_bulletin_by_lines.
  generalize MEMORY_CONTEXT_MAX_BULLETIN_CHARS as max, MEMORY_CONTEXT_MAX_CITATIONS as cmax.
  intros max cmax. destruct memory as [bulletin citations]; simpl.
  assert (Hcit : (cmax <? length citations)%nat = false → citations = take cmax citations).
  { intros H%Nat.ltb_ge. by rewrite take_ge. }
  destruct (Nat.leb_spec (chars_count bulletin) max) as [Hfit|Hlong].
  - rewrite (proj2 (Nat.ltb_ge max _) Hfit). rewrite (proj2 (Nat.ltb_ge max _) Hfit).
    destruct (Nat.ltb_spec cmax (length citations)); simpl; split_and!; try done; try lia.
    + by apply Hcit.
  - rewrite (proj2 (Nat.ltb_lt max _) Hlong).
    destruct (truncate_lines_start max (str_lines bulletin)) as (j & Hj & [(k & used & t & H & Hm & Hu)
      |(line & Hline & Hll & H)]); rewrite H; simpl.
    + rewrite (proj2 (Nat.ltb_lt used _)) by lia. rewrite orb_true_r.
      rewrite (proj2 (Nat.ltb_ge max _) Hm).
      destruct (Nat.ltb_spec cmax (length citations)); simpl; split_and!; try done; try lia;
        try (by intros ?; exists j; split; [done|left; exists k]).
      by apply Hcit.
    + pose proof (chars_count_take max line) as Hc.
      rewrite (proj2 (Nat.ltb_ge max _) Hc).
      destruct (Nat.ltb_spec cmax (length citations)); simpl; split_and!; try done; try lia;
        try (by intros ?; exists j; split; [done|right; exists line]).
      by apply Hcit.
Qed.
