(* ===== verification/Provider.v ===== *)
(** * Model providers

    [src/src/provider/*.rs]: the command line for a provider's program, running it
    with a time limit, what it answered, and the files a prompt is handed over in.
    The program is a [process]: what the operating system and the program do when it
    is started; [serde_json::from_str] is a parameter. *)
From S2P Require Import Prelude RustStr RustPath Io Json Prompts PromptRender.

Local Open Scope string_scope.
Local Open Scope list_scope.

(** ** Types *)
Inductive ProviderKind := ProviderAnthropic | ProviderOpenAi.
#[export] Instance ProviderKind_eq_dec : EqDecision ProviderKind.
Proof. solve_decision. Defined.
Definition ProviderKind_display (k : ProviderKind) : string :=
  match k with ProviderAnthropic => "anthropic" | ProviderOpenAi => "openai" end.

Record PromptArtifacts := { pa_prompt_file : string; pa_context_files : list string }.
Record ProviderRequest := {
  pq_agent_id : string;
  pq_provider : ProviderKind;
  pq_model : string;
  pq_cwd : string;
  pq_message : string;
  pq_prompt_artifacts : PromptArtifacts;
  pq_timeout_ms : Z;
  pq_reset_requested : bool;
  pq_fresh_on_failure : bool;
  pq_env_overrides : list (string * string);
}.
Record InvocationSpec := { is_binary : string; is_args : list string; is_resolved_model : string }.
Record InvocationLog := {
  il_agent_id : string;
  il_provider : ProviderKind;
  il_model : string;
  il_command_form : string;
  il_working_directory : string;
  il_prompt_file : string;
  il_context_files : list string;
  il_exit_code : option Z;
  il_timed_out : bool;
}.
Record ProviderResult := { pv_message : string; pv_log : InvocationLog }.
Record RunnerBinaries := { rb_anthropic : string; rb_openai : string }.
Definition RunnerBinaries_default : RunnerBinaries :=
  {| rb_anthropic := "claude"; rb_openai := "codex" |}.

Inductive ProviderError :=
  | UnknownProvider (value : string)
  | UnsupportedAnthropicModel (model : string)
  | MissingBinary (provider : ProviderKind) (binary : string) (log : InvocationLog)
  | NonZeroExit (provider : ProviderKind) (exit_code : Z) (stderr : string) (log : InvocationLog)
  | ProviderTimeout (provider : ProviderKind) (timeout_ms : Z) (log : InvocationLog)
  | ParseFailure (provider : ProviderKind) (reason : string) (log : option InvocationLog)
  | ProviderIo (path : string) (source : io_error).
Definition ProviderError_display (e : ProviderError) : string :=
  String.concat "" match e with
  | UnknownProvider value => ["unknown provider `"; value; "`"]
  | UnsupportedAnthropicModel model => ["unsupported anthropic model `"; model; "`"]
  | MissingBinary provider binary _ =>
      ["provider binary missing for "; ProviderKind_display provider; ": "; binary]
  | NonZeroExit provider exit_code stderr _ =>
      ["provider process failed for "; ProviderKind_display provider; " with exit code ";
       fmt_int exit_code; ": "; stderr]
  | ProviderTimeout provider timeout_ms _ =>
      ["provider process timed out for "; ProviderKind_display provider; " after ";
       fmt_int timeout_ms; "ms"]
  | ParseFailure provider reason _ =>
      ["provider output parse failure for "; ProviderKind_display provider; ": "; reason]
  | ProviderIo path source => ["io error at "; path; ": "; ioe_display source]
  end.
(** [TryFrom<&str>] *)
Definition ProviderKind_try_from (value : string) : result ProviderError ProviderKind :=
  let lowered := to_ascii_lowercase (trim value) in
  if String.eqb lowered "anthropic" then Ok ProviderAnthropic
  else if String.eqb lowered "openai" then Ok ProviderOpenAi
  else Err (UnknownProvider lowered).
Definition provider_error_log (error : ProviderError) : option InvocationLog :=
  match error with
  | MissingBinary _ _ log | NonZeroExit _ _ _ log | ProviderTimeout _ _ log => Some log
  | ParseFailure _ _ log => log
  | UnknownProvider _ | UnsupportedAnthropicModel _ | ProviderIo _ _ => None
  end.

(** ** The command line *)
Definition resolve_anthropic_model (model : string) : result ProviderError string :=
  let other := trim model in
  if String.eqb other "sonnet" then Ok "claude-sonnet-4-5"
  else if String.eqb other "opus" then Ok "claude-opus-4-6"
  else if String.eqb other "haiku" then Ok "claude-haiku-4-5"
  else if existsb (String.eqb other) ["claude-sonnet-4-5"; "claude-opus-4-6"; "claude-haiku-4-5"]
  then Ok other
  else Err (UnsupportedAnthropicModel other).

Definition build_invocation (request : ProviderRequest) (binaries : RunnerBinaries) :
    result ProviderError InvocationSpec :=
  let continued := negb (pq_reset_requested request) && negb (pq_fresh_on_failure request) in
  match pq_provider request with
  | ProviderAnthropic =>
      model ← resolve_anthropic_model (pq_model request);
      Ok {| is_binary := rb_anthropic binaries;
            is_args := ["--dangerously-skip-permissions"; "--model"; model]
              ++ (if continued then ["-c"] else []) ++ ["-p"; pq_message request];
            is_resolved_model := model |}
  | ProviderOpenAi =>
      Ok {| is_binary := rb_openai binaries;
            is_args := ["exec"] ++ (if continued then ["resume"; "--last"] else [])
              ++ ["--model"; pq_model request; "--skip-git-repo-check"; "--full-auto"; "--json";
                  pq_message request];
            is_resolved_model := pq_model request |}
  end.

(** ** The answer *)
Definition parse_anthropic_output (stdout : string) : result ProviderError string :=
  let trimmed := trim stdout in
  if is_empty trimmed then Err (ParseFailure ProviderAnthropic "stdout was empty" None)
  else Ok trimmed.

(** [Value::get] of a key, and [.and_then(Value::as_str)] with a text that is not
    blank. *)
Definition json_get (key : string) (value : Value) : option Value :=
  object ← as_object value; map_get key object.
Definition trimmed_text (value : Value) : option string :=
  text ← as_str value;
  let trimmed := trim text in if is_empty trimmed then None else Some trimmed.
Definition extract_agent_message (item : Value) : option string :=
  match json_get "text" item ≫= trimmed_text with
  | Some text => Some text
  | None =>
  match json_get "message" item ≫= trimmed_text with
  | Some message => Some message
  | None =>
      content ← json_get "content" item;
      match trimmed_text content, content with
      | Some text, _ => Some text
      | None, VArray entries =>
          let lines := omap (λ entry, json_get "text" entry ≫= trimmed_text) entries in
          if is_nil lines then None else Some (join newline lines)
      | None, _ => None
      end
  end
  end.

Section json.
Context (from_str : string → result string Value).

Definition is_agent_message (value : Value) : option Value :=
  if bool_decide (json_get "type" value ≫= as_str = Some "item.completed") then
    item ← json_get "item" value;
    if bool_decide (json_get "type" item ≫= as_str = Some "agent_message") then Some item else None
  else None.
Definition read_event (last_message : option string) (line : string) :
    result ProviderError (option string) :=
  let line := trim line in
  if is_empty line then Ok last_message else
  value ← map_err (λ err, ParseFailure ProviderOpenAi ("invalid jsonl event: " +:+ err) None)
            (from_str line);
  Ok match is_agent_message value ≫= extract_agent_message with
     | Some message => Some message
     | None => last_message
     end.
Definition parse_openai_jsonl (stdout : string) : result ProviderError string :=
  last_message ← for_fold read_event (str_lines stdout) None;
  ok_or (ParseFailure ProviderOpenAi "missing terminal agent_message item.completed event" None)
    last_message.

(** ** Running the program *)
Definition EXECUTABLE_BUSY_MAX_ATTEMPTS : nat := 50.
(** What happens when a program is started: the answers to the tries to start it;
    at the [n]th look whether it has ended, and the nanoseconds since the start
    then; its exit code ([None]: killed by a signal) once it is killed; and what it
    wrote to its two pipes until they were closed, [None] when some process keeps
    one of them open for ever. *)
Record process := {
  pc_spawn : nat → result io_error ();
  pc_try_wait : nat → result io_error (option (option Z));
  pc_elapsed : nat → Z;
  pc_wait : result io_error (option Z);
  pc_output : option (string * string);
}.

Fixpoint spawn_loop (tries : nat) (busy_attempts : nat) (p : process) : result io_error () :=
  match pc_spawn p busy_attempts with
  | Ok _ => Ok ()
  | Err err =>
      if decide (ioe_kind err = ExecutableFileBusy) then
        if (EXECUTABLE_BUSY_MAX_ATTEMPTS <=? busy_attempts + 1)%nat then Err err
        else match tries with
             | O => Err err
             | S tries => spawn_loop tries (busy_attempts + 1) p
             end
      else Err err
  end.
(** The wait for its end; it looks every ten milliseconds, so that the time limit is
    passed after as many looks ([wait_fuel]). *)
Inductive waited := Exited (code : option Z) | TimedOut | WaitFailed (err : io_error) | StillWaiting.
Fixpoint wait_loop (fuel n : nat) (timeout_ms : Z) (p : process) : waited :=
  match fuel with
  | O => StillWaiting
  | S fuel =>
      match pc_try_wait p n with
      | Ok (Some code) => Exited code
      | Ok None =>
          if bool_decide (timeout_ms * 1000000 < pc_elapsed p n)%Z then TimedOut
          else wait_loop fuel (S n) timeout_ms p
      | Err err => WaitFailed err
      end
  end.
Definition wait_fuel (timeout_ms : Z) : nat := Z.to_nat (timeout_ms / 10 + 2).

Definition format_failure_detail (stdout stderr : string) : string :=
  let stdout := trim stdout in
  let stderr := trim stderr in
  match is_empty stdout, is_empty stderr with
  | true, true => ""
  | true, false => stderr
  | false, true => stdout
  | false, false => String.concat "" ["stderr:"; newline; stderr; newline; newline; "stdout:";
                                      newline; stdout]
  end.
Definition with_exit (exit_code : option Z) (timed_out : bool) (log : InvocationLog) : InvocationLog :=
  {| il_agent_id := il_agent_id log; il_provider := il_provider log; il_model := il_model log;
     il_command_form := il_command_form log; il_working_directory := il_working_directory log;
     il_prompt_file := il_prompt_file log; il_context_files := il_context_files log;
     il_exit_code := exit_code; il_timed_out := timed_out |}.
Definition invocation_log (request : ProviderRequest) (spec : InvocationSpec) : InvocationLog := {|
  il_agent_id := pq_agent_id request; il_provider := pq_provider request;
  il_model := is_resolved_model spec;
  il_command_form := String.concat "" [is_binary spec; " "; join " " (is_args spec)];
  il_working_directory := pq_cwd request;
  il_prompt_file := pa_prompt_file (pq_prompt_artifacts request);
  il_context_files := pa_context_files (pq_prompt_artifacts request);
  il_exit_code := None; il_timed_out := false |}.
Definition parse_output (provider : ProviderKind) (stdout : string) : result ProviderError string :=
  match provider with
  | ProviderAnthropic => parse_anthropic_output stdout
  | ProviderOpenAi => parse_openai_jsonl stdout
  end.
(** What the exit of the program and its output mean. *)
Definition conclude_exit (request : ProviderRequest) (base_log : InvocationLog) (code : option Z)
    (stdout stderr : string) : result ProviderError ProviderResult :=
  let log := with_exit code false base_log in
  if negb (bool_decide (code = Some 0%Z)) then
    Err (NonZeroExit (pq_provider request) (from_option id (-1)%Z code)
           (format_failure_detail stdout stderr) log)
  else
    message ← map_err (λ err, match err with
                              | ParseFailure provider reason _ => ParseFailure provider reason (Some log)
                              | other => other
                              end) (parse_output (pq_provider request) stdout);
    Ok {| pv_message := message; pv_log := log |}.

(** [None]: it does not come back. *)
Definition run_provider (run : InvocationSpec → string → process) (request : ProviderRequest)
    (binaries : RunnerBinaries) : option (result ProviderError ProviderResult) :=
  match build_invocation request binaries with
  | Err err => Some (Err err)
  | Ok spec =>
      let base_log := invocation_log request spec in
      let p := run spec (pq_cwd request) in
      match spawn_loop EXECUTABLE_BUSY_MAX_ATTEMPTS 0 p with
      | Err err => Some (Err
          (if decide (ioe_kind err = NotFound)
           then MissingBinary (pq_provider request) (is_binary spec) base_log
           else ProviderIo (pq_cwd request) err))
      | Ok _ =>
          match wait_loop (wait_fuel (pq_timeout_ms request)) 0 (pq_timeout_ms request) p with
          | StillWaiting => None
          | WaitFailed err => Some (Err (ProviderIo (pq_cwd request) err))
          | TimedOut =>
              match pc_wait p with
              | Err err => Some (Err (ProviderIo (pq_cwd request) err))
              | Ok code =>
                  _ ← pc_output p;
                  Some (Err (ProviderTimeout (pq_provider request)
                               (pq_timeout_ms request mod (u64_max + 1))%Z
                               (with_exit code true base_log)))
              end
          | Exited code =>
              '(stdout, stderr) ← pc_output p;
              Some (conclude_exit request base_log code stdout stderr)
          end
      end
  end.

(** A [program] is started with a command line in a directory, with the files there
    are: how it behaves, and the files it leaves if it is started. *)
Section program.
Context (program : InvocationSpec → string → disk → process * disk)
  (runner_binaries : RunnerBinaries).
Definition files_after (request : ProviderRequest) (files : disk) : disk :=
  match build_invocation request runner_binaries with
  | Err _ => files
  | Ok spec =>
      let '(p, files_left) := program spec (pq_cwd request) files in
      match spawn_loop EXECUTABLE_BUSY_MAX_ATTEMPTS 0 p with Ok _ => files_left | Err _ => files end
  end.
Definition answer_of (files : disk) (request : ProviderRequest) :
    option (result ProviderError ProviderResult) :=
  run_provider (λ spec cwd, (program spec cwd files).1) request runner_binaries.
(** A call of [run_provider]. *)
Definition provider_call {E} (request : ProviderRequest) :
    IO disk E (option (result ProviderError ProviderResult)) :=
  files ← get;
  modify (files_after request) ;;
  mret (answer_of files request).
End program.
End json.

(** ** Handing over a prompt *)
Record ResetResolution := { rr_reset_requested : bool; rr_consumed_agent : bool }.
Definition consume_reset_flag (agent_flag : string) : IO disk ProviderError ResetResolution :=
  exists_ ← path_exists (disk_exists agent_flag);
  consumed_agent ←
    (if (exists_ : bool) then
       io_map_err (ProviderIo agent_flag) (sys (disk_remove agent_flag)) ;; mret true
     else mret false);
  mret {| rr_reset_requested := consumed_agent; rr_consumed_agent := consumed_agent |}.
Definition write_file_backed_prompt (workspace prompt context : string) :
    IO disk ProviderError PromptArtifacts :=
  io_map_err (ProviderIo workspace) (sys (create_dir_all workspace)) ;;
  let prompt_file := path_join workspace "prompt.md" in
  let context_file := path_join workspace "context.md" in
  io_map_err (ProviderIo prompt_file) (sys (disk_write prompt_file prompt)) ;;
  io_map_err (ProviderIo context_file) (sys (disk_write context_file context)) ;;
  mret {| pa_prompt_file := prompt_file; pa_context_files := [context_file] |}.
