(* ===== verification/ProviderGuarantees.v ===== *)
(** * What running a provider guarantees

    Theorems about [Provider]: a provider's program is waited for no longer than its
    time limit as long as its pipes close, what each way it can end is reported as,
    and which message of an event stream is the answer. *)
From S2P Require Import Prelude RustStr RustPath Io Json Prompts PromptRender Provider.

Local Open Scope string_scope.
Local Open Scope list_scope.

(** ** The answer in an event stream *)
Definition message_of_line (from_str : string → result string Value) (line : string) :
    option string :=
  if is_empty (trim line) then None else
  value ← result_ok (from_str (trim line));
  item ← is_agent_message value; extract_agent_message item.
Definition line_parses (from_str : string → result string Value) (line : string) : Prop :=
  is_empty (trim line) = true ∨ ∃ value, from_str (trim line) = Ok value.

Lemma read_event_Ok from_str last_message line r :
  read_event from_str last_message line = Ok r ↔
  line_parses from_str line
  ∧ r = match message_of_line from_str line with Some m => Some m | None => last_message end.
Proof.
  unfold read_event, message_of_line, line_parses.
  destruct (is_empty (trim line)); [naive_solver|].
  destruct (from_str (trim line)) as [value|e]; simpl; [|split; [done|]].
  - destruct (is_agent_message value) as [item|]; simpl; [|naive_solver].
    destruct (extract_agent_message item); naive_solver.
  - by intros [[|(? & ?)] _].
Qed.
Lemma read_events_Ok from_str lines last_message r :
  for_fold (read_event from_str) lines last_message = Ok r ↔
  Forall (line_parses from_str) lines
  ∧ r = match last (omap (message_of_line from_str) lines) with
        | Some m => Some m | None => last_message end.
Proof.
  revert last_message. induction lines as [|line lines IH]; intros last_message.
  { simpl. split; [intros [= <-]|intros [_ ->]]; done. }
  simpl. rewrite bind_Ok. setoid_rewrite IH. setoid_rewrite read_event_Ok. rewrite Forall_cons.
  destruct (message_of_line from_str line) as [m|]; simpl.
  - rewrite last_cons. split.
    + intros (x & [Hl ->] & Hls & ->). split; [done|]. by destruct (last _).
    + intros [[Hl Hls] ->]. eexists. split; [done|]. split; [done|]. by destruct (last _).
  - split; [intros (x & [Hl ->] & Hls & ->)|intros [[Hl Hls] ->]]; [done|].
    by exists last_message.
Qed.

(** The answer of an OpenAI run is the text of the last completed agent message
    that has one: parsing succeeds exactly when every line that is not blank is
    JSON and there is such a message. *)
Theorem parse_openai_jsonl_takes_last_message (from_str : string → result string Value)
    (stdout message : string) :
  parse_openai_jsonl from_str stdout = Ok message ↔
  Forall (line_parses from_str) (str_lines stdout)
  ∧ last (omap (message_of_line from_str) (str_lines stdout)) = Some message.
Proof.
  unfold parse_openai_jsonl. rewrite bind_Ok. setoid_rewrite read_events_Ok.
  setoid_rewrite ok_or_Ok. split.
  - intros (r & [Hl ->] & Hm). split; [done|]. by destruct (last _).
  - intros [Hl Hm]. exists (Some message). split; [|done]. split; [done|]. by rewrite Hm.
Qed.

(** ** Waiting *)
(** [thread::sleep(10ms)] sleeps at least that long, so that much has passed at the
    [n]th look. *)
Definition clock_runs (p : process) : Prop := ∀ n, (10000000 * Z.of_nat n ≤ pc_elapsed p n)%Z.
Definition pipes_close (p : process) : Prop := is_Some (pc_output p).

Lemma wait_loop_ends fuel n timeout_ms p :
  clock_runs p → (timeout_ms * 1000000 < 10000000 * (Z.of_nat n + Z.of_nat fuel - 1))%Z →
  (0 < fuel)%nat → wait_loop fuel n timeout_ms p ≠ StillWaiting.
Proof.
  intros Hclock. revert n. induction fuel as [|fuel IH]; intros n Hf H0; [lia|]. simpl.
  destruct (pc_try_wait p n) as [[code|]|]; [done| |done].
  destruct (decide (timeout_ms * 1000000 < pc_elapsed p n)%Z) as [|Hle];
    [by rewrite bool_decide_eq_true_2|rewrite bool_decide_eq_false_2 by done].
  pose proof (Hclock n). apply IH; lia.
Qed.
Lemma wait_fuel_enough timeout_ms p :
  (0 ≤ timeout_ms)%Z → clock_runs p →
  wait_loop (wait_fuel timeout_ms) 0 timeout_ms p ≠ StillWaiting.
Proof.
  intros H0 Hclock. unfold wait_fuel.
  assert (0 ≤ timeout_ms / 10)%Z by (apply Z.div_pos; lia).
  pose proof (Z.div_mod timeout_ms 10 ltac:(lia)). pose proof (Z.mod_pos_bound timeout_ms 10 ltac:(lia)).
  apply wait_loop_ends; [done| |]; lia.
Qed.
(** An end is one the program came to, a timeout is a look past the limit at a
    program that was still running. *)
Lemma wait_loop_outcome fuel n timeout_ms p :
  match wait_loop fuel n timeout_ms p with
  | Exited code => ∃ k, pc_try_wait p k = Ok (Some code)
  | TimedOut => ∃ k, pc_try_wait p k = Ok None ∧ (timeout_ms * 1000000 < pc_elapsed p k)%Z
  | WaitFailed err => ∃ k, pc_try_wait p k = Err err
  | StillWaiting => True
  end.
Proof.
  revert n. induction fuel as [|fuel IH]; intros n; [done|]. simpl.
  destruct (pc_try_wait p n) as [[code|]|err] eqn:Hw; [by exists n| |by exists n].
  destruct (decide (timeout_ms * 1000000 < pc_elapsed p n)%Z) as [Hlt|Hle].
  - rewrite bool_decide_eq_true_2 by done. by exists n.
  - rewrite bool_decide_eq_false_2 by done. apply IH.
Qed.
Lemma run_provider_returns from_str run request binaries :
  (0 ≤ pq_timeout_ms request)%Z →
  (∀ spec, clock_runs (run spec (pq_cwd request)) ∧ pipes_close (run spec (pq_cwd request))) →
  is_Some (run_provider from_str run request binaries).
Proof.
  intros H0 Hrun. unfold run_provider.
  destruct (build_invocation request binaries) as [spec|]; [|by eexists].
  destruct (Hrun spec) as [Hclock [[stdout stderr] Hout]].
  destruct (spawn_loop _ _ _); [|by eexists].
  pose proof (wait_fuel_enough (pq_timeout_ms request) _ H0 Hclock) as Hw.
  destruct (wait_loop _ _ _ _); [| | |done]; rewrite ?Hout; [by eexists| |by eexists].
  destruct (pc_wait _); rewrite ?Hout; by eexists.
Qed.

(** ** What is reported *)
Lemma spawn_loop_error tries n p err :
  spawn_loop tries n p = Err err → ∃ k, pc_spawn p k = Err err.
Proof.
  revert n. induction tries as [|tries IH]; intros n; cbn [spawn_loop].
  - destruct (pc_spawn p n) as [|e] eqn:Hs; [done|].
    destruct (decide _); [destruct (EXECUTABLE_BUSY_MAX_ATTEMPTS <=? n + 1)%nat|];
      intros [= <-]; by exists n.
  - destruct (pc_spawn p n) as [|e] eqn:Hs; [done|].
    destruct (decide _); [|intros [= <-]; by exists n].
    destruct (EXECUTABLE_BUSY_MAX_ATTEMPTS <=? n + 1)%nat; [intros [= <-]; by exists n|apply IH].
Qed.
(** The fuel of the tries is not what ends them: the count of busy answers does. *)
Lemma spawn_loop_tries p tries n :
  (50 ≤ n + 1 + tries)%nat → spawn_loop tries n p = spawn_loop (S tries) n p.
Proof.
  revert n. induction tries as [|tries IH]; intros n Hn.
  - cbn [spawn_loop]. destruct (pc_spawn p n); [done|]. destruct (decide _); [|done].
    unfold EXECUTABLE_BUSY_MAX_ATTEMPTS. by rewrite (proj2 (Nat.leb_le 50 (n + 1))) by lia.
  - change (spawn_loop (S (S tries)) n p) with
      (match pc_spawn p n with
       | Ok _ => Ok ()
       | Err err => if decide (ioe_kind err = ExecutableFileBusy) then
           if (EXECUTABLE_BUSY_MAX_ATTEMPTS <=? n + 1)%nat then Err err
           else spawn_loop (S tries) (n + 1) p else Err err end).
    by rewrite <- (IH (n + 1)%nat) by lia.
Qed.

Lemma parse_output_error from_str provider stdout e :
  parse_output from_str provider stdout = Err e → ∃ reason, e = ParseFailure provider reason None.
Proof.
  destruct provider; simpl.
  - unfold parse_anthropic_output. destruct (is_empty _); intros [= <-]. by eexists.
  - unfold parse_openai_jsonl. intros H.
    destruct (for_fold _ _ _) as [r|e'] eqn:Hf; simpl in H.
    { destruct r; simpl in H; [done|]. injection H as <-. by eexists. }
    injection H as <-. revert Hf. generalize (None : option string).
    induction (str_lines stdout) as [|line lines IH]; intros o Hf; [done|]. simpl in Hf.
    destruct (read_event from_str o line) as [o'|e2] eqn:Hr; simpl in Hf; [by eapply IH|].
    injection Hf as ->. revert Hr. unfold read_event. destruct (is_empty _); [done|].
    destruct (from_str _); [done|]. intros [= <-]. by eexists.
Qed.

Definition reported (from_str : string → result string Value) (request : ProviderRequest)
    (p : process) (r : result ProviderError ProviderResult) : Prop :=
  match r with
  | Ok output => (∃ k, pc_try_wait p k = Ok (Some (Some 0%Z)))
      ∧ (∃ stdout stderr, pc_output p = Some (stdout, stderr)
           ∧ parse_output from_str (pq_provider request) stdout = Ok (pv_message output))
      ∧ il_exit_code (pv_log output) = Some 0%Z ∧ il_timed_out (pv_log output) = false
  | Err (NonZeroExit _ exit_code _ log) => ∃ k code, pc_try_wait p k = Ok (Some code)
      ∧ code ≠ Some 0%Z ∧ exit_code = from_option id (-1)%Z code ∧ il_exit_code log = code
  | Err (ParseFailure _ reason log) => (∃ k, pc_try_wait p k = Ok (Some (Some 0%Z)))
      ∧ (∃ stdout stderr, pc_output p = Some (stdout, stderr)
           ∧ parse_output from_str (pq_provider request) stdout
             = Err (ParseFailure (pq_provider request) reason None))
      ∧ is_Some log
  | Err (ProviderTimeout _ _ log) => il_timed_out log = true
      ∧ ∃ k, pc_try_wait p k = Ok None ∧ (pq_timeout_ms request * 1000000 < pc_elapsed p k)%Z
  | Err (MissingBinary _ _ _) => ∃ k err, pc_spawn p k = Err err ∧ ioe_kind err = NotFound
  | Err (ProviderIo _ err) => pc_wait p = Err err
      ∨ ∃ k, pc_spawn p k = Err err ∨ pc_try_wait p k = Err err
  | Err (UnknownProvider _ | UnsupportedAnthropicModel _) => False
  end.

Lemma conclude_exit_reported from_str request log code stdout stderr p :
  (∃ k, pc_try_wait p k = Ok (Some code)) → pc_output p = Some (stdout, stderr) →
  reported from_str request p (conclude_exit from_str request log code stdout stderr).
Proof.
  intros [k Hk] Hout. unfold conclude_exit. destruct (decide (code = Some 0%Z)) as [->|Hne].
  - rewrite bool_decide_eq_true_2 by done. simpl.
    destruct (parse_output _ _ _) as [message|e] eqn:Hp; simpl.
    + split_and!; [by exists k| |done|done]. by exists stdout, stderr.
    + apply parse_output_error in Hp as Hr. destruct Hr as [reason ->]. simpl.
      split_and!; [by exists k| |by eexists]. by exists stdout, stderr.
  - rewrite bool_decide_eq_false_2 by done. simpl. by exists k, code.
Qed.

(** C11: Running a provider comes back, if its pipes close, after at most one look per
    ten milliseconds of the time limit, and reports what happened: an answer only
    of a program that exited with code 0 and whose output parses to it, a timeout
    only when it still ran past the limit, a missing program only when the system
    did not find it. *)
Theorem provider_run_is_reported (from_str : string → result string Value)
    (run : InvocationSpec → string → process) (request : ProviderRequest)
    (binaries : RunnerBinaries) (H0 : (0 ≤ pq_timeout_ms request)%Z)
    (Hrun : ∀ spec, clock_runs (run spec (pq_cwd request)) ∧ pipes_close (run spec (pq_cwd request))) :
  ∃ r, run_provider from_str run request binaries = Some r ∧
    match build_invocation request binaries with
    | Err err => r = Err err
    | Ok spec => reported from_str request (run spec (pq_cwd request)) r
    end.
Proof.
  destruct (run_provider_returns from_str run request binaries H0 Hrun) as [r Hr].
  exists r. split; [done|]. revert Hr. unfold run_provider.
  destruct (build_invocation request binaries) as [spec|err]; [|by intros [= <-]].
  destruct (Hrun spec) as [_ [[stdout stderr] Hout]].
  destruct (spawn_loop _ _ _) as [u|err] eqn:Hspawn.
  2: { apply spawn_loop_error in Hspawn as [k Hk]. intros [= <-].
       destruct (decide (ioe_kind err = NotFound)); simpl; [by exists k, err|right]. exists k. by left. }
  pose proof (wait_loop_outcome (wait_fuel (pq_timeout_ms request)) 0 (pq_timeout_ms request)
                (run spec (pq_cwd request))) as Hw.
  destruct (wait_loop _ _ _ _) as [code| |err|]; [| | |done].
  - rewrite Hout. intros [= <-]. by apply conclude_exit_reported.
  - destruct (pc_wait _) as [code|err] eqn:Hwait; [rewrite Hout|]; intros [= <-]; simpl; [done|by left].
  - destruct Hw as [k Hk]. intros [= <-]. simpl. right. exists k. by right.
Qed.

(** *** A program *)
Definition demo_process (stdout : string) : process := {|
  pc_spawn := λ _, Ok (); pc_try_wait := λ n, Ok (if (n <? 3)%nat then None else Some (Some 0%Z));
  pc_elapsed := λ n, (10000000 * Z.of_nat n)%Z; pc_wait := Ok None; pc_output := Some (stdout, "") |}.
Definition demo_request : ProviderRequest := {|
  pq_agent_id := "default"; pq_provider := ProviderAnthropic; pq_model := "sonnet";
  pq_cwd := "/ws"; pq_message := "go";
  pq_prompt_artifacts := {| pa_prompt_file := "/ws/prompt.md"; pa_context_files := [] |};
  pq_timeout_ms := 1000; pq_reset_requested := false; pq_fresh_on_failure := false;
  pq_env_overrides := [] |}.
Lemma demo_process_good stdout : clock_runs (demo_process stdout) ∧ pipes_close (demo_process stdout).
Proof. split; [intros n; simpl; lia|by eexists]. Qed.
Lemma provider_run_is_reported_witness :
  ∃ r, run_provider (λ _, Err "") (λ _ _, demo_process "done") demo_request RunnerBinaries_default
       = Some r
    ∧ match build_invocation demo_request RunnerBinaries_default with
      | Err err => r = Err err
      | Ok _ => reported (λ _, Err "") demo_request (demo_process "done") r
      end.
Proof.
  assert (0 ≤ pq_timeout_ms demo_request)%Z as H0 by (simpl; lia).
  assert (∀ spec : InvocationSpec, clock_runs (demo_process "done") ∧ pipes_close (demo_process "done"))
    as Hrun by (intros _; apply demo_process_good).
  exact (provider_run_is_reported (λ _, Err "") (λ _ _, demo_process "done") demo_request
           RunnerBinaries_default H0 Hrun).
Defined.

(** The threads that read the pipes are joined also after the program was killed: if
    a process it started keeps a pipe open, the call does not come back, whatever
    its time limit. *)
Lemma open_pipe_outlives_the_timeout from_str (request : ProviderRequest) (binaries : RunnerBinaries)
    (p : process) (spec : InvocationSpec) :
  build_invocation request binaries = Ok spec → (0 ≤ pq_timeout_ms request)%Z →
  pc_spawn p 0 = Ok () → clock_runs p → (∀ n, pc_try_wait p n = Ok None) →
  (∃ code, pc_wait p = Ok code) → pc_output p = None →
  run_provider from_str (λ _ _, p) request binaries = None.
Proof.
  intros Hb H0 Hs Hclock Hwait [code Hcode] Hout. unfold run_provider. rewrite Hb. simpl. rewrite Hs.
  pose proof (wait_fuel_enough (pq_timeout_ms request) p H0 Hclock) as Hw.
  pose proof (wait_loop_outcome (wait_fuel (pq_timeout_ms request)) 0 (pq_timeout_ms request) p) as Ho.
  destruct (wait_loop _ _ _ _) as [c| |err|]; [| | |done].
  - destruct Ho as [k Hk]. by rewrite Hwait in Hk.
  - by rewrite Hcode, Hout.
  - destruct Ho as [k Hk]. by rewrite Hwait in Hk.
Qed.
