(* ===== verification/WorkflowEngine.v ===== *)
(** * The workflow engine

    [src/src/orchestration/workflow_engine.rs].  Executing a step (rendering the
    prompt, running the provider, evaluating its answer) is the interface
    [StepExecutor]; the elapsed times are the readings of the clock.  A loop that
    runs out of fuel returns [None]; [EngineGuarantees] shows that this never
    happens. *)
From S2P Require Import Prelude RustStr Io Json TypedFields Config OrchestratorFile OrchestratorError OutputContract RunStore.

Local Open Scope string_scope.
Local Open Scope list_scope.

Record ExecutionSafetyLimits := {
  max_total_iterations : Z;
  run_timeout_seconds : Z;
  step_timeout_seconds : Z;
  max_retries : Z;
}.
Definition ExecutionSafetyLimits_default : ExecutionSafetyLimits := {|
  max_total_iterations := 12;
  run_timeout_seconds := 3600;
  step_timeout_seconds := 900;
  max_retries := 2;
|}.

Record NextStepPointer := { np_step_id : string; np_attempt : Z }.

(** [a.or_else(|| b)] *)
Definition or_else {A} (a b : option A) : option A :=
  match a with Some _ => a | None => b end.

Definition resolve_execution_safety_limits (orchestrator : OrchestratorConfig)
    (workflow : WorkflowConfig) (step : WorkflowStepConfig) : ExecutionSafetyLimits :=
  let defaults := ExecutionSafetyLimits_default in
  let orchestration := oc_workflow_orchestration orchestrator in
  let base_timeout := from_option id (step_timeout_seconds defaults)
                        (orchestration ≫= wo_default_step_timeout_seconds) in
  {| max_total_iterations := from_option id (max_total_iterations defaults)
       (or_else (wf_limits workflow ≫= wl_max_total_iterations)
                (orchestration ≫= wo_max_total_iterations));
     run_timeout_seconds := from_option id (run_timeout_seconds defaults)
       (or_else (wf_limits workflow ≫= wl_run_timeout_seconds)
                (orchestration ≫= wo_default_run_timeout_seconds));
     step_timeout_seconds :=
       match orchestration ≫= wo_max_step_timeout_seconds with
       | Some max_step => Z.min base_timeout max_step
       | None => base_timeout
       end;
     max_retries := from_option id (max_retries defaults) (ws_limits step ≫= sl_max_retries) |}.

Definition enforce_execution_safety (run : WorkflowRunRecord) (limits : ExecutionSafetyLimits)
    (now current_step_started_at current_attempt : Z) : result OrchestratorError () :=
  reject_if (bool_decide (max_total_iterations limits ≤ wr_total_iterations run)%Z)
    (MaxIterationsExceeded (max_total_iterations limits)) ;;
  reject_if (bool_decide
      (u64_as_i64 (run_timeout_seconds limits) < i64_sat_sub now (wr_started_at run))%Z)
    (RunTimeout (run_timeout_seconds limits)) ;;
  reject_if (bool_decide
      (u64_as_i64 (step_timeout_seconds limits) < i64_sat_sub now current_step_started_at)%Z)
    (StepTimeout (step_timeout_seconds limits)) ;;
  (* [max_retries + 1] wraps at 32 bits *)
  reject_if (bool_decide ((max_retries limits + 1) mod (u32_max + 1) < current_attempt)%Z)
    (SelectorValidation ("retry limit exceeded for step attempt " +:+ fmt_int current_attempt
      +:+ " (max retries " +:+ fmt_int (max_retries limits) +:+ ")")).

Definition is_retryable_step_error (error : OrchestratorError) : bool :=
  match error with
  | StepExecution _ _ | WorkflowEnvelope _ | InvalidReviewDecision _
  | OutputContractValidation _ _ => true
  | _ => false
  end.

(** What the engine asks of step execution. *)
Class StepExecutor := execute_step_attempt :
  WorkflowRunRecord → WorkflowConfig → WorkflowStepConfig → Z → Z → Z →
  IO run_store OrchestratorError StepEvaluation.
(** The engine's records are the engine's: executing a step leaves the files of
    runs and of step attempts alone, and causes no I/O error by itself. *)
Class StepExecutorLaws `{StepExecutor} := execute_keeps_records :
  ∀ h run workflow step attempt now timeout s,
    wp h (execute_step_attempt run workflow step attempt now timeout)
      (λ _ s', rs_runs s' = rs_runs s ∧ rs_attempts s' = rs_attempts s) s.

Definition max_cycles : Z := 10000.

Section engine.
Context `{StepExecutor}.
Context (state_root : string) (orchestrator : OrchestratorConfig).

(** [elapsed_now]: the base time plus a reading of the monotonic clock. *)
Definition elapsed_now {S E} (base_now : Z) : IO S E Z :=
  elapsed ← read_clock; mret (i64_sat_add base_now (u64_as_i64 elapsed)).

Definition workflow_for_run (run : WorkflowRunRecord) : result OrchestratorError WorkflowConfig :=
  ok_or (SelectorValidation ("workflow `" +:+ wr_workflow_id run
      +:+ "` is not declared in orchestrator"))
    (List.find (λ workflow, String.eqb (wf_id workflow) (wr_workflow_id run))
       (oc_workflows orchestrator)).

Definition resolve_next_step_pointer (run : WorkflowRunRecord) (workflow : WorkflowConfig) :
    IO run_store OrchestratorError (option NextStepPointer) :=
  match wr_current_step_id run with
  | None => mret ((λ step, {| np_step_id := ws_id step; np_attempt := 1 |})
                    <$> head (wf_steps workflow))
  | Some current_step =>
      match wr_current_attempt run with
      | None => mret (Some {| np_step_id := current_step; np_attempt := 1 |})
      | Some current_attempt =>
          persisted ← attempt
            (load_step_attempt state_root (wr_run_id run) current_step current_attempt);
          match persisted with
          | Ok attempt_record =>
              mret ((λ next, {| np_step_id := next; np_attempt := 1 |})
                      <$> sa_next_step_id attempt_record)
          | Err (IoErr path source) =>
              if decide (ioe_kind source = NotFound) then
                mret (Some {| np_step_id := current_step; np_attempt := current_attempt |})
              else throw (IoErr path source)
          | Err other => throw other
          end
      end
  end.

Definition log_line (now : Z) (parts : list string) : IO run_st OrchestratorError () :=
  run ← get_run;
  with_store (append_engine_log state_root (wr_run_id run) now (String.concat "" parts)).

(** [*run = self.run_store.load_run(&run.run_id)?] *)
Definition reload_run : IO run_st OrchestratorError () :=
  run ← get_run;
  fresh ← with_store (load_run state_root (wr_run_id run));
  set_run fresh.

Definition enforce (limits : ExecutionSafetyLimits) (now started current_attempt : Z) :
    IO run_st OrchestratorError () :=
  run ← get_run; lift (enforce_execution_safety run limits now started current_attempt).

Definition attempt_record (run : WorkflowRunRecord) (step : WorkflowStepConfig)
    (attempt started ended : Z) (state : string) (outputs : JMap)
    (output_files : list (string * string)) (next : option string) (error : option string)
    (validation_errors : list (string * string)) : StepAttemptRecord :=
  {| sa_run_id := wr_run_id run; sa_step_id := ws_id step; sa_attempt := attempt;
     sa_started_at := started; sa_ended_at := ended; sa_state := state;
     sa_outputs := outputs; sa_output_files := output_files;
     sa_final_output_priority := ok_name <$> ws_final_output_priority step;
     sa_next_step_id := next; sa_error := error;
     sa_output_validation_errors := validation_errors |}.

(** The [Ok(evaluation)] arm of the attempt loop. *)
Definition finish_attempt (step : WorkflowStepConfig) (limits : ExecutionSafetyLimits)
    (now attempt_started_at attempt : Z) (evaluation : StepEvaluation) :
    IO run_st OrchestratorError () :=
  attempt_ended_at ← elapsed_now now;
  run ← get_run;
  with_store (persist_step_attempt state_root (attempt_record run step attempt
    attempt_started_at attempt_ended_at "succeeded" (se_outputs evaluation)
    (se_output_files evaluation) (se_next_step_id evaluation) None [])) ;;
  reload_run ;;
  run ← get_run;
  log_line attempt_ended_at ["run_id="; wr_run_id run; " step_id="; ws_id step; " attempt=";
    fmt_int attempt; " transition=succeeded next=";
    from_option id "terminal" (se_next_step_id evaluation)] ;;
  enforce limits attempt_ended_at attempt_started_at attempt ;;
  run ← get_run;
  match se_next_step_id evaluation with
  | Some next =>
      set_run (set_step (Some next) None run) ;;
      checkpoint state_root attempt_ended_at
        ("step " +:+ ws_id step +:+ " attempt " +:+ fmt_int attempt +:+ " finished; next "
         +:+ next) false ("execute step " +:+ next)
  | None =>
      set_run (set_step None None run) ;;
      transition_state state_root Succeeded attempt_ended_at
        ("step " +:+ ws_id step +:+ " attempt " +:+ fmt_int attempt +:+ " finished") false "none"
  end.

(** The [Err(err)] arm; [Ok(())] means [continue] with the next attempt. *)
Definition fail_attempt (step : WorkflowStepConfig) (limits : ExecutionSafetyLimits)
    (now attempt_started_at attempt : Z) (err : OrchestratorError) :
    IO run_st OrchestratorError () :=
  attempt_ended_at ← elapsed_now now;
  let retryable := is_retryable_step_error err in
  let can_retry := retryable && bool_decide (attempt ≤ max_retries limits)%Z in
  run ← get_run;
  with_store (persist_step_attempt state_root (attempt_record run step attempt
    attempt_started_at attempt_ended_at (if can_retry then "failed_retryable" else "failed")
    [] [] None (Some (error_display err)) (output_validation_errors_for err))) ;;
  reload_run ;;
  run ← get_run;
  log_line attempt_ended_at ["run_id="; wr_run_id run; " step_id="; ws_id step; " attempt=";
    fmt_int attempt; " transition=failed retryable="; if can_retry then "true" else "false";
    " error="; error_display err] ;;
  enforce limits attempt_ended_at attempt_started_at attempt ;;
  if can_retry then mret () else throw err.

(** One pass of the loop: [true] when the function returns. *)
Definition run_attempt (workflow : WorkflowConfig) (step : WorkflowStepConfig)
    (limits : ExecutionSafetyLimits) (now attempt_no : Z) : IO run_st OrchestratorError bool :=
  attempt_started_at ← elapsed_now now;
  run ← get_run;
  log_line attempt_started_at ["run_id="; wr_run_id run; " decision=execute_next step_id=";
    ws_id step; " attempt="; fmt_int attempt_no; " state="; RunState_display (wr_state run)] ;;
  mark_step_attempt_started state_root (ws_id step) attempt_no attempt_started_at ;;
  enforce limits attempt_started_at attempt_started_at attempt_no ;;
  run ← get_run;
  evaluation ← attempt (with_store (execute_step_attempt run workflow step attempt_no
    attempt_started_at (step_timeout_seconds limits)));
  match evaluation with
  | Ok evaluation =>
      finish_attempt step limits now attempt_started_at attempt_no evaluation ;; mret true
  | Err err =>
      fail_attempt step limits now attempt_started_at attempt_no err ;; mret false
  end.

Fixpoint attempt_loop (fuel : nat) (workflow : WorkflowConfig) (step : WorkflowStepConfig)
    (limits : ExecutionSafetyLimits) (now attempt_no : Z) :
    IO run_st OrchestratorError (option ()) :=
  match fuel with
  | O => mret None
  | S fuel =>
      finished ← run_attempt workflow step limits now attempt_no;
      if (finished : bool) then mret (Some ())
      else attempt_loop fuel workflow step limits now (u32_sat_add attempt_no 1)
  end.

(** Attempts are numbered up to [max_retries + 1]. *)
Definition attempt_fuel (limits : ExecutionSafetyLimits) : nat :=
  Z.to_nat (max_retries limits + 2).

Definition execute_next (now : Z) : IO run_st OrchestratorError (option ()) :=
  run ← get_run;
  workflow ← lift (workflow_for_run run);
  pointer ← with_store (resolve_next_step_pointer run workflow);
  match pointer with
  | None =>
      set_run (set_step None None run) ;;
      transition_state state_root Succeeded now "workflow completed" false "none" ;;
      mret (Some ())
  | Some pointer =>
      step ← lift (ok_or (SelectorValidation ("workflow `" +:+ wf_id workflow
          +:+ "` missing step `" +:+ np_step_id pointer +:+ "`"))
        (List.find (λ step, String.eqb (ws_id step) (np_step_id pointer)) (wf_steps workflow)));
      let limits := resolve_execution_safety_limits orchestrator workflow step in
      attempt_loop (attempt_fuel limits) workflow step limits now (np_attempt pointer)
  end.

Definition execute_or_fail (now : Z) : IO run_st OrchestratorError (option ()) :=
  outcome ← attempt (execute_next now);
  match outcome with
  | Ok r => mret r
  | Err err =>
      let reason := "engine start failed: " +:+ error_display err in
      run ← get_run;
      log_line now ["run_id="; wr_run_id run; " transition=failed reason="; reason] ;;
      run ← get_run;
      (if is_terminal (wr_state run) then mret ()
       else transition_state state_root Failed now reason false
              "inspect workflow run artifacts") ;;
      throw err
  end.

Fixpoint run_loop (fuel : nat) (cycles start_now : Z) : IO run_st OrchestratorError (option ()) :=
  match fuel with
  | O => mret None
  | S fuel =>
      run ← get_run;
      if negb (bool_decide (wr_state run = Running)) then mret (Some ())
      else if bool_decide (max_cycles ≤ cycles)%Z then
        throw (SelectorValidation "workflow engine exceeded maximum execution cycles")
      else
        let previous_iterations := wr_total_iterations run in
        now ← elapsed_now start_now;
        executed ← execute_or_fail now;
        match executed with
        | None => mret None
        | Some _ =>
            reload_run ;;
            run ← get_run;
            if bool_decide (wr_state run = Running)
               && bool_decide (wr_total_iterations run = previous_iterations)
            then throw (SelectorValidation "workflow engine made no progress while running")
            else run_loop fuel (u32_sat_add cycles 1) start_now
        end
  end.

Definition run_until_non_running (start_now : Z) : IO run_st OrchestratorError (option ()) :=
  run_loop (S (Z.to_nat max_cycles)) 0 start_now.

(** [let mut run = ..; body(&mut run)] *)
Definition with_run {A} (run : WorkflowRunRecord) (body : IO run_st OrchestratorError A) :
    IO run_store OrchestratorError A :=
  zoom (λ s, (s, run)) (λ rs _, rs.1) body.

Definition run_and_reload (run : WorkflowRunRecord) (run_id : string) (now : Z)
    (prepare : IO run_st OrchestratorError ()) :
    IO run_store OrchestratorError (option WorkflowRunRecord) :=
  done ← with_run run (prepare ;; run_until_non_running (i64_sat_add now 1));
  match done with
  | None => mret None
  | Some _ => Some <$> load_run state_root run_id
  end.

Definition start (run_id : string) (now : Z) :
    IO run_store OrchestratorError (option WorkflowRunRecord) :=
  run ← load_run state_root run_id;
  run_and_reload run run_id now
    (if decide (wr_state run = Queued) then
       transition_state state_root Running now
         ("workflow " +:+ wr_workflow_id run +:+ " started") false "execute next step"
     else mret ()).

Definition resume (run_id : string) (now : Z) :
    IO run_store OrchestratorError (option WorkflowRunRecord) :=
  run ← load_run state_root run_id;
  if is_terminal (wr_state run) then mret (Some run) else
  run_and_reload run run_id now
    (if decide (wr_state run = Queued ∨ wr_state run = Waiting) then
       transition_state state_root Running now
         ("workflow " +:+ wr_workflow_id run +:+ " resumed") false "execute next step"
     else mret ()).
End engine.
