(* ===== verification/EngineGuarantees.v ===== *)
(** * Guarantees of the workflow engine

    Theorems about [WorkflowEngine] and [RunStore]: runs end, the iteration limit
    holds, failures are recorded, whatever I/O errors occur. *)
From S2P Require Import Prelude RustStr RustPath Io Json TypedFields Config OrchestratorFile OrchestratorError OutputContract RunStore WorkflowEngine.

Local Open Scope string_scope.
Local Open Scope list_scope.

(** ** Store operations *)
Section store_rules.
Context (h : bool) (root : string).

Lemma wp_create_dir {S} path (Φ : result io_error () → S → Prop) s :
  (h = false → ∀ e, Φ (Err e) s) → Φ (Ok ()) s → wp h (sys (create_dir_all path)) Φ s.
Proof. intros. by apply wp_sys. Qed.

Lemma wp_write_json path put (Φ : result OrchestratorError () → run_store → Prop) s s' :
  put s = (s', Ok ()) →
  (h = false → ∀ e, Φ (Err e) s) → Φ (Ok ()) s' → wp h (write_json path put) Φ s.
Proof.
  intros Hput Herr Hok. apply wp_bind.
  assert (wp h (io_map_err (IoErr path) (sys put)) Φ s) as Hrest.
  { apply wp_map_err, wp_sys; rewrite ?Hput; simpl; auto. }
  destruct (path_parent path) as [parent|]; [|by apply wp_ret].
  apply wp_map_err, wp_create_dir; simpl; auto.
Qed.

Definition with_runs (runs : gmap string (stored WorkflowRunRecord)) (s : run_store) : run_store :=
  {| rs_runs := runs; rs_progress := rs_progress s; rs_attempts := rs_attempts s;
     rs_log := rs_log s; rs_files := rs_files s |}.

Lemma wp_persist_run run (Φ : result OrchestratorError () → run_store → Prop) s :
  (h = false → ∀ e, Φ (Err e) s) →
  Φ (Ok ()) (with_runs (<[run_metadata_path root (wr_run_id run) := Parsed run]> (rs_runs s)) s) →
  wp h (persist_run root run) Φ s.
Proof. intros. by eapply wp_write_json. Qed.

(** Operations that only touch progress files or the log. *)
Lemma wp_persist_progress p (Φ : result OrchestratorError () → run_store → Prop) s :
  (h = false → ∀ e, Φ (Err e) s) →
  (∀ s', rs_runs s' = rs_runs s → Φ (Ok ()) s') →
  wp h (persist_progress root p) Φ s.
Proof. intros Herr Hok. eapply wp_write_json; [reflexivity|done|]. by apply Hok. Qed.

Lemma wp_log run_id now message (Φ : result OrchestratorError () → run_store → Prop) s :
  (h = false → ∀ e, Φ (Err e) s) →
  (∀ s', rs_runs s' = rs_runs s → Φ (Ok ()) s') →
  wp h (append_engine_log root run_id now message) Φ s.
Proof.
  intros Herr Hok. apply wp_map_err, wp_bind.
  assert (wp h (sys (append_log_line ("ts=" +:+ fmt_int now +:+ " run_id=" +:+ run_id +:+ " "
    +:+ message))) (λ r, Φ (map_err (IoErr (orchestrator_log_path root)) r)) s) as Hrest.
  { apply wp_sys; simpl; [auto|]. by apply Hok. }
  destruct (path_parent _); [|by apply wp_ret]. apply wp_create_dir; simpl; auto.
Qed.

Lemma wp_read_json {A} (files : run_store → gmap string (stored A)) path
    (Φ : result OrchestratorError A → run_store → Prop) s :
  (∀ e, (h = true → files s !! path = None ∨ ∃ c, files s !! path = Some (Corrupt c)) →
    Φ (Err e) s) →
  (∀ a, files s !! path = Some (Parsed a) → Φ (Ok a) s) →
  wp h (read_json files path) Φ s.
Proof.
  intros Herr Hok. apply wp_bind, wp_map_err, wp_sys; simpl.
  - intros -> e. by apply Herr.
  - destruct (files s !! path) as [[a|c]|]; simpl.
    + by apply wp_ret, Hok.
    + apply wp_throw, Herr. eauto.
    + apply Herr. eauto.
Qed.

Lemma wp_with_store {A} (m : IO run_store OrchestratorError A)
    (Φ : result OrchestratorError A → run_st → Prop) s run :
  wp h m (λ r s', Φ r (s', run)) s → wp h (with_store m) Φ (s, run).
Proof. intros H. by apply wp_zoom. Qed.
Lemma wp_get_run {E} (Φ : result E WorkflowRunRecord → run_st → Prop) s run :
  Φ (Ok run) (s, run) → wp h get_run Φ (s, run).
Proof. intros H e He. by split. Qed.
Lemma wp_set_run {E} (Φ : result E () → run_st → Prop) s run run' :
  Φ (Ok ()) (s, run') → wp h (set_run run') Φ (s, run).
Proof. intros H. by apply wp_modify. Qed.
Lemma wp_elapsed {S} base (Φ : result OrchestratorError Z → S → Prop) s :
  (∀ t, Φ (Ok t) s) → wp h (elapsed_now base) Φ s.
Proof. intros H. apply wp_bind, wp_clock. intros t. by apply wp_ret. Qed.
End store_rules.

(** ** One run *)
Section one_run.
Context (h : bool) `{StepExecutorLaws}.
Context (root : string) (orchestrator : OrchestratorConfig).
(** The run, its workflow, and a bound on its iterations. *)
Context (id wid : string) (B : Z).
Hypothesis B_u32 : (B ≤ u32_max)%Z.
Hypothesis B_limits : ∀ workflow step,
  List.find (λ workflow, String.eqb (wf_id workflow) wid) (oc_workflows orchestrator)
  = Some workflow →
  (max_total_iterations (resolve_execution_safety_limits orchestrator workflow step) ≤ B)%Z.
Hypothesis retries_u32 : ∀ workflow step,
  workflow ∈ oc_workflows orchestrator → step ∈ wf_steps workflow →
  in_u32 (max_retries (resolve_execution_safety_limits orchestrator workflow step)).

Definition file : string := run_metadata_path root id.
Definition ok_run (run : WorkflowRunRecord) : Prop :=
  wr_run_id run = id ∧ wr_workflow_id run = wid ∧ (wr_total_iterations run ≤ B)%Z
  ∧ (∀ n, wr_current_attempt run = Some n → 0 ≤ n)%Z.
Definition ok_disk (s : run_store) : Prop :=
  ∀ r, rs_runs s !! file = Some (Parsed r) → ok_run r.
(** The record in memory is the record on disk. *)
Definition synced (rs : run_st) : Prop :=
  rs_runs rs.1 !! file = Some (Parsed rs.2) ∧ ok_run rs.2.
(** What remains true when a call fails half-way. *)
Definition broken (rs : run_st) : Prop :=
  ok_disk rs.1 ∧ ok_run rs.2 ∧ (h = true → wr_state rs.2 = Running).

Lemma synced_disk s run : synced (s, run) → ok_disk s.
Proof. intros [Hs Hr] r Hr'. simpl in *. congruence. Qed.
Lemma ok_disk_runs s s' : rs_runs s' = rs_runs s → ok_disk s → ok_disk s'.
Proof. unfold ok_disk. by intros ->. Qed.
Lemma synced_runs s s' run : rs_runs s' = rs_runs s → synced (s, run) → synced (s', run).
Proof. unfold synced. simpl. by intros ->. Qed.

(** [set_run run; persist_run run; persist_progress ..] *)
Lemma wp_commit run run' p (Φ : result OrchestratorError () → run_st → Prop) s :
  ok_disk s → ok_run run' →
  (h = false → ∀ e s', ok_disk s' → Φ (Err e) (s', run')) →
  (∀ s', synced (s', run') → Φ (Ok ()) (s', run')) →
  wp h (set_run run' ;; with_store (persist_run root run') ;; with_store (persist_progress root p))
    Φ (s, run).
Proof.
  intros Hd Hr Herr Hok. apply wp_bind, wp_set_run, wp_bind, wp_with_store, wp_persist_run.
  { intros Hh e. by apply Herr. }
  set (s1 := with_runs _ s).
  assert (rs_runs s1 !! file = Some (Parsed run')) as Hs1.
  { unfold s1, file. simpl. rewrite (proj1 Hr). by rewrite lookup_insert_eq. }
  apply wp_with_store, wp_persist_progress.
  - intros Hh e. apply Herr; [done|]. intros r Hr'. rewrite Hs1 in Hr'. by injection Hr' as <-.
  - intros s' Heq. apply Hok. split; [|done]. simpl. by rewrite Heq.
Qed.

Lemma wp_transition next now summary pending action run s
    (Φ : result OrchestratorError () → run_st → Prop) :
  ok_disk s → ok_run run →
  let run' := set_state next now (if is_terminal next then Some summary else None) run in
  (can_transition_to (wr_state run) next = false →
     Φ (Err (InvalidRunTransition (wr_state run) next)) (s, run)) →
  (can_transition_to (wr_state run) next = true → h = false →
     ∀ e s', ok_disk s' → Φ (Err e) (s', run')) →
  (can_transition_to (wr_state run) next = true →
     ∀ s', synced (s', run') → Φ (Ok ()) (s', run')) →
  wp h (transition_state root next now summary pending action) Φ (s, run).
Proof.
  intros Hd Hr run' Hbad Herr Hok. apply wp_bind, wp_get_run.
  destruct (can_transition_to (wr_state run) next); simpl; [|by apply wp_throw, Hbad].
  apply wp_commit; auto.
Qed.

Lemma wp_enforce limits now started n run s (Φ : result OrchestratorError () → run_st → Prop) :
  (∀ e, Φ (Err e) (s, run)) →
  ((wr_total_iterations run < max_total_iterations limits)%Z →
   (n ≤ (max_retries limits + 1) mod (u32_max + 1))%Z → Φ (Ok ()) (s, run)) →
  wp h (enforce limits now started n) Φ (s, run).
Proof.
  intros Herr Hok. apply wp_bind, wp_get_run, wp_lift.
  destruct (enforce_execution_safety run limits now started n) as [[]|e] eqn:E; [|done].
  unfold enforce_execution_safety in E. rewrite !seq_Ok, !reject_if_Ok in E.
  rewrite !bool_decide_eq_false in E. destruct E as (? & _ & _ & ?). apply Hok; lia.
Qed.

Lemma wp_log_line now parts run s (Φ : result OrchestratorError () → run_st → Prop) :
  (h = false → ∀ e, Φ (Err e) (s, run)) →
  (∀ s', rs_runs s' = rs_runs s → Φ (Ok ()) (s', run)) →
  wp h (log_line root now parts) Φ (s, run).
Proof. intros Herr Hok. apply wp_bind, wp_get_run, wp_with_store, wp_log; auto. Qed.

Lemma wp_reload run run' s (Φ : result OrchestratorError () → run_st → Prop) :
  synced (s, run') → wr_run_id run = id →
  (h = false → ∀ e, Φ (Err e) (s, run)) → Φ (Ok ()) (s, run') →
  wp h (reload_run root) Φ (s, run).
Proof.
  intros [Hd Hr] Hid Herr Hok. simpl in Hd, Hr.
  apply wp_bind, wp_get_run, wp_bind, wp_with_store, wp_read_json; rewrite Hid; fold file.
  - intros e He. destruct h; [|by apply Herr].
    rewrite Hd in He. destruct (He eq_refl) as [?|[c ?]]; done.
  - intros a Ha. rewrite Hd in Ha. injection Ha as <-. by apply wp_set_run.
Qed.

(** Recording an attempt adds one iteration to the run on disk. *)
Lemma wp_record_attempt a run s (Φ : result OrchestratorError string → run_st → Prop) :
  synced (s, run) → sa_run_id a = id → (wr_total_iterations run < B)%Z →
  let run' := set_counters (wr_total_iterations run + 1) (sa_ended_at a) run in
  (h = false → ∀ e s', ok_disk s' → Φ (Err e) (s', run)) →
  (∀ s' path, synced (s', run') → Φ (Ok path) (s', run)) →
  wp h (with_store (persist_step_attempt root a)) Φ (s, run).
Proof.
  intros Hsync Ha Hlt run' Herr Hok. pose proof (synced_disk _ _ Hsync) as Hdisk.
  destruct Hsync as [Hd Hr]. simpl in Hd, Hr.
  assert (u32_sat_add (wr_total_iterations run) 1 = wr_total_iterations run + 1)%Z as Hadd.
  { unfold u32_sat_add. lia. }
  assert (ok_run run') as Hr'.
  { destruct Hr as (? & ? & ? & ?). repeat split; simpl; try done. lia. }
  apply wp_with_store, wp_bind. eapply wp_write_json; [reflexivity|auto|].
  apply wp_bind, wp_read_json; simpl.
  { intros e He. rewrite Ha in He. fold file in He. rewrite Hd in He.
    destruct h; [by destruct (He eq_refl) as [?|[c ?]]|]. apply Herr; [done|].
    intros r Hr2. simpl in Hr2. by apply Hdisk. }
  intros r Hrun. rewrite Ha in Hrun. fold file in Hrun. rewrite Hd in Hrun.
  injection Hrun as <-. rewrite Hadd. fold run'. apply wp_bind, wp_persist_run.
  { intros Hh e. by apply Herr. }
  simpl. rewrite (proj1 Hr). fold file.
  apply wp_bind, wp_persist_progress.
  - intros Hh e. apply Herr; [done|]. intros r Hr2. simpl in Hr2.
    rewrite lookup_insert_eq in Hr2. by injection Hr2 as <-.
  - intros s' Heq. apply wp_ret, Hok. split; [|done]. simpl.
    rewrite Heq. simpl. by rewrite lookup_insert_eq.
Qed.

(** The state of a run that goes on: it is on disk and has made progress. *)
Definition running_on (before : Z) (limits : ExecutionSafetyLimits) (rs : run_st) : Prop :=
  synced rs ∧ wr_state rs.2 = Running ∧ (before < wr_total_iterations rs.2)%Z
  ∧ (wr_total_iterations rs.2 < max_total_iterations limits)%Z.
Definition finished (rs : run_st) : Prop := synced rs ∧ wr_state rs.2 = Succeeded.

Lemma broken_intro s run :
  ok_disk s → ok_run run → (h = true → wr_state run = Running) → broken (s, run).
Proof. by split. Qed.

Lemma wp_finish_attempt step limits now started n evaluation run s :
  synced (s, run) → wr_state run = Running →
  (wr_total_iterations run < B)%Z →
  wp h (finish_attempt root step limits now started n evaluation)
    (λ r rs, match r with
      | Ok _ => running_on (wr_total_iterations run) limits rs ∨ finished rs
      | Err _ => broken rs
      end) (s, run).
Proof.
  intros Hsync Hst Hlt. pose proof Hsync as [_ Hr]. simpl in Hr.
  apply wp_bind, wp_elapsed. intros ended. apply wp_bind, wp_get_run, wp_bind.
  apply wp_record_attempt; [done|apply Hr|done| |].
  { intros Hh e s' Hd. by apply broken_intro. }
  intros s1 path Hsync1. cbn [sa_ended_at attempt_record] in Hsync1.
  set (run1 := set_counters _ _ run) in *. pose proof (synced_disk _ _ Hsync1) as Hdisk1.
  pose proof Hsync1 as [_ Hr1]. simpl in Hr1.
  apply wp_bind. apply (wp_reload _ run1); [done|apply Hr| |].
  { intros Hh e. by apply broken_intro. }
  apply wp_bind, wp_get_run, wp_bind, wp_log_line.
  { intros Hh e. by apply broken_intro. }
  intros s2 Hs2. apply (synced_runs _ _ _ Hs2) in Hsync1. clear Hs2 Hdisk1 s1.
  pose proof (synced_disk _ _ Hsync1) as Hdisk1.
  apply wp_bind, wp_enforce. { intros e. by apply broken_intro. }
  intros Htot _. apply wp_bind, wp_get_run.
  destruct (se_next_step_id evaluation) as [next|].
  - apply wp_bind, wp_set_run, wp_bind, wp_get_run.
    apply wp_commit; [done| | |].
    + destruct Hr1 as (? & ? & ? & ?). repeat split; simpl; done.
    + intros Hh e s' Hd. apply broken_intro; [done| |done].
      destruct Hr1 as (? & ? & ? & ?). repeat split; simpl; done.
    + intros s' Hs'. left. split; [done|]. split; [done|]. subst run1. simpl in *. lia.
  - apply wp_bind, wp_set_run, wp_transition; [done| | | |].
    + destruct Hr1 as (? & ? & ? & ?). repeat split; simpl; done.
    + simpl. by rewrite Hst.
    + intros _ Hh e s' Hd. apply broken_intro; [done| |by rewrite Hh].
      destruct Hr1 as (? & ? & ? & ?). repeat split; simpl; done.
    + intros _ s' Hs'. right. by split.
Qed.

Lemma wp_fail_attempt step limits now started n err run s :
  synced (s, run) → wr_state run = Running →
  (wr_total_iterations run < B)%Z →
  wp h (fail_attempt root step limits now started n err)
    (λ r rs, match r with
      | Ok _ => running_on (wr_total_iterations run) limits rs ∧ (n ≤ max_retries limits)%Z
      | Err _ => broken rs
      end) (s, run).
Proof.
  intros Hsync Hst Hlt. pose proof Hsync as [_ Hr]. simpl in Hr.
  apply wp_bind, wp_elapsed. intros ended. apply wp_bind, wp_get_run, wp_bind.
  apply wp_record_attempt; [done|apply Hr|done| |].
  { intros Hh e s' Hd. by apply broken_intro. }
  intros s1 path Hsync1. cbn [sa_ended_at attempt_record] in Hsync1.
  set (run1 := set_counters _ _ run) in *. pose proof (synced_disk _ _ Hsync1) as Hdisk1.
  pose proof Hsync1 as [_ Hr1]. simpl in Hr1.
  apply wp_bind. apply (wp_reload _ run1); [done|apply Hr| |].
  { intros Hh e. by apply broken_intro. }
  apply wp_bind, wp_get_run, wp_bind, wp_log_line.
  { intros Hh e. by apply broken_intro. }
  intros s2 Hs2. apply (synced_runs _ _ _ Hs2) in Hsync1. clear Hs2 Hdisk1 s1.
  pose proof (synced_disk _ _ Hsync1) as Hdisk1.
  apply wp_bind, wp_enforce. { intros e. by apply broken_intro. }
  intros Htot _. destruct (is_retryable_step_error err && _) eqn:Ecan.
  - apply wp_ret. apply andb_true_iff in Ecan as [_ Hn%bool_decide_eq_true].
    split; [|done]. split; [done|]. split; [done|]. subst run1. simpl in *. lia.
  - apply wp_throw. by apply broken_intro.
Qed.

Lemma wp_run_attempt workflow step limits now n run s :
  ok_disk s → ok_run run → wr_state run = Running → (0 ≤ n)%Z →
  (max_total_iterations limits ≤ B)%Z →
  wp h (run_attempt root workflow step limits now n)
    (λ r rs, match r with
      | Ok true => running_on (wr_total_iterations run) limits rs ∨ finished rs
      | Ok false => running_on (wr_total_iterations run) limits rs
          ∧ (n ≤ max_retries limits)%Z ∧ (n ≤ (max_retries limits + 1) mod (u32_max + 1))%Z
      | Err _ => broken rs
      end) (s, run).
Proof.
  intros Hd Hr Hst Hn HB.
  apply wp_bind, wp_elapsed. intros started. apply wp_bind, wp_get_run, wp_bind, wp_log_line.
  { intros Hh e. by apply broken_intro. }
  intros s1 Hs1. apply (ok_disk_runs _ _ Hs1) in Hd. clear Hs1 s.
  apply wp_bind, wp_bind, wp_get_run.
  set (run1 := set_counters _ _ (set_step _ _ run)).
  assert (ok_run run1) as Hr1.
  { destruct Hr as (? & ? & ? & ?). repeat split; simpl; try done. by intros ? [= <-]. }
  apply wp_commit; [done|done| |].
  { intros Hh e s' Hd'. apply broken_intro; [done|done|by rewrite Hh]. }
  intros s2 Hsync. pose proof (synced_disk _ _ Hsync) as Hd2.
  apply wp_bind, wp_enforce. { intros e. by apply broken_intro. }
  intros Htot Hmod. change (wr_total_iterations run1) with (wr_total_iterations run) in Htot.
  apply wp_bind, wp_get_run, wp_bind, wp_attempt, wp_with_store.
  eapply wp_mono; [apply execute_keeps_records|]. intros r s3 [Hs3 _].
  apply (synced_runs _ _ _ Hs3) in Hsync. clear Hd2.
  destruct r as [evaluation|err].
  - apply wp_bind. eapply wp_mono;
      [apply (wp_finish_attempt _ _ _ _ _ _ run1); [done|done|simpl; lia]|].
    intros [[]|e] rs Hrs; [by apply wp_ret|done].
  - apply wp_bind. eapply wp_mono;
      [apply (wp_fail_attempt _ _ _ _ _ _ run1); [done|done|simpl; lia]|].
    intros [[]|e] rs Hrs; [|done]. apply wp_ret. by destruct Hrs.
Qed.

Lemma wp_attempt_loop fuel workflow step limits now n run s :
  ok_disk s → ok_run run → wr_state run = Running → (0 ≤ n)%Z →
  (max_total_iterations limits ≤ B)%Z → in_u32 (max_retries limits) →
  (0 < fuel)%nat → (max_retries limits + 2 - n ≤ Z.of_nat fuel)%Z →
  wp h (attempt_loop root fuel workflow step limits now n)
    (λ r rs, match r with
      | Ok (Some _) => running_on (wr_total_iterations run) limits rs ∨ finished rs
      | Ok None => False
      | Err _ => broken rs
      end) (s, run).
Proof.
  revert n run s. induction fuel as [|fuel IH]; intros n run s Hd Hr Hst Hn HB Hmax Hf Hfuel;
    [lia|].
  cbn [attempt_loop]. apply wp_bind. eapply wp_mono; [by apply wp_run_attempt|].
  intros [[|]|e] [s' run'] Hrs; [by apply wp_ret| |done].
  destruct Hrs as ([Hsync [Hst' [Hlt Htot]]] & Hn1 & Hn2). simpl in *.
  assert (u32_sat_add n 1 = n + 1)%Z as ->.
  { unfold_widths. destruct (decide (max_retries limits = 4294967295)%Z) as [E|E]; [|lia].
    rewrite E in Hn2. change ((4294967295 + 1) mod (4294967295 + 1))%Z with 0%Z in Hn2. lia. }
  eapply wp_mono.
  - apply IH; [by eapply synced_disk|by apply Hsync|done|lia|done|done| |lia].
    unfold_widths. lia.
  - intros [[?|]|e] rs; [|done..]. intros [(? & ? & ? & ?)|?]; [left|by right].
    split; [done|]. split; [done|]. split; [lia|done].
Qed.

Lemma wp_resolve_pointer run workflow s
    (Φ : result OrchestratorError (option NextStepPointer) → run_store → Prop) :
  ok_run run →
  (∀ e, Φ (Err e) s) → (∀ p, (∀ q, p = Some q → 0 ≤ np_attempt q)%Z → Φ (Ok p) s) →
  wp h (resolve_next_step_pointer root run workflow) Φ s.
Proof.
  intros (_ & _ & _ & Hatt) Herr Hok. unfold resolve_next_step_pointer.
  destruct (wr_current_step_id run) as [cur|].
  2:{ apply wp_ret, Hok. by destruct (head _); intros ? [= <-]. }
  destruct (wr_current_attempt run) as [n|] eqn:En.
  2:{ apply wp_ret, Hok. by intros ? [= <-]. }
  apply wp_bind, wp_attempt, wp_read_json.
  - intros e _. destruct e; try by apply wp_throw. case_decide; [|by apply wp_throw].
    apply wp_ret, Hok. intros ? [= <-]. by apply Hatt.
  - intros a _. apply wp_ret, Hok. by destruct (sa_next_step_id a); intros ? [= <-].
Qed.

(** The workflow-level limit of the run. *)
Definition below_limit (rs : run_st) : Prop :=
  ∃ workflow step, List.find (λ workflow, String.eqb (wf_id workflow) wid)
      (oc_workflows orchestrator) = Some workflow
    ∧ (wr_total_iterations rs.2 <
       max_total_iterations (resolve_execution_safety_limits orchestrator workflow step))%Z.

Lemma wp_execute_next now run s :
  synced (s, run) → wr_state run = Running →
  wp h (execute_next root orchestrator now)
    (λ r rs, match r with
      | Ok (Some _) => finished rs ∨
          (synced rs ∧ wr_state rs.2 = Running ∧ below_limit rs
           ∧ (wr_total_iterations run < wr_total_iterations rs.2)%Z)
      | Ok None => False
      | Err _ => broken rs
      end) (s, run).
Proof.
  intros Hsync Hst. pose proof (synced_disk _ _ Hsync) as Hd. pose proof Hsync as [_ Hr].
  simpl in Hr. apply wp_bind, wp_get_run, wp_bind, wp_lift.
  unfold workflow_for_run. rewrite (proj1 (proj2 Hr)).
  set (found := List.find _ _). assert (found = found) as Ew by done. revert Ew.
  unfold found at 2. generalize found. intros [workflow|] Ew; [|by apply broken_intro]. symmetry in Ew. simpl.
  apply wp_bind, wp_with_store, wp_resolve_pointer; [done|by intros; apply broken_intro|].
  intros [pointer|] Hp.
  - apply wp_bind, wp_lift. destruct (List.find _ (wf_steps workflow)) as [step|] eqn:Es;
      [|by apply broken_intro]. simpl.
    apply find_some in Es as [Hin%list_elem_of_In _].
    pose proof (find_some _ _ Ew) as [Hw%list_elem_of_In _].
    set (limits := resolve_execution_safety_limits orchestrator workflow step).
    pose proof (B_limits workflow step Ew) as HB.
    pose proof (retries_u32 workflow step Hw Hin) as Hret.
    eapply wp_mono.
    + apply wp_attempt_loop; [done..|by apply Hp|done|done| |].
      all: unfold attempt_fuel; fold limits in Hret; unfold_widths; specialize (Hp _ eq_refl); lia.
    + intros [[u|]|e] rs; [|done..]. intros [(H1 & H2 & H3 & H4)|?]; [right|by left].
      split; [done|]. split; [done|]. split; [|done]. by exists workflow, step.
  - apply wp_bind, wp_set_run, wp_bind, wp_transition; [done| | | |].
    + destruct Hr as (? & ? & ? & ?). split; [done|]. split; [done|]. by split.
    + simpl. by rewrite Hst.
    + intros _ Hh e s' Hd'. apply broken_intro; [done| |by rewrite Hh].
      destruct Hr as (? & ? & ? & ?). split; [done|]. split; [done|]. by split.
    + intros _ s' Hs'. apply wp_ret. left. by split.
Qed.

(** A failure is recorded before it is returned. *)
Definition failed_run (e : OrchestratorError) (rs : run_st) : Prop :=
  ok_disk rs.1 ∧ ok_run rs.2 ∧
  (h = true → synced rs ∧ wr_state rs.2 = Failed
    ∧ wr_terminal_reason rs.2 = Some ("engine start failed: " +:+ error_display e)).

Lemma wp_execute_or_fail now run s :
  synced (s, run) → wr_state run = Running →
  wp h (execute_or_fail root orchestrator now)
    (λ r rs, match r with
      | Ok (Some _) => finished rs ∨
          (synced rs ∧ wr_state rs.2 = Running ∧ below_limit rs
           ∧ (wr_total_iterations run < wr_total_iterations rs.2)%Z)
      | Ok None => False
      | Err e => failed_run e rs
      end) (s, run).
Proof.
  intros Hsync Hst. apply wp_bind, wp_attempt. eapply wp_mono; [by apply wp_execute_next|].
  intros [r|err] [s1 run1] Hrs; [by apply wp_ret|].
  destruct Hrs as (Hd & Hr & Hrun). simpl in Hd, Hr, Hrun.
  apply wp_bind, wp_get_run, wp_bind, wp_log_line.
  { intros Hh e. split; [done|]. split; [done|]. by rewrite Hh. }
  intros s2 Hs2. apply (ok_disk_runs _ _ Hs2) in Hd.
  apply wp_bind, wp_get_run, wp_bind.
  destruct (is_terminal (wr_state run1)) eqn:Et.
  { apply wp_ret, wp_throw. split; [done|]. split; [done|]. intros Hh.
    rewrite (Hrun Hh) in Et. done. }
  apply wp_transition; [done|done| | |].
  - intros Hcan. split; [done|]. split; [done|]. intros Hh. by rewrite (Hrun Hh) in Hcan.
  - intros _ Hh e s' Hd'. split; [done|]. split; [done|]. by rewrite Hh.
  - intros _ s' Hs'. apply wp_throw. pose proof Hs' as [_ Hr']. split; [by eapply synced_disk|].
    split; [done|]. by intros _.
Qed.

(** What running to the end leaves behind. *)
Definition ended (r : result OrchestratorError (option ())) (was_running : bool) (rs : run_st) :
    Prop :=
  match r with
  | Ok (Some _) => synced rs ∧ wr_state rs.2 ≠ Running
      ∧ (was_running = true → wr_state rs.2 = Succeeded)
  | Ok None => False
  | Err e => ok_disk rs.1 ∧ ok_run rs.2 ∧ (h = true → (B ≤ max_cycles)%Z →
      synced rs ∧ wr_state rs.2 = Failed
      ∧ wr_terminal_reason rs.2 = Some ("engine start failed: " +:+ error_display e))
  end.

Lemma below_limit_B rs : below_limit rs → (wr_total_iterations rs.2 < B)%Z.
Proof. intros (w & step & Hw & Hlt). pose proof (B_limits w step Hw). lia. Qed.

Lemma wp_run_loop fuel cycles start_now run s :
  synced (s, run) → (0 ≤ cycles ≤ wr_total_iterations run)%Z →
  (cycles = 0 ∨ wr_total_iterations run < B)%Z →
  (cycles ≤ max_cycles)%Z → (max_cycles - cycles < Z.of_nat fuel)%Z →
  wp h (run_loop root orchestrator fuel cycles start_now)
    (λ r rs, ended r (bool_decide (wr_state run = Running)) rs) (s, run).
Proof.
  revert cycles run s. induction fuel as [|fuel IH]; intros cycles run s Hsync Hc HcB Hmax Hf;
    [lia|].
  cbn [run_loop]. apply wp_bind, wp_get_run.
  destruct (decide (wr_state run = Running)) as [Hst|Hst].
  2:{ rewrite !(bool_decide_eq_false_2 _ Hst). apply wp_ret. split; [done|]. by split. }
  rewrite !(bool_decide_eq_true_2 _ Hst). cbn [negb].
  destruct (bool_decide (max_cycles ≤ cycles)%Z) eqn:Ecyc.
  { apply bool_decide_eq_true in Ecyc. apply wp_throw. split; [by eapply synced_disk|].
    split; [by apply Hsync|]. intros _ HB. unfold max_cycles in *. lia. }
  apply bool_decide_eq_false in Ecyc.
  apply wp_bind, wp_elapsed. intros t. apply wp_bind.
  eapply wp_mono; [by apply wp_execute_or_fail|].
  intros [[u|]|e] [s1 run1] Hrs; [|done|].
  2:{ destruct Hrs as (Hd & Hr & Hh). split; [done|]. split; [done|]. intros E _. by apply Hh. }
  assert (synced (s1, run1)) as Hsync1 by (by destruct Hrs as [[? _]|(? & _)]).
  pose proof (synced_disk _ _ Hsync1) as Hd1.
  apply wp_bind, (wp_reload _ run1); [done|by apply Hsync1| |].
  { intros Hh e. split; [done|]. split; [by apply Hsync1|]. by rewrite Hh. }
  apply wp_bind, wp_get_run.
  destruct Hrs as [[_ Hdone]|(_ & Hst1 & Hlim%below_limit_B & Hlt)]; simpl in *.
  - rewrite (bool_decide_eq_false_2 (wr_state run1 = Running)) by congruence. simpl.
    destruct fuel as [|fuel]; [unfold max_cycles in *; lia|]. cbn [run_loop].
    apply wp_bind, wp_get_run. rewrite bool_decide_eq_false_2 by congruence.
    apply wp_ret. split; [done|]. split; [simpl; congruence|done].
  - rewrite (bool_decide_eq_false_2 (wr_total_iterations run1 = _)) by lia.
    rewrite andb_false_r.
    assert (u32_sat_add cycles 1 = cycles + 1)%Z as ->.
    { unfold max_cycles in *. unfold_widths. lia. }
    eapply wp_mono; [apply IH; [done|lia|right; lia|lia|lia]|].
    intros r rs Hend. by rewrite (bool_decide_eq_true_2 _ Hst1) in Hend.
Qed.

Definition disk_run (s : run_store) : option WorkflowRunRecord :=
  match rs_runs s !! file with Some (Parsed r) => Some r | _ => None end.

(** The result of [start] and [resume]. *)
Definition concluded (was_running : bool) (r : result OrchestratorError (option WorkflowRunRecord))
    (s : run_store) : Prop :=
  ok_disk s ∧
  match r with
  | Ok (Some run) => disk_run s = Some run ∧ wr_state run ≠ Running
      ∧ (was_running = true → wr_state run = Succeeded)
  | Ok None => False
  | Err e => h = true → (B ≤ max_cycles)%Z →
      ∃ run, disk_run s = Some run ∧ wr_state run = Failed
        ∧ wr_terminal_reason run = Some ("engine start failed: " +:+ error_display e)
  end.

Lemma wp_run_and_reload run now prepare was_running s :
  wp h prepare (λ r rs, match r with
    | Ok _ => synced rs ∧ (0 ≤ wr_total_iterations rs.2)%Z
        ∧ (was_running = true → wr_state rs.2 = Running)
    | Err _ => h = false ∧ ok_disk rs.1
    end) (s, run) →
  wp h (run_and_reload root orchestrator run id now prepare)
    (λ r s', concluded was_running r s') s.
Proof.
  intros Hprep. apply wp_bind. apply wp_zoom, wp_bind. eapply wp_mono; [exact Hprep|].
  intros [u|e] [s1 run1] Hrs; simpl.
  2:{ destruct Hrs as [Hh Hd]. split; [done|]. by rewrite Hh. }
  destruct Hrs as (Hsync & Hpos & Hrun). simpl in *.
  eapply wp_mono.
  - apply wp_run_loop; [done|lia|by left|unfold max_cycles; lia|unfold max_cycles; lia].
  - intros [[v|]|e] [s2 run2] Hend; simpl in *; [|done|].
    + destruct Hend as ([Hd Hr] & Hnot & Hsucc). simpl in *.
      apply wp_fmap, wp_read_json.
      * intros e He. split; [intros r Hr'; simpl in *; congruence|]. intros Hh. exfalso.
        destruct (He Hh) as [He'|[c He']]; unfold file in Hd; congruence.
      * intros a Ha. fold file in Ha. rewrite Hd in Ha. injection Ha as <-.
        split; [intros r Hr'; simpl in *; congruence|]. unfold disk_run. rewrite Hd.
        split; [done|]. split; [done|]. intros ->. apply Hsucc.
        by apply bool_decide_eq_true, Hrun.
    + destruct Hend as (Hd & Hr & Hfail). split; [done|]. intros Hh HB.
      destruct (Hfail Hh HB) as ([Hd2 _] & Hst & Hreason). simpl in *.
      exists run2. unfold disk_run. by rewrite Hd2.
Qed.

Lemma wp_to_running run s now summary action :
  synced (s, run) → (0 ≤ wr_total_iterations run)%Z →
  can_transition_to (wr_state run) Running = true →
  wp h (transition_state root Running now summary false action) (λ r rs, match r with
    | Ok _ => synced rs ∧ (0 ≤ wr_total_iterations rs.2)%Z
        ∧ (true = true → wr_state rs.2 = Running)
    | Err _ => h = false ∧ ok_disk rs.1
    end) (s, run).
Proof.
  intros Hsync Hpos Hcan. pose proof Hsync as [_ Hr].
  apply wp_transition; [by eapply synced_disk|done| | |].
  - congruence.
  - intros _ Hh e s' Hd. by split.
  - intros _ s' Hs'. split; [done|]. by split.
Qed.

Definition starts (run : WorkflowRunRecord) : bool :=
  bool_decide (wr_state run = Queued ∨ wr_state run = Running).
Definition resumes (run : WorkflowRunRecord) : bool := negb (is_terminal (wr_state run)).

Lemma wp_start now run s :
  synced (s, run) → (0 ≤ wr_total_iterations run)%Z →
  wp h (start root orchestrator id now) (λ r s', concluded (starts run) r s') s.
Proof.
  intros Hsync Hpos. pose proof Hsync as [Hd Hr]. simpl in Hd, Hr.
  apply wp_bind, wp_read_json; fold file; rewrite Hd.
  { intros e He. split; [by eapply synced_disk|]. intros Hh. by destruct (He Hh) as [?|[? ?]]. }
  intros a [= <-]. apply wp_run_and_reload.
  destruct (decide (wr_state run = Queued)) as [E|E].
  - eapply wp_mono; [apply wp_to_running; [done|done|by rewrite E]|].
    intros [u|e] rs; [|done]. naive_solver.
  - apply wp_ret. split; [done|]. split; [done|]. intros Hs%bool_decide_eq_true. naive_solver.
Qed.

Lemma wp_resume now run s :
  synced (s, run) → (0 ≤ wr_total_iterations run)%Z →
  wp h (resume root orchestrator id now) (λ r s', concluded (resumes run) r s') s.
Proof.
  intros Hsync Hpos. pose proof Hsync as [Hd Hr]. simpl in Hd, Hr.
  apply wp_bind, wp_read_json; fold file; rewrite Hd.
  { intros e He. split; [by eapply synced_disk|]. intros Hh. by destruct (He Hh) as [?|[? ?]]. }
  intros a [= <-]. unfold resumes. destruct (is_terminal (wr_state run)) eqn:Et.
  { apply wp_ret. split; [by eapply synced_disk|]. unfold disk_run. rewrite Hd.
    split; [done|]. split; [|done]. by destruct (wr_state run). }
  apply wp_run_and_reload. case_decide as Hq.
  - eapply wp_mono; [apply wp_to_running; [done|done|by destruct Hq as [-> | ->]]|].
    intros [u|e] rs; [|done]. naive_solver.
  - apply wp_ret. split; [done|]. split; [done|]. intros _. simpl.
    destruct (wr_state run); naive_solver.
Qed.
End one_run.

(** ** Runs of the engine *)
(** The iteration limit of a workflow does not depend on the step. *)
Definition workflow_iteration_limit (orchestrator : OrchestratorConfig)
    (workflow : WorkflowConfig) : Z :=
  from_option id (max_total_iterations ExecutionSafetyLimits_default)
    (or_else (wf_limits workflow ≫= wl_max_total_iterations)
             (oc_workflow_orchestration orchestrator ≫= wo_max_total_iterations)).

(** The largest number of iterations a run may reach. *)
Definition iteration_bound (orchestrator : OrchestratorConfig) (run : WorkflowRunRecord) : Z :=
  match List.find (λ workflow, String.eqb (wf_id workflow) (wr_workflow_id run))
          (oc_workflows orchestrator) with
  | Some workflow =>
      Z.max (wr_total_iterations run) (workflow_iteration_limit orchestrator workflow)
  | None => wr_total_iterations run
  end.

(** The numbers of the configuration and of the record are [u32]s. *)
Record u32_config (orchestrator : OrchestratorConfig) : Prop := {
  u32_iterations : ∀ workflow, workflow ∈ oc_workflows orchestrator →
    in_u32 (workflow_iteration_limit orchestrator workflow);
  u32_retries : ∀ workflow step, workflow ∈ oc_workflows orchestrator →
    step ∈ wf_steps workflow →
    in_u32 (max_retries (resolve_execution_safety_limits orchestrator workflow step));
}.
Record stored_run (root id : string) (s : run_store) (run : WorkflowRunRecord) : Prop := {
  stored_file : rs_runs s !! run_metadata_path root id = Some (Parsed run);
  stored_id : wr_run_id run = id;
  stored_total : in_u32 (wr_total_iterations run);
  stored_attempt : ∀ n, wr_current_attempt run = Some n → (0 ≤ n)%Z;
}.

Section engine_theorems.
Context `{StepExecutorLaws}.
Context (root : string) (orchestrator : OrchestratorConfig).

Lemma bound_facts run s :
  u32_config orchestrator → stored_run root (wr_run_id run) s run →
  let B := iteration_bound orchestrator run in
  (B ≤ u32_max)%Z
  ∧ (∀ workflow step,
      List.find (λ workflow, String.eqb (wf_id workflow) (wr_workflow_id run))
        (oc_workflows orchestrator) = Some workflow →
      (max_total_iterations (resolve_execution_safety_limits orchestrator workflow step) ≤ B)%Z)
  ∧ synced root (wr_run_id run) (wr_workflow_id run) B (s, run)
  ∧ (0 ≤ wr_total_iterations run)%Z.
Proof.
  intros [Hit _] [Hfile _ Htot Hatt] B. subst B. unfold iteration_bound.
  assert (∀ B, (wr_total_iterations run ≤ B)%Z →
    synced root (wr_run_id run) (wr_workflow_id run) B (s, run)) as Hsync.
  { intros B HB. split; [done|]. by split. }
  destruct (List.find _ _) as [workflow|] eqn:E.
  - pose proof (find_some _ _ E) as [Hin%list_elem_of_In _]. specialize (Hit _ Hin).
    unfold_widths. split; [lia|]. split; [|split; [apply Hsync; lia|lia]].
    intros w step [= <-]. change (max_total_iterations (resolve_execution_safety_limits
      orchestrator workflow step)) with (workflow_iteration_limit orchestrator workflow). lia.
  - unfold_widths. split; [lia|]. split; [done|]. split; [apply Hsync; lia|lia].
Qed.

Lemma engine_concludes (h : bool) id now (w : world run_store) run :
  u32_config orchestrator → stored_run root id (st w) run → calm h (ev w) →
  let B := iteration_bound orchestrator run in
  (let '(w', r) := start root orchestrator id now w in
   concluded h root id (wr_workflow_id run) B (starts run) r (st w'))
  ∧ (let '(w', r) := resume root orchestrator id now w in
     concluded h root id (wr_workflow_id run) B (resumes run) r (st w')).
Proof.
  intros Hc Hr Hcalm B. pose proof (stored_id _ _ _ _ Hr) as <-.
  destruct (bound_facts run (st w) Hc Hr) as (HB & Hlim & Hsync & Hpos).
  pose proof (u32_retries _ Hc) as Hret.
  pose proof (wp_run h (start root orchestrator (wr_run_id run) now) _ w
    (wp_start h root orchestrator _ _ B HB Hlim Hret now run (st w) Hsync Hpos) Hcalm) as H1.
  pose proof (wp_run h (resume root orchestrator (wr_run_id run) now) _ w
    (wp_resume h root orchestrator _ _ B HB Hlim Hret now run (st w) Hsync Hpos) Hcalm) as H2.
  destruct (start _ _ _ _ w), (resume _ _ _ _ w). by split.
Qed.

(** C1: The engine always comes back, within its limits, whatever the step
    executor answers and whatever I/O errors occur: neither the retry loop nor
    the cycle loop runs out of fuel; a run it returns is the one on disk and is
    not [Running] (it [Succeeded], if it was to be executed); and the record on
    disk never counts more iterations than the larger of the workflow's limit
    and the count before. *)
Theorem engine_terminates_within_limits (id : string) (now : Z) (w : world run_store)
    (run : WorkflowRunRecord) (Hc : u32_config orchestrator)
    (Hr : stored_run root id (st w) run) :
  Forall (λ '((w', r), executes),
    r ≠ Ok None
    ∧ (∀ run', r = Ok (Some run') → disk_run root id (st w') = Some run'
        ∧ wr_state run' ≠ Running ∧ ((executes : bool) = true → wr_state run' = Succeeded))
    ∧ (∀ run', disk_run root id (st w') = Some run' →
        (wr_total_iterations run' ≤ iteration_bound orchestrator run)%Z))
    [(start root orchestrator id now w, starts run);
     (resume root orchestrator id now w, resumes run)].
Proof.
  assert (calm false (ev w)) as Hcalm by done.
  destruct (engine_concludes false id now w run Hc Hr Hcalm) as [H1 H2].
  assert (∀ b r s, concluded false root id (wr_workflow_id run)
    (iteration_bound orchestrator run) b r s →
    r ≠ Ok None ∧ (∀ run', r = Ok (Some run') → disk_run root id s = Some run'
      ∧ wr_state run' ≠ Running ∧ (b = true → wr_state run' = Succeeded))
    ∧ (∀ run', disk_run root id s = Some run' →
        (wr_total_iterations run' ≤ iteration_bound orchestrator run)%Z)) as Hall.
  { intros b r s [Hd Hres]. split; [by intros ->|]. split; [by intros run' ->|].
    intros run' Hrun'. unfold disk_run in Hrun'.
    destruct (rs_runs s !! _) as [[r'|]|] eqn:E; [|done..]. injection Hrun' as ->.
    by apply Hd in E as (_ & _ & ? & _). }
  constructor; [|constructor; [|constructor]].
  - destruct (start _ _ _ _ w). by apply Hall.
  - destruct (resume _ _ _ _ w). by apply Hall.
Qed.

(** C2: No run is left hanging: when the disk works and the iteration limit is
    at most the 10000 cycles the engine allows, executing a run ends with the
    record on disk in state [Succeeded] and returned, or in state [Failed] with
    the reason of the error that is returned. *)
Theorem engine_records_outcome (id : string) (now : Z) (w : world run_store)
    (run : WorkflowRunRecord) (Hc : u32_config orchestrator)
    (Hr : stored_run root id (st w) run) (Hcalm : faults (ev w) = [])
    (Hstate : wr_state run = Queued ∨ wr_state run = Running)
    (HB : (iteration_bound orchestrator run ≤ max_cycles)%Z) :
  Forall (λ '(w', r),
    ∃ run', disk_run root id (st w') = Some run' ∧
    match r with
    | Ok done => done = Some run' ∧ wr_state run' = Succeeded
    | Err e => wr_state run' = Failed
        ∧ wr_terminal_reason run' = Some ("engine start failed: " +:+ error_display e)
    end) [start root orchestrator id now w; resume root orchestrator id now w].
Proof.
  assert (calm true (ev w)) as Hcalm' by (intros _; exact Hcalm).
  destruct (engine_concludes true id now w run Hc Hr Hcalm') as [H1 H2].
  assert (starts run = true ∧ resumes run = true) as [Hs Hres].
  { unfold starts, resumes. rewrite bool_decide_eq_true. split; [done|].
    by destruct Hstate as [-> | ->]. }
  rewrite Hs in H1. rewrite Hres in H2.
  assert (∀ r s, concluded true root id (wr_workflow_id run)
    (iteration_bound orchestrator run) true r s →
    ∃ run', disk_run root id s = Some run' ∧ match r with
      | Ok done => done = Some run' ∧ wr_state run' = Succeeded
      | Err e => wr_state run' = Failed
          ∧ wr_terminal_reason run' = Some ("engine start failed: " +:+ error_display e)
      end) as Hall.
  { intros [[run'|]|e] s [_ Hx]; [|done|].
    - exists run'. destruct Hx as (? & _ & Hx). by rewrite Hx.
    - by apply Hx. }
  constructor; [|constructor; [|constructor]].
  - destruct (start _ _ _ _ w). by apply Hall.
  - destruct (resume _ _ _ _ w). by apply Hall.
Qed.
End engine_theorems.

(** ** Concrete runs *)
(** An executor that answers without touching the store. *)
Definition demo_executor (answer : Z → result OrchestratorError StepEvaluation) : StepExecutor :=
  λ _ _ _ attempt_no _ _, lift (answer attempt_no).
Lemma demo_executor_laws answer : @StepExecutorLaws (demo_executor answer).
Proof. intros h run workflow step n now timeout s. by apply wp_lift. Qed.

Definition demo_engine_step : WorkflowStepConfig := {|
  ws_id := "plan"; ws_step_type := AgentTask; ws_agent := "main"; ws_prompt := "do it";
  ws_prompt_type := WorkflowResultEnvelope; ws_workspace_mode := OrchestratorWorkspace;
  ws_next := None; ws_on_approve := None; ws_on_reject := None; ws_outputs := [];
  ws_output_files := []; ws_final_output_priority := [];
  ws_limits := Some {| sl_max_retries := Some 3%Z |} |}.
Definition demo_orchestrator : OrchestratorConfig := {|
  oc_id := "main"; oc_selector_agent := "main"; oc_default_workflow := "w";
  oc_selection_max_retries := 1; oc_selector_timeout_seconds := 30; oc_agents := [];
  oc_workflows := [{| wf_id := "w"; wf_version := 1; wf_description := "d"; wf_tags := [];
    wf_inputs := []; wf_limits := None; wf_steps := [demo_engine_step] |}];
  oc_workflow_orchestration := None |}.
Definition demo_run (state : RunState) (step : option string) (attempt_no : option Z) :
    WorkflowRunRecord := {|
  wr_run_id := "run-1"; wr_workflow_id := "w"; wr_state := state;
  wr_channel_profile_id := None; wr_inputs := [];
  wr_memory_context := RunMemoryContext_default; wr_current_step_id := step;
  wr_current_attempt := attempt_no; wr_started_at := 100; wr_updated_at := 100;
  wr_total_iterations := 1; wr_source_message_id := None; wr_selector_id := None;
  wr_selected_workflow := None; wr_status_conversation_id := None;
  wr_terminal_reason := None |}.
Definition demo_store (run : WorkflowRunRecord) (attempts : list StepAttemptRecord) : run_store := {|
  rs_runs := {[run_metadata_path "/state" (wr_run_id run) := Parsed run]};
  rs_progress := ∅;
  rs_attempts := list_to_map ((λ a, (step_attempt_path "/state" (sa_run_id a) (sa_step_id a)
    (sa_attempt a), Parsed a)) <$> attempts);
  rs_log := []; rs_files := ∅ |}.

Lemma demo_u32_config : u32_config demo_orchestrator.
Proof.
  split.
  - intros w ->%list_elem_of_singleton. by unfold_widths.
  - intros w step ->%list_elem_of_singleton ->%list_elem_of_singleton. by unfold_widths.
Qed.
Lemma demo_stored run attempts :
  wr_run_id run = "run-1" → wr_total_iterations run = 1%Z →
  (∀ n, wr_current_attempt run = Some n → 0 ≤ n)%Z →
  stored_run "/state" "run-1" (demo_store run attempts) run.
Proof.
  intros Hid Ht Ha. split; [|done| |done].
  - simpl. rewrite Hid. apply lookup_singleton_eq.
  - rewrite Ht. by unfold_widths.
Qed.

(** A step that always fails with a retryable error. *)
Definition failing_executor : StepExecutor :=
  demo_executor (λ _, Err (StepExecution "plan" "provider crashed")).
Definition demo_world (state : RunState) : world run_store :=
  World (demo_store (demo_run state None None) []) (Env [] []).

Lemma engine_terminates_within_limits_witness :
  u32_config demo_orchestrator ∧
  (@start failing_executor "/state" demo_orchestrator "run-1" 100 (demo_world Queued)).2 ≠ Ok None.
Proof.
  split; [exact demo_u32_config|].
  pose proof (@engine_terminates_within_limits failing_executor (demo_executor_laws _) "/state"
    demo_orchestrator "run-1" 100 (demo_world Queued) (demo_run Queued None None)
    demo_u32_config (demo_stored (demo_run Queued None None) [] eq_refl eq_refl
      ltac:(intros ?; discriminate))) as H.
  apply Forall_cons in H as [H _].
  destruct (@start failing_executor _ _ _ _ _) as [w' r]. exact (proj1 H).
Defined.

Lemma engine_records_outcome_witness :
  let '(w', r) := @start failing_executor "/state" demo_orchestrator "run-1" 100
                    (demo_world Queued) in
  is_ok r = false ∧ ∃ run', disk_run "/state" "run-1" (st w') = Some run' ∧ wr_state run' = Failed.
Proof.
  pose proof (@engine_records_outcome failing_executor (demo_executor_laws _) "/state"
    demo_orchestrator "run-1" 100 (demo_world Queued) (demo_run Queued None None)
    demo_u32_config (demo_stored (demo_run Queued None None) [] eq_refl eq_refl
      ltac:(intros ?; discriminate)) eq_refl (or_introl eq_refl)
    ltac:(vm_compute; discriminate)) as H.
  apply Forall_cons in H as [H _].
  destruct (@start failing_executor _ _ _ _ _) as [w' r] eqn:E.
  assert (is_ok r = false) as Hr by (change r with (w', r).2; rewrite <- E; vm_compute; reflexivity).
  split; [exact Hr|]. destruct r as [o|e]; [discriminate Hr|].
  destruct H as (run' & H1 & H2 & _). exists run'. split; [exact H1|exact H2].
Defined.

(** A crash between recording a failed attempt and starting the next one is
    not recovered: the recorded attempt names no next step, so [resume] takes
    the workflow for completed and marks the run [Succeeded] although the step
    only ever failed and has retries left. *)
Theorem resume_after_failed_attempt_succeeds :
  let run := demo_run Running (Some "plan") (Some 1%Z) in
  let failed := attempt_record run demo_engine_step 1 100 101 "failed_retryable" [] [] None
                  (Some "provider crashed") [] in
  ∀ executor : StepExecutor,
    ∃ run', (@resume executor "/state" demo_orchestrator "run-1" 200
        (World (demo_store run [failed]) (Env [] []))).2 = Ok (Some run')
      ∧ wr_state run' = Succeeded ∧ wr_terminal_reason run' = Some "workflow completed".
Proof.
  intros run failed executor. eexists. split; [vm_compute; reflexivity|by split].
Qed.
