(* ===== verification/SlackTarget.v ===== *)
(** * Slack targets

    [src/src/orchestration/slack_target.rs]: where the outcome of a scheduled
    job is posted, as a JSON object and back. *)
From S2P Require Import Prelude RustStr Json TypedFields Config.

Local Open Scope string_scope.
Local Open Scope list_scope.

Inductive SlackPostingMode := ChannelPost | ThreadReply.
#[export] Instance SlackPostingMode_eq_dec : EqDecision SlackPostingMode.
Proof. solve_decision. Defined.

Record SlackTargetRef := {
  st_channel_profile_id : string;
  st_channel_id : string;
  st_thread_ts : option string;
  st_posting_mode : SlackPostingMode;
}.

Definition required_trimmed_string (obj : JMap) (key field_path : string) : result string string :=
  value ← ok_or (field_path +:+ "." +:+ key +:+ " is required") (map_get key obj ≫= as_str);
  let trimmed := trim value in
  if is_empty trimmed then Err (field_path +:+ "." +:+ key +:+ " must be non-empty")
  else Ok trimmed.

Definition optional_trimmed_string (obj : JMap) (key field_path : string) :
    result string (option string) :=
  match map_get key obj with
  | None | Some VNull => Ok None
  | Some (VString value) =>
      let trimmed := trim value in
      if is_empty trimmed then
        Err (field_path +:+ "." +:+ key +:+ " must be non-empty when provided")
      else Ok (Some trimmed)
  | Some _ => Err (field_path +:+ "." +:+ key +:+ " must be a string")
  end.

Definition parse_posting_mode (value field_path : string) : result string SlackPostingMode :=
  if String.eqb value "channel_post" then Ok ChannelPost
  else if String.eqb value "thread_reply" then Ok ThreadReply
  else Err (field_path +:+ ".postingMode must be channel_post|thread_reply (got `" +:+ value
            +:+ "`)").

Definition parse_slack_target_ref (value : Value) (field_path : string) :
    result string (option SlackTargetRef) :=
  obj ← ok_or (field_path +:+ " must be a JSON object") (as_object value);
  match map_get "channel" obj ≫= as_str with
  | None => Ok None
  | Some channel =>
      let channel := trim channel in
      if negb (String.eqb channel "slack") then
        Err (field_path +:+ ".channel `" +:+ channel +:+ "` is not supported; expected `slack`")
      else
        channel_profile_id ← required_trimmed_string obj "channelProfileId" field_path;
        channel_id ← required_trimmed_string obj "channelId" field_path;
        posting_mode_raw ← required_trimmed_string obj "postingMode" field_path;
        posting_mode ← parse_posting_mode posting_mode_raw field_path;
        thread_ts ← optional_trimmed_string obj "threadTs" field_path;
        thread_ts ← match posting_mode with
          | ChannelPost => Ok None
          | ThreadReply =>
              value ← ok_or (field_path +:+
                ".threadTs is required when postingMode=thread_reply") thread_ts;
              Ok (Some value)
          end;
        Ok (Some {| st_channel_profile_id := channel_profile_id; st_channel_id := channel_id;
                    st_thread_ts := thread_ts; st_posting_mode := posting_mode |})
  end.

Definition posting_mode_str (m : SlackPostingMode) : string :=
  match m with ChannelPost => "channel_post" | ThreadReply => "thread_reply" end.

Definition slack_target_ref_to_value (target : SlackTargetRef) : Value :=
  let obj := map_from_iter [
    ("channel", VString "slack");
    ("channelProfileId", VString (st_channel_profile_id target));
    ("channelId", VString (st_channel_id target));
    ("postingMode", VString (posting_mode_str (st_posting_mode target)))] in
  VObject (match st_thread_ts target with
           | Some thread_ts => map_insert "threadTs" (VString thread_ts) obj
           | None => obj
           end).

Definition channel_is_slack (k : ChannelKind) : bool := match k with Slack => true | _ => false end.

Definition validate_profile_mapping (settings : Settings) (orchestrator_id : string)
    (target : option SlackTargetRef) : result string () :=
  match target with
  | None => Ok ()
  | Some target =>
      let id := st_channel_profile_id target in
      profile ← ok_or ("targetRef.channelProfileId `" +:+ id +:+ "` is not configured")
        (map_get id (s_channel_profiles settings));
      reject_if (negb (channel_is_slack (cp_channel profile)))
        ("targetRef.channelProfileId `" +:+ id +:+ "` must reference a slack channel profile") ;;
      reject_if (negb (String.eqb (cp_orchestrator_id profile) orchestrator_id))
        ("targetRef.channelProfileId `" +:+ id +:+ "` maps to orchestrator `" +:+
         cp_orchestrator_id profile +:+ "` (expected `" +:+ orchestrator_id +:+ "`)")
  end.

Definition slack_target_from_conversation (channel_profile_id conversation_id : string) :
    result string SlackTargetRef :=
  let channel_profile_id := trim channel_profile_id in
  if is_empty channel_profile_id then Err "channelProfileId must be non-empty" else
  let conversation_id := trim conversation_id in
  if is_empty conversation_id then Err "conversationId must be non-empty" else
  match split_once ":" conversation_id with
  | Some (channel_id, thread_ts) =>
      let channel_id := trim channel_id in
      let thread_ts := trim thread_ts in
      if is_empty channel_id || is_empty thread_ts then
        Err ("invalid conversation id `" +:+ conversation_id +:+ "`")
      else Ok {| st_channel_profile_id := channel_profile_id; st_channel_id := channel_id;
                 st_thread_ts := Some thread_ts; st_posting_mode := ThreadReply |}
  | None =>
      Ok {| st_channel_profile_id := channel_profile_id; st_channel_id := conversation_id;
            st_thread_ts := None; st_posting_mode := ChannelPost |}
  end.

(** ** Well-formed targets *)
Definition trimmed_text (s : string) : Prop := trim s = s ∧ is_empty s = false.
Record target_wf (t : SlackTargetRef) : Prop := {
  target_profile : trimmed_text (st_channel_profile_id t);
  target_channel : trimmed_text (st_channel_id t);
  target_thread : match st_posting_mode t with
                  | ChannelPost => st_thread_ts t = None
                  | ThreadReply => ∃ ts, st_thread_ts t = Some ts ∧ trimmed_text ts
                  end;
}.

Lemma trim_trimmed s : is_empty (trim s) = false → trimmed_text (trim s).
Proof. intros H. split; [apply trim_idemp|done]. Qed.

Lemma required_trimmed_string_Ok obj key path s :
  required_trimmed_string obj key path = Ok s → trimmed_text s.
Proof.
  unfold required_trimmed_string. intros (v & _ & H)%bind_Ok.
  destruct (is_empty (trim v)) eqn:E; [done|]. injection H as <-. by apply trim_trimmed.
Qed.
Lemma optional_trimmed_string_Ok obj key path s :
  optional_trimmed_string obj key path = Ok (Some s) → trimmed_text s.
Proof.
  unfold optional_trimmed_string. destruct (map_get key obj) as [[]|]; try done.
  destruct (is_empty (trim s0)) eqn:E; [done|]. intros [= <-]. by apply trim_trimmed.
Qed.

Lemma parse_slack_target_ref_wf value path t :
  parse_slack_target_ref value path = Ok (Some t) → target_wf t.
Proof.
  unfold parse_slack_target_ref. intros (obj & _ & H)%bind_Ok.
  destruct (map_get "channel" obj ≫= as_str) as [ch|]; [|done].
  destruct (negb _); [done|].
  apply bind_Ok in H as (p & Hp%required_trimmed_string_Ok & H).
  apply bind_Ok in H as (c & Hc%required_trimmed_string_Ok & H).
  apply bind_Ok in H as (mr & _ & H). apply bind_Ok in H as (m & _ & H).
  apply bind_Ok in H as (ts & Hts & H). apply bind_Ok in H as (ts' & Hts' & [= <-]).
  split; [done..|]. simpl. destruct m; [by injection Hts' as <-|].
  apply bind_Ok in Hts' as (v & Hv%ok_or_Ok & [= <-]). subst ts.
  exists v. split; [done|]. by apply optional_trimmed_string_Ok in Hts.
Qed.

Lemma parse_of_value t path :
  target_wf t → parse_slack_target_ref (slack_target_ref_to_value t) path = Ok (Some t).
Proof.
  intros [[Hp1 Hp2] [Hc1 Hc2] Hth]. destruct t as [p c ts m]; simpl in *.
  unfold parse_slack_target_ref, required_trimmed_string, optional_trimmed_string.
  destruct m.
  - subst ts. simpl. rewrite Hp1, Hp2. simpl. by rewrite Hc1, Hc2.
  - destruct Hth as (v & -> & Hv1 & Hv2). simpl.
    rewrite Hp1, Hp2. simpl. rewrite Hc1, Hc2. simpl. by rewrite Hv1, Hv2.
Qed.

(** Slack targets survive serialisation: whatever is parsed is well-formed
    (trimmed ids, a thread exactly for thread replies), writing it as JSON and
    parsing that gives it back, and the target derived from a conversation is
    such a target too. *)
Theorem slack_target_roundtrip (field_path : string) :
  (∀ value t, parse_slack_target_ref value field_path = Ok (Some t) →
     target_wf t
     ∧ parse_slack_target_ref (slack_target_ref_to_value t) field_path = Ok (Some t))
  ∧ (∀ profile conversation t, slack_target_from_conversation profile conversation = Ok t →
     parse_slack_target_ref (slack_target_ref_to_value t) field_path = Ok (Some t)).
Proof.
  split.
  - intros value t H%parse_slack_target_ref_wf. split; [done|]. by apply parse_of_value.
  - intros profile conversation t H. apply parse_of_value. revert H.
    unfold slack_target_from_conversation.
    destruct (is_empty (trim profile)) eqn:Ep; [done|].
    destruct (is_empty (trim conversation)) eqn:Ec; [done|].
    apply trim_trimmed in Ep, Ec.
    destruct (split_once ":" _) as [[ch ts]|].
    + destruct (is_empty (trim ch)) eqn:E1; [done|].
      destruct (is_empty (trim ts)) eqn:E2; [done|]. simpl. apply trim_trimmed in E1, E2.
      intros [= <-]. split; simpl; eauto.
    + intros [= <-]. by split.
Qed.
