(* ===== verification/SlackChannel.v ===== *)
(** * The Slack channel: messages, errors, interface

    The data of [src/src/channels/slack/mod.rs], [api.rs] and [cursor_store.rs]:
    what Slack sends, the errors, the cursors of the history backfill.  The calls
    to Slack are an interface, [SlackApi]: operations on a remote state of any
    type, so that theorems hold whatever Slack answers. *)
From S2P Require Import Prelude RustStr RustPath Io Json QueueMessage QueueLifecycle Config.
From Stdlib Require Import Ascii.

Local Open Scope string_scope.
Local Open Scope list_scope.

Inductive SlackError : Type :=
  | ChannelDisabled
  | NoSlackProfiles
  | MissingEnvVar (key : string)
  | MissingProfileScopedEnvVar (profile_id key : string)
  | DuplicateProfileCredential (credential profile_a profile_b : string)
  | InvalidConversationId (value : string)
  | InvalidTargetRef (message_id reason : string)
  | UnknownChannelProfile (profile_id : string)
  | MissingChannelProfileId (message_id : string)
  | OutboundDelivery (message_id profile_id channel_id thread_ts reason : string)
  | UnauthorizedChannelTarget (message_id profile_id channel_id : string)
  | ApiRequest (message : string)
  | RateLimited (path : string) (retry_after_secs : Z)
  | ApiResponse (message : string)
  | SConfig (message : string)
  | SIo (path : string) (source : io_error)
  | SJson (path source : string).

Definition SlackError_display (e : SlackError) : string :=
  match e with
  | ChannelDisabled => "slack channel is disabled in settings"
  | NoSlackProfiles => "no slack channel profiles are configured"
  | MissingEnvVar key => "missing required env var `" +:+ key +:+ "`"
  | MissingProfileScopedEnvVar profile_id key =>
      "missing required env var `" +:+ key +:+ "` for slack profile `" +:+ profile_id +:+ "`"
  | DuplicateProfileCredential credential profile_a profile_b =>
      "slack profiles `" +:+ profile_a +:+ "` and `" +:+ profile_b +:+
      "` resolve to the same `" +:+ credential +:+
      "` token; configure distinct profile-scoped credentials"
  | InvalidConversationId value =>
      "invalid conversation id `" +:+ value +:+ "` for slack outgoing message"
  | InvalidTargetRef message_id reason =>
      "invalid slack targetRef in outgoing message `" +:+ message_id +:+ "`: " +:+ reason
  | UnknownChannelProfile profile_id =>
      "unknown slack channel profile `" +:+ profile_id +:+ "` in outgoing message"
  | MissingChannelProfileId message_id =>
      "outgoing slack message `" +:+ message_id +:+
      "` has no channel_profile_id and multiple slack profiles exist"
  | OutboundDelivery message_id profile_id channel_id thread_ts reason =>
      "failed to deliver outbound slack message `" +:+ message_id +:+ "` for profile `" +:+
      profile_id +:+ "` to channel `" +:+ channel_id +:+ "` thread `" +:+ thread_ts +:+ "`: "
      +:+ reason
  | UnauthorizedChannelTarget message_id profile_id channel_id =>
      "outgoing slack message `" +:+ message_id +:+ "` for profile `" +:+ profile_id +:+
      "` targets unauthorized channel `" +:+ channel_id +:+ "`"
  | ApiRequest message => "slack api request failed: " +:+ message
  | RateLimited path retry_after_secs =>
      "slack api rate limited for `" +:+ path +:+ "`; retry_after_seconds=" +:+
      fmt_int retry_after_secs
  | ApiResponse message => "slack api responded with error `" +:+ message +:+ "`"
  | SConfig message => "invalid settings configuration: " +:+ message
  | SIo path source => "io error at " +:+ path +:+ ": " +:+ ioe_display source
  | SJson path source => "json error at " +:+ path +:+ ": " +:+ source
  end.

Definition slack_component_char (ch : ascii) : bool :=
  is_ascii_alphanumeric ch || Ascii.eqb ch "-" || Ascii.eqb ch "_".
Definition sanitize_component (raw : string) : string :=
  map_chars_else slack_component_char "_" raw.

Record ConversationSummary := { cv_id : string; cv_is_im : bool }.
Record SlackMessage := {
  sm_ts : string;
  sm_thread_ts : option string;
  sm_text : option string;
  sm_user : option string;
  sm_subtype : option string;
  sm_bot_id : option string;
  sm_reply_count : option Z;
}.

Record SlackApiClient := { ac_api_base : string; ac_bot_token : string; ac_app_token : string }.

(** [SlackInboundApi], and the other calls of the client. *)
Abbreviation api_call remote A := (remote → remote * result SlackError A).
Class SlackApi (remote : Type) := {
  validate_auth : SlackApiClient → api_call remote ();
  validate_connection : SlackApiClient → api_call remote ();
  open_socket_connection_url : SlackApiClient → api_call remote string;
  list_conversations : SlackApiClient → bool → api_call remote (list ConversationSummary);
  conversation_history : SlackApiClient → string → option string →
    api_call remote (list SlackMessage);
  conversation_replies : SlackApiClient → string → string → option string →
    api_call remote (list SlackMessage);
  post_message : SlackApiClient → string → option string → string → api_call remote ();
}.

(** [BTreeSet<String>]: a set, read in the order of its elements. *)
Definition btree_iter (s : gset string) : list string := merge_sort String.le (elements s).

Record SlackProfileRuntime := {
  sr_profile : ChannelProfile;
  sr_api : SlackApiClient;
  sr_allowlist : gset string;
  sr_include_im_conversations : bool;
  sr_history_backfill_enabled : bool;
}.

(** ** The machine

    The queues by runtime root, the other files by path, and Slack. *)
Record slack_host (remote : Type) := SlackHost {
  sh_queues : string → queue_fs;
  sh_disk : disk;
  sh_remote : remote;
}.
Arguments SlackHost {remote} _ _ _.
Arguments sh_queues {remote} _ _.
Arguments sh_disk {remote} _.
Arguments sh_remote {remote} _.

Section host.
Context {remote : Type}.
Definition set_host_queue (root : string) (q : queue_fs) (s : slack_host remote) : slack_host remote :=
  SlackHost (λ other, if decide (other = root) then q else sh_queues s other)
    (sh_disk s) (sh_remote s).
Definition on_host_queue {E A} (root : string) : IO queue_fs E A → IO (slack_host remote) E A :=
  zoom (λ s, sh_queues s root) (set_host_queue root).
Definition on_disk {E A} : IO disk E A → IO (slack_host remote) E A :=
  zoom sh_disk (λ d s, SlackHost (sh_queues s) d (sh_remote s)).
Definition set_remote (r : remote) (s : slack_host remote) : slack_host remote :=
  SlackHost (sh_queues s) (sh_disk s) r.
Definition on_slack {A} (call : api_call remote A) : IO (slack_host remote) SlackError A := λ w,
  let '(r, answer) := call (sh_remote (st w)) in (World (set_remote r (st w)) (ev w), answer).

Lemma wp_on_slack h {A} (call : api_call remote A)
    (Φ : result SlackError A → slack_host remote → Prop) s :
  Φ (call (sh_remote s)).2 (set_remote (call (sh_remote s)).1 s) → wp h (on_slack call) Φ s.
Proof.
  intros H e He. unfold on_slack. simpl. destruct (call (sh_remote s)) as [r a]. by split.
Qed.
Lemma wp_on_host_queue h {E A} root (m : IO queue_fs E A)
    (Φ : result E A → slack_host remote → Prop) s :
  wp h m (λ r q, Φ r (set_host_queue root q s)) (sh_queues s root) →
  wp h (on_host_queue root m) Φ s.
Proof. intros H. unfold on_host_queue. by apply wp_zoom. Qed.
Lemma evolves_on_slack (R : slack_host remote → slack_host remote → Prop) {A}
    (call : api_call remote A) :
  (∀ s r, R s (set_remote r s)) → evolves R (on_slack call).
Proof. intros HR w. unfold on_slack. destruct (call _) as [r a]. apply HR. Qed.
Lemma calm_on_slack {A} (call : api_call remote A) : keeps_calm (on_slack call).
Proof. intros w Hw. unfold on_slack. by destruct (call _). Qed.
Lemma host_queue_same root q (s : slack_host remote) :
  sh_queues (set_host_queue root q s) root = q.
Proof. simpl. by rewrite decide_True. Qed.
Lemma set_host_queue_id root (s : slack_host remote) other :
  sh_queues (set_host_queue root (sh_queues s root) s) other = sh_queues s other.
Proof. simpl. by case_decide as Heq; [rewrite Heq|]. Qed.
End host.

(** ** Files *)
(** The names of the files in a directory. *)
Definition disk_read_dir (directory : string) (d : disk) : disk * result io_error (list string) :=
  (d, match omap (λ path, name ← strip_prefix (directory +:+ "/") path;
                          if plain_name name then Some name else None) (map_to_list d).*1 with
      | [] => Err not_found
      | names => Ok names
      end).
(** ** [cursor_store.rs] *)
Record SlackCursorState := {
  cu_conversations : list (string * string);
  cu_threads : list (string * string);
}.
Definition SlackCursorState_default : SlackCursorState :=
  {| cu_conversations := []; cu_threads := [] |}.

Definition cursor_state_path (state_root profile_id : string) : string :=
  path_join (path_join (path_join state_root "channels/slack") (sanitize_component profile_id))
    "cursor.json".

Section cursors.
Context (decode_cursor : string → result string SlackCursorState)
  (encode_cursor : SlackCursorState → string).

Definition load_cursor_state (state_root profile_id : string) : IO disk SlackError SlackCursorState :=
  let path := cursor_state_path state_root profile_id in
  exists_ ← path_exists (disk_exists path);
  if negb exists_ then mret SlackCursorState_default else
  raw ← io_map_err (SIo path) (sys (disk_read path));
  lift (map_err (SJson path) (decode_cursor raw)).

Definition save_cursor_state (state_root profile_id : string) (state : SlackCursorState) :
    IO disk SlackError () :=
  let path := cursor_state_path state_root profile_id in
  match path_parent path with
  | Some parent => io_map_err (SIo parent) (sys (create_dir_all parent))
  | None => mret ()
  end ;;
  let tmp := with_extension path "json.tmp" in
  io_map_err (SIo tmp) (sys (disk_write tmp (encode_cursor state))) ;;
  io_map_err (SIo path) (sys (disk_rename tmp path)).
End cursors.
