(* ===== verification/SlackIngest.v ===== *)
(** * Slack messages into the queue

    [src/src/channels/slack/ingest.rs]: one history backfill of a profile.  The
    conversations of the bot are read from where their cursors stand, every
    message of a user becomes a file in [incoming], and the cursors are saved at
    the end.  A time stamp is the text Slack sends; the code compares texts. *)
From S2P Require Import Prelude RustStr RustPath Io Json QueueMessage QueueLifecycle Config SlackChannel.
From Stdlib Require Import Ascii.

Local Open Scope string_scope.
Local Open Scope list_scope.

Definition INITIAL_HISTORY_WINDOW_SECS : Z := 24 * 60 * 60.

(** [a > b] on strings. *)
Definition ts_after (a b : string) : bool := negb (bool_decide (String.le a b)).

Definition default_oldest_timestamp {S E} : IO S E string :=
  now ← read_clock;
  mret (fmt_int (i64_sat_sub now INITIAL_HISTORY_WINDOW_SECS) +:+ ".0").
Definition resolve_oldest_cursor {S E} (existing : option string) : IO S E string :=
  match not_blank existing with
  | Some value => mret value
  | None => default_oldest_timestamp
  end.

Definition thread_cursor_key (conversation_id thread_ts : string) : string :=
  conversation_id +:+ ":" +:+ thread_ts.

(** [s.rsplit_once('-')] *)
Definition rsplit_dash (s : string) : option (string * string) :=
  (λ p, (String.rev p.2, String.rev p.1)) <$> split_once "-" (String.rev s).
Definition parse_ts_from_message_id (message_id : string) : option string :=
  parts ← rsplit_dash message_id;
  if is_empty (trim parts.2) then None else Some (replace "_" "." parts.2).

(** [value.get(key).and_then(|v| v.as_str())] *)
Definition str_field (key : string) (value : Value) : option string :=
  obj ← as_object value; field ← map_get key obj; as_str field.

(** The thread a recorded message belongs to, when it is a reply of this
    conversation. *)
Definition artifact_thread (conversation_id : string) (value : Value) : option string :=
  conversation_ref ← str_field "conversationId" value;
  parts ← split_once ":" conversation_ref;
  let '(channel_id, thread_ts) := parts in
  if negb (String.eqb channel_id conversation_id) || is_empty (trim thread_ts) then None
  else
  let is_thread_reply := match str_field "messageId" value ≫= parse_ts_from_message_id with
                         | Some message_ts => negb (String.eqb message_ts thread_ts)
                         | None => true
                         end in
  if is_thread_reply then Some thread_ts else None.

Definition collect_thread_candidates (message : SlackMessage) (threads : gset string) : gset string :=
  match not_blank (sm_thread_ts message) with
  | Some thread_ts => {[ thread_ts ]} ∪ threads
  | None =>
      if (0 <? from_option id 0 (sm_reply_count message))%Z && negb (is_empty (trim (sm_ts message)))
      then {[ sm_ts message ]} ∪ threads
      else threads
  end.

Definition should_accept_channel_message (profile : ChannelProfile) (allowlist : gset string)
    (conversation_id message_text message_ts : string) (thread_ts : option string) : bool := true.

(** ** One message *)
Definition message_is_mentioned (profile : ChannelProfile) (message_text : string) : bool :=
  existsb (λ token, contains token message_text) (mention_tokens profile).

Definition slack_message_id (profile_id conversation_id ts : string) : string :=
  String.concat "" ["slack-"; sanitize_component profile_id; "-";
    sanitize_component conversation_id; "-"; sanitize_component ts].

Definition incoming_payload (profile_id : string) (profile : ChannelProfile)
    (conversation_id : string) (message : SlackMessage) (now : Z) : IncomingMessage :=
  let sender_id := from_option id "unknown" (not_blank (sm_user message)) in
  let ts := sm_ts message in
  let thread_ts := from_option id ts (sm_thread_ts message) in
  let message_text := from_option id "" (sm_text message) in
  {| im_channel := "slack"; im_channel_profile_id := Some profile_id;
     im_sender := sender_id; im_sender_id := sender_id; im_message := message_text;
     im_timestamp := now; im_message_id := slack_message_id profile_id conversation_id ts;
     im_conversation_id := Some (conversation_id +:+ ":" +:+ thread_ts);
     im_is_direct := starts_with "D" (trim_start conversation_id);
     im_is_thread_reply := negb (String.eqb thread_ts ts);
     im_is_mentioned := message_is_mentioned profile message_text;
     im_files := []; im_workflow_run_id := None; im_workflow_step_id := None |}.

Section ingest.
Context {remote : Type} `{!SlackApi remote}.
Context (encode_incoming : IncomingMessage → string)
  (parse_value : string → result string Value)
  (decode_cursor : string → result string SlackCursorState)
  (encode_cursor : SlackCursorState → string).
Context (queue_paths : QueuePaths) (profile_id : string) (profile : ChannelProfile)
  (allowlist : gset string) (api : SlackApiClient).

Definition in_queue_dir {A} (m : IO queue_fs SlackError A) : IO (slack_host remote) SlackError A :=
  on_host_queue (qp_root queue_paths) m.

Definition queue_file_exists (d : qdir) (name : string) : IO queue_fs SlackError bool :=
  is_ok <$> attempt (sys (fs_metadata_modified d name)).

Definition directory_has_outgoing_message (message_id : string) : IO queue_fs SlackError bool :=
  let expected_prefix := "slack_" +:+ sanitize_filename_component message_id +:+ "_" in
  entries ← attempt (sys (fs_read_dir Outgoing));
  match entries with
  | Err err =>
      match ioe_kind err with
      | NotFound => mret false
      | _ => throw (SIo (qp_outgoing queue_paths) err)
      end
  | Ok names =>
      mret (existsb (λ name, bool_decide (extension name = Some "json")
                             && starts_with expected_prefix name) names)
  end.

Definition message_already_queued (message_id : string) : IO queue_fs SlackError bool :=
  incoming ← queue_file_exists Incoming (message_id +:+ ".json");
  if (incoming : bool) then mret true else
  processing ← queue_file_exists Processing (message_id +:+ ".json");
  if (processing : bool) then mret true else
  directory_has_outgoing_message message_id.

Definition enqueue_incoming (conversation_id : string) (message : SlackMessage) :
    IO queue_fs SlackError bool :=
  let message_id := slack_message_id profile_id conversation_id (sm_ts message) in
  queued ← message_already_queued message_id;
  if (queued : bool) then mret false else
  let path := path_join (qp_incoming queue_paths) (message_id +:+ ".json") in
  now ← read_clock;
  let body := encode_incoming (incoming_payload profile_id profile conversation_id message now) in
  io_map_err (SIo path) (sys (fs_write Incoming (message_id +:+ ".json") body now)) ;;
  mret true.

(** ** One conversation *)
Definition bootstrap_threads_from_artifacts (conversation_id : string) :
    IO disk SlackError (gset string) :=
  let artifacts_root := path_join (qp_root queue_paths) "orchestrator/artifacts" in
  let prefix := String.concat "" ["message-slack-"; sanitize_component profile_id; "-";
                  sanitize_component conversation_id; "-"] in
  entries ← attempt (sys (disk_read_dir artifacts_root));
  match entries with
  | Err _ => mret ∅
  | Ok names =>
      io_for_fold (λ threads name,
        if negb (bool_decide (extension name = Some "json")) then mret threads else
        if negb (starts_with prefix name) then mret threads else
        raw ← attempt (sys (disk_read (path_join artifacts_root name)));
        mret (match result_ok raw ≫= (λ raw, result_ok (parse_value raw)) with
              | Some value => match artifact_thread conversation_id value with
                              | Some thread_ts => {[ thread_ts ]} ∪ threads
                              | None => threads
                              end
              | None => threads
        end)) names ∅
  end.

(** The local variables of the loop over the conversations. *)
Record sync_vars := {
  sv_cursors : SlackCursorState;
  sv_enqueued : nat;
  sv_latest_ts : string;
  sv_threads : gset string;
}.

(** The guards at the head of both message loops. *)
Definition is_user_message (conversation : ConversationSummary) (message : SlackMessage) : bool :=
  negb (is_empty (trim (sm_ts message)))
  && bool_decide (sm_user message ≠ None)
  && bool_decide (sm_bot_id message = None ∧ sm_subtype message = None)
  && (cv_is_im conversation
      || should_accept_channel_message profile allowlist (cv_id conversation)
           (from_option id "" (sm_text message)) (sm_ts message) (sm_thread_ts message)).

Definition advance_thread_cursor (conversation_id oldest : string) (message : SlackMessage)
    (cursors : SlackCursorState) : SlackCursorState :=
  match not_blank (sm_thread_ts message) with
  | None => cursors
  | Some thread_ts =>
      let key := thread_cursor_key conversation_id thread_ts in
      let existing := from_option id oldest (map_get key (cu_threads cursors)) in
      if ts_after (sm_ts message) existing
      then {| cu_conversations := cu_conversations cursors;
              cu_threads := map_insert key (sm_ts message) (cu_threads cursors) |}
      else cursors
  end.
Definition later_ts (ts latest : string) : string := if ts_after ts latest then ts else latest.

Definition ingest_message (conversation : ConversationSummary) (oldest : string) (v : sync_vars)
    (message : SlackMessage) : IO (slack_host remote) SlackError sync_vars :=
  if negb (is_user_message conversation message) then mret v else
  queued ← in_queue_dir (enqueue_incoming (cv_id conversation) message);
  mret {| sv_cursors := advance_thread_cursor (cv_id conversation) oldest message (sv_cursors v);
          sv_enqueued := sv_enqueued v + (if (queued : bool) then 1 else 0);
          sv_latest_ts := later_ts (sm_ts message) (sv_latest_ts v);
          sv_threads := collect_thread_candidates message (sv_threads v) |}.

(** One thread; its own newest time stamp is the second variable of the loop. *)
Definition ingest_reply (conversation : ConversationSummary) (thread_ts : string)
    (v : sync_vars * string) (reply : SlackMessage) :
    IO (slack_host remote) SlackError (sync_vars * string) :=
  if String.eqb (sm_ts reply) thread_ts || negb (is_user_message conversation reply)
  then mret v else
  queued ← in_queue_dir (enqueue_incoming (cv_id conversation) reply);
  mret ({| sv_cursors := sv_cursors v.1;
           sv_enqueued := sv_enqueued v.1 + (if (queued : bool) then 1 else 0);
           sv_latest_ts := later_ts (sm_ts reply) (sv_latest_ts v.1);
           sv_threads := sv_threads v.1 |},
        later_ts (sm_ts reply) v.2).

Definition not_in_channel (call : string) (err : SlackError) : bool :=
  match err with
  | ApiResponse message => contains (call +:+ " failed: not_in_channel") message
  | _ => false
  end.

Definition ingest_thread (conversation : ConversationSummary) (v : sync_vars) (thread_ts : string) :
    IO (slack_host remote) SlackError sync_vars :=
  let key := thread_cursor_key (cv_id conversation) thread_ts in
  thread_oldest ← resolve_oldest_cursor (map_get key (cu_threads (sv_cursors v)));
  replies ← attempt (on_slack (conversation_replies api (cv_id conversation) thread_ts
                                 (Some thread_oldest)));
  match replies with
  | Err err => if not_in_channel "conversations.replies" err then mret v else throw err
  | Ok replies =>
      r ← io_for_fold (ingest_reply conversation thread_ts) replies (v, thread_oldest);
      let '(v, latest_thread_ts) := r in
      mret (if ts_after latest_thread_ts thread_oldest
            then {| sv_cursors :=
                      {| cu_conversations := cu_conversations (sv_cursors v);
                         cu_threads := map_insert key latest_thread_ts
                                         (cu_threads (sv_cursors v)) |};
                    sv_enqueued := sv_enqueued v; sv_latest_ts := sv_latest_ts v;
                    sv_threads := sv_threads v |}
            else v)
  end.

(** The threads of a conversation that have a cursor. *)
Definition known_threads (conversation_id : string) (cursors : SlackCursorState) : gset string :=
  list_to_set (omap (λ key,
    match split_once ":" key with
    | Some (channel_id, thread_ts) =>
        if String.eqb channel_id conversation_id then Some thread_ts else None
    | None => None
    end) (map_keys (cu_threads cursors))).

(** A conversation without known threads: look for some in the recent history. *)
Definition bootstrap_threads_from_history (conversation : ConversationSummary)
    (threads : gset string) : IO (slack_host remote) SlackError (gset string) :=
  if negb (bool_decide (threads = ∅)) then mret threads else
  bootstrap_oldest ← default_oldest_timestamp;
  messages ← attempt (on_slack (conversation_history api (cv_id conversation)
                                  (Some bootstrap_oldest)));
  mret (match messages with
        | Ok messages => foldl (λ threads m, collect_thread_candidates m threads) threads messages
        | Err _ => threads
        end).

Definition with_threads (threads : gset string) (v : sync_vars) : sync_vars := {|
  sv_cursors := sv_cursors v; sv_enqueued := sv_enqueued v; sv_latest_ts := sv_latest_ts v;
  sv_threads := threads |}.

Definition ingest_conversation (acc : SlackCursorState * nat) (conversation : ConversationSummary) :
    IO (slack_host remote) SlackError (SlackCursorState * nat) :=
  let '(cursors, enqueued) := acc in
  oldest ← resolve_oldest_cursor (map_get (cv_id conversation) (cu_conversations cursors));
  let known := known_threads (cv_id conversation) cursors in
  threads ← (if bool_decide (known = ∅)
             then on_disk (bootstrap_threads_from_artifacts (cv_id conversation))
             else mret known);
  messages ← attempt (on_slack (conversation_history api (cv_id conversation) (Some oldest)));
  match messages with
  | Err err => if not_in_channel "conversations.history" err then mret acc else throw err
  | Ok messages =>
      v ← io_for_fold (ingest_message conversation oldest) messages
            {| sv_cursors := cursors; sv_enqueued := enqueued; sv_latest_ts := oldest;
               sv_threads := threads |};
      threads ← bootstrap_threads_from_history conversation (sv_threads v);
      v ← io_for_fold (ingest_thread conversation) (btree_iter threads) (with_threads threads v);
      mret ({| cu_conversations := map_insert (cv_id conversation) (sv_latest_ts v)
                                     (cu_conversations (sv_cursors v));
               cu_threads := cu_threads (sv_cursors v) |},
            sv_enqueued v)
  end.

Definition process_inbound_with_api (state_root : string) (include_im_conversations : bool) :
    IO (slack_host remote) SlackError nat :=
  cursor_state ← on_disk (load_cursor_state decode_cursor state_root profile_id);
  conversations ← on_slack (list_conversations api include_im_conversations);
  r ← io_for_fold ingest_conversation conversations (cursor_state, 0%nat);
  on_disk (save_cursor_state encode_cursor state_root profile_id r.1) ;;
  mret r.2.
End ingest.

Definition process_inbound_for_profile {remote} `{!SlackApi remote}
    (encode_incoming : IncomingMessage → string) (parse_value : string → result string Value)
    (decode_cursor : string → result string SlackCursorState)
    (encode_cursor : SlackCursorState → string)
    (state_root : string) (queue_paths : QueuePaths) (profile_id : string)
    (runtime : SlackProfileRuntime) : IO (slack_host remote) SlackError nat :=
  process_inbound_with_api encode_incoming parse_value decode_cursor encode_cursor queue_paths
    profile_id (sr_profile runtime) (sr_allowlist runtime) (sr_api runtime) state_root
    (sr_include_im_conversations runtime).
