(* ===== verification/SlackEgress.v ===== *)
(** * Replies to Slack

    [src/src/channels/slack/egress.rs]: the files of [outgoing] in order, each
    posted in chunks to the place its target or conversation names and removed
    when every chunk was accepted.  A file that fails does not stop the others;
    the first error is reported. *)
From S2P Require Import Prelude RustStr RustPath Io Json QueueMessage QueueLifecycle Config SlackTarget SlackChannel.
From Stdlib Require Import Ascii.

Local Open Scope string_scope.
Local Open Scope list_scope.

Definition OUTBOUND_CHUNK_CHARS : nat := 3500.

Record DeliveryTarget := { dt_channel_id : string; dt_thread_ts : option string }.

Definition parse_conversation_id (value : string) : result SlackError DeliveryTarget :=
  let trimmed := trim value in
  if is_empty trimmed then Err (InvalidConversationId value) else
  match split_once ":" trimmed with
  | Some (channel_id, thread_ts) =>
      let channel_id := trim channel_id in
      let thread_ts := trim thread_ts in
      if is_empty channel_id || is_empty thread_ts then Err (InvalidConversationId value)
      else Ok {| dt_channel_id := channel_id; dt_thread_ts := Some thread_ts |}
  | None => Ok {| dt_channel_id := trimmed; dt_thread_ts := None |}
  end.

(** The loop over the characters: [ch] is a character and its continuation
    bytes, which never start a new chunk. *)
Fixpoint chunk_loop (input current : string) (count : nat) : list string :=
  match input with
  | "" => if is_empty current then [] else [current]
  | String ch input =>
      if is_continuation ch then chunk_loop input (current +:+ String ch "") count
      else if (OUTBOUND_CHUNK_CHARS <=? count)%nat
      then current :: chunk_loop input (String ch "") 1
      else chunk_loop input (current +:+ String ch "") (count + 1)
  end.
Definition chunk_message (input : string) : list string :=
  if is_empty input then [""] else chunk_loop input "" 0.

Definition parse_outgoing_target_ref (outgoing : OutgoingMessage) :
    result SlackError (option SlackTargetRef) :=
  match om_target_ref outgoing with
  | None => Ok None
  | Some target_ref =>
      map_err (InvalidTargetRef (om_message_id outgoing))
        (parse_slack_target_ref target_ref "targetRef")
  end.

Definition resolve_outgoing_profile_id (outgoing : OutgoingMessage)
    (target_ref : option SlackTargetRef)
    (available_profiles : list (string * SlackProfileRuntime)) : result SlackError string :=
  let known id := if map_contains_key id available_profiles then Ok id
                  else Err (UnknownChannelProfile id) in
  match not_blank (om_channel_profile_id outgoing), target_ref with
  | Some profile_id, Some target =>
      reject_if (negb (String.eqb (st_channel_profile_id target) profile_id))
        (InvalidTargetRef (om_message_id outgoing) (String.concat "" [
          "channel_profile_id `"; profile_id; "` must match targetRef.channelProfileId `";
          st_channel_profile_id target; "`"])) ;;
      known profile_id
  | Some profile_id, None => known profile_id
  | None, Some target => known (st_channel_profile_id target)
  | None, None =>
      match available_profiles with
      | [(only, _)] => Ok only
      | _ => Err (MissingChannelProfileId (om_message_id outgoing))
      end
  end.

Definition delivery_target_from_target_ref (target : SlackTargetRef) : DeliveryTarget :=
  {| dt_channel_id := st_channel_id target; dt_thread_ts := st_thread_ts target |}.
Definition resolve_delivery_target (outgoing : OutgoingMessage)
    (target_ref : option SlackTargetRef) : result SlackError DeliveryTarget :=
  match target_ref with
  | Some target => Ok (delivery_target_from_target_ref target)
  | None =>
      conversation_id ← ok_or (InvalidConversationId "missing conversation_id")
                          (om_conversation_id outgoing);
      parse_conversation_id conversation_id
  end.

Definition enforce_channel_policy (outgoing : OutgoingMessage) (profile_id : string)
    (target : DeliveryTarget) (runtime : SlackProfileRuntime)
    (target_ref : option SlackTargetRef) : result SlackError () :=
  let enforce_allowlist := bool_decide (st_posting_mode <$> target_ref = Some ChannelPost) in
  if negb enforce_allowlist then Ok () else
  let is_dm := starts_with "D" (dt_channel_id target) in
  reject_if (negb is_dm && negb (bool_decide (sr_allowlist runtime = ∅))
             && negb (bool_decide (dt_channel_id target ∈ sr_allowlist runtime)))
    (UnauthorizedChannelTarget (om_message_id outgoing) profile_id (dt_channel_id target)).

Section egress.
Context {remote : Type} `{!SlackApi remote}.
Context (decode_outgoing : string → result string OutgoingMessage).

Fixpoint post_chunks (outgoing : OutgoingMessage) (profile_id : string)
    (runtime : SlackProfileRuntime) (target : DeliveryTarget) (chunks : list string) :
    IO (slack_host remote) SlackError () :=
  match chunks with
  | [] => mret ()
  | chunk :: chunks =>
      io_map_err (λ err, OutboundDelivery (om_message_id outgoing) profile_id
          (dt_channel_id target) (from_option id "<none>" (dt_thread_ts target))
          (SlackError_display err))
        (on_slack (post_message (sr_api runtime) (dt_channel_id target) (dt_thread_ts target)
                     chunk)) ;;
      post_chunks outgoing profile_id runtime target chunks
  end.
Definition deliver_targeted_post (outgoing : OutgoingMessage) (profile_id : string)
    (runtime : SlackProfileRuntime) (target : DeliveryTarget)
    (target_ref : option SlackTargetRef) : IO (slack_host remote) SlackError () :=
  lift (enforce_channel_policy outgoing profile_id target runtime target_ref) ;;
  post_chunks outgoing profile_id runtime target (chunk_message (om_message outgoing)).

(** Where and as whom a message is posted. *)
Definition route_outgoing (outgoing : OutgoingMessage)
    (runtimes : list (string * SlackProfileRuntime)) :
    result SlackError (option SlackTargetRef * string * SlackProfileRuntime * DeliveryTarget) :=
  target_ref ← parse_outgoing_target_ref outgoing;
  profile_id ← resolve_outgoing_profile_id outgoing target_ref runtimes;
  runtime ← ok_or (UnknownChannelProfile profile_id) (map_get profile_id runtimes);
  target ← resolve_delivery_target outgoing target_ref;
  Ok (target_ref, profile_id, runtime, target).

(** The closure for one file: [true] when it was sent. *)
Definition send_file (queue_paths : QueuePaths) (runtimes : list (string * SlackProfileRuntime))
    (name : string) : IO (slack_host remote) SlackError bool :=
  let path := path_join (qp_outgoing queue_paths) name in
  let root := qp_root queue_paths in
  raw ← on_host_queue root (io_map_err (SIo path) (sys (fs_read_to_string Outgoing name)));
  outgoing ← lift (map_err (SJson path) (decode_outgoing raw));
  if negb (String.eqb (om_channel outgoing) "slack") then mret false else
  route ← lift (route_outgoing outgoing runtimes);
  let '(target_ref, profile_id, runtime, target) := route in
  deliver_targeted_post outgoing profile_id runtime target target_ref ;;
  on_host_queue root (io_map_err (SIo path) (sys (fs_remove_file Outgoing name))) ;;
  mret true.

Definition count_sent (queue_paths : QueuePaths) (runtimes : list (string * SlackProfileRuntime))
    (acc : nat * option SlackError) (name : string) :
    IO (slack_host remote) SlackError (nat * option SlackError) :=
  let '(sent, first_error) := acc in
  result ← attempt (send_file queue_paths runtimes name);
  mret (match result with
        | Ok true => ((sent + 1)%nat, first_error)
        | Ok false => (sent, first_error)
        | Err err => (sent, match first_error with None => Some err | Some _ => first_error end)
        end).

Definition process_outbound (queue_paths : QueuePaths)
    (runtimes : list (string * SlackProfileRuntime)) : IO (slack_host remote) SlackError nat :=
  names ← on_host_queue (qp_root queue_paths)
            (io_map_err (SIo (qp_outgoing queue_paths)) sorted_outgoing_paths);
  r ← io_for_fold (count_sent queue_paths runtimes) names (0%nat, None);
  match r.2 with
  | Some err => throw err
  | None => mret r.1
  end.
End egress.
