(* ===== verification/SlackSync.v ===== *)
(** * Slack credentials and a synchronisation pass

    [src/src/channels/slack/auth.rs] and the passes of [mod.rs]: which tokens a
    profile uses, that no two profiles share one, and one pass over all profiles
    (backfill of every profile, then the replies of every runtime root).  The
    environment variables are a function; [run_socket_once] stands for one
    socket session of a profile ([SlackSocket.v]). *)
From S2P Require Import Prelude RustStr RustPath Io Json QueueMessage QueueLifecycle Config SlackTarget SlackChannel SlackIngest SlackEgress.
From Stdlib Require Import Ascii.

Local Open Scope string_scope.
Local Open Scope list_scope.

Record EnvConfig := { ec_bot_token : string; ec_app_token : string; ec_allowlist : gset string }.

Definition to_ascii_uppercase_char (a : ascii) : ascii :=
  if is_ascii_lower a then ascii_of_N (byte_of a - 32) else a.
Definition profile_env_key (prefix profile_id : string) : string :=
  prefix +:+ "_" +:+ str_map to_ascii_uppercase_char (map_chars_else is_ascii_alphanumeric "_" profile_id).

Definition parse_allowlist (value : option string) : gset string :=
  match value with
  | Some value => list_to_set (filter (λ part, is_empty part = false) (trim <$> split_on "," value))
  | None => ∅
  end.

Definition slack_profiles (settings : Settings) : list (string * ChannelProfile) :=
  filter (λ entry, channel_is_slack (cp_channel entry.2) = true) (s_channel_profiles settings).

Definition configured_slack_allowlist (settings : Settings) : gset string :=
  match map_get "slack" (s_channels settings) with
  | Some cfg => list_to_set (filter (λ v, is_empty v = false) (trim <$> cc_allowlisted_channels cfg))
  | None => ∅
  end.
Definition slack_channel_enabled (settings : Settings) : bool :=
  from_option cc_enabled false (map_get "slack" (s_channels settings)).
Definition slack_include_im_conversations (settings : Settings) : bool :=
  from_option cc_include_im_conversations true (map_get "slack" (s_channels settings)).

Section environment.
Context (env_var : string → option string).

Definition non_empty_env (key : string) : option string := not_blank (env_var key).
Definition env_var_fallback (profile_key global_key : string) : option string :=
  match non_empty_env profile_key with
  | Some value => Some value
  | None => non_empty_env global_key
  end.

Definition profile_token (profile_id : string) (require_profile_scoped_tokens : bool)
    (name : string) : result SlackError string :=
  let key := profile_env_key name profile_id in
  ok_or (MissingProfileScopedEnvVar profile_id key)
    (if require_profile_scoped_tokens then non_empty_env key else env_var_fallback key name).

Definition load_env_config (profile_id : string) (require_profile_scoped_tokens : bool)
    (config_allowlist : gset string) : result SlackError EnvConfig :=
  bot_token ← profile_token profile_id require_profile_scoped_tokens "SLACK_BOT_TOKEN";
  app_token ← profile_token profile_id require_profile_scoped_tokens "SLACK_APP_TOKEN";
  let env_allowlist := parse_allowlist
    (env_var_fallback (profile_env_key "SLACK_CHANNEL_ALLOWLIST" profile_id)
       "SLACK_CHANNEL_ALLOWLIST") in
  Ok {| ec_bot_token := bot_token; ec_app_token := app_token;
        ec_allowlist := config_allowlist ∪ env_allowlist |}.

(** The maps from tokens to the profiles that use them. *)
Record tokens_seen := { ts_bot : gmap string string; ts_app : gmap string string }.
Definition no_tokens : tokens_seen := {| ts_bot := ∅; ts_app := ∅ |}.

(** [if let Some(existing) = map.insert(token, profile_id) { return Err(..) }] *)
Definition claim_tokens (profile_id : string) (env : EnvConfig) (seen : tokens_seen) :
    result SlackError tokens_seen :=
  match ts_bot seen !! ec_bot_token env with
  | Some existing => Err (DuplicateProfileCredential "bot" existing profile_id)
  | None =>
      match ts_app seen !! ec_app_token env with
      | Some existing => Err (DuplicateProfileCredential "app" existing profile_id)
      | None => Ok {| ts_bot := <[ec_bot_token env := profile_id]> (ts_bot seen);
                      ts_app := <[ec_app_token env := profile_id]> (ts_app seen) |}
      end
  end.

Definition validate_startup_credentials (settings : Settings) : result SlackError () :=
  if negb (slack_channel_enabled settings) then Err ChannelDisabled else
  let profiles := slack_profiles settings in
  if is_nil profiles then Err NoSlackProfiles else
  let required := (1 <? length profiles)%nat in
  for_fold (λ seen profile_id,
    env ← load_env_config profile_id required (configured_slack_allowlist settings);
    claim_tokens profile_id env seen) (map_keys profiles) no_tokens ;;
  Ok ().

(** *** [profile_credential_health] *)
Record SlackProfileCredentialHealth := {
  ph_profile_id : string;
  ph_ok : bool;
  ph_reason : option string;
}.
Record health_vars := {
  hv_health : list (string * SlackProfileCredentialHealth);
  hv_seen : tokens_seen;
}.
Definition mark_duplicate (reason profile_id : string)
    (health : list (string * SlackProfileCredentialHealth)) :
    list (string * SlackProfileCredentialHealth) :=
  (λ entry, if String.eqb entry.1 profile_id
            then (entry.1, {| ph_profile_id := ph_profile_id entry.2; ph_ok := false;
                              ph_reason := Some reason |})
            else entry) <$> health.
Definition mark_shared_token (credential : string) (existing : option string) (profile_id : string)
    (health : list (string * SlackProfileCredentialHealth)) :
    list (string * SlackProfileCredentialHealth) :=
  match existing with
  | Some existing =>
      let reason := SlackError_display (DuplicateProfileCredential credential existing profile_id) in
      mark_duplicate reason profile_id (mark_duplicate reason existing health)
  | None => health
  end.
Definition profile_health (required : bool) (config_allowlist : gset string) (v : health_vars)
    (profile_id : string) : health_vars :=
  match load_env_config profile_id required config_allowlist with
  | Ok env =>
      let health := map_insert profile_id
        {| ph_profile_id := profile_id; ph_ok := true; ph_reason := None |} (hv_health v) in
      let health := mark_shared_token "bot" (ts_bot (hv_seen v) !! ec_bot_token env) profile_id health in
      let health := mark_shared_token "app" (ts_app (hv_seen v) !! ec_app_token env) profile_id health in
      {| hv_health := health;
         hv_seen := {| ts_bot := <[ec_bot_token env := profile_id]> (ts_bot (hv_seen v));
                       ts_app := <[ec_app_token env := profile_id]> (ts_app (hv_seen v)) |} |}
  | Err err =>
      {| hv_health := map_insert profile_id
           {| ph_profile_id := profile_id; ph_ok := false;
              ph_reason := Some (SlackError_display err) |} (hv_health v);
         hv_seen := hv_seen v |}
  end.
Definition profile_credential_health (settings : Settings) : list SlackProfileCredentialHealth :=
  let profiles := slack_profiles settings in
  let required := (1 <? length profiles)%nat in
  (hv_health (foldl (profile_health required (configured_slack_allowlist settings))
                {| hv_health := []; hv_seen := no_tokens |} (map_keys profiles))).*2.

(** [SlackApiClient::new] *)
Definition DEFAULT_SLACK_API_BASE : string := "https://slack.com/api".
Definition SlackApiClient_new (bot_token app_token : string) : SlackApiClient := {|
  ac_api_base := from_option id DEFAULT_SLACK_API_BASE (non_empty_env "DIRECLAW_SLACK_API_BASE");
  ac_bot_token := bot_token; ac_app_token := app_token |}.
End environment.

(** ** A pass *)
Inductive SyncMode := SocketOnly | BackfillOnly.
#[export] Instance SyncMode_eq_dec : EqDecision SyncMode.
Proof. solve_decision. Defined.
Record SlackSyncReport := {
  rp_profiles_processed : nat;
  rp_inbound_enqueued : nat;
  rp_outbound_messages_sent : nat;
}.

Section pass.
Context {remote : Type} `{!SlackApi remote}.
Context (env_var : string → option string).
Context (encode_incoming : IncomingMessage → string)
  (parse_value : string → result string Value)
  (decode_cursor : string → result string SlackCursorState)
  (encode_cursor : SlackCursorState → string)
  (decode_outgoing : string → result string OutgoingMessage).
Context (run_socket_once : string → QueuePaths → string → SlackProfileRuntime → Z → Z →
           IO (slack_host remote) SlackError nat).

Definition build_runtime (include_im_conversations history_backfill_enabled
      validate_socket_auth validate_backfill_connection required : bool)
    (config_allowlist : gset string)
    (acc : tokens_seen * list (string * SlackProfileRuntime)) (entry : string * ChannelProfile) :
    IO (slack_host remote) SlackError (tokens_seen * list (string * SlackProfileRuntime)) :=
  let '(profile_id, profile) := entry in
  let '(seen, runtimes) := acc in
  env ← lift (load_env_config env_var profile_id required config_allowlist);
  seen ← lift (claim_tokens profile_id env seen);
  let api := SlackApiClient_new env_var (ec_bot_token env) (ec_app_token env) in
  (if validate_socket_auth then on_slack (validate_auth api)
   else if validate_backfill_connection then on_slack (validate_connection api)
   else mret ()) ;;
  mret (seen, map_insert profile_id
    {| sr_profile := profile; sr_api := api; sr_allowlist := ec_allowlist env;
       sr_include_im_conversations := include_im_conversations;
       sr_history_backfill_enabled := history_backfill_enabled |} runtimes).
Definition build_profile_runtimes (settings : Settings)
    (include_im_conversations history_backfill_enabled
       validate_socket_auth validate_backfill_connection : bool) :
    IO (slack_host remote) SlackError (list (string * SlackProfileRuntime)) :=
  let profiles := slack_profiles settings in
  r ← io_for_fold (build_runtime include_im_conversations history_backfill_enabled
        validate_socket_auth validate_backfill_connection (1 <? length profiles)%nat
        (configured_slack_allowlist settings)) profiles (no_tokens, []);
  mret r.2.

Definition runtime_root_of (settings : Settings) (profile_id : string) : result SlackError string :=
  map_err (λ err, SConfig (ConfigError_display err))
    (resolve_channel_profile_runtime_root settings profile_id).

Definition prepare_queue (queue_paths : QueuePaths) : IO (slack_host remote) SlackError () :=
  on_host_queue (qp_root queue_paths)
    (io_map_err (SIo (qp_incoming queue_paths)) (sys (fs_create_dir_all Incoming)) ;;
     io_map_err (SIo (qp_outgoing queue_paths)) (sys (fs_create_dir_all Outgoing))).

(** One profile of [sync_once_internal]; [outbound_roots] is a set of paths. *)
Definition sync_profile (settings : Settings) (state_root : string) (mode : SyncMode)
    (cfg : ChannelConfig) (acc : nat * list string) (entry : string * SlackProfileRuntime) :
    IO (slack_host remote) SlackError (nat * list string) :=
  let '(profile_id, runtime) := entry in
  let '(inbound_enqueued, outbound_roots) := acc in
  runtime_root ← lift (runtime_root_of settings profile_id);
  let queue_paths := from_state_root runtime_root in
  prepare_queue queue_paths ;;
  enqueued ← match mode with
    | BackfillOnly =>
        if cc_history_backfill_enabled cfg
        then process_inbound_for_profile encode_incoming parse_value decode_cursor encode_cursor
               state_root queue_paths profile_id runtime
        else mret 0%nat
    | SocketOnly =>
        run_socket_once state_root queue_paths profile_id runtime
          (cc_socket_reconnect_backoff_ms cfg) (cc_socket_idle_timeout_ms cfg)
    end;
  mret ((inbound_enqueued + enqueued)%nat, path_set_insert runtime_root outbound_roots).

Definition sync_once_internal (state_root : string) (settings : Settings) (mode : SyncMode) :
    IO (slack_host remote) SlackError SlackSyncReport :=
  lift (validate_startup_credentials env_var settings) ;;
  let cfg := from_option id ChannelConfig_default (map_get "slack" (s_channels settings)) in
  let run_backfill := bool_decide (mode = BackfillOnly) && cc_history_backfill_enabled cfg in
  runtimes ← build_profile_runtimes settings (slack_include_im_conversations settings)
               (cc_history_backfill_enabled cfg) (bool_decide (mode = SocketOnly)) run_backfill;
  r ← io_for_fold (sync_profile settings state_root mode cfg) runtimes (0%nat, []);
  sent ← io_for_fold (λ sent runtime_root,
           n ← process_outbound decode_outgoing (from_state_root runtime_root) runtimes;
           mret (sent + n)%nat) r.2 0%nat;
  mret {| rp_profiles_processed := length runtimes; rp_inbound_enqueued := r.1;
          rp_outbound_messages_sent := sent |}.

Definition sync_backfill_once (state_root : string) (settings : Settings) :=
  sync_once_internal state_root settings BackfillOnly.
Definition sync_socket_once (state_root : string) (settings : Settings) :=
  sync_once_internal state_root settings SocketOnly.
Definition sync_once (state_root : string) (settings : Settings) :=
  sync_backfill_once state_root settings.
End pass.
