(* ===== verification/SlackSocket.v ===== *)
(** * Socket mode

    [src/src/channels/slack/socket.rs]: the events Slack sends over a web socket.
    Reading the socket and a worker thread that enqueues share a bounded buffer;
    around it a loop reconnects.  Both are one step relation: a step is a frame, a
    message enqueued by the worker, the end of a connection, or a phase of the
    loop.  Stop flag, deadline, frames, and whether a connection succeeds come
    from outside. *)
From S2P Require Import Prelude RustStr RustPath Io Json QueueMessage QueueLifecycle Config SlackChannel SlackIngest.
From Stdlib Require Import Ascii.

Local Open Scope string_scope.
Local Open Scope list_scope.

Definition SOCKET_BUFFER_CAPACITY : nat := 256.

Inductive RetryClass := Retryable | NonRetryable.
#[export] Instance RetryClass_eq_dec : EqDecision RetryClass.
Proof. solve_decision. Defined.

Record SocketHealth := {
  sk_connected : bool;
  sk_last_event_ts : option string;
  sk_last_reconnect : option Z;
  sk_last_error : option string;
}.
Definition SocketHealth_default : SocketHealth :=
  {| sk_connected := false; sk_last_event_ts := None; sk_last_reconnect := None;
     sk_last_error := None |}.

Record SocketEvent := {
  se_type : string;
  se_channel : string;
  se_channel_type : option string;
  se_user : option string;
  se_bot_id : option string;
  se_subtype : option string;
  se_text : option string;
  se_ts : string;
  se_thread_ts : option string;
}.
(** [payload.event] of an envelope; its [envelope_id] is only acknowledged. *)
Record SocketEnvelope := { en_envelope_id : option string; en_event : option SocketEvent }.

Record QueueCandidate := { qc_channel : string; qc_message : SlackMessage }.

(** ** Errors *)
Definition non_retryable_needles : list string :=
  ["invalid_auth"; "not_authed"; "token_revoked"; "account_inactive"; "missing_scope"; "403"; "401"].
Definition classify_socket_failure (message : string) : RetryClass :=
  if existsb (λ needle, contains needle (to_ascii_lowercase message)) non_retryable_needles
  then NonRetryable else Retryable.
Definition format_socket_error (context detail : string) (class : RetryClass) : string :=
  context +:+ " (" +:+ match class with Retryable => "retryable" | NonRetryable => "non_retryable" end
  +:+ "): " +:+ detail.

(** ** Events *)
Definition infer_channel_type (channel_id : string) : option string :=
  match channel_id with
  | String "D" _ => Some "im"
  | String "C" _ => Some "channel"
  | String "G" _ => Some "group"
  | _ => None
  end.
Definition resolve_channel_type (event : SocketEvent) : option string :=
  match se_channel_type event with
  | Some channel_type => Some channel_type
  | None => infer_channel_type (se_channel event)
  end.
Definition should_enqueue_socket_event (event : SocketEvent) (profile : ChannelProfile)
    (allowlist : gset string) : bool :=
  if negb (String.eqb (se_type event) "message") && negb (String.eqb (se_type event) "app_mention")
  then false else
  if is_empty (trim (se_channel event)) || is_empty (trim (se_ts event)) then false else
  if bool_decide (se_user event = None) || bool_decide (se_bot_id event ≠ None)
     || bool_decide (se_subtype event ≠ None) then false else
  match resolve_channel_type event with
  | None => false
  | Some channel_type =>
      if negb (String.eqb channel_type "im") && negb (String.eqb channel_type "channel")
         && negb (String.eqb channel_type "group") then false
      else if negb (String.eqb channel_type "im")
              && negb (should_accept_channel_message profile allowlist (se_channel event)
                         (from_option id "" (se_text event)) (se_ts event) (se_thread_ts event))
      then false else true
  end.
Definition event_message (event : SocketEvent) : SlackMessage := {|
  sm_ts := se_ts event; sm_thread_ts := se_thread_ts event; sm_text := se_text event;
  sm_user := se_user event; sm_subtype := se_subtype event; sm_bot_id := se_bot_id event;
  sm_reply_count := None |}.

(** What a text frame offers to the queue, and [try_send] on the bounded buffer. *)
Definition frame_candidate (profile : ChannelProfile) (allowlist : gset string)
    (frame : option SocketEnvelope) : option QueueCandidate :=
  envelope ← frame;
  event ← en_event envelope;
  if should_enqueue_socket_event event profile allowlist
  then Some {| qc_channel := se_channel event; qc_message := event_message event |}
  else None.
Definition with_last_event (ts : string) (h : SocketHealth) : SocketHealth := {|
  sk_connected := sk_connected h; sk_last_event_ts := Some ts;
  sk_last_reconnect := sk_last_reconnect h; sk_last_error := sk_last_error h |}.
Definition handle_socket_text (profile : ChannelProfile) (allowlist : gset string)
    (frame : option SocketEnvelope) (buffer : list QueueCandidate) (health : SocketHealth) :
    list QueueCandidate * SocketHealth :=
  match frame_candidate profile allowlist frame with
  | None => (buffer, health)
  | Some candidate =>
      if (length buffer <? SOCKET_BUFFER_CAPACITY)%nat
      then (buffer ++ [candidate], with_last_event (sm_ts (qc_message candidate)) health)
      else (buffer, health)
  end.

(** ** Health file *)
Definition socket_status_path (state_root profile_id : string) : string :=
  path_join (path_join state_root "channels/slack/socket") (profile_id +:+ ".health.json").
Definition reconnect_request_path (state_root : string) : string :=
  path_join state_root "channels/slack/socket/reconnect.request".

Definition with_connected (connected : bool) (h : SocketHealth) : SocketHealth := {|
  sk_connected := connected; sk_last_event_ts := sk_last_event_ts h;
  sk_last_reconnect := sk_last_reconnect h; sk_last_error := sk_last_error h |}.
Definition with_error (error : option string) (h : SocketHealth) : SocketHealth := {|
  sk_connected := sk_connected h; sk_last_event_ts := sk_last_event_ts h;
  sk_last_reconnect := sk_last_reconnect h; sk_last_error := error |}.
Definition with_reconnect (now : Z) (h : SocketHealth) : SocketHealth := {|
  sk_connected := sk_connected h; sk_last_event_ts := sk_last_event_ts h;
  sk_last_reconnect := Some now; sk_last_error := sk_last_error h |}.

Inductive SocketLoopOutcome := Disconnected | ReconnectRequested | StopRequested | DeadlineReached.

Section socket.
Context {remote : Type} `{!SlackApi remote}.
Context (encode_incoming : IncomingMessage → string)
  (parse_value : string → result string Value)
  (decode_cursor : string → result string SlackCursorState)
  (encode_cursor : SlackCursorState → string)
  (decode_health : string → result string SocketHealth)
  (encode_health : SocketHealth → string).
Context (state_root : string) (queue_paths : QueuePaths) (profile_id : string)
  (runtime : SlackProfileRuntime) (recover_missed_messages : bool).

Local Abbreviation host := (slack_host remote).
Local Abbreviation status_path := (socket_status_path state_root profile_id).

Definition load_health : IO host SlackError SocketHealth :=
  raw ← attempt (on_disk (sys (disk_read status_path)));
  mret (from_option id SocketHealth_default
          (result_ok raw ≫= λ raw, result_ok (decode_health raw))).
(** [let _ = ..] twice: a health file that cannot be written is no error. *)
Definition save_health (health : SocketHealth) : IO host SlackError () :=
  match path_parent status_path with
  | Some parent => _ ← attempt (on_disk (sys (create_dir_all parent))); mret ()
  | None => mret ()
  end ;;
  _ ← attempt (on_disk (sys (disk_write status_path (encode_health health)))); mret ().
Definition request_reconnect : IO host SlackError () :=
  let path := reconnect_request_path state_root in
  match path_parent path with
  | Some parent => on_disk (io_map_err (SIo parent) (sys (create_dir_all parent)))
  | None => mret ()
  end ;;
  on_disk (io_map_err (SIo path) (sys (disk_write path "1"))).
(** [exists()], then the removal whose result is ignored. *)
Definition take_reconnect_request : IO host SlackError bool :=
  requested ← on_disk (path_exists (disk_exists (reconnect_request_path state_root)));
  (if (requested : bool)
   then _ ← attempt (on_disk (sys (disk_remove (reconnect_request_path state_root)))); mret ()
   else mret ()) ;;
  mret requested.

(** ** Before a connection *)
Definition note_failure (error : string) (health : SocketHealth) : IO host SlackError SocketHealth :=
  let health := with_error (Some error) (with_connected false health) in
  save_health health ;; mret health.
Definition fail_attempt (context detail : string) (health : SocketHealth) :
    IO host SlackError SocketHealth :=
  let class := classify_socket_failure detail in
  let message := format_socket_error context detail class in
  health ← note_failure message health;
  if decide (class = NonRetryable) then throw (ApiRequest message) else mret health.
(** A failed call to Slack: a rate limit always ends the loop. *)
Definition failed_call (context : string) (err : SlackError) (health : SocketHealth) :
    IO host SlackError SocketHealth :=
  match err with
  | RateLimited _ _ => note_failure (SlackError_display err) health ;; throw err
  | _ => fail_attempt context (SlackError_display err) health
  end.

(** The local variables of the loop; [true]: go on with the connection. *)
Definition loop_vars : Type := SocketHealth * nat.
Definition catch_up (v : loop_vars) : IO host SlackError (loop_vars * bool) :=
  let '(health, total) := v in
  if negb recover_missed_messages then mret (v, true) else
  caught_up ← attempt (process_inbound_for_profile encode_incoming parse_value decode_cursor
                         encode_cursor state_root queue_paths profile_id runtime);
  match caught_up with
  | Ok enqueued => mret ((health, (total + enqueued)%nat), true)
  | Err err =>
      health ← failed_call "socket catch-up failed" err health;
      mret ((health, total), false)
  end.
Definition open_url (health : SocketHealth) : IO host SlackError (SocketHealth * bool) :=
  now ← read_clock;
  let health := with_reconnect now health in
  url ← attempt (on_slack (open_socket_connection_url (sr_api runtime)));
  match url with
  | Ok _ => mret (health, true)
  | Err err =>
      health ← failed_call "socket url open failed" err health;
      mret (health, false)
  end.
(** [connected]: the outcome of [connect]; [nonblocking]: of [set_nonblocking]. *)
Definition connect_socket (connected nonblocking : result string ()) (health : SocketHealth) :
    IO host SlackError (SocketHealth * bool) :=
  match connected with
  | Err detail =>
      health ← fail_attempt "socket connect failed" detail health;
      mret (health, false)
  | Ok _ =>
      let health := with_error None (with_connected true health) in
      save_health health ;;
      match nonblocking with
      | Ok _ => mret (health, true)
      | Err detail =>
          let err := ApiRequest ("failed to configure socket mode stream: " +:+ detail) in
          note_failure (SlackError_display err) health ;;
          throw err
      end
  end.
Definition begin_connection (connected nonblocking : result string ()) (v : loop_vars) :
    IO host SlackError (loop_vars * bool) :=
  r ← catch_up v;
  let '((health, total), go_on) := r in
  if negb go_on then mret ((health, total), false) else
  r ← open_url health;
  let '(health, go_on) := r in
  if negb go_on then mret ((health, total), false) else
  r ← connect_socket connected nonblocking health;
  let '(health, go_on) := r in
  mret ((health, total), go_on).

(** ** During a connection *)
Definition enqueue_candidate (candidate : QueueCandidate) : IO host SlackError bool :=
  queued ← attempt (on_host_queue (qp_root queue_paths)
    (enqueue_incoming encode_incoming queue_paths profile_id (sr_profile runtime)
       (qc_channel candidate) (qc_message candidate)));
  mret (match queued with Ok b => b | Err _ => false end).

Inductive socket_control :=
  | LoopTop | Sleeping | Reading | Joining (outcome : SocketLoopOutcome)
  | LoopDone (r : result SlackError nat).
Record socket_state := {
  so_world : world host;
  so_control : socket_control;
  so_health : SocketHealth;
  so_total : nat;                      (** [enqueued_total] *)
  so_force_reconnect : bool;
  so_buffer : list QueueCandidate;     (** the bounded channel to the worker *)
  so_enqueued : nat;                   (** the counter of the worker *)
  so_stop : bool;
  so_deadline : bool;
}.
Definition ending (s : socket_state) : bool := so_stop s || so_deadline s.
Definition set_loop (w : world host) (control : socket_control) (v : loop_vars) (s : socket_state) :
    socket_state := {|
  so_world := w; so_control := control; so_health := v.1; so_total := v.2;
  so_force_reconnect := so_force_reconnect s; so_buffer := so_buffer s;
  so_enqueued := so_enqueued s; so_stop := so_stop s; so_deadline := so_deadline s |}.
Definition set_connection (w : world host) (health : SocketHealth) (buffer : list QueueCandidate)
    (enqueued : nat) (s : socket_state) : socket_state := {|
  so_world := w; so_control := so_control s; so_health := health; so_total := so_total s;
  so_force_reconnect := so_force_reconnect s; so_buffer := buffer; so_enqueued := enqueued;
  so_stop := so_stop s; so_deadline := so_deadline s |}.
Definition set_flags (stop deadline : bool) (s : socket_state) : socket_state := {|
  so_world := so_world s; so_control := so_control s; so_health := so_health s;
  so_total := so_total s; so_force_reconnect := so_force_reconnect s; so_buffer := so_buffer s;
  so_enqueued := so_enqueued s; so_stop := stop; so_deadline := deadline |}.
Definition clear_force_reconnect (s : socket_state) : socket_state := {|
  so_world := so_world s; so_control := so_control s; so_health := so_health s;
  so_total := so_total s; so_force_reconnect := false; so_buffer := so_buffer s;
  so_enqueued := so_enqueued s; so_stop := so_stop s; so_deadline := so_deadline s |}.

(** After the loop: [Ok(enqueued_total)], and a health that says disconnected. *)
Definition break_loop (s : socket_state) : socket_state :=
  let health := with_connected false (so_health s) in
  let w := if sk_connected (so_health s) then (save_health health (so_world s)).1
           else so_world s in
  set_loop w (LoopDone (Ok (so_total s))) (health, so_total s) s.

(** After a connection: the totals, the health file, and where to go. *)
Definition after_connection (outcome : SocketLoopOutcome) (s : socket_state) : socket_state :=
  let v := (with_connected false (so_health s), (so_total s + so_enqueued s)%nat) in
  let s := set_loop (save_health v.1 (so_world s)).1 (so_control s) v s in
  if so_force_reconnect s then clear_force_reconnect (set_loop (so_world s) Sleeping v s) else
  match outcome with
  | StopRequested | DeadlineReached => break_loop s
  | ReconnectRequested | Disconnected => set_loop (so_world s) Sleeping v s
  end.

(** Why reading ends without a request: closed by the peer, idle for too long, or
    a read error. *)
Inductive disconnect_cause :=
  | Closed | IdleTimeout (detail : string) | ReadFailed (detail : string).
Definition disconnect_health (cause : disconnect_cause) (health : SocketHealth) : SocketHealth :=
  match cause with
  | Closed => health
  | IdleTimeout detail =>
      with_error (Some (format_socket_error "socket idle timeout" detail Retryable)) health
  | ReadFailed detail =>
      with_error (Some (format_socket_error "socket read failed" detail
        (classify_socket_failure detail))) health
  end.

(** A step, with the candidate it puts into the buffer, if any. *)
Inductive socket_step : socket_state → list QueueCandidate → socket_state → Prop :=
  | sock_stop s : socket_step s [] (set_flags true (so_deadline s) s)
  | sock_deadline s : socket_step s [] (set_flags (so_stop s) true s)
  | sock_break s :
      so_control s = LoopTop ∨ so_control s = Sleeping → ending s = true →
      socket_step s [] (break_loop s)
  | sock_wake s :
      so_control s = Sleeping → ending s = false →
      socket_step s [] (set_loop (so_world s) LoopTop (so_health s, so_total s) s)
  | sock_connect s connected nonblocking w v :
      so_control s = LoopTop → ending s = false →
      begin_connection connected nonblocking (so_health s, so_total s) (so_world s) = (w, Ok (v, true)) →
      socket_step s [] (set_connection w v.1 [] 0 (set_loop w Reading v s))
  | sock_retry s connected nonblocking w v :
      so_control s = LoopTop → ending s = false →
      begin_connection connected nonblocking (so_health s, so_total s) (so_world s) = (w, Ok (v, false)) →
      socket_step s [] (set_loop w Sleeping v s)
  | sock_fail s connected nonblocking w err :
      so_control s = LoopTop → ending s = false →
      begin_connection connected nonblocking (so_health s, so_total s) (so_world s) = (w, Err err) →
      socket_step s [] (set_loop w (LoopDone (Err err)) (so_health s, so_total s) s)
  | sock_frame s frame buffer health accepted :
      so_control s = Reading →
      handle_socket_text (sr_profile runtime) (sr_allowlist runtime) frame (so_buffer s) (so_health s)
        = (buffer, health) →
      buffer = so_buffer s ++ accepted →
      socket_step s accepted (set_connection (so_world s) health buffer (so_enqueued s) s)
  | sock_worker s candidate rest w r :
      so_buffer s = candidate :: rest →
      enqueue_candidate candidate (so_world s) = (w, r) →
      socket_step s [] (set_connection w (so_health s) rest
        (so_enqueued s + match r with Ok true => 1 | _ => 0 end) s)
  | sock_reconnect s w :
      so_control s = Reading → take_reconnect_request (so_world s) = (w, Ok true) →
      socket_step s [] (set_loop w (Joining ReconnectRequested) (so_health s, so_total s) s)
  | sock_end s outcome :
      so_control s = Reading →
      (outcome = StopRequested ∧ so_stop s = true) ∨ (outcome = DeadlineReached ∧ so_deadline s = true) →
      socket_step s [] (set_loop (so_world s) (Joining outcome) (so_health s, so_total s) s)
  | sock_disconnect s cause :
      so_control s = Reading →
      socket_step s [] (set_loop (so_world s) (Joining Disconnected)
        (disconnect_health cause (so_health s), so_total s) s)
  | sock_join s outcome :
      so_control s = Joining outcome → so_buffer s = [] →
      socket_step s [] (after_connection outcome s).

(** A run of the loop, with the candidates buffered on the way. *)
Inductive socket_run : socket_state → list QueueCandidate → socket_state → Prop :=
  | run_start s : socket_run s [] s
  | run_snoc s1 s2 s3 accepted more :
      socket_run s1 accepted s2 → socket_step s2 more s3 →
      socket_run s1 (accepted ++ more) s3.

(** [run_socket_loop] up to its loop. *)
Definition socket_start (w : world host) : socket_state :=
  let '(w, loaded) := load_health w in
  let '(w, requested) := take_reconnect_request w in {|
  so_world := w; so_control := LoopTop;
  so_health := match loaded with Ok health => health | Err _ => SocketHealth_default end;
  so_total := 0;
  so_force_reconnect := match requested with Ok b => b | Err _ => false end;
  so_buffer := []; so_enqueued := 0; so_stop := false; so_deadline := false |}.
End socket.
