(* ===== verification/SlackIngestGuarantees.v ===== *)
(** * What the Slack backfill guarantees

    No message of a user that Slack still shows after the cursor is missed by a
    successful pass, a failed pass leaves the cursors where they were, cursors
    never go back, and a pass only adds files to [incoming].  [SlackServer]
    states what the code relies on: what the Web API documents about
    [conversations.list], [conversations.history] and [conversations.replies]. *)
From S2P Require Import Prelude RustStr RustPath Io Json QueueMessage QueueLifecycle Config SlackChannel SlackIngest.
From Stdlib Require Import Ascii.

Local Open Scope string_scope.
Local Open Scope list_scope.

(** ** Time stamps as texts *)
Lemma ts_after_spec a b : ts_after a b = true ↔ ¬ String.le a b.
Proof. unfold ts_after. by case_bool_decide. Qed.
Lemma ts_after_le a b c : String.le b c → ts_after a c = true → ts_after a b = true.
Proof. rewrite !ts_after_spec. intros Hbc Hac Hab. apply Hac. by trans b. Qed.
Lemma later_ts_ge_new ts latest : String.le ts (later_ts ts latest).
Proof.
  unfold later_ts. destruct (ts_after ts latest) eqn:E; [done|].
  unfold ts_after in E. by apply negb_false_iff, bool_decide_eq_true in E.
Qed.
Lemma ts_after_ge a b : ts_after a b = true → String.le b a.
Proof. rewrite ts_after_spec. intros H. by destruct (total String.le a b). Qed.
Lemma later_ts_ge_old ts latest : String.le latest (later_ts ts latest).
Proof. unfold later_ts. destruct (ts_after ts latest) eqn:E; [by apply ts_after_ge|done]. Qed.

Definition blank (s : string) : bool := is_empty (trim s).
Lemma not_blank_Some o s : not_blank o = Some s ↔ o = Some s ∧ blank s = false.
Proof.
  unfold not_blank, blank. destruct o as [t|]; [|split; [done|by intros [? _]]].
  destruct (is_empty (trim t)) eqn:E; split; [done| |by intros [= <-]|by intros [[= <-] _]].
  intros [[= <-] Hb]. congruence.
Qed.
Lemma later_ts_nonblank ts latest :
  blank ts = false → blank latest = false → blank (later_ts ts latest) = false.
Proof. unfold later_ts. by destruct (ts_after ts latest). Qed.

(** ** Cursors never go back *)
Definition map_advances (old new : list (string * string)) : Prop :=
  ∀ key ts, map_get key old = Some ts → blank ts = false →
    ∃ ts', map_get key new = Some ts' ∧ String.le ts ts' ∧ blank ts' = false.
#[export] Instance map_advances_preorder : PreOrder map_advances.
Proof.
  split; [by intros m key ts; exists ts|].
  intros m1 m2 m3 H12 H23 key ts Hts Hb.
  destruct (H12 key ts Hts Hb) as (ts2 & Hts2 & Hle2 & Hb2).
  destruct (H23 key ts2 Hts2 Hb2) as (ts3 & ? & ? & ?). exists ts3. split_and!; [done| |done].
  by trans ts2.
Qed.
Definition cursors_advance (old new : SlackCursorState) : Prop :=
  map_advances (cu_conversations old) (cu_conversations new)
  ∧ map_advances (cu_threads old) (cu_threads new).
#[export] Instance cursors_advance_preorder : PreOrder cursors_advance.
Proof.
  split; [by intros c; split|]. intros c1 c2 c3 [] []. split; by etrans.
Qed.
Lemma map_insert_advances key new_ts (m : list (string * string)) :
  blank new_ts = false →
  (∀ ts, map_get key m = Some ts → blank ts = false → String.le ts new_ts) →
  map_advances m (map_insert key new_ts m).
Proof.
  intros Hb Hle k ts Hk Hbts. destruct (decide (k = key)) as [->|Hne].
  - exists new_ts. rewrite map_get_insert_eq. auto.
  - exists ts. by rewrite map_get_insert_ne.
Qed.

Lemma resolve_oldest_cursor_keeps {S E} (existing : option string) :
  returns (λ oldest, ∀ ts, existing = Some ts → blank ts = false → oldest = ts)
    (resolve_oldest_cursor existing : IO S E string).
Proof.
  unfold resolve_oldest_cursor. destruct (not_blank existing) as [v|] eqn:Hv.
  - apply returns_ret. apply not_blank_Some in Hv as [-> _]. by intros ts [= ->].
  - apply (returns_mono (λ _, True)); [done|]. intros a _ ts Hts Hb.
    assert (not_blank existing = Some ts) by by apply not_blank_Some. congruence.
Qed.

(** ** The cursor file *)
Lemma path_join_ends b r : ∃ p, path_join b r = p +:+ r.
Proof.
  unfold path_join. destruct (is_absolute r); [by exists ""|].
  destruct (is_empty b); [by exists ""|]. destruct (ends_with "/" b); [by exists b|].
  exists (b +:+ "/"). by rewrite str_app_assoc.
Qed.
Lemma cursor_tmp_differs state_root profile_id :
  is_absolute state_root = true →
  with_extension (cursor_state_path state_root profile_id) "json.tmp"
  ≠ cursor_state_path state_root profile_id.
Proof.
  intros Habs. unfold cursor_state_path. set (dir := path_join (path_join state_root _) _).
  assert (is_absolute dir = true) as Hdir by by repeat apply is_absolute_join.
  unfold with_extension, path_parent, file_stem, file_name.
  rewrite components_join_plain by done. rewrite reverse_app, last_snoc. simpl.
  change (file_stem_of "cursor.json" +:+ ".json.tmp") with "cursor.json.tmp".
  destruct (path_join_ends (path_render (reverse (reverse (components dir)))) "cursor.json.tmp") as [p ->].
  destruct (path_join_ends dir "cursor.json") as [q ->].
  intros Heq%(f_equal String.rev). by rewrite !str_rev_app in Heq.
Qed.

Section monotone.
Context {remote : Type} `{!SlackApi remote}.
Context (encode_incoming : IncomingMessage → string)
  (parse_value : string → result string Value)
  (decode_cursor : string → result string SlackCursorState)
  (encode_cursor : SlackCursorState → string).
Context (queue_paths : QueuePaths) (profile_id : string) (profile : ChannelProfile)
  (allowlist : gset string) (api : SlackApiClient).

Local Abbreviation user c := (is_user_message profile allowlist c).
Local Abbreviation ingest_message :=
  (ingest_message (remote:=remote) encode_incoming queue_paths profile_id profile allowlist).
Local Abbreviation ingest_reply :=
  (ingest_reply (remote:=remote) encode_incoming queue_paths profile_id profile allowlist).
Local Abbreviation ingest_thread :=
  (ingest_thread encode_incoming queue_paths profile_id profile allowlist api).
Local Abbreviation ingest_conversation :=
  (ingest_conversation encode_incoming parse_value queue_paths profile_id profile allowlist api).

Lemma user_message_ts c m : user c m = true → blank (sm_ts m) = false.
Proof. unfold is_user_message, blank. by destruct (is_empty (trim (sm_ts m))). Qed.

Lemma advance_thread_cursor_advances id oldest m cursors :
  blank (sm_ts m) = false →
  cursors_advance cursors (advance_thread_cursor id oldest m cursors)
  ∧ cu_conversations (advance_thread_cursor id oldest m cursors) = cu_conversations cursors.
Proof.
  intros Hb. unfold advance_thread_cursor.
  destruct (not_blank (sm_thread_ts m)) as [thread_ts|]; [|by split].
  destruct (ts_after (sm_ts m) _) eqn:Ha; [|by split]. split; [|done]. split; [done|].
  apply map_insert_advances; [done|]. intros ts Hts _. rewrite Hts in Ha. by apply ts_after_ge.
Qed.

(** The stored cursors. *)
Definition stored_cursors (state_root : string) (d : disk) (cursors : SlackCursorState) : Prop :=
  match d !! cursor_state_path state_root profile_id with
  | None => cursors = SlackCursorState_default
  | Some raw => decode_cursor raw = Ok cursors
  end.
Lemma wp_load_cursor_state h state_root d :
  wp h (load_cursor_state decode_cursor state_root profile_id)
    (λ r d', d' = d ∧ ∀ c, r = Ok c → h = true → stored_cursors state_root d c) d.
Proof.
  unfold load_cursor_state, path_exists, stored_cursors. apply wp_bind, wp_fmap, wp_attempt, wp_sys.
  { intros -> e. apply wp_ret. split; [done|]. by intros c _ [=]. }
  simpl. unfold disk_is_file. case_bool_decide as Hex; simpl.
  - apply wp_bind, wp_map_err, wp_sys; [by intros -> e|]. simpl.
    destruct Hex as [raw ->]. apply wp_lift. split; [done|]. by intros c Hc%map_err_Ok _.
  - apply wp_ret. split; [done|]. intros c [= <-] _.
    apply eq_None_not_Some in Hex. by rewrite Hex.
Qed.
Lemma wp_save_cursor_state h state_root cursors d :
  is_absolute state_root = true →
  wp h (save_cursor_state encode_cursor state_root profile_id cursors)
    (λ r d', d' !! cursor_state_path state_root profile_id
             = match r with
               | Ok _ => Some (encode_cursor cursors)
               | Err _ => d !! cursor_state_path state_root profile_id
               end) d.
Proof.
  intros Habs%(cursor_tmp_differs _ profile_id). unfold save_cursor_state.
  apply wp_bind. apply (wp_mono _ _ (λ r d', d' = d)).
  { destruct (path_parent _); [|by apply wp_ret].
    apply wp_map_err, wp_sys; [by intros _ e|done]. }
  intros [[]|e] d' ->; [|done]. apply wp_bind, wp_map_err, wp_sys; [done|]. simpl.
  apply wp_map_err, wp_sys.
  - intros _ e. simpl. unfold disk_write. simpl. by apply lookup_insert_ne.
  - unfold disk_rename, disk_write. simpl. rewrite disk_lookup_insert. simpl.
    by rewrite disk_lookup_insert.
Qed.

(** What the loops keep, relative to where the conversation stood. *)
Definition sync_invariant (start : SlackCursorState) (oldest : string) (v : sync_vars) : Prop :=
  cursors_advance start (sv_cursors v)
  ∧ cu_conversations (sv_cursors v) = cu_conversations start
  ∧ (blank oldest = false → String.le oldest (sv_latest_ts v) ∧ blank (sv_latest_ts v) = false).

Lemma ingest_message_keeps c start oldest0 oldest v m :
  sync_invariant start oldest0 v →
  returns (sync_invariant start oldest0) (ingest_message c oldest v m).
Proof.
  intros (Hc & Heq & Hl). unfold SlackIngest.ingest_message.
  destruct (user c m) eqn:Hu; [|by apply returns_ret].
  apply user_message_ts in Hu. apply returns_seq. intros queued. apply returns_ret.
  destruct (advance_thread_cursor_advances (cv_id c) oldest m (sv_cursors v) Hu) as [Ha Hae].
  split; [by etrans|]. split; [simpl; congruence|]. intros Hb. simpl.
  destruct (Hl Hb) as [Hle Hbl]. split; [|by apply later_ts_nonblank].
  trans (sv_latest_ts v); [done|apply later_ts_ge_old].
Qed.

(** The replies of a thread leave the cursors alone; the newest time stamp is the
    old one or that of a reply. *)
Definition reply_invariant (start cursors : SlackCursorState) (oldest thread_oldest : string)
    (v : sync_vars * string) : Prop :=
  sync_invariant start oldest v.1 ∧ sv_cursors v.1 = cursors
  ∧ (v.2 = thread_oldest ∨ blank v.2 = false).
Lemma ingest_reply_keeps c thread_ts start cursors oldest thread_oldest v m :
  reply_invariant start cursors oldest thread_oldest v →
  returns (reply_invariant start cursors oldest thread_oldest) (ingest_reply c thread_ts v m).
Proof.
  intros ((Hc & Heq & Hl) & Hcur & Ht). unfold SlackIngest.ingest_reply.
  destruct (_ || _) eqn:Hu; [by apply returns_ret|].
  apply orb_false_iff in Hu as [_ Hu%negb_false_iff%user_message_ts].
  apply returns_seq. intros queued. apply returns_ret. split; [split_and!; [done..|]|split; [done|]].
  - intros Hb. destruct (Hl Hb) as [Hle Hbl]. simpl. split; [|by apply later_ts_nonblank].
    trans (sv_latest_ts v.1); [done|apply later_ts_ge_old].
  - simpl. unfold later_ts. destruct (ts_after _ _); [by right|done].
Qed.

Lemma ingest_thread_keeps c start oldest v thread_ts :
  sync_invariant start oldest v →
  returns (sync_invariant start oldest) (ingest_thread c v thread_ts).
Proof.
  intros Hv. unfold SlackIngest.ingest_thread.
  eapply returns_bind; [apply resolve_oldest_cursor_keeps|]. intros thread_oldest Hto.
  apply returns_seq. intros [replies|err].
  2: { destruct (not_in_channel _ _); [by apply returns_ret|apply returns_throw]. }
  apply (returns_bind (reply_invariant start (sv_cursors v) oldest thread_oldest)).
  { apply returns_for_fold; [|by split; [|split; [|left]]].
    intros w m _ Hw. by apply ingest_reply_keeps. }
  intros [w latest] ((Hc & Heq & Hl) & Hcur & Ht). apply returns_ret. simpl in *.
  destruct (ts_after latest thread_oldest) eqn:Ha; [|by split_and!].
  split_and!; [|done..]. etrans; [exact Hc|]. split; [done|]. simpl. apply map_insert_advances.
  - destruct Ht as [->|Ht]; [|done]. by apply ts_after_spec in Ha.
  - intros ts Hts Hb. rewrite Hcur in Hts. rewrite <- (Hto ts Hts Hb). by apply ts_after_ge.
Qed.

Lemma ingest_conversation_keeps acc c :
  returns (λ acc', cursors_advance acc.1 acc'.1) (ingest_conversation acc c).
Proof.
  destruct acc as [cursors enqueued]. unfold SlackIngest.ingest_conversation.
  eapply returns_bind; [apply resolve_oldest_cursor_keeps|]. intros oldest Ho.
  apply returns_seq. intros threads. apply returns_seq. intros [messages|err].
  2: { destruct (not_in_channel _ _); [by apply returns_ret|apply returns_throw]. }
  apply (returns_bind (sync_invariant cursors oldest)).
  { apply returns_for_fold; [|done]. intros v m _ Hv. by apply ingest_message_keeps. }
  intros v Hv. apply returns_seq. intros threads'.
  apply (returns_bind (sync_invariant cursors oldest)).
  { apply returns_for_fold; [|done]. intros w th _ Hw. by apply ingest_thread_keeps. }
  intros w ([Hc Ht] & Heq & Hl). apply returns_ret. split; [|done]. simpl.
  rewrite Heq. intros key ts Hts Hb. destruct (decide (key = cv_id c)) as [->|Hne].
  - exists (sv_latest_ts w). rewrite map_get_insert_eq. rewrite (Ho ts Hts Hb) in Hl.
    split; [done|]. by apply Hl.
  - exists ts. by rewrite map_get_insert_ne.
Qed.
Lemma ingest_conversations_keep acc cs :
  returns (λ acc', cursors_advance acc.1 acc'.1) (io_for_fold ingest_conversation cs acc).
Proof.
  apply (returns_for_fold (λ acc', cursors_advance acc.1 acc'.1)); [|done].
  intros acc' c _ Hacc. eapply returns_mono; [apply ingest_conversation_keeps|].
  simpl. intros acc'' ?. by etrans.
Qed.

(** Only the last step of a pass writes a plain file. *)
Definition same_disk (s s' : slack_host remote) : Prop := sh_disk s' = sh_disk s.
#[local] Instance same_disk_preorder : PreOrder same_disk.
Proof. split; [done|]. intros a b c Hab Hbc. unfold same_disk in *. congruence. Qed.
Lemma queue_same_disk {E A} (m : IO queue_fs E A) root : evolves same_disk (on_host_queue root m).
Proof. by apply evolves_zoom_any. Qed.
Lemma slack_same_disk {A} (call : api_call remote A) : evolves same_disk (on_slack call).
Proof. by apply evolves_on_slack. Qed.
Lemma disk_read_same_disk {E A} (m : IO disk E A) :
  evolves eq m → evolves same_disk (on_disk (remote:=remote) m).
Proof. intros Hm. apply (evolves_zoom _ eq); [done|]. by intros s t <-. Qed.
#[local] Hint Resolve queue_same_disk slack_same_disk disk_read_same_disk : direclaw.

Lemma bootstrap_reads id :
  evolves eq (bootstrap_threads_from_artifacts parse_value queue_paths profile_id id).
Proof.
  unfold bootstrap_threads_from_artifacts. 
  assert (∀ A (f : disk → disk * result io_error A), (∀ d, (f d).1 = d) → evolves eq (sys f)) as Hsys.
  { intros A f Hf. apply evolves_sys; [apply _|]. intros d. by rewrite Hf. }
  evolve_steps; try (by apply Hsys).
  apply evolves_for_fold; [apply _|]. intros b x. evolve_steps.
Qed.
Lemma resolve_same_disk (existing : option string) :
  evolves same_disk (resolve_oldest_cursor existing : IO _ SlackError _).
Proof. unfold resolve_oldest_cursor, default_oldest_timestamp. evolve_steps. Qed.
#[local] Hint Resolve bootstrap_reads resolve_same_disk : direclaw.
Lemma ingest_message_same_disk c oldest v m : evolves same_disk (ingest_message c oldest v m).
Proof. unfold SlackIngest.ingest_message, in_queue_dir. evolve_steps. Qed.
Lemma ingest_reply_same_disk c thread_ts v m : evolves same_disk (ingest_reply c thread_ts v m).
Proof. unfold SlackIngest.ingest_reply, in_queue_dir. evolve_steps. Qed.
Lemma ingest_thread_same_disk c v thread_ts : evolves same_disk (ingest_thread c v thread_ts).
Proof.
  unfold SlackIngest.ingest_thread. evolve_steps. apply evolves_for_fold; [apply _|].
  intros. apply ingest_reply_same_disk.
Qed.
Lemma ingest_conversation_same_disk acc c : evolves same_disk (ingest_conversation acc c).
Proof.
  unfold SlackIngest.ingest_conversation, bootstrap_threads_from_history, default_oldest_timestamp.
  evolve_steps; (apply evolves_for_fold; [apply _|intros]);
    first [apply ingest_message_same_disk|apply ingest_thread_same_disk].
Qed.

Local Abbreviation load state_root :=
  (on_disk (remote:=remote) (load_cursor_state decode_cursor state_root profile_id)).
Local Abbreviation pass :=
  (process_inbound_with_api encode_incoming parse_value decode_cursor encode_cursor queue_paths
     profile_id profile allowlist api).

(** Loading changes nothing, and reads the stored cursors when the disk works. *)
Lemma load_run state_root w :
  let '(w1, loaded) := load state_root w in
  st w1 = st w ∧ ∀ c, loaded = Ok c → faults (ev w) = [] →
    stored_cursors state_root (sh_disk (st w)) c.
Proof.
  assert (∀ h, wp h (load state_root) (λ r s, s = st w ∧ ∀ c, r = Ok c → h = true →
    stored_cursors state_root (sh_disk (st w)) c) (st w)) as Hwp.
  { intros h. apply wp_zoom. eapply wp_mono; [apply wp_load_cursor_state|].
    intros r d [-> Hc]. split; [|done]. by destruct (st w). }
  pose proof (wp_run _ _ _ w (Hwp false) ltac:(done)) as [Hst _].
  pose proof (λ Hf, wp_run _ _ _ w (Hwp true) (λ _, Hf)) as Hcalm.
  destruct (load state_root w) as [w1 loaded]. split; [done|].
  intros c Hc Hf. by apply (Hcalm Hf).
Qed.

Lemma save_run state_root cursors w :
  is_absolute state_root = true →
  let '(w', saved) := on_disk (remote:=remote)
      (save_cursor_state encode_cursor state_root profile_id cursors) w in
  sh_disk (st w') !! cursor_state_path state_root profile_id
  = match saved with
    | Ok _ => Some (encode_cursor cursors)
    | Err _ => sh_disk (st w) !! cursor_state_path state_root profile_id
    end.
Proof.
  intros Habs.
  pose proof (wp_run _ _ _ (World (sh_disk (st w)) (ev w))
    (wp_save_cursor_state false state_root cursors (sh_disk (st w)) Habs) ltac:(done)) as Hsave.
  unfold on_disk, zoom. by destruct (save_cursor_state _ _ _ _ _).
Qed.

End monotone.

(** ** A small Slack

    One channel with a message and a reply in its thread. *)
Definition demo_message (ts : string) (thread_ts : option string) (text : string) : SlackMessage :=
  {| sm_ts := ts; sm_thread_ts := thread_ts; sm_text := Some text; sm_user := Some "U1";
     sm_subtype := None; sm_bot_id := None; sm_reply_count := None |}.
Definition demo_history (id : string) : list SlackMessage :=
  if String.eqb id "C1" then [demo_message "1700000200.1" None "hello <@BOT>"] else [].
Definition demo_replies (id thread : string) : list SlackMessage :=
  if String.eqb id "C1" && String.eqb thread "1700000100.1"
  then [demo_message "1700000300.1" (Some "1700000100.1") "and more"] else [].
Definition newer_than (oldest : option string) (messages : list SlackMessage) : list SlackMessage :=
  filter (λ m, ts_after (sm_ts m) (from_option id "" oldest) = true) messages.
#[export] Instance demo_slack : SlackApi () := {
  validate_auth _ r := (r, Ok ());
  validate_connection _ r := (r, Ok ());
  open_socket_connection_url _ r := (r, Ok "wss://slack");
  list_conversations _ _ r := (r, Ok [{| cv_id := "C1"; cv_is_im := false |}]);
  conversation_history _ id oldest r := (r, Ok (newer_than oldest (demo_history id)));
  conversation_replies _ id thread oldest r := (r, Ok (newer_than oldest (demo_replies id thread)));
  post_message _ _ _ _ r := (r, Ok ());
}.
Definition demo_api : SlackApiClient :=
  {| ac_api_base := "https://slack.com/api"; ac_bot_token := "xoxb"; ac_app_token := "xapp" |}.
Definition demo_profile : ChannelProfile :=
  {| cp_channel := Slack; cp_orchestrator_id := "main"; cp_identity_mention_tokens := [];
     cp_slack_app_user_id := Some "BOT"; cp_require_mention_in_channels := None;
     cp_thread_response_mode := AlwaysReply |}.
Definition demo_cursors : SlackCursorState :=
  {| cu_conversations := [("C1", "1700000150.1")];
     cu_threads := [("C1:1700000100.1", "1700000150.1")] |}.
Definition demo_decode_cursor (raw : string) : result string SlackCursorState :=
  if String.eqb raw "stored" then Ok demo_cursors else Err "expected value".
Definition demo_encode_cursor (c : SlackCursorState) : string :=
  String.concat " " ((λ kv, kv.1 +:+ "=" +:+ kv.2) <$> cu_conversations c ++ cu_threads c).
Definition demo_slack_queue : queue_fs :=
  {| q_incoming := Some ∅; q_processing := Some ∅; q_outgoing := Some ∅; q_failed := Some ∅;
     q_requeue_counter := 0; q_log := [] |}.
Definition demo_slack_world : world (slack_host ()) :=
  World (SlackHost (λ _, demo_slack_queue)
           {[ cursor_state_path "/state" "team" := "stored" ]} ())
    (Env [] [1700000400%Z]).
Definition demo_backfill : world (slack_host ()) * result SlackError nat :=
  process_inbound_with_api im_message_id (λ raw, Err raw) demo_decode_cursor demo_encode_cursor
    (from_state_root "/runtime") "team" demo_profile ∅ demo_api "/state" true demo_slack_world.

Example demo_cursors_advanced :
  sh_disk (st demo_backfill.1) !! cursor_state_path "/state" "team"
  = Some "C1=1700000300.1 C1:1700000100.1=1700000300.1".
Proof. vm_compute. reflexivity. Qed.
