(* ===== verification/SlackInboundGuarantees.v ===== *)
(** * What reaches the queue from Slack

    Against a Slack that behaves as its documentation says ([SlackServer]), a
    successful backfill queues every message of a user that is newer than the
    cursors, in the channels and in the threads that are followed.  On a working
    disk a backfill adds files to [incoming] and does nothing else to a queue. *)
From S2P Require Import Prelude RustStr RustPath Io Json QueueMessage QueueLifecycle Config SlackChannel SlackIngest SlackIngestGuarantees.
From Stdlib Require Import Ascii.

Local Open Scope string_scope.
Local Open Scope list_scope.

(** What the backfill relies on: the conversations of the bot are listed, their
    ids have no colon, a call returns at least the messages newer than [oldest]
    (and is not refused with [not_in_channel]), the messages of a channel that
    are no replies start their own thread, and a reply is newer than its root. *)
Class SlackServer (remote : Type) `{!SlackApi remote} (api : SlackApiClient) (im : bool) := {
  srv_joined : list string;
  srv_history : string → list SlackMessage;
  srv_replies : string → string → list SlackMessage;
  srv_lists_joined r l : (list_conversations api im r).2 = Ok l →
    ∀ id, id ∈ srv_joined → ∃ c, c ∈ l ∧ cv_id c = id;
  srv_plain_ids r l : (list_conversations api im r).2 = Ok l →
    ∀ c, c ∈ l → split_once ":" (cv_id c) = None;
  srv_history_new r id oldest l : (conversation_history api id (Some oldest) r).2 = Ok l →
    ∀ m, m ∈ srv_history id → ts_after (sm_ts m) oldest = true → m ∈ l;
  srv_history_roots r id oldest l : (conversation_history api id (Some oldest) r).2 = Ok l →
    ∀ m, m ∈ l → sm_subtype m = None → sm_thread_ts m = None ∨ sm_thread_ts m = Some (sm_ts m);
  srv_history_allowed r id oldest err : id ∈ srv_joined →
    (conversation_history api id (Some oldest) r).2 = Err err →
    not_in_channel "conversations.history" err = false;
  srv_replies_new r id thread oldest l :
    (conversation_replies api id thread (Some oldest) r).2 = Ok l →
    ∀ m, m ∈ srv_replies id thread → ts_after (sm_ts m) oldest = true → m ∈ l;
  srv_replies_allowed r id thread oldest err : id ∈ srv_joined →
    (conversation_replies api id thread (Some oldest) r).2 = Err err →
    not_in_channel "conversations.replies" err = false;
  srv_reply_after_root id thread m : m ∈ srv_replies id thread → sm_ts m ≠ thread →
    ts_after (sm_ts m) thread = true;
}.

(** ** Messages in a queue *)
Definition reply_name (message_id name : string) : Prop :=
  extension name = Some "json"
  ∧ starts_with ("slack_" +:+ sanitize_filename_component message_id +:+ "_") name = true.
Definition queued (message_id : string) (q : queue_fs) : Prop :=
  is_Some (file_at Incoming (message_id +:+ ".json") q)
  ∨ is_Some (file_at Processing (message_id +:+ ".json") q)
  ∨ ∃ name, is_Some (file_at Outgoing name q) ∧ reply_name message_id name.

Lemma file_at_set_other d d' m name q : d ≠ d' → file_at d name (set_dir d' m q) = file_at d name q.
Proof. by destruct d, d'. Qed.
Lemma file_at_write d name name' f m q : get_dir d q = Some m →
  file_at d name' (set_dir d (Some (<[name := f]> m)) q)
  = if decide (name = name') then Some f else file_at d name' q.
Proof.
  intros Hm. unfold file_at. assert (get_dir d (set_dir d (Some (<[name := f]> m)) q)
    = Some (<[name := f]> m)) as -> by by destruct d.
  rewrite Hm. simpl. apply lookup_insert.
Qed.

Lemma split_after_plain id rest :
  split_once ":" id = None → split_once ":" (id +:+ ":" +:+ rest) = Some (id, rest).
Proof.
  unfold split_once. generalize ":"%char as colon. intros colon.
  induction id as [|a id IH]; cbn [cut strip_prefix String.append].
  { intros _. by rewrite Ascii.eqb_refl. }
  destruct (Ascii.eqb colon a); [done|]. intros Hid. cbn [String.append] in IH.
  rewrite IH; [done|]. by destruct (cut (String colon "") id) as [[]|].
Qed.
Lemma thread_cursor_key_inj id id' th th' :
  split_once ":" id = None → split_once ":" id' = None →
  thread_cursor_key id th = thread_cursor_key id' th' → id = id' ∧ th = th'.
Proof.
  intros Hid Hid' Heq%(f_equal (split_once ":")). unfold thread_cursor_key in Heq.
  rewrite !split_after_plain in Heq by done. by simplify_eq.
Qed.

Section inbound.
Context {remote : Type} `{!SlackApi remote}.
Context (encode_incoming : IncomingMessage → string)
  (parse_value : string → result string Value)
  (decode_cursor : string → result string SlackCursorState)
  (encode_cursor : SlackCursorState → string).
Context (queue_paths : QueuePaths) (profile_id : string) (profile : ChannelProfile)
  (allowlist : gset string) (api : SlackApiClient).

Local Abbreviation message_id c m := (slack_message_id profile_id c (sm_ts m)).

Lemma wp_queue_file_exists h d name (Φ : result SlackError bool → queue_fs → Prop) q :
  (∀ b, (b = true → is_Some (file_at d name q)) →
        (h = true → b = false → file_at d name q = None) → Φ (Ok b) q) →
  wp h (queue_file_exists d name) Φ q.
Proof.
  intros HΦ. unfold queue_file_exists. apply wp_fmap, wp_attempt, wp_sys.
  - intros -> e. apply HΦ; [by intros|done].
  - unfold fs_metadata_modified. simpl. destruct (file_at d name q); apply HΦ; by eauto.
Qed.

Lemma wp_directory_has h id (Φ : result SlackError bool → queue_fs → Prop) q :
  (h = false → ∀ e, Φ (Err e) q) →
  (∀ b, (b = true ↔ ∃ name, is_Some (file_at Outgoing name q) ∧ reply_name id name)
      ∨ (b = false ∧ h = false) → Φ (Ok b) q) →
  wp h (directory_has_outgoing_message queue_paths id) Φ q.
Proof.
  intros Herr HΦ. unfold directory_has_outgoing_message. apply wp_bind, wp_attempt, wp_sys.
  { intros -> e. destruct (ioe_kind e);
      [apply wp_ret, HΦ; by right|by apply wp_throw, Herr..]. }
  unfold fs_read_dir. cbn [fst snd]. destruct (get_dir Outgoing q) as [m|] eqn:Hm; cbn [ioe_kind not_found].
  - apply wp_ret, HΦ. left. rewrite existsb_exists. unfold file_at. rewrite Hm. simpl.
    setoid_rewrite <- list_elem_of_In. setoid_rewrite list_elem_of_fmap. split.
    + intros (name & ([n f] & -> & Hin%elem_of_map_to_list) & [He Hs]%andb_true_iff).
      apply bool_decide_eq_true in He. exists n. split; [by eexists|done].
    + intros (name & [f Hf] & He & Hs). exists name. split.
      * exists (name, f). by rewrite elem_of_map_to_list.
      * apply andb_true_iff. by rewrite bool_decide_eq_true.
  - apply wp_ret, HΦ. left. split; [done|]. intros (name & Hn & _).
    unfold file_at in Hn. rewrite Hm in Hn. by destruct Hn.
Qed.

Lemma wp_message_already_queued h id (Φ : result SlackError bool → queue_fs → Prop) q :
  (h = false → ∀ e, Φ (Err e) q) →
  (∀ b, (b = true → queued id q) → (h = true → b = false → ¬ queued id q) → Φ (Ok b) q) →
  wp h (message_already_queued queue_paths id) Φ q.
Proof.
  intros Herr HΦ. unfold message_already_queued. apply wp_bind, wp_queue_file_exists.
  intros [] Hin Hni. { apply wp_ret, HΦ; [|done]. intros _. left. auto. }
  apply wp_bind, wp_queue_file_exists.
  intros [] Hp Hnp. { apply wp_ret, HΦ; [|done]. intros _. right. left. auto. }
  apply wp_directory_has; [done|]. intros b Hb. apply HΦ.
  - intros ->. right. right. destruct Hb as [Hb|[]]; [by apply Hb|done].
  - intros Hh -> [[? Hq]|[[? Hq]|Hq]].
    + by rewrite Hni in Hq.
    + by rewrite Hnp in Hq.
    + destruct Hb as [Hb|[_ ?]]; [|congruence]. by apply Hb in Hq.
Qed.

Local Abbreviation enqueue := (enqueue_incoming encode_incoming queue_paths profile_id profile).
Local Abbreviation payload c m now := (incoming_payload profile_id profile c m now).

(** A new file: nothing of the message was in the queue, now it is in [incoming]. *)
Definition enqueued (c : string) (m : SlackMessage) (q q' : queue_fs) : Prop :=
  ¬ queued (message_id c m) q ∧
  ∃ files now, q_incoming q = Some files
    ∧ q' = set_dir Incoming (Some (<[message_id c m +:+ ".json" :=
             QFile now (encode_incoming (payload c m now))]> files)) q.
(** What is queued stays queued, and the directory stays. *)
Definition keeps_queued (q q' : queue_fs) : Prop :=
  (∀ id, queued id q → queued id q') ∧ (is_Some (q_incoming q) → is_Some (q_incoming q')).
#[local] Instance keeps_queued_preorder : PreOrder keeps_queued.
Proof.
  split; [by intros q|]. intros a b c [Hab Hab'] [Hbc Hbc']. split; [|by auto].
  intros id Hid. by apply Hbc, Hab.
Qed.

Lemma keeps_queued_write name f files q : q_incoming q = Some files →
  keeps_queued q (set_dir Incoming (Some (<[name := f]> files)) q).
Proof.
  intros Hf. split; [|by eexists]. intros id [Hin|[Hp|Ho]].
  - left. rewrite (file_at_write Incoming) by done. by case_decide.
  - right. left. done.
  - right. right. done.
Qed.

Lemma wp_enqueue_incoming h c m q :
  wp h (enqueue c m) (λ r q', keeps_queued q q'
    ∧ (∀ b, r = Ok b → queued (message_id c m) q')
    ∧ (h = true → match r with Ok true => enqueued c m q q' | _ => q' = q end)
    ∧ (h = true → is_Some (q_incoming q) → is_ok r = true)) q.
Proof.
  unfold enqueue_incoming. apply wp_bind, wp_message_already_queued.
  { intros -> e. by split_and!. }
  intros [] Hq Hnq. { apply wp_ret. split_and!; [done| |done..]. intros b _. by apply Hq. }
  apply wp_bind, wp_clock. intros now. apply wp_bind, wp_map_err, wp_sys.
  { intros -> e. by split_and!. }
  unfold fs_write. cbn [get_dir]. destruct (q_incoming q) as [files|] eqn:Hf.
  2: { split_and!; [done..|]. by intros _ []. }
  apply wp_ret. cbn [fst]. split_and!.
  - by apply keeps_queued_write.
  - intros b _. left. rewrite (file_at_write Incoming) by done. by rewrite decide_True.
  - intros Hh. split; [by apply Hnq|]. by exists files, now.
  - done.
Qed.

(** ** The same on the machine *)
Local Abbreviation q_of s := (sh_queues s (qp_root queue_paths)).
Definition host_keeps (s s' : slack_host remote) : Prop := keeps_queued (q_of s) (q_of s').
#[local] Instance host_keeps_preorder : PreOrder host_keeps.
Proof. split; [by intros s|]. intros a b c Hab Hbc. unfold host_keeps in *. by etrans. Qed.

Lemma enqueue_keeps c m : evolves host_keeps (in_queue_dir queue_paths (enqueue c m)).
Proof.
  unfold in_queue_dir, on_host_queue. apply (evolves_zoom _ keeps_queued).
  - intros w. by apply (wp_run _ _ _ w (wp_enqueue_incoming false c m (st w)) ltac:(done)).
  - intros s q Hq. unfold host_keeps. by rewrite host_queue_same.
Qed.
Lemma slack_keeps {A} (call : api_call remote A) : evolves host_keeps (on_slack call).
Proof. apply evolves_on_slack. by intros s r. Qed.
Lemma disk_keeps {E A} (m : IO disk E A) : evolves host_keeps (on_disk (remote:=remote) m).
Proof. apply evolves_zoom_any. by intros s t. Qed.
#[local] Hint Resolve enqueue_keeps slack_keeps disk_keeps : direclaw.

Local Abbreviation ingest_message :=
  (ingest_message (remote:=remote) encode_incoming queue_paths profile_id profile allowlist).
Local Abbreviation ingest_reply :=
  (ingest_reply (remote:=remote) encode_incoming queue_paths profile_id profile allowlist).
Local Abbreviation ingest_thread :=
  (ingest_thread encode_incoming queue_paths profile_id profile allowlist api).
Local Abbreviation ingest_conversation :=
  (ingest_conversation encode_incoming parse_value queue_paths profile_id profile allowlist api).

Lemma resolve_keeps (existing : option string) :
  evolves host_keeps (resolve_oldest_cursor existing : IO _ SlackError _).
Proof. unfold resolve_oldest_cursor, default_oldest_timestamp. evolve_steps. Qed.
#[local] Hint Resolve resolve_keeps : direclaw.
Lemma ingest_message_keeps_queue c oldest v m : evolves host_keeps (ingest_message c oldest v m).
Proof. unfold SlackIngest.ingest_message. evolve_steps. Qed.
Lemma ingest_reply_keeps_queue c th v m : evolves host_keeps (ingest_reply c th v m).
Proof. unfold SlackIngest.ingest_reply. evolve_steps. Qed.
#[local] Hint Resolve ingest_message_keeps_queue ingest_reply_keeps_queue : direclaw.
Lemma ingest_thread_keeps_queue c v th : evolves host_keeps (ingest_thread c v th).
Proof.
  unfold SlackIngest.ingest_thread. evolve_steps. apply evolves_for_fold; [apply _|]. auto with direclaw.
Qed.
#[local] Hint Resolve ingest_thread_keeps_queue : direclaw.
Lemma ingest_conversation_keeps_queue acc c : evolves host_keeps (ingest_conversation acc c).
Proof.
  unfold SlackIngest.ingest_conversation, bootstrap_threads_from_history, default_oldest_timestamp.
  evolve_steps; (apply evolves_for_fold; [apply _|auto with direclaw]).
Qed.

(** ** Every message the calls return *)
Definition from_user (id : string) (m : SlackMessage) : bool :=
  is_user_message profile allowlist {| cv_id := id; cv_is_im := false |} m.
Lemma is_user_from_user c m : is_user_message profile allowlist c m = from_user (cv_id c) m.
Proof. unfold from_user, is_user_message, should_accept_channel_message. by rewrite !orb_true_r. Qed.

Lemma wp_in_queue (c : string) m (Φ : result SlackError bool → slack_host remote → Prop) s :
  (∀ e s', Φ (Err e) s') →
  (∀ b s', host_keeps s s' → queued (message_id c m) (q_of s') → Φ (Ok b) s') →
  wp false (in_queue_dir queue_paths (enqueue c m)) Φ s.
Proof.
  intros He Ho. unfold in_queue_dir. apply wp_on_host_queue. eapply wp_mono; [apply wp_enqueue_incoming|].
  intros [b|e] q (Hk & Hq & _ & _); [|apply He]. apply Ho.
  - unfold host_keeps. rewrite host_queue_same. apply Hk.
  - rewrite host_queue_same. by eapply Hq.
Qed.

Lemma wp_messages c oldest msgs v s :
  wp false (io_for_fold (ingest_message c oldest) msgs v)
    (λ r s', is_ok r = true → ∀ m, m ∈ msgs → from_user (cv_id c) m = true →
       queued (message_id (cv_id c) m) (q_of s')) s.
Proof.
  apply (wp_for_fold _ (λ _ rest s', ∀ m, m ∈ msgs → from_user (cv_id c) m = true →
    m ∈ rest ∨ queued (message_id (cv_id c) m) (q_of s'))).
  - auto.
  - intros v1 m rest s1 Hi. unfold SlackIngest.ingest_message. rewrite is_user_from_user.
    destruct (from_user (cv_id c) m) eqn:Hu; simpl.
    + apply wp_bind, wp_in_queue; [done|]. intros b s2 [Hk _] Hq. apply wp_ret.
      intros m' Hm' Hu'. destruct (Hi m' Hm' Hu') as [[->|Hr]%elem_of_cons|Hd]; auto.
    + apply wp_ret. intros m' Hm' Hu'. destruct (Hi m' Hm' Hu') as [[->|Hr]%elem_of_cons|Hd]; auto.
      congruence.
  - intros v1 s1 Hi _ m Hm Hu. by destruct (Hi m Hm Hu) as [?%elem_of_nil|?].
Qed.
Lemma wp_replies c th replies v s :
  wp false (io_for_fold (ingest_reply c th) replies v)
    (λ r s', is_ok r = true → ∀ m, m ∈ replies → from_user (cv_id c) m = true → sm_ts m ≠ th →
       queued (message_id (cv_id c) m) (q_of s')) s.
Proof.
  apply (wp_for_fold _ (λ _ rest s', ∀ m, m ∈ replies → from_user (cv_id c) m = true →
    sm_ts m ≠ th → m ∈ rest ∨ queued (message_id (cv_id c) m) (q_of s'))).
  - auto.
  - intros v1 m rest s1 Hi. unfold SlackIngest.ingest_reply. rewrite is_user_from_user.
    destruct (String.eqb_spec (sm_ts m) th) as [Hth|Hth]; simpl.
    { apply wp_ret. intros m' Hm' Hu' Hn. destruct (Hi m' Hm' Hu' Hn) as [[->|]%elem_of_cons|]; auto.
      done. }
    destruct (from_user (cv_id c) m) eqn:Hu; simpl.
    + apply wp_bind, wp_in_queue; [done|]. intros b s2 [Hk _] Hq. apply wp_ret.
      intros m' Hm' Hu' Hn. destruct (Hi m' Hm' Hu' Hn) as [[->|]%elem_of_cons|]; auto.
    + apply wp_ret. intros m' Hm' Hu' Hn.
      destruct (Hi m' Hm' Hu' Hn) as [[->|]%elem_of_cons|]; auto. congruence.
  - intros v1 s1 Hi _ m Hm Hu Hn. by destruct (Hi m Hm Hu Hn) as [?%elem_of_nil|?].
Qed.

(** The text a conversation is read from. *)
Definition oldest_for (stored : option string) (oldest : string) : Prop :=
  match not_blank stored with
  | Some value => oldest = value
  | None => ∃ now, oldest = fmt_int (i64_sat_sub now INITIAL_HISTORY_WINDOW_SECS) +:+ ".0"
  end.
Lemma resolve_oldest_cursor_for {S E} (existing : option string) :
  returns (oldest_for existing) (resolve_oldest_cursor existing : IO S E string).
Proof.
  unfold resolve_oldest_cursor, oldest_for. destruct (not_blank existing); [by apply returns_ret|].
  apply returns_seq. intros now. apply returns_ret. by exists now.
Qed.

(** ** Where the cursors of a thread stand *)
Lemma ingest_reply_cursors c th v m :
  returns (λ v', sv_cursors v'.1 = sv_cursors v.1) (ingest_reply c th v m).
Proof.
  unfold SlackIngest.ingest_reply. destruct (_ || _); [by apply returns_ret|].
  apply returns_seq. intros b. by apply returns_ret.
Qed.
Lemma ingest_thread_other c v th key : thread_cursor_key (cv_id c) th ≠ key →
  returns (λ v', map_get key (cu_threads (sv_cursors v')) = map_get key (cu_threads (sv_cursors v)))
    (ingest_thread c v th).
Proof.
  intros Hkey. unfold SlackIngest.ingest_thread. apply returns_seq. intros oldest.
  apply returns_seq. intros [replies|err].
  2: { destruct (not_in_channel _ _); [by apply returns_ret|apply returns_throw]. }
  apply (returns_bind (λ v', sv_cursors v'.1 = sv_cursors v)).
  { apply (returns_for_fold (λ v', sv_cursors v'.1 = sv_cursors v)); [|done].
    intros v' m _ Hv'. eapply returns_mono; [apply ingest_reply_cursors|]. simpl. congruence. }
  intros [v' latest] Hv'. apply returns_ret. simpl in *. rewrite <- Hv'.
  destruct (ts_after _ _); [|done]. simpl. by rewrite map_get_insert_ne.
Qed.
Lemma advance_thread_cursor_other id oldest m cursors key :
  (∀ th, thread_cursor_key id th ≠ key) →
  map_get key (cu_threads (advance_thread_cursor id oldest m cursors))
  = map_get key (cu_threads cursors).
Proof.
  intros Hkey. unfold advance_thread_cursor. destruct (not_blank _) as [th|]; [|done].
  destruct (ts_after _ _); [|done]. simpl. by rewrite map_get_insert_ne.
Qed.
Lemma ingest_conversation_other acc c key : (∀ th, thread_cursor_key (cv_id c) th ≠ key) →
  returns (λ acc', map_get key (cu_threads acc'.1) = map_get key (cu_threads acc.1))
    (ingest_conversation acc c).
Proof.
  intros Hkey. destruct acc as [cursors n]. unfold SlackIngest.ingest_conversation.
  set (kept := λ v, map_get key (cu_threads (sv_cursors v)) = map_get key (cu_threads cursors)).
  apply returns_seq. intros oldest. apply returns_seq. intros threads. apply returns_seq.
  intros [messages|err].
  2: { destruct (not_in_channel _ _); [by apply returns_ret|apply returns_throw]. }
  apply (returns_bind kept).
  { apply returns_for_fold; [|done]. intros v m _ Hv. unfold SlackIngest.ingest_message.
    destruct (is_user_message _ _ _ _); [|by apply returns_ret].
    apply returns_seq. intros b. apply returns_ret. unfold kept. simpl.
    by rewrite advance_thread_cursor_other. }
  intros v Hv. apply returns_seq. intros threads'. apply (returns_bind kept).
  { apply returns_for_fold; [|done]. intros w th _ Hw. unfold kept in *. rewrite <- Hw.
    by apply ingest_thread_other. }
  intros w Hw. by apply returns_ret.
Qed.
Lemma ingest_conversation_others acc c id : cv_id c ≠ id →
  returns (λ acc', map_get id (cu_conversations acc'.1) = map_get id (cu_conversations acc.1))
    (ingest_conversation acc c).
Proof.
  intros Hne. destruct acc as [cursors n]. unfold SlackIngest.ingest_conversation.
  apply returns_seq. intros oldest. apply returns_seq. intros threads. apply returns_seq.
  intros [messages|err].
  2: { destruct (not_in_channel _ _); [by apply returns_ret|apply returns_throw]. }
  apply (returns_bind (sync_invariant cursors oldest)).
  { apply returns_for_fold; [|done]. intros v m _ Hv. by apply ingest_message_keeps. }
  intros v Hv. apply returns_seq. intros threads'.
  apply (returns_bind (sync_invariant cursors oldest)).
  { apply returns_for_fold; [|done]. intros w th _ Hw. by apply ingest_thread_keeps. }
  intros w (_ & Heq & _). apply returns_ret. simpl. by rewrite map_get_insert_ne, Heq.
Qed.

(** ** Against a Slack that shows what is new *)
Section server.
Context (im : bool) `{!SlackServer remote api im}.

Definition channel_done (id oldest : string) (s : slack_host remote) : Prop :=
  ∀ m, m ∈ srv_history id → from_user id m = true → ts_after (sm_ts m) oldest = true →
    queued (message_id id m) (q_of s).
Definition thread_done (id th oldest : string) (s : slack_host remote) : Prop :=
  ∀ m, m ∈ srv_replies id th → from_user id m = true → sm_ts m ≠ th →
    ts_after (sm_ts m) oldest = true → queued (message_id id m) (q_of s).
(** Where the cursor of a thread stands until the thread is read: where it stood
    at first or at the root of the thread. *)
Definition follows (id th oldest : string) (cursors : SlackCursorState) : Prop :=
  ∃ ts, map_get (thread_cursor_key id th) (cu_threads cursors) = Some ts ∧ blank ts = false
    ∧ (ts = oldest ∨ ts = th).

Lemma channel_done_later id oldest s s' :
  channel_done id oldest s → host_keeps s s' → channel_done id oldest s'.
Proof. intros Hd [Hk _] m Hm Hu Ha. apply Hk. by apply Hd. Qed.
Lemma thread_done_later id th oldest s s' :
  thread_done id th oldest s → host_keeps s s' → thread_done id th oldest s'.
Proof. intros Hd [Hk _] m Hm Hu Hn Ha. apply Hk. by apply Hd. Qed.

Lemma wp_thread c v th oldest s :
  cv_id c ∈ srv_joined → follows (cv_id c) th oldest (sv_cursors v) →
  wp false (ingest_thread c v th)
    (λ r s', is_ok r = true → thread_done (cv_id c) th oldest s') s.
Proof.
  intros Hjoined (ts & Hts & Hb & Hcase). unfold SlackIngest.ingest_thread. apply wp_bind.
  eapply wp_returns; [apply resolve_oldest_cursor_keeps|]. apply wp_any.
  intros [thread_oldest|e] s1 Hto; [|done]. rewrite (Hto _ eq_refl ts Hts Hb). clear Hto.
  apply wp_bind, wp_attempt, wp_on_slack.
  destruct (conversation_replies _ _ _ _ _) as [r [replies|err]] eqn:Hcall; cbn [fst snd].
  - apply wp_bind. eapply wp_mono; [apply wp_replies|].
    intros [[v' latest]|e] s2 Hq; [|done]. apply wp_ret. intros _ m Hm Hu Hn Ha.
    apply Hq; [done| |done..]. apply (f_equal snd) in Hcall.
    eapply srv_replies_new; [exact Hcall|done|].
    destruct Hcase as [->| ->]; [done|by eapply srv_reply_after_root].
  - erewrite srv_replies_allowed; [by apply wp_throw|done|by rewrite Hcall].
Qed.

Lemma wp_threads c ths v th oldest s :
  cv_id c ∈ srv_joined → th ∈ ths → follows (cv_id c) th oldest (sv_cursors v) →
  wp false (io_for_fold (ingest_thread c) ths v)
    (λ r s', is_ok r = true → thread_done (cv_id c) th oldest s') s.
Proof.
  intros Hjoined Hth Hf.
  apply (wp_for_fold _ (λ v rest s', thread_done (cv_id c) th oldest s'
    ∨ (th ∈ rest ∧ follows (cv_id c) th oldest (sv_cursors v)))).
  - by right.
  - intros v1 x rest s1 Hi. eapply wp_evolves; [apply ingest_thread_keeps_queue|].
    destruct Hi as [Hd|[[->|Hin]%elem_of_cons Hf1]].
    + apply wp_any. intros [v2|e] s2 Hk; [left|done]. by eapply thread_done_later.
    + eapply wp_mono; [by apply wp_thread|]. intros [v2|e] s2 Hd Hk; [left; by apply Hd|done].
    + destruct (decide (x = th)) as [->|Hx].
      { eapply wp_mono; [by apply wp_thread|]. intros [v2|e] s2 Hd Hk; [left; by apply Hd|done]. }
      eapply wp_returns; [apply (ingest_thread_other c v1 x (thread_cursor_key (cv_id c) th))|].
      { intros Heq. apply Hx. unfold thread_cursor_key in Heq. by simplify_eq. }
      apply wp_any. intros [v2|e] s2 Heq Hk; [right|done]. split; [done|].
      destruct Hf1 as (ts & Hts & Hrest). exists ts. by rewrite (Heq _ eq_refl).
  - intros v1 s1 [Hd|[Hin _]] _; [done|by apply elem_of_nil in Hin].
Qed.

Lemma ingest_message_follows c oldest0 v m th oldest :
  (sm_subtype m = None → sm_thread_ts m = None ∨ sm_thread_ts m = Some (sm_ts m)) →
  th ∈ sv_threads v ∧ follows (cv_id c) th oldest (sv_cursors v) →
  returns (λ v', th ∈ sv_threads v' ∧ follows (cv_id c) th oldest (sv_cursors v'))
    (ingest_message c oldest0 v m).
Proof.
  intros Hroot [Hth Hf]. unfold SlackIngest.ingest_message.
  destruct (is_user_message _ _ _ m) eqn:Hu; [|by apply returns_ret].
  apply returns_seq. intros b. apply returns_ret. simpl. split.
  { unfold collect_thread_candidates. destruct (not_blank _); [set_solver|].
    destruct (_ && _); set_solver. }
  assert (sm_subtype m = None) as Hsub%Hroot.
  { apply andb_true_iff in Hu as [Hu _]. apply andb_true_iff in Hu as [_ Hu].
    by apply bool_decide_eq_true in Hu as [_ Hu]. }
  unfold advance_thread_cursor. destruct (not_blank (sm_thread_ts m)) as [ts|] eqn:Hts; [|done].
  apply not_blank_Some in Hts as [Hts Hb]. destruct (ts_after _ _); [|done].
  destruct Hsub as [?|Hsub]; [congruence|]. assert (sm_ts m = ts) as -> by congruence.
  unfold follows. simpl. destruct (decide (ts = th)) as [->|Hne].
  - exists th. rewrite map_get_insert_eq. auto.
  - destruct Hf as (t0 & Ht0 & Hrest). exists t0. rewrite map_get_insert_ne; [done|].
    intros Heq. apply Hne. unfold thread_cursor_key in Heq. by simplify_eq.
Qed.

Lemma known_threads_follow id th oldest cursors :
  split_once ":" id = None → follows id th oldest cursors → th ∈ known_threads id cursors.
Proof.
  intros Hid (ts & Hts & _). unfold known_threads. apply elem_of_list_to_set, list_elem_of_omap.
  exists (thread_cursor_key id th). split.
  - apply map_get_keys. by exists ts.
  - unfold thread_cursor_key. rewrite split_after_plain by done. by rewrite String.eqb_refl.
Qed.

Lemma wp_conversation_channel acc c s :
  cv_id c ∈ srv_joined →
  wp false (ingest_conversation acc c) (λ r s', is_ok r = true →
    ∃ oldest, oldest_for (map_get (cv_id c) (cu_conversations acc.1)) oldest
      ∧ channel_done (cv_id c) oldest s') s.
Proof.
  intros Hjoined. destruct acc as [cursors n]. unfold SlackIngest.ingest_conversation.
  apply wp_bind. eapply wp_returns; [apply resolve_oldest_cursor_for|]. apply wp_any.
  intros [oldest|e] s1 Holdest; [|done]. specialize (Holdest _ eq_refl).
  apply wp_bind, wp_any. intros [threads|e] s2; [|done].
  apply wp_bind, wp_attempt, wp_on_slack.
  destruct (conversation_history _ _ _ _) as [r [messages|err]] eqn:Hcall; cbn [fst snd].
  2: { erewrite srv_history_allowed; [by apply wp_throw|done|by rewrite Hcall]. }
  apply (f_equal snd) in Hcall. apply wp_bind. eapply wp_mono; [apply wp_messages|].
  intros [v|e] s3 Hq; [|done].
  assert (channel_done (cv_id c) oldest s3) as Hdone.
  { intros m Hm Hu Ha. apply Hq; [done| |done]. by eapply srv_history_new. }
  apply wp_bind. eapply (wp_evolves _ host_keeps).
  { unfold bootstrap_threads_from_history, default_oldest_timestamp. evolve_steps. }
  apply wp_any. intros [threads'|e] s4 Hk4; [|done].
  apply wp_bind. eapply (wp_evolves _ host_keeps).
  { apply evolves_for_fold; [apply _|auto with direclaw]. }
  apply wp_any. intros [v'|e] s5 Hk5; [|done]. apply wp_ret. intros _.
  exists oldest. split; [done|]. eapply channel_done_later; [exact Hdone|]. by etrans.
Qed.

Lemma wp_conversation_thread acc c th oldest s :
  cv_id c ∈ srv_joined → split_once ":" (cv_id c) = None → follows (cv_id c) th oldest acc.1 →
  wp false (ingest_conversation acc c)
    (λ r s', is_ok r = true → thread_done (cv_id c) th oldest s') s.
Proof.
  intros Hjoined Hplain Hf. destruct acc as [cursors n]. unfold SlackIngest.ingest_conversation.
  apply wp_bind, wp_any. intros [oldest0|e] s1; [|done].
  pose proof (known_threads_follow _ _ _ _ Hplain Hf) as Hknown. cbn [fst] in Hknown.
  rewrite bool_decide_false by set_solver.
  apply wp_bind, wp_ret, wp_bind, wp_attempt, wp_on_slack.
  destruct (conversation_history _ _ _ _) as [r [messages|err]] eqn:Hcall; cbn [fst snd].
  2: { erewrite srv_history_allowed; [by apply wp_throw|done|by rewrite Hcall]. }
  apply (f_equal snd) in Hcall. apply wp_bind. eapply wp_returns.
  { apply (returns_for_fold (λ v, th ∈ sv_threads v ∧ follows (cv_id c) th oldest (sv_cursors v)));
      [|by split]. intros v m Hm Hv. apply ingest_message_follows; [|done].
    by eapply srv_history_roots. }
  apply wp_any. intros [v|e] s2 Hv; [|done]. destruct (Hv _ eq_refl) as [Hth Hf'].
  unfold bootstrap_threads_from_history. rewrite bool_decide_false by set_solver.
  apply wp_bind, wp_ret, wp_bind. eapply wp_mono.
  { apply (wp_threads c _ _ th oldest); [done| |exact Hf'].
    unfold btree_iter. by rewrite merge_sort_Permutation, elem_of_elements. }
  intros [v'|e] s3 Hdone; [|done]. apply wp_ret. intros _. by apply Hdone.
Qed.

(** ** All conversations *)
Lemma wp_conversations_channel convs acc id start s :
  id ∈ srv_joined → (∃ c, c ∈ convs ∧ cv_id c = id) →
  map_get id (cu_conversations acc.1) = start →
  wp false (io_for_fold ingest_conversation convs acc) (λ r s', is_ok r = true →
    ∃ oldest, oldest_for start oldest ∧ channel_done id oldest s') s.
Proof.
  intros Hjoined Hin Hstart. set (done_ s := ∃ oldest, oldest_for start oldest ∧ channel_done id oldest s).
  apply (wp_for_fold _ (λ acc rest s', done_ s'
    ∨ map_get id (cu_conversations acc.1) = start ∧ ∃ c, c ∈ rest ∧ cv_id c = id)).
  - by right.
  - intros acc1 x rest s1 Hi. eapply wp_evolves; [apply ingest_conversation_keeps_queue|].
    destruct Hi as [(oldest & Ho & Hd)|[Hs (c & Hc & Hid)]].
    { apply wp_any. intros [acc2|e] s2 Hk; [left|done]. exists oldest. split; [done|].
      by eapply channel_done_later. }
    destruct (decide (cv_id x = id)) as [Hx|Hx].
    + eapply wp_mono; [apply wp_conversation_channel; by rewrite Hx|].
      intros [acc2|e] s2 Hd Hk; [left|done]. rewrite Hx, Hs in Hd. by apply Hd.
    + eapply wp_returns; [by apply ingest_conversation_others|]. apply wp_any.
      intros [acc2|e] s2 Heq Hk; [right|done]. rewrite (Heq _ eq_refl). split; [done|].
      exists c. split; [|done]. apply elem_of_cons in Hc as [Heqc|Hc]; [by destruct Hx; rewrite <- Heqc|done].
  - intros acc1 s1 [Hd|[_ (c & Hc & _)]] _; [done|by apply elem_of_nil in Hc].
Qed.
Lemma wp_conversations_thread convs acc id th oldest s :
  id ∈ srv_joined → (∀ c, c ∈ convs → split_once ":" (cv_id c) = None) →
  (∃ c, c ∈ convs ∧ cv_id c = id) → follows id th oldest acc.1 →
  wp false (io_for_fold ingest_conversation convs acc)
    (λ r s', is_ok r = true → thread_done id th oldest s') s.
Proof.
  intros Hjoined Hplain Hin Hf.
  assert (split_once ":" id = None) as Hid by (destruct Hin as (c & Hc & <-); by apply Hplain).
  apply (wp_for_fold _ (λ acc rest s', (∀ c, c ∈ rest → split_once ":" (cv_id c) = None)
    ∧ (thread_done id th oldest s'
       ∨ follows id th oldest acc.1 ∧ ∃ c, c ∈ rest ∧ cv_id c = id))).
  - auto.
  - intros acc1 x rest s1 [Hp Hi]. eapply wp_evolves; [apply ingest_conversation_keeps_queue|].
    assert (∀ c, c ∈ rest → split_once ":" (cv_id c) = None) as Hp'
      by (intros c Hc; apply Hp; by right).
    destruct Hi as [Hd|[Hs (c & Hc & Hcid)]].
    { apply wp_any. intros [acc2|e] s2 Hk; [|done]. split; [done|]. left.
      by eapply thread_done_later. }
    destruct (decide (cv_id x = id)) as [Hx|Hx].
    + eapply wp_mono; [apply (wp_conversation_thread acc1 x th oldest); by rewrite Hx|].
      rewrite Hx. intros [acc2|e] s2 Hd Hk; [|done]. split; [done|]. left. by apply Hd.
    + eapply wp_returns; [apply (ingest_conversation_other acc1 x (thread_cursor_key id th))|].
      { intros th' [? _]%thread_cursor_key_inj; [done|apply Hp; by left|done]. }
      apply wp_any. intros [acc2|e] s2 Heq Hk; [|done]. split; [done|]. right. split.
      * destruct Hs as (ts & Hts & Hrest). exists ts. by rewrite (Heq _ eq_refl).
      * exists c. split; [|done]. apply elem_of_cons in Hc as [Heqc|Hc]; [by destruct Hx; rewrite <- Heqc|done].
  - intros acc1 s1 [_ [Hd|[_ (c & Hc & _)]]] _; [done|by apply elem_of_nil in Hc].
Qed.

Local Abbreviation pass :=
  (process_inbound_with_api encode_incoming parse_value decode_cursor encode_cursor queue_paths
     profile_id profile allowlist api).

End server.

(** ** Nothing but new files *)
Definition one_more (q q' : queue_fs) : Prop :=
  ∃ c m, from_user c m = true ∧ enqueued c m q q'.
(** From [s0] to [s] the queue got [n] new messages; nothing else changed in it,
    and nothing in the other queues. *)
Definition progress (s0 s : slack_host remote) (n : nat) : Prop :=
  nsteps one_more n (q_of s0) (q_of s)
  ∧ ∀ root, root ≠ qp_root queue_paths → sh_queues s root = sh_queues s0 root.
(** The count is right when a loop goes on, and there is one when it stops. *)
Definition counted {A} (count : A → nat) (s0 : slack_host remote) (r : result SlackError A)
    (s : slack_host remote) : Prop :=
  match r with Ok v => progress s0 s (count v) | Err _ => ∃ n, progress s0 s n end.

Lemma wp_resolve h {S E} (existing : option string) (Φ : result E string → S → Prop) s :
  (∀ o, Φ (Ok o) s) → wp h (resolve_oldest_cursor existing) Φ s.
Proof.
  intros HΦ. unfold resolve_oldest_cursor, default_oldest_timestamp.
  destruct (not_blank existing); [by apply wp_ret|]. apply wp_bind, wp_clock. intros now.
  by apply wp_ret.
Qed.
Lemma wp_bootstrap h id (Φ : result SlackError (gset string) → disk → Prop) d :
  (∀ threads, Φ (Ok threads) d) →
  wp h (bootstrap_threads_from_artifacts parse_value queue_paths profile_id id) Φ d.
Proof.
  intros HΦ. unfold bootstrap_threads_from_artifacts. apply wp_bind, wp_attempt, wp_sys.
  { intros _ e. by apply wp_ret. }
  destruct (disk_read_dir _ d) as [d' [names|e]] eqn:Hd; apply (f_equal fst) in Hd; simpl in Hd |- *;
    rewrite <- Hd; [|by apply wp_ret].
  apply (wp_for_fold _ (λ _ _ d', d' = d)); [done| |by intros threads d0 ->].
  intros threads name rest d0 ->. destruct (negb _); [by apply wp_ret|].
  destruct (negb _); [by apply wp_ret|].
  apply wp_bind, wp_attempt, wp_sys; [intros _ e; by apply wp_ret|].
  unfold disk_read. cbn [fst snd]. by apply wp_ret.
Qed.
Lemma wp_count_enqueue c m n s0 s (Φ : result SlackError bool → slack_host remote → Prop) :
  from_user c m = true → progress s0 s n →
  (∀ e s', progress s0 s' n → Φ (Err e) s') →
  (∀ (b : bool) s', progress s0 s' (n + if b then 1 else 0) → Φ (Ok b) s') →
  wp true (in_queue_dir queue_paths (enqueue c m)) Φ s.
Proof.
  intros Hu [Hn Ho] He Hok. unfold in_queue_dir. apply wp_on_host_queue.
  eapply wp_mono; [apply wp_enqueue_incoming|]. intros r q (_ & _ & Hq & _). specialize (Hq eq_refl).
  assert (∀ root, root ≠ qp_root queue_paths →
    sh_queues (set_host_queue (qp_root queue_paths) q s) root = sh_queues s0 root) as Ho'.
  { intros root Hr. simpl. rewrite decide_False by done. by apply Ho. }
  destruct r as [[]|e].
  - apply Hok. split; [|done]. rewrite host_queue_same, Nat.add_1_r.
    eapply nsteps_r; [done|]. by exists c, m.
  - apply Hok. rewrite Nat.add_0_r. split; [|done]. by rewrite host_queue_same, Hq.
  - apply He. split; [|done]. by rewrite host_queue_same, Hq.
Qed.
Lemma wp_count_message c oldest v m s0 s :
  progress s0 s (sv_enqueued v) →
  wp true (ingest_message c oldest v m) (counted sv_enqueued s0) s.
Proof.
  intros Hp. unfold SlackIngest.ingest_message. rewrite is_user_from_user.
  destruct (from_user _ m) eqn:Hu; [|by apply wp_ret].
  eapply wp_bind, wp_count_enqueue; [done..|intros e s' ?; by eexists|].
  intros b s' Hp'. by apply wp_ret.
Qed.
Lemma wp_count_reply c th v m s0 s :
  progress s0 s (sv_enqueued v.1) →
  wp true (ingest_reply c th v m) (counted (λ v, sv_enqueued v.1) s0) s.
Proof.
  intros Hp. unfold SlackIngest.ingest_reply. rewrite is_user_from_user.
  destruct (String.eqb _ _); [by apply wp_ret|].
  destruct (from_user _ m) eqn:Hu; [|by apply wp_ret].
  eapply wp_bind, wp_count_enqueue; [done..|intros e s' ?; by eexists|].
  intros b s' Hp'. by apply wp_ret.
Qed.
(** A loop of counted steps counts. *)
Lemma wp_count_loop {A B} (count : B → nat) (body : B → A → IO (slack_host remote) SlackError B)
    xs b s0 s :
  (∀ b x s, progress s0 s (count b) → wp true (body b x) (counted count s0) s) →
  progress s0 s (count b) → wp true (io_for_fold body xs b) (counted count s0) s.
Proof.
  intros Hbody Hp.
  apply (wp_for_fold _ (λ b _ s, progress s0 s (count b))); [done| |by intros].
  intros b1 x rest s1 Hp1. eapply wp_mono; [by apply Hbody|]. by intros [b2|e] s2.
Qed.
Lemma progress_remote s0 s n r : progress s0 s n → progress s0 (set_remote r s) n.
Proof. done. Qed.

Lemma wp_count_thread c v th s0 s :
  progress s0 s (sv_enqueued v) → wp true (ingest_thread c v th) (counted sv_enqueued s0) s.
Proof.
  intros Hp. unfold SlackIngest.ingest_thread. apply wp_bind, wp_resolve. intros oldest.
  apply wp_bind, wp_attempt, wp_on_slack. destruct (conversation_replies _ _ _ _ _) as [r [l|e]].
  - apply wp_bind. eapply wp_mono.
    { apply (wp_count_loop (λ v, sv_enqueued v.1)); [|exact (progress_remote _ _ _ r Hp)].
      intros. by apply wp_count_reply. }
    intros [[v' latest]|e] s' Hp'; [|done]. apply wp_ret. by destruct (ts_after _ _).
  - cbn [fst snd]. destruct (not_in_channel _ _); [by apply wp_ret|]. apply wp_throw. by eexists.
Qed.
Lemma wp_count_conversation acc c s0 s :
  progress s0 s acc.2 → wp true (ingest_conversation acc c) (counted snd s0) s.
Proof.
  intros Hp. destruct acc as [cursors n]. unfold SlackIngest.ingest_conversation.
  apply wp_bind, wp_resolve. intros oldest. apply wp_bind.
  apply (wp_mono _ _ (λ r s', is_ok r = true ∧ progress s0 s' n)).
  { destruct (bool_decide _); [|by apply wp_ret].
    apply wp_zoom, wp_bootstrap. intros threads. by split. }
  intros [threads|e] s1 [Hok Hp1]; [clear Hok|done]. apply wp_bind, wp_attempt, wp_on_slack.
  destruct (conversation_history _ _ _ _) as [r [messages|err]]; cbn [fst snd].
  2: { destruct (not_in_channel _ _); [by apply wp_ret|]. apply wp_throw. by eexists. }
  apply wp_bind. eapply wp_mono.
  { apply (wp_count_loop sv_enqueued); [intros; by apply wp_count_message|by apply progress_remote]. }
  intros [v|e] s2 Hp2; [|done]. apply wp_bind.
  apply (wp_mono _ _ (λ r s', is_ok r = true ∧ progress s0 s' (sv_enqueued v))).
  { unfold bootstrap_threads_from_history, default_oldest_timestamp.
    destruct (negb _); [by apply wp_ret|]. apply wp_bind, wp_bind, wp_clock. intros now.
    apply wp_ret, wp_bind, wp_attempt, wp_on_slack, wp_ret. by split. }
  intros [threads'|e] s3 [Hok Hp3]; [clear Hok|done]. apply wp_bind. eapply wp_mono.
  { apply (wp_count_loop sv_enqueued); [intros; by apply wp_count_thread|done]. }
  intros [v'|e] s4 Hp4; [|done]. by apply wp_ret.
Qed.

Lemma backfill_keeps_queue state_root im : evolves host_keeps
  (process_inbound_with_api encode_incoming parse_value decode_cursor encode_cursor queue_paths
     profile_id profile allowlist api state_root im).
Proof.
  unfold process_inbound_with_api. evolve_steps. apply evolves_for_fold; [apply _|].
  intros. apply ingest_conversation_keeps_queue.
Qed.
Lemma wp_save_any h state_root cursors d :
  wp h (save_cursor_state encode_cursor state_root profile_id cursors) (λ _ _, True) d.
Proof.
  unfold save_cursor_state. apply wp_bind. apply (wp_mono _ _ (λ _ _, True)).
  { destruct (path_parent _); [by apply wp_map_err, wp_sys|by apply wp_ret]. }
  intros [[]|e] d1 _; [|done]. apply wp_bind, wp_map_err, wp_sys; [done|].
  by apply wp_map_err, wp_sys.
Qed.

(** A backfill adds each message once and does nothing else to a queue.  On
    a working disk, whatever Slack answers and whether or not the backfill
    succeeds: its steps on the queue of the profile each add to [incoming] the
    file of one message of a user no file of the queue stood for, and the queues
    of other runtime roots are untouched; the number it returns is the number of
    those files. *)
Theorem backfill_adds_each_message_once (state_root : string) (im : bool)
    (w : world (slack_host remote)) (Hcalm : faults (ev w) = []) :
  let '(w', outcome) := process_inbound_with_api encode_incoming parse_value decode_cursor
      encode_cursor queue_paths profile_id profile allowlist api state_root im w in
  ∃ n, progress (st w) (st w') n ∧ ∀ k, outcome = Ok k → k = n.
Proof.
  set (s0 := st w). assert (progress s0 s0 0) as Hp0 by (split; [constructor|done]).
  assert (wp true (process_inbound_with_api encode_incoming parse_value decode_cursor
    encode_cursor queue_paths profile_id profile allowlist api state_root im)
    (counted id s0) s0) as Hwp.
  { unfold process_inbound_with_api. apply wp_bind, wp_zoom.
    eapply wp_mono; [apply wp_load_cursor_state|].
    intros [start|e] d [-> _]; [|by exists 0%nat]. apply wp_bind, wp_on_slack.
    destruct (list_conversations _ _ _) as [r [convs|e]]; [|by exists 0%nat].
    apply wp_bind. eapply wp_mono.
    { apply (wp_count_loop snd); [intros; by apply wp_count_conversation|done]. }
    intros [[cursors n]|e] s1 Hp; [|done]. apply wp_bind, wp_zoom.
    eapply wp_mono; [apply wp_save_any|]. intros [[]|e] d _; [by apply wp_ret|by exists n]. }
  pose proof (wp_run _ _ _ w Hwp (λ _, Hcalm)) as Hrun.
  destruct (process_inbound_with_api _ _ _ _ _ _ _ _ _ _ _ w) as [w' [k|e]].
  - exists k. split; [exact Hrun|]. by intros k' [= ->].
  - destruct Hrun as [n Hn]. by exists n.
Qed.
End inbound.

(** ** The small Slack *)
Lemma demo_newer oldest m l : m ∈ l → ts_after (sm_ts m) oldest = true → m ∈ newer_than (Some oldest) l.
Proof. intros Hm Ha. by apply list_elem_of_filter. Qed.
#[export] Program Instance demo_server : SlackServer () demo_api true := {
  srv_joined := ["C1"]; srv_history := demo_history; srv_replies := demo_replies;
}.
Next Obligation.
  intros r l [= <-] id ->%list_elem_of_singleton. eexists. split; [by left|done].
Qed.
Next Obligation. by intros r l [= <-] c ->%list_elem_of_singleton. Qed.
Next Obligation. intros r id oldest l [= <-] m. by apply demo_newer. Qed.
Next Obligation.
  intros r id oldest l [= <-] m [_ Hm]%list_elem_of_filter _. left. unfold demo_history in Hm.
  destruct (String.eqb id "C1"); [by apply list_elem_of_singleton in Hm as ->|by apply elem_of_nil in Hm].
Qed.
Next Obligation. done. Qed.
Next Obligation. intros r id thread oldest l [= <-] m. by apply demo_newer. Qed.
Next Obligation. done. Qed.
Next Obligation.
  intros id thread m. unfold demo_replies. destruct (_ && _) eqn:E; [|by intros ?%elem_of_nil].
  apply andb_true_iff in E as [_ ->%String.eqb_eq]. by intros ->%list_elem_of_singleton _.
Qed.

Lemma backfill_adds_each_message_once_witness :
  let '(w', outcome) := demo_backfill in
  ∃ n, progress im_message_id (from_state_root "/runtime") "team" demo_profile ∅
         (st demo_slack_world) (st w') n
    ∧ ∀ k, outcome = Ok k → k = n.
Proof.
  unfold demo_backfill.
  assert (faults (ev demo_slack_world) = []) as Hcalm by reflexivity.
  pose proof (backfill_adds_each_message_once im_message_id (λ raw, Err raw) demo_decode_cursor
    demo_encode_cursor (from_state_root "/runtime") "team" demo_profile ∅ demo_api "/state" true
    demo_slack_world Hcalm) as H.
  exact H.
Defined.

(** The law [srv_history_new] is about one pass: a channel message posted between
    the two calls of a pass is lost when a reply newer than it is read, because
    the reply moves the cursor of the channel.  The remote state tells whether
    the message is posted; the history call comes just before it. *)
Definition racing_slack : SlackApi bool := {|
  validate_auth _ r := (r, Ok ());
  validate_connection _ r := (r, Ok ());
  open_socket_connection_url _ r := (r, Ok "wss://slack");
  list_conversations _ _ r := (r, Ok [{| cv_id := "C1"; cv_is_im := false |}]);
  conversation_history _ _ oldest (r : bool) :=
    (true, Ok (newer_than oldest (if r then [demo_message "1700000250.1" None "hello"] else [])));
  conversation_replies _ id thread oldest r :=
    (r, Ok (newer_than oldest (demo_replies id thread)));
  post_message _ _ _ _ r := (r, Ok ());
|}.
Definition racing_decode (raw : string) : result string SlackCursorState :=
  Ok {| cu_conversations := [("C1", raw)]; cu_threads := [("C1:1700000100.1", "1700000150.1")] |}.
Definition racing_encode (c : SlackCursorState) : string :=
  from_option id "" (map_get "C1" (cu_conversations c)).
Definition racing_pass : IO (slack_host bool) SlackError nat :=
  process_inbound_with_api (SlackApi0:=racing_slack) im_message_id (λ raw, Err raw) racing_decode
    racing_encode (from_state_root "/runtime") "team" demo_profile ∅ demo_api "/state" true.
Definition racing_world : world (slack_host bool) :=
  World (SlackHost (λ _, demo_slack_queue)
           {[ cursor_state_path "/state" "team" := "1700000150.1" ]} false) (Env [] []).
Example channel_message_lost_to_a_reply :
  let passes : IO (slack_host bool) SlackError (nat * nat) :=
    n ← racing_pass; m ← racing_pass; mret (n, m) in
  (passes racing_world).2 = Ok (1%nat, 0%nat)
  ∧ (λ files : gmap string qfile, (map_to_list files).*1) <$> q_incoming (sh_queues (st (passes racing_world).1) "/runtime")
    = Some ["slack-team-C1-1700000300_1.json"].
Proof. vm_compute. split; reflexivity. Qed.
