(* ===== verification/SlackEgressGuarantees.v ===== *)
(** * What the delivery to Slack guarantees

    A message is cut into chunks Slack accepts without losing a character; a
    file leaves [outgoing] only when all its chunks were accepted, in order, by
    the place its target or conversation names, and nothing is posted to a channel
    outside the allowlist; a message that fails does not hold back another.  To
    speak of what was posted, theorems run the code on [traced], any Slack that
    also keeps the accepted posts. *)
From S2P Require Import Prelude RustStr RustPath Io Json QueueMessage QueueLifecycle Config SlackTarget FileTags SlackChannel SlackEgress SlackIngestGuarantees.
From Stdlib Require Import Ascii.

Local Open Scope string_scope.
Local Open Scope list_scope.

(** ** Chunks *)
Definition chunk_ok (chunk : string) : Prop :=
  chunk ≠ "" ∧ (chars_count chunk ≤ OUTBOUND_CHUNK_CHARS)%nat.

Lemma chars_count_snoc s a :
  chars_count (s +:+ String a "") = (chars_count s + if is_continuation a then 0 else 1)%nat.
Proof. rewrite chars_count_app. simpl. by destruct (is_continuation a). Qed.
Lemma snoc_not_empty s a : s +:+ String a "" ≠ "".
Proof. by destruct s. Qed.

Lemma chunk_loop_spec input : ∀ current count,
  chars_count current = count → (count ≤ OUTBOUND_CHUNK_CHARS)%nat →
  let chunks := chunk_loop input current count in
  String.concat "" chunks = current +:+ input
  ∧ Forall chunk_ok chunks
  ∧ ∀ i chunk, chunks !! i = Some chunk → (S i < length chunks)%nat →
      chars_count chunk = OUTBOUND_CHUNK_CHARS.
Proof.
  induction input as [|a input IH]; intros current count Hcount Hle; cbn [chunk_loop].
  - rewrite str_app_nil_r. destruct current as [|b s]; simpl is_empty; cbn match.
    { split_and!; [done|constructor|by intros i c ?]. }
    split_and!; [done| |intros [|i] chunk Hi; simpl; lia].
    apply Forall_singleton. by split; [|rewrite Hcount].
  - assert (∀ c, current +:+ String a c = (current +:+ String a "") +:+ c) as Happ.
    { intros c. by rewrite str_app_assoc. }
    rewrite (Happ input). destruct (is_continuation a) eqn:Ha.
    { apply IH; [|done]. rewrite chars_count_snoc, Ha. lia. }
    destruct (OUTBOUND_CHUNK_CHARS <=? count)%nat eqn:Hfull.
    + apply Nat.leb_le in Hfull. assert (count = OUTBOUND_CHUNK_CHARS) as Heq by lia.
      destruct (IH (String a "") 1%nat) as (Hcat & Hok & Hlen).
      { simpl. by rewrite Ha. } { unfold OUTBOUND_CHUNK_CHARS. lia. }
      split_and!.
      * rewrite <- (Happ input). change (String a input) with (String a "" +:+ input). rewrite <- Hcat.
        by destruct (chunk_loop input (String a "") 1); [simpl; rewrite str_app_nil_r|].
      * constructor; [|done]. split; [|lia]. intros ->. by rewrite <- Hcount in Heq.
      * intros [|i] chunk; simpl; [intros [= <-] _; congruence|]. intros Hi Hl.
        apply (Hlen i chunk Hi). lia.
    + apply Nat.leb_gt in Hfull. apply IH; [|lia]. rewrite chars_count_snoc, Ha. lia.
Qed.

(** C40: Cutting a message into chunks loses nothing and stays within the limit:
    the chunks in order are the message, none has more than
    [OUTBOUND_CHUNK_CHARS] characters, every one but the last has exactly that
    many, and only the empty message has an empty chunk. *)
Theorem chunk_message_roundtrip (message : string) :
  String.concat "" (chunk_message message) = message
  ∧ (∀ chunk, chunk ∈ chunk_message message →
       (chars_count chunk ≤ OUTBOUND_CHUNK_CHARS)%nat ∧ (chunk = "" → message = ""))
  ∧ ∀ i chunk, chunk_message message !! i = Some chunk →
      (S i < length (chunk_message message))%nat → chars_count chunk = OUTBOUND_CHUNK_CHARS.
Proof.
  unfold chunk_message. destruct message as [|a s]; cbn [is_empty].
  { split; [done|]. split; [|intros [|i] chunk Hi; simpl; lia].
    intros chunk ->%list_elem_of_singleton. split; [apply Nat.le_0_l|done]. }
  destruct (chunk_loop_spec (String a s) "" 0) as (Hcat & Hok & Hlen); [done|apply Nat.le_0_l|].
  split; [exact Hcat|]. split; [|exact Hlen]. intros chunk Hin.
  destruct (proj1 (Forall_forall _ _) Hok chunk Hin). by split.
Qed.

(** ** A Slack that keeps what was posted *)
Record post := {
  po_client : SlackApiClient;
  po_channel_id : string;
  po_thread_ts : option string;
  po_text : string;
}.
Definition on_first {R A} (call : api_call R A) : api_call (R * list post) A := λ r,
  let '(r', a) := call r.1 in ((r', r.2), a).
#[export] Instance traced {R} `{!SlackApi R} : SlackApi (R * list post) := {
  validate_auth c := on_first (validate_auth c);
  validate_connection c := on_first (validate_connection c);
  open_socket_connection_url c := on_first (open_socket_connection_url c);
  list_conversations c im := on_first (list_conversations c im);
  conversation_history c id oldest := on_first (conversation_history c id oldest);
  conversation_replies c id thread oldest := on_first (conversation_replies c id thread oldest);
  post_message c channel thread text r :=
    let '(r', answer) := post_message c channel thread text r.1 in
    ((r', r.2 ++ if is_ok answer
                 then [{| po_client := c; po_channel_id := channel; po_thread_ts := thread;
                          po_text := text |}]
                 else []), answer);
}.

Section delivery.
Context {R : Type} `{!SlackApi R}.
Context (decode_outgoing : string → result string OutgoingMessage).
Context (queue_paths : QueuePaths) (runtimes : list (string * SlackProfileRuntime)).

Local Abbreviation host := (slack_host (R * list post)).
Local Abbreviation q_of s := (sh_queues s (qp_root queue_paths)).
Local Abbreviation posts s := (sh_remote s).2.

Definition post_of (runtime : SlackProfileRuntime) (target : DeliveryTarget) (chunk : string) : post :=
  {| po_client := sr_api runtime; po_channel_id := dt_channel_id target;
     po_thread_ts := dt_thread_ts target; po_text := chunk |}.

(** The posts a file of [outgoing] stands for: those of its message, which is for
    Slack, has a place to go and is allowed to go there. *)
Definition posts_of (f : qfile) (expected : list post) : Prop :=
  ∃ outgoing target_ref profile_id runtime target,
    decode_outgoing (qf_content f) = Ok outgoing
    ∧ om_channel outgoing = "slack"
    ∧ route_outgoing outgoing runtimes = Ok (target_ref, profile_id, runtime, target)
    ∧ enforce_channel_policy outgoing profile_id target runtime target_ref = Ok ()
    ∧ expected = post_of runtime target <$> chunk_message (om_message outgoing).

Lemma wp_post_chunks h outgoing profile_id runtime target chunks (s : host) :
  wp h (post_chunks outgoing profile_id runtime target chunks)
    (λ r s', sh_queues s' = sh_queues s
       ∧ ∃ sent, sent `prefix_of` chunks ∧ posts s' = posts s ++ (post_of runtime target <$> sent)
         ∧ (is_ok r = true → sent = chunks)) s.
Proof.
  revert s. induction chunks as [|chunk chunks IH]; intros s; simpl.
  { apply wp_ret. split; [done|]. exists []. by rewrite app_nil_r. }
  apply wp_bind, wp_map_err, wp_on_slack. simpl.
  destruct (post_message _ _ _ _ _) as [r [[]|e]]; simpl.
  - eapply wp_mono; [apply IH|]. intros r' s' (Hq & sent & Hpre & Hp & Hall). simpl in *.
    split; [done|]. exists (chunk :: sent). split; [by apply prefix_cons|]. split.
    + by rewrite Hp, <- (assoc (++)).
    + intros Hr. by rewrite (Hall Hr).
  - split; [done|]. exists []. split; [by apply prefix_nil|]. by rewrite !app_nil_r.
Qed.

(** What one file leads to: the posts made, and the file removed when it was sent. *)
Definition file_sent (name : string) (s : host) (r : result SlackError bool) (s' : host) : Prop :=
  (∀ root, root ≠ qp_root queue_paths → sh_queues s' root = sh_queues s root)
  ∧ ∃ made, posts s' = posts s ++ made
    ∧ (made = [] ∨ ∃ f expected, file_at Outgoing name (q_of s) = Some f ∧ posts_of f expected
         ∧ made `prefix_of` expected)
    ∧ match r with
      | Ok true => (∃ f, file_at Outgoing name (q_of s) = Some f ∧ posts_of f made)
          ∧ q_of s' = set_dir Outgoing (delete name <$> q_outgoing (q_of s)) (q_of s)
      | _ => q_of s' = q_of s
      end.
Lemma file_sent_nothing name (s s' : host) r :
  (∀ root, sh_queues s' root = sh_queues s root) → posts s' = posts s → r ≠ Ok true →
  file_sent name s r s'.
Proof.
  intros Hq Hp Hr. split; [done|]. exists []. rewrite app_nil_r. split; [done|]. split; [by left|].
  by destruct r as [[]|].
Qed.

Lemma wp_send_file h name (s : host) :
  wp h (send_file decode_outgoing queue_paths runtimes name) (file_sent name s) s.
Proof.
  unfold send_file. apply wp_bind, wp_on_host_queue, wp_map_err, wp_sys.
  { intros _ e. by apply file_sent_nothing; [apply set_host_queue_id|..]. }
  unfold fs_read_to_string. cbn [fst snd].
  set (s1 := set_host_queue _ _ s).
  assert (∀ root, sh_queues s1 root = sh_queues s root) as Hs1 by apply set_host_queue_id.
  assert (posts s1 = posts s) as Hp1 by done. clearbody s1.
  destruct (file_at Outgoing name (q_of s)) as [f|] eqn:Hf; [|by apply file_sent_nothing].
  cbn [map_err]. apply wp_bind, wp_lift.
  destruct (decode_outgoing (qf_content f)) as [outgoing|e] eqn:Hdec; [|by apply file_sent_nothing].
  cbn [map_err]. destruct (String.eqb_spec (om_channel outgoing) "slack") as [Hslack|_]; cbn [negb];
    [|by apply wp_ret, file_sent_nothing].
  apply wp_bind, wp_lift.
  destruct (route_outgoing outgoing runtimes) as [[[[tref pid] runtime] target]|e] eqn:Hroute;
    [|by apply file_sent_nothing].
  unfold deliver_targeted_post. apply wp_bind, wp_bind, wp_lift.
  destruct (enforce_channel_policy _ _ _ _ _) as [[]|e] eqn:Hpol; [|by apply file_sent_nothing].
  assert (posts_of f (post_of runtime target <$> chunk_message (om_message outgoing))) as Hposts.
  { by exists outgoing, tref, pid, runtime, target. }
  eapply wp_mono; [apply wp_post_chunks|].
  intros r s2 (Hq2 & sent & Hpre & Hp2 & Hall). rewrite Hp1 in Hp2.
  assert (∀ root, sh_queues s2 root = sh_queues s root) as Hs2 by (intros root; by rewrite Hq2).
  assert (∀ r' s3, r' ≠ Ok true → (∀ root, sh_queues s3 root = sh_queues s root) →
    posts s3 = posts s2 → file_sent name s r' s3) as Hfail.
  { intros r' s3 Hr' Hs3 Hp3. split; [done|]. exists (post_of runtime target <$> sent).
    split; [by rewrite Hp3|]. split; [|by destruct r' as [[]|]].
    right. exists f, (post_of runtime target <$> chunk_message (om_message outgoing)).
    split; [done|]. split; [done|]. destruct Hpre as [rest ->]. rewrite fmap_app.
    by apply prefix_app_r. }
  destruct r as [[]|e]; [|by apply Hfail]. rewrite (Hall eq_refl) in *. clear Hall.
  apply wp_bind, wp_on_host_queue, wp_map_err, wp_sys.
  { intros _ e. apply Hfail; [done| |done]. intros root. by rewrite set_host_queue_id. }
  unfold fs_remove_file. rewrite !Hs2, Hf. cbn [fst snd map_err]. apply wp_ret. split.
  - intros root Hr. simpl. by rewrite decide_False.
  - exists (post_of runtime target <$> chunk_message (om_message outgoing)). split; [done|].
    split; [right; by eexists _, _|]. rewrite host_queue_same. split; [by exists f|done].
Qed.

(** ** A whole pass *)
Definition delivered (f : qfile) (made : list post) : Prop :=
  ∃ expected before after, posts_of f expected ∧ made = before ++ expected ++ after.
Definition outgoing_files (q : queue_fs) : nat := from_option size 0%nat (q_outgoing q).

(** From [s0] to [s], the posts [made] and [sent] files removed. *)
Record outbound (s0 s : host) (made : list post) (sent : nat) : Prop := {
  ob_other_roots root : root ≠ qp_root queue_paths → sh_queues s root = sh_queues s0 root;
  ob_other_dirs d : d ≠ Outgoing → get_dir d (q_of s) = get_dir d (q_of s0);
  ob_posts : posts s = posts s0 ++ made;
  ob_kept name f : file_at Outgoing name (q_of s0) = Some f →
    file_at Outgoing name (q_of s) = Some f
    ∨ file_at Outgoing name (q_of s) = None ∧ delivered f made;
  ob_no_new name f : file_at Outgoing name (q_of s) = Some f →
    file_at Outgoing name (q_of s0) = Some f;
  ob_expected p : p ∈ made → ∃ name f expected,
    file_at Outgoing name (q_of s0) = Some f ∧ posts_of f expected ∧ p ∈ expected;
  ob_count : outgoing_files (q_of s0) = (sent + outgoing_files (q_of s))%nat;
}.
Lemma outbound_same (s s' : host) :
  (∀ root, sh_queues s' root = sh_queues s root) → posts s' = posts s → outbound s s' [] 0.
Proof.
  intros Hq Hp. split; intros; rewrite ?Hq in *; try done.
  - by rewrite app_nil_r.
  - by left.
  - by apply elem_of_nil in H.
Qed.

Lemma file_at_removed name name' (q : queue_fs) :
  file_at Outgoing name' (set_dir Outgoing (delete name <$> q_outgoing q) q)
  = if decide (name = name') then None else file_at Outgoing name' q.
Proof.
  unfold file_at. simpl. destruct (q_outgoing q) as [m|]; simpl; [|by case_decide].
  apply lookup_delete.
Qed.
Lemma files_removed name f (q : queue_fs) : file_at Outgoing name q = Some f →
  outgoing_files q = S (outgoing_files (set_dir Outgoing (delete name <$> q_outgoing q) q)).
Proof.
  unfold file_at, outgoing_files. simpl. destruct (q_outgoing q) as [m|]; simpl; [|done].
  intros Hf. rewrite map_size_delete_Some by by eexists.
  assert (size m ≠ 0%nat) by (rewrite map_size_ne_0_lookup; by exists name, f). lia.
Qed.
Lemma delivered_more f made more : delivered f made → delivered f (made ++ more).
Proof.
  intros (e & b & a & He & ->). exists e, b, (a ++ more). split; [done|]. by rewrite !(assoc (++)).
Qed.

Definition was_sent (r : result SlackError bool) : nat := match r with Ok true => 1 | _ => 0 end.
Lemma outbound_step s0 s s' made sent name r :
  outbound s0 s made sent → file_sent name s r s' →
  ∃ made', outbound s0 s' made' (sent + was_sent r).
Proof.
  intros [Hr Hd Hp Hk Hn He Hc] (Hr' & more & Hp' & Hmore & Hres). exists (made ++ more).
  assert (∀ p, p ∈ made ++ more → ∃ name f expected,
    file_at Outgoing name (q_of s0) = Some f ∧ posts_of f expected ∧ p ∈ expected) as He'.
  { intros p [Hin|Hin]%elem_of_app; [by apply He|].
    destruct Hmore as [->|(f & expected & Hf & Hpo & rest & ->)]; [by apply elem_of_nil in Hin|].
    exists name, f, (more ++ rest). split; [by apply Hn|]. split; [done|]. apply elem_of_app. by left. }
  assert (r = Ok true ∨ r ≠ Ok true) as [->|Hr0] by (destruct r as [[]|]; [by left|by right..]).
  - destruct Hres as [(f & Hf & Hpo) Hq']. split.
    + intros root Hroot. by rewrite Hr', Hr.
    + intros d Hdir. rewrite Hq', <- Hd by done. by destruct d.
    + by rewrite Hp', Hp, (assoc (++)).
    + intros name' f' Hf'. rewrite Hq', file_at_removed. case_decide as Heq.
      * subst name'. right. split; [done|]. destruct (Hk _ _ Hf') as [Hsame|[Hnone _]]; [|congruence].
        exists more, made, []. rewrite app_nil_r. split; [|done]. congruence.
      * destruct (Hk _ _ Hf') as [?|[??]]; [by left|right]. split; [done|by apply delivered_more].
    + intros name' f'. rewrite Hq', file_at_removed. case_decide; [done|]. apply Hn.
    + exact He'.
    + rewrite Hc, (files_removed _ _ _ Hf), Hq'. simpl. lia.
  - assert (q_of s' = q_of s) as Hq' by (by destruct r as [[]|]). split.
    + intros root Hroot. by rewrite Hr', Hr.
    + intros d Hdir. by rewrite Hq', Hd.
    + by rewrite Hp', Hp, (assoc (++)).
    + intros name' f' Hf'. rewrite Hq'.
      destruct (Hk _ _ Hf') as [?|[??]]; [by left|right]. split; [done|by apply delivered_more].
    + intros name' f'. rewrite Hq'. apply Hn.
    + exact He'.
    + rewrite Hc, Hq'. destruct r as [[]|]; [done|simpl; lia..].
Qed.

Local Abbreviation count_sent := (count_sent decode_outgoing queue_paths runtimes).
Local Abbreviation process_outbound := (process_outbound decode_outgoing queue_paths runtimes).

Lemma wp_count_sent h acc name (s : host) (Φ : result SlackError (nat * option SlackError) → host → Prop) :
  (∀ r s' first, file_sent name s r s' → (is_ok r = false → first ≠ None) → (acc.2 ≠ None → first ≠ None) →
     Φ (Ok ((acc.1 + was_sent r)%nat, first)) s') →
  wp h (count_sent acc name) Φ s.
Proof.
  intros HΦ. destruct acc as [sent first]. unfold SlackEgress.count_sent.
  apply wp_bind, wp_attempt. eapply wp_mono; [apply wp_send_file|]. intros r s' Hs.
  apply wp_ret. specialize (HΦ r s'). destruct r as [[]|err]; simpl in HΦ.
  - by apply HΦ.
  - rewrite Nat.add_0_r in HΦ. by apply HΦ.
  - rewrite Nat.add_0_r in HΦ. apply HΦ; [done|by destruct first..].
Qed.

Lemma wp_sorted_outgoing h (q : queue_fs) :
  wp h sorted_outgoing_paths (λ r q', q' = q ∧ ∀ names, r = Ok names →
    ∀ name f, file_at Outgoing name q = Some f → extension name = Some "json" → name ∈ names) q.
Proof.
  unfold sorted_outgoing_paths. apply wp_bind, wp_sys; [by intros _ e|].
  unfold fs_read_dir. cbn [fst snd]. destruct (get_dir Outgoing q) as [m|] eqn:Hm; [|done].
  apply wp_ret. split; [done|]. intros names [= <-] name f Hf Hext.
  rewrite merge_sort_Permutation, list_elem_of_filter. split; [done|].
  unfold file_at in Hf. rewrite Hm in Hf. apply list_elem_of_fmap. exists (name, f).
  split; [done|]. by apply elem_of_map_to_list.
Qed.

(** C23: A reply leaves the queue only when it was delivered.  Whatever Slack
    answers and whatever I/O errors occur, one pass over [outgoing]: removes a
    file only after every chunk of its message was accepted, one after the other
    and in order, by the profile, channel and thread its target or conversation
    names; posts nothing else than chunks of messages that may go where they go
    (a channel post outside a non-empty allowlist may not); leaves the other
    files, directories and queues as they are; and on success returns the number
    of files it removed. *)
Theorem outbound_removes_only_delivered (w : world host) :
  let '(w', outcome) := process_outbound w in
  ∃ made sent, outbound (st w) (st w') made sent ∧ ∀ n, outcome = Ok n → n = sent.
Proof.
  set (s0 := st w).
  assert (wp false process_outbound (λ r s', ∃ made sent, outbound s0 s' made sent
    ∧ ∀ n, r = Ok n → n = sent) s0) as Hwp.
  { unfold SlackEgress.process_outbound. apply wp_bind, wp_on_host_queue, wp_map_err.
    eapply wp_mono; [apply wp_sorted_outgoing|]. intros r q [-> _].
    set (s1 := set_host_queue _ _ s0).
    assert (outbound s0 s1 [] 0) as Hob
      by by apply outbound_same; [intros root; apply set_host_queue_id|].
    clearbody s1. destruct r as [names|e]; [cbn [map_err]|by exists [], 0%nat].
    apply wp_bind. apply (wp_for_fold _ (λ acc _ s', ∃ made, outbound s0 s' made acc.1)).
    - by exists [].
    - intros acc name rest s [made Hm]. apply wp_count_sent. intros r s' first Hs _ _.
      by destruct (outbound_step _ _ _ _ _ _ _ Hm Hs) as [made' ?]; exists made'.
    - intros [sent first] s [made Hm]. destruct first; [apply wp_throw|apply wp_ret];
        exists made, sent; split; try done. by intros n [= <-]. }
  pose proof (wp_run _ _ _ w Hwp ltac:(done)) as Hrun. by destruct (process_outbound w).
Qed.

(** ** What can be delivered is *)
Definition accepts (p : post) : Prop := ∀ r : R,
  is_ok (post_message (po_client p) (po_channel_id p) (po_thread_ts p) (po_text p) r).2 = true.
Lemma wp_and {S E A} h (m : IO S E A) (Φ Ψ : result E A → S → Prop) s :
  wp h m Φ s → wp h m Ψ s → wp h m (λ r s', Φ r s' ∧ Ψ r s') s.
Proof.
  intros H1 H2 e He. specialize (H1 e He). specialize (H2 e He). destruct (m _). naive_solver.
Qed.
Lemma wp_post_accepted outgoing profile_id runtime target chunks (s : host) :
  (∀ p, p ∈ post_of runtime target <$> chunks → accepts p) →
  wp true (post_chunks outgoing profile_id runtime target chunks) (λ r _, r = Ok ()) s.
Proof.
  revert s. induction chunks as [|chunk chunks IH]; intros s Hacc; simpl; [by apply wp_ret|].
  apply wp_bind, wp_map_err, wp_on_slack. simpl.
  specialize (Hacc (post_of runtime target chunk)) as Hchunk. unfold accepts in Hchunk. simpl in Hchunk.
  specialize (Hchunk ltac:(by left) (sh_remote s).1).
  destruct (post_message _ _ _ _ _) as [r [[]|e]]; [|done]. simpl.
  apply IH. intros p Hp. apply Hacc. by right.
Qed.
Lemma wp_send_accepted name f expected (s : host) :
  file_at Outgoing name (q_of s) = Some f → posts_of f expected → (∀ p, p ∈ expected → accepts p) →
  wp true (send_file decode_outgoing queue_paths runtimes name) (λ r _, r = Ok true) s.
Proof.
  intros Hf (outgoing & tref & pid & runtime & target & Hdec & Hslack & Hroute & Hpol & ->) Hacc.
  unfold send_file. apply wp_bind, wp_on_host_queue, wp_map_err, wp_sys; [done|].
  unfold fs_read_to_string. rewrite Hf. cbn [fst snd map_err]. apply wp_bind, wp_lift.
  rewrite Hdec. cbn [map_err]. rewrite Hslack. cbn [negb String.eqb].
  apply wp_bind, wp_lift. rewrite Hroute. unfold deliver_targeted_post.
  apply wp_bind, wp_bind, wp_lift. rewrite Hpol.
  eapply wp_mono; [apply wp_and; [by apply wp_post_accepted|apply wp_post_chunks]|].
  intros r s2 [-> [Hq2 _]]. apply wp_bind, wp_on_host_queue, wp_map_err, wp_sys; [done|].
  unfold fs_remove_file. rewrite Hq2, set_host_queue_id, Hf. by apply wp_ret.
Qed.

(** A message that fails does not hold back another.  On a working disk, a
    JSON file of [outgoing] whose message has a place to go, may go there and is
    accepted by Slack has left the queue after one pass, whatever becomes of the
    files before and after it and whether or not the pass reports an error. *)
Theorem failed_delivery_does_not_block (w : world host) (name : string) (f : qfile)
    (expected : list post) (Hcalm : faults (ev w) = [])
    (Hf : file_at Outgoing name (q_of (st w)) = Some f) (Hjson : extension name = Some "json")
    (Hposts : posts_of f expected) (Haccepts : ∀ p, p ∈ expected → accepts p) :
  file_at Outgoing name (q_of (st (process_outbound w).1)) = None.
Proof.
  set (s0 := st w). set (gone := λ s : host, file_at Outgoing name (q_of s) = None).
  assert (wp true process_outbound (λ _ s', gone s') s0) as Hwp.
  { unfold SlackEgress.process_outbound. apply wp_bind, wp_on_host_queue, wp_map_err.
    unfold sorted_outgoing_paths. apply wp_bind, wp_sys; [done|].
    assert (∃ m, q_outgoing (q_of s0) = Some m ∧ m !! name = Some f) as (m & Hm & Hin).
    { unfold file_at in Hf. simpl in Hf. fold s0 in Hf.
      destruct (q_outgoing (q_of s0)) as [m|]; [by exists m|done]. }
    unfold fs_read_dir. cbn [fst snd get_dir]. rewrite Hm. apply wp_ret. cbn [map_err].
    apply wp_bind. apply (wp_for_fold _ (λ _ rest s, gone s
      ∨ name ∈ rest ∧ file_at Outgoing name (q_of s) = Some f)).
    - right. rewrite set_host_queue_id. split; [|done].
      rewrite merge_sort_Permutation, list_elem_of_filter. split; [done|].
      apply list_elem_of_fmap. exists (name, f). split; [done|]. by apply elem_of_map_to_list.
    - intros [sent first] x rest s Hi. unfold SlackEgress.count_sent. apply wp_bind, wp_attempt.
      assert (∀ r s', file_sent x s r s' → gone s → gone s') as Hgone.
      { intros r s' (_ & made & _ & _ & Hres) Hg. unfold gone in *.
        destruct r as [[]|]; [destruct Hres as [_ ->]|by rewrite Hres..].
        rewrite file_at_removed. by case_decide. }
      destruct Hi as [Hg|[[<-|Hrest]%elem_of_cons Hfile]].
      + eapply wp_mono; [apply wp_send_file|]. intros r s' Hs. apply wp_ret. left. by eapply Hgone.
      + eapply wp_mono; [apply wp_and; [by eapply wp_send_accepted|apply wp_send_file]|].
        intros r s' [-> (_ & made & _ & _ & [_ Hq])]. apply wp_ret. left. unfold gone.
        rewrite Hq, file_at_removed. by rewrite decide_True.
      + eapply wp_mono; [apply wp_send_file|]. intros r s' Hs. apply wp_ret.
        destruct Hs as (_ & made & _ & _ & Hres).
        destruct r as [[]|]; [destruct Hres as [_ Hq]|by right; rewrite Hres..].
        unfold gone. rewrite Hq, file_at_removed. case_decide; [by left|by right].
    - intros [sent first] s [Hg|[Hnil _]]; [|by apply elem_of_nil in Hnil].
      destruct first; [by apply wp_throw|by apply wp_ret]. }
  exact (wp_run _ _ _ w Hwp (λ _, Hcalm)).
Qed.
End delivery.

(** ** A pass over two files, the first unreadable *)
Definition demo_reply (conversation text : string) : OutgoingMessage := {|
  om_channel := "slack"; om_channel_profile_id := Some "team"; om_sender := "U1";
  om_message := text; om_original_message := "hi"; om_timestamp := 5; om_message_id := "m1";
  om_agent := "main"; om_conversation_id := Some conversation; om_target_ref := None;
  om_files := []; om_workflow_run_id := None; om_workflow_step_id := None |}.
Definition demo_decode_outgoing (raw : string) : result string OutgoingMessage :=
  if String.eqb raw "broken" then Err "expected value" else Ok (demo_reply "C1:17.1" raw).
Definition demo_runtime : SlackProfileRuntime := {|
  sr_profile := demo_profile; sr_api := demo_api; sr_allowlist := ∅;
  sr_include_im_conversations := true; sr_history_backfill_enabled := true |}.
Definition demo_outbound_queue : queue_fs :=
  set_dir Outgoing (Some {[ "a.json" := QFile 1 "broken"; "b.json" := QFile 2 "hello" ]})
    demo_slack_queue.
Definition demo_outbound_world : world (slack_host (() * list post)) :=
  World (SlackHost (λ _, demo_outbound_queue) ∅ ((), [])) (Env [] []).
Definition demo_post : post :=
  {| po_client := demo_api; po_channel_id := "C1"; po_thread_ts := Some "17.1"; po_text := "hello" |}.

Lemma failed_delivery_does_not_block_witness :
  is_ok (process_outbound demo_decode_outgoing (from_state_root "/runtime")
           [("team", demo_runtime)] demo_outbound_world).2 = false
  ∧ file_at Outgoing "b.json" (sh_queues (st (process_outbound demo_decode_outgoing
      (from_state_root "/runtime") [("team", demo_runtime)] demo_outbound_world).1) "/runtime") = None.
Proof.
  split; [vm_compute; reflexivity|].
  assert (faults (ev demo_outbound_world) = []) as Hcalm by reflexivity.
  assert (file_at Outgoing "b.json" (sh_queues (st demo_outbound_world) "/runtime")
    = Some (QFile 2 "hello")) as Hf by (vm_compute; reflexivity).
  assert (posts_of demo_decode_outgoing [("team", demo_runtime)] (QFile 2 "hello") [demo_post]) as Hp.
  { exists (demo_reply "C1:17.1" "hello"), None, "team", demo_runtime,
      {| dt_channel_id := "C1"; dt_thread_ts := Some "17.1" |}.
    repeat split; vm_compute; reflexivity. }
  assert (∀ p, p ∈ [demo_post] → accepts (R:=()) p) as Hacc by (intros p _ r; reflexivity).
  pose proof (failed_delivery_does_not_block demo_decode_outgoing (from_state_root "/runtime")
    [("team", demo_runtime)] demo_outbound_world "b.json" (QFile 2 "hello") [demo_post] Hcalm Hf
    eq_refl Hp Hacc) as H.
  exact H.
Defined.

(** A message of two chunks of which Slack refuses the second: every pass over the
    two files with it posts the first one again. *)
Definition refusing_slack (refused : string) : SlackApi () := {|
  validate_auth _ r := (r, Ok ());
  validate_connection _ r := (r, Ok ());
  open_socket_connection_url _ r := (r, Ok "wss://slack");
  list_conversations _ _ r := (r, Ok []);
  conversation_history _ _ _ r := (r, Ok []);
  conversation_replies _ _ _ _ r := (r, Ok []);
  post_message _ _ _ text (r : ()) :=
    (r, if String.eqb text refused then Err (ApiResponse "rate") else Ok ());
|}.
Definition refused_pass (text refused : string) :
    IO (slack_host (() * list post)) SlackError (result SlackError nat) :=
  attempt (process_outbound (SlackApi0:=traced (SlackApi0:=refusing_slack refused))
    (λ _, Ok (demo_reply "C1:17.1" text)) (from_state_root "/runtime")
    [("team", demo_runtime)]).
Definition first_chunk : string := String.concat "" (replicate OUTBOUND_CHUNK_CHARS "a").
Example first_chunk_posted_again :
  let pass := refused_pass (first_chunk +:+ "b") "b" in
  po_text <$> (sh_remote (st ((pass ;; pass) demo_outbound_world).1)).2
    = [first_chunk; first_chunk; first_chunk; first_chunk].
Proof. vm_compute. reflexivity. Qed.
