(* ===== verification/SlackSyncGuarantees.v ===== *)
(** * What the Slack credentials guarantee

    [validate_startup_credentials] accepts exactly the settings whose
    [profile_credential_health] is good for every profile, and the runtimes of a
    pass never share a token. *)
From S2P Require Import Prelude RustStr RustPath Io Json QueueMessage QueueLifecycle Config SlackTarget SlackChannel SlackSync SlackIngestGuarantees.
From Stdlib Require Import Ascii.

Local Open Scope string_scope.
Local Open Scope list_scope.

Section credentials.
Context (env_var : string → option string).

(** ** A profile once bad stays bad *)
Abbreviation health_map := (list (string * SlackProfileCredentialHealth)).
Definition bad (id : string) (health : health_map) : Prop :=
  ∃ e, map_get id health = Some e ∧ ph_ok e = false.
Definition all_good (health : health_map) : Prop :=
  ∀ id e, map_get id health = Some e → ph_ok e = true.
Lemma bad_not_good id health : bad id health → ¬ all_good health.
Proof. intros (e & He & Hb) Hg. by rewrite (Hg id e He) in Hb. Qed.

Lemma map_get_mark reason id' id health :
  map_get id (mark_duplicate reason id' health)
  = (λ e, if String.eqb id id'
          then {| ph_profile_id := ph_profile_id e; ph_ok := false; ph_reason := Some reason |}
          else e) <$> map_get id health.
Proof.
  unfold mark_duplicate. induction health as [|[k e] health IH]; [done|]. simpl.
  destruct (String.eqb k id') eqn:Hk; simpl; (case_decide as Heq; [subst k; by rewrite Hk|apply IH]).
Qed.
Lemma mark_duplicate_bad reason id' id health : bad id health → bad id (mark_duplicate reason id' health).
Proof.
  intros (e & He & Hb). unfold bad. rewrite map_get_mark, He. eexists. split; [done|].
  by destruct (String.eqb id id').
Qed.
Lemma mark_shared_token_bad credential existing id' id health :
  bad id health → bad id (mark_shared_token credential existing id' health).
Proof. intros Hb. destruct existing; [|done]. by repeat apply mark_duplicate_bad. Qed.
Lemma mark_shared_token_marks credential existing id health :
  is_Some (map_get id health) → bad id (mark_shared_token credential (Some existing) id health).
Proof.
  intros [e He]. unfold mark_shared_token, bad. rewrite !map_get_mark, He, String.eqb_refl.
  eexists. split; [done|]. done.
Qed.
Lemma mark_shared_token_keys credential existing id' health :
  map_keys (mark_shared_token credential existing id' health) = map_keys health.
Proof.
  assert (∀ reason id health, map_keys (mark_duplicate reason id health) = map_keys health) as Hm.
  { intros reason id m. unfold map_keys, mark_duplicate. rewrite <- list_fmap_compose.
    apply list_fmap_ext. intros _ [k e] _. simpl. by destruct (String.eqb k id). }
  destruct existing; [|done]. simpl. by rewrite !Hm.
Qed.

Section profiles.
Context (required : bool) (config_allowlist : gset string).
Local Abbreviation step := (profile_health env_var required config_allowlist).
Local Abbreviation env_of id := (load_env_config env_var id required config_allowlist).

Lemma profile_health_bad v id id' : id ≠ id' → bad id (hv_health v) → bad id (hv_health (step v id')).
Proof.
  intros Hne Hb. unfold profile_health.
  assert (∀ e, bad id (map_insert id' e (hv_health v))) as Hins.
  { intros e. destruct Hb as (e0 & He & Hb). exists e0. by rewrite map_get_insert_ne. }
  destruct (env_of id'); simpl; [|done]. by do 2 apply mark_shared_token_bad.
Qed.
Lemma profile_health_keys v id k :
  k ∈ map_keys (hv_health (step v id)) ↔ k = id ∨ k ∈ map_keys (hv_health v).
Proof.
  unfold profile_health. destruct (env_of id); simpl; rewrite ?mark_shared_token_keys;
    apply map_insert_keys.
Qed.
Lemma profile_health_sorted v id : map_sorted (hv_health v) → map_sorted (hv_health (step v id)).
Proof.
  intros Hs. unfold map_sorted, profile_health. destruct (env_of id); simpl;
    rewrite ?mark_shared_token_keys; by apply (map_insert_sorted (V:=SlackProfileCredentialHealth)).
Qed.
Lemma profiles_health_bad ids v id : id ∉ ids → bad id (hv_health v) → bad id (hv_health (foldl step v ids)).
Proof.
  revert v. induction ids as [|x ids IH]; intros v Hin Hb; [done|]. simpl.
  apply not_elem_of_cons in Hin as [??]. apply IH; [done|]. by apply profile_health_bad.
Qed.

(** The two loops agree: the check goes on exactly as long as every profile is
    good, and then they have seen the same tokens. *)
Lemma claims_agree ids v :
  NoDup ids → all_good (hv_health v) → (∀ id, id ∈ ids → id ∉ map_keys (hv_health v)) →
  is_ok (for_fold (λ seen id, env ← env_of id; claim_tokens id env seen) ids (hv_seen v)) = true
  ↔ all_good (hv_health (foldl step v ids)).
Proof.
  revert v. induction ids as [|id ids IH]; intros v Hnd Hg Hnew; [done|].
  apply NoDup_cons in Hnd as [Hid Hnd]. simpl.
  assert (bad id (hv_health (step v id)) → ¬ all_good (hv_health (foldl step (step v id) ids))) as Hbad.
  { intros Hb. eapply bad_not_good, profiles_health_bad; done. }
  destruct (env_of id) as [env|err] eqn:Henv; simpl.
  2: { split; [done|]. intros Hgood. exfalso. apply Hbad; [|done]. unfold profile_health.
       rewrite Henv. simpl. eexists. by rewrite map_get_insert_eq. }
  unfold claim_tokens.
  assert (∀ e, is_Some (map_get id (map_insert id e (hv_health v)))) as Hin
    by (intros e; rewrite map_get_insert_eq; by eexists).
  destruct (ts_bot (hv_seen v) !! ec_bot_token env) as [existing|] eqn:Hbot.
  { split; [done|]. intros Hgood. exfalso. apply Hbad; [|done]. unfold profile_health.
    rewrite Henv. simpl. rewrite Hbot. apply mark_shared_token_bad, mark_shared_token_marks, Hin. }
  destruct (ts_app (hv_seen v) !! ec_app_token env) as [existing|] eqn:Happ.
  { split; [done|]. intros Hgood. exfalso. apply Hbad; [|done]. unfold profile_health.
    rewrite Henv. simpl. rewrite Hbot, Happ. apply mark_shared_token_marks, Hin. }
  rewrite <- (IH (step v id)).
  - unfold profile_health. by rewrite Henv.
  - done.
  - unfold profile_health. rewrite Henv. simpl. rewrite Hbot, Happ. simpl. intros k e.
    destruct (decide (k = id)) as [->|Hne].
    + rewrite map_get_insert_eq. by intros [= <-].
    + rewrite map_get_insert_ne by done. apply Hg.
  - intros k Hk. rewrite profile_health_keys. intros [->|Hold]; [done|].
    apply (Hnew k); [by right|done].
Qed.
End profiles.

(** The start-up check and the health report agree: the credentials of the
    Slack profiles are accepted exactly when the channel is enabled, there is a
    profile, and the report finds every profile in order.  (The profiles come
    from a [BTreeMap].) *)
Theorem startup_check_matches_health (settings : Settings)
    (Hsorted : map_sorted (s_channel_profiles settings)) :
  validate_startup_credentials env_var settings = Ok () ↔
  slack_channel_enabled settings = true ∧ slack_profiles settings ≠ []
  ∧ ∀ health, health ∈ profile_credential_health env_var settings → ph_ok health = true.
Proof.
  unfold validate_startup_credentials, profile_credential_health.
  destruct (slack_channel_enabled settings); simpl; [|split; [done|by intros [? _]]].
  set (profiles := slack_profiles settings).
  assert (NoDup (map_keys profiles)) as Hnd.
  { apply map_sorted_NoDup in Hsorted. unfold profiles, slack_profiles, map_keys in *.
    eapply sublist_NoDup; [exact Hsorted|]. apply fmap_sublist, sublist_filter. }
  destruct (is_nil profiles) eqn:Hnil.
  { split; [done|]. intros (_ & Hne & _). by apply is_nil_false in Hne; rewrite Hnil in Hne. }
  set (allow := configured_slack_allowlist settings). set (required := (1 <? length profiles)%nat).
  set (start := {| hv_health := []; hv_seen := no_tokens |}).
  pose proof (claims_agree required allow (map_keys profiles) start Hnd) as Hagree.
  specialize (Hagree ltac:(done) ltac:(by intros id _ ?%elem_of_nil)).
  assert (∀ ids v, map_sorted (hv_health v) →
    map_sorted (hv_health (foldl (profile_health env_var required allow) v ids))) as Hs.
  { induction ids as [|id ids IH]; intros v Hv; [done|]. by apply IH, profile_health_sorted. }
  specialize (Hs (map_keys profiles) start ltac:(constructor)).
  assert ((∀ health, health ∈ (hv_health (foldl (profile_health env_var required allow) start
      (map_keys profiles))).*2 → ph_ok health = true)
    ↔ all_good (hv_health (foldl (profile_health env_var required allow) start (map_keys profiles))))
    as Hall.
  { split.
    - intros Hg id e He%map_get_elem. apply Hg, list_elem_of_fmap. by exists (id, e).
    - intros Hg h ([id e] & -> & Hin)%list_elem_of_fmap. apply (Hg id).
      by apply map_sorted_get. }
  rewrite Hall, <- Hagree. simpl.
  destruct (for_fold _ _ _) as [seen|err]; simpl; split; try done.
  - intros _. split; [done|]. split; [|done]. by apply is_nil_false.
  - by intros (_ & _ & ?).
Qed.

(** ** The runtimes of a pass *)
Context {remote : Type} `{!SlackApi remote}.

Lemma profile_token_ok id required name token :
  profile_token env_var id required name = Ok token →
  blank token = false
  ∧ (required = true → env_var (profile_env_key name id) = Some token).
Proof.
  unfold profile_token, env_var_fallback, non_empty_env. rewrite ok_or_Ok. destruct required.
  - intros [Hv Hb]%not_blank_Some. by split.
  - destruct (not_blank (env_var (profile_env_key name id))) as [v|] eqn:Hv.
    + apply not_blank_Some in Hv as [_ Hb]. by intros [= <-].
    + intros [_ Hb]%not_blank_Some. by split.
Qed.

(** A runtime of profile [id] uses credentials of that profile. *)
Record own_credentials (settings : Settings) (id : string) (rt : SlackProfileRuntime) : Prop := {
  oc_bot_token : blank (ac_bot_token (sr_api rt)) = false;
  oc_app_token : blank (ac_app_token (sr_api rt)) = false;
  oc_scoped : (1 < length (slack_profiles settings))%nat →
    env_var (profile_env_key "SLACK_BOT_TOKEN" id) = Some (ac_bot_token (sr_api rt))
    ∧ env_var (profile_env_key "SLACK_APP_TOKEN" id) = Some (ac_app_token (sr_api rt));
  oc_allowlist : configured_slack_allowlist settings ⊆ sr_allowlist rt;
}.
(** The tokens seen belong to the runtimes built. *)
Definition runtimes_wf (settings : Settings) (acc : tokens_seen * list (string * SlackProfileRuntime)) :
    Prop :=
  ∀ id rt, map_get id acc.2 = Some rt →
    id ∈ map_keys (slack_profiles settings) ∧ own_credentials settings id rt
    ∧ ts_bot acc.1 !! ac_bot_token (sr_api rt) = Some id
    ∧ ts_app acc.1 !! ac_app_token (sr_api rt) = Some id.

Lemma build_runtime_wf settings im backfill socket connection acc entry :
  entry ∈ slack_profiles settings → runtimes_wf settings acc →
  returns (runtimes_wf settings)
    (build_runtime env_var im backfill socket connection (1 <? length (slack_profiles settings))%nat
       (configured_slack_allowlist settings) acc entry : IO (slack_host remote) SlackError _).
Proof.
  destruct entry as [id profile], acc as [seen runtimes]. intros Hin Hwf. unfold build_runtime.
  apply (returns_bind (λ env, load_env_config env_var id (1 <? length (slack_profiles settings))%nat
    (configured_slack_allowlist settings) = Ok env)); [by apply returns_lift|]. intros env Henv.
  apply (returns_bind (λ seen', claim_tokens id env seen = Ok seen')); [by apply returns_lift|].
  intros seen' Hclaim. apply returns_seq. intros _. apply returns_ret.
  assert (blank (ec_bot_token env) = false ∧ blank (ec_app_token env) = false
    ∧ configured_slack_allowlist settings ⊆ ec_allowlist env
    ∧ ((1 < length (slack_profiles settings))%nat →
         env_var (profile_env_key "SLACK_BOT_TOKEN" id) = Some (ec_bot_token env)
         ∧ env_var (profile_env_key "SLACK_APP_TOKEN" id) = Some (ec_app_token env)))
    as (Hbot & Happ & Hallow & Hscoped).
  { unfold load_env_config in Henv. break_ok Henv. simplify_eq. simpl.
    apply profile_token_ok in Henv0 as [Hb1 Hs1], Henv2 as [Hb2 Hs2].
    split_and!; [done|done|set_solver|]. intros Hlen%Nat.ltb_lt. auto. }
  unfold claim_tokens in Hclaim.
  destruct (ts_bot seen !! ec_bot_token env) eqn:Hnb; [done|].
  destruct (ts_app seen !! ec_app_token env) eqn:Hna; [done|]. simplify_eq.
  intros id' rt'. simpl. destruct (decide (id' = id)) as [->|Hne].
  - rewrite map_get_insert_eq. intros [= <-]. split; [apply list_elem_of_fmap; by exists (id, profile)|].
    simpl. rewrite !lookup_insert_eq. by split.
  - rewrite map_get_insert_ne by done. intros Hrt.
    destruct (Hwf id' rt' Hrt) as (? & ? & Hb' & Ha'). simpl in *.
    rewrite !lookup_insert_ne by congruence. done.
Qed.

(** Profiles never share credentials.  In every list of runtimes a pass works
    with, each is of a Slack profile and uses non-blank tokens, taken from the
    variables of that profile alone when there are several; two runtimes differ in
    both tokens; and the allowlist of the settings is respected. *)
Theorem runtimes_use_their_own_tokens (settings : Settings) (im backfill socket connection : bool)
    (w : world (slack_host remote)) (runtimes : list (string * SlackProfileRuntime))
    (Hbuilt : (build_profile_runtimes env_var settings im backfill socket connection w).2 = Ok runtimes)
    (id : string) (rt : SlackProfileRuntime) (Hrt : map_get id runtimes = Some rt) :
  id ∈ map_keys (slack_profiles settings) ∧ own_credentials settings id rt
  ∧ ∀ id' rt', map_get id' runtimes = Some rt' → id' ≠ id →
      ac_bot_token (sr_api rt') ≠ ac_bot_token (sr_api rt)
      ∧ ac_app_token (sr_api rt') ≠ ac_app_token (sr_api rt).
Proof.
  assert (∃ seen, runtimes_wf settings (seen, runtimes)) as [seen Hwf].
  { revert Hbuilt. apply (returns_bind (runtimes_wf settings) (λ rs, ∃ seen, runtimes_wf settings (seen, rs))).
    - apply returns_for_fold; [|done]. intros acc entry Hin Hacc. by apply build_runtime_wf.
    - intros [seen rs] Hs. apply returns_ret. by exists seen. }
  destruct (Hwf id rt Hrt) as (? & ? & Hb & Ha). split; [done|]. split; [done|].
  intros id' rt' Hrt' Hne. destruct (Hwf id' rt' Hrt') as (_ & _ & Hb' & Ha').
  simpl in *. split; intros Heq; rewrite Heq in *; congruence.
Qed.
End credentials.

(** ** Two profiles *)
Definition demo_slack_settings : Settings := {|
  s_workspaces_path := "/ws"; s_shared_workspaces := []; s_orchestrators := [];
  s_channel_profiles := [("ops", demo_profile); ("team", demo_profile)];
  s_heartbeat_interval := None; s_channels := [("slack", {|
    cc_enabled := true; cc_allowlisted_channels := []; cc_include_im_conversations := true;
    cc_inbound_mode := Socket; cc_socket_reconnect_backoff_ms := 1000;
    cc_socket_idle_timeout_ms := 30000; cc_history_backfill_enabled := true;
    cc_history_backfill_interval_seconds := 300 |})];
  s_auth_sync := {| auth_enabled := false; auth_sources := [] |};
  s_memory := MemoryConfig_default; s_local_llm := LocalLlmConfig_default |}.
Definition demo_env (key : string) : option string :=
  if starts_with "SLACK_CHANNEL" key then None else Some ("token of " +:+ key).

Lemma startup_check_matches_health_witness :
  map_sorted (s_channel_profiles demo_slack_settings)
  ∧ validate_startup_credentials demo_env demo_slack_settings = Ok ()
  ∧ ∀ health, health ∈ profile_credential_health demo_env demo_slack_settings → ph_ok health = true.
Proof.
  assert (map_sorted (s_channel_profiles demo_slack_settings)) as Hs.
  { repeat constructor; done. }
  assert (validate_startup_credentials demo_env demo_slack_settings = Ok ()) as Hok
    by (vm_compute; reflexivity).
  split; [exact Hs|]. split; [exact Hok|].
  by apply (startup_check_matches_health demo_env demo_slack_settings Hs).
Defined.
Definition demo_runtimes : list (string * SlackProfileRuntime) :=
  from_option id [] (result_ok (build_profile_runtimes demo_env demo_slack_settings true true true
    false demo_slack_world).2).
Lemma runtimes_use_their_own_tokens_witness :
  ∃ ops team, map_get "ops" demo_runtimes = Some ops ∧ map_get "team" demo_runtimes = Some team
    ∧ ac_bot_token (sr_api team) ≠ ac_bot_token (sr_api ops).
Proof.
  assert ((build_profile_runtimes demo_env demo_slack_settings true true true false
    demo_slack_world).2 = Ok demo_runtimes) as Hb by (vm_compute; reflexivity).
  destruct (map_get "ops" demo_runtimes) as [ops|] eqn:Hops; [|by vm_compute in Hops].
  destruct (map_get "team" demo_runtimes) as [team|] eqn:Hteam; [|by vm_compute in Hteam].
  exists ops, team. split; [reflexivity|]. split; [reflexivity|].
  by eapply (runtimes_use_their_own_tokens demo_env demo_slack_settings true true true false
    demo_slack_world demo_runtimes Hb "ops" ops Hops).
Defined.
