(* ===== verification/SlackSocketGuarantees.v ===== *)
(** * What socket mode guarantees

    Theorems about every run of the reconnecting loop, however frames, the worker,
    disconnections, the stop flag and the deadline interleave: on a working disk a
    message the reader put into the buffer reaches the queue, and the loop ends
    only when it is told to or when retrying cannot help. *)
From S2P Require Import Prelude RustStr RustPath Io Json QueueMessage QueueLifecycle Config SlackChannel SlackIngest SlackIngestGuarantees SlackInboundGuarantees SlackSocket.
From Stdlib Require Import Ascii.

Local Open Scope string_scope.
Local Open Scope list_scope.

Create HintDb socket discriminated.

Section socket.
Context {remote : Type} `{!SlackApi remote}.
Context (encode_incoming : IncomingMessage → string)
  (parse_value : string → result string Value)
  (decode_cursor : string → result string SlackCursorState)
  (encode_cursor : SlackCursorState → string)
  (decode_health : string → result string SocketHealth)
  (encode_health : SocketHealth → string).
Context (state_root : string) (queue_paths : QueuePaths) (profile_id : string)
  (runtime : SlackProfileRuntime) (recover_missed_messages : bool).

Local Abbreviation q_of s := (sh_queues s (qp_root queue_paths)).
Local Abbreviation keeps := (host_keeps (remote:=remote) queue_paths).
Local Abbreviation begin := (begin_connection encode_incoming parse_value decode_cursor encode_cursor
  encode_health state_root queue_paths profile_id runtime recover_missed_messages).
Local Abbreviation save := (save_health (remote:=remote) encode_health state_root profile_id).
Local Abbreviation enqueue := (enqueue_candidate (remote:=remote) encode_incoming queue_paths profile_id runtime).
Local Abbreviation step := (socket_step encode_incoming parse_value decode_cursor encode_cursor
  encode_health state_root queue_paths profile_id runtime recover_missed_messages).
Local Abbreviation run := (socket_run encode_incoming parse_value decode_cursor encode_cursor
  encode_health state_root queue_paths profile_id runtime recover_missed_messages).
Local Abbreviation start := (socket_start (remote:=remote) decode_health state_root profile_id).

(** ** What the computations of the loop leave alone *)
#[local] Instance keeps_preorder : PreOrder keeps.
Proof.
  split; [by intros s|]. intros a b c [Hab Hab'] [Hbc Hbc']. split; [|by auto].
  intros id Hid. by apply Hbc, Hab.
Qed.
(** A computation that loses nothing from the queue and brings no error about. *)
Definition harmless {E A} (m : IO (slack_host remote) E A) : Prop :=
  evolves keeps m ∧ keeps_calm m.
Lemma harmless_ret {E A} (a : A) : harmless (mret a : IO _ E A).
Proof. split; [apply evolves_ret; apply _|apply calm_ret]. Qed.
Lemma harmless_throw {E A} (e : E) : harmless (throw e : IO _ E A).
Proof. split; [apply evolves_throw; apply _|apply calm_throw]. Qed.
Lemma harmless_clock {E} : harmless (read_clock : IO _ E Z).
Proof. split; [apply evolves_clock; apply _|apply calm_clock]. Qed.
Lemma harmless_bind {E A B} (m : IO _ E A) (f : A → IO _ E B) :
  harmless m → (∀ a, harmless (f a)) → harmless (m ≫= f).
Proof.
  intros [] Hf. split; [apply evolves_bind; [apply _|done|intros a; apply Hf]|].
  apply calm_bind; [done|intros a; apply Hf].
Qed.
Lemma harmless_attempt {E F A} (m : IO _ E A) : harmless m → harmless (attempt m : IO _ F _).
Proof. intros []. split; [by apply evolves_attempt|by apply calm_attempt]. Qed.
Lemma harmless_disk {E A} (m : IO disk E A) : keeps_calm m → harmless (on_disk m).
Proof. intros Hm. split; [apply disk_keeps|by apply calm_zoom]. Qed.
Lemma harmless_slack {A} (call : api_call remote A) : harmless (on_slack call).
Proof. split; [apply slack_keeps|apply calm_on_slack]. Qed.
#[local] Hint Resolve calm_on_slack : direclaw.
Ltac harmless_steps :=
  repeat lazymatch goal with
    | |- harmless (mbind _ _) => apply harmless_bind; [|intros ?; cbv beta]
    | |- harmless (mret _) => apply harmless_ret
    | |- harmless (throw _) => apply harmless_throw
    | |- harmless read_clock => apply harmless_clock
    | |- harmless (attempt _) => apply harmless_attempt
    | |- harmless (on_slack _) => apply harmless_slack
    | |- harmless (on_disk _) => apply harmless_disk; calm_steps
    | |- harmless (match ?x with _ => _ end) => destruct x
    | |- harmless ((match ?x with _ => _ end) _) => destruct x; cbv beta
    | |- harmless _ => solve [trivial with socket]
    end.

Lemma harmless_save health : harmless (save health).
Proof. unfold save_health. harmless_steps. Qed.
Lemma calm_enqueue c m : keeps_calm (enqueue_incoming encode_incoming queue_paths profile_id (sr_profile runtime) c m).
Proof.
  unfold enqueue_incoming, message_already_queued, queue_file_exists, directory_has_outgoing_message.
  calm_steps.
Qed.
#[local] Hint Resolve harmless_save : socket.
#[local] Hint Resolve calm_enqueue : direclaw.
Lemma calm_resolve (existing : option string) :
  keeps_calm (resolve_oldest_cursor existing : IO (slack_host remote) SlackError string).
Proof. unfold resolve_oldest_cursor, default_oldest_timestamp. calm_steps. Qed.
#[local] Hint Resolve calm_resolve : direclaw.
Lemma harmless_backfill : harmless (process_inbound_for_profile encode_incoming parse_value decode_cursor
  encode_cursor state_root queue_paths profile_id runtime).
Proof.
  unfold process_inbound_for_profile. split; [apply backfill_keeps_queue|].
  unfold process_inbound_with_api, load_cursor_state, save_cursor_state, path_exists.
  calm_steps. unfold ingest_conversation, bootstrap_threads_from_artifacts,
    bootstrap_threads_from_history, default_oldest_timestamp, ingest_message, ingest_thread, in_queue_dir.
  calm_steps. all: unfold ingest_reply, in_queue_dir; calm_steps.
Qed.
Lemma harmless_enqueue candidate : harmless (enqueue candidate).
Proof.
  unfold enqueue_candidate. apply harmless_bind; [|intros; apply harmless_ret].
  apply harmless_attempt. split; [apply enqueue_keeps|]. apply calm_zoom, calm_enqueue.
Qed.
#[local] Hint Resolve harmless_backfill harmless_enqueue : socket.
Lemma harmless_note error health : harmless (note_failure encode_health state_root profile_id error health).
Proof. unfold note_failure. harmless_steps. Qed.
#[local] Hint Resolve harmless_note : socket.
Lemma harmless_fail context detail health :
  harmless (fail_attempt encode_health state_root profile_id context detail health).
Proof. unfold fail_attempt. harmless_steps. Qed.
#[local] Hint Resolve harmless_fail : socket.
Lemma harmless_failed context err health : harmless (failed_call encode_health state_root profile_id context err health).
Proof. unfold failed_call. harmless_steps. Qed.
#[local] Hint Resolve harmless_failed : socket.
Lemma harmless_catch_up v : harmless (catch_up encode_incoming parse_value decode_cursor encode_cursor
  encode_health state_root queue_paths profile_id runtime recover_missed_messages v).
Proof. unfold catch_up. destruct v. harmless_steps. Qed.
Lemma harmless_open_url health : harmless (open_url encode_health state_root profile_id runtime health).
Proof. unfold open_url. harmless_steps. Qed.
Lemma harmless_connect connected nonblocking health :
  harmless (connect_socket encode_health state_root profile_id connected nonblocking health).
Proof. unfold connect_socket. harmless_steps. Qed.
#[local] Hint Resolve harmless_catch_up harmless_open_url harmless_connect : socket.
Lemma harmless_begin connected nonblocking v : harmless (begin connected nonblocking v).
Proof.
  unfold begin_connection. harmless_steps.
Qed.
Lemma harmless_take : harmless (take_reconnect_request (remote:=remote) state_root).
Proof. unfold take_reconnect_request, path_exists. harmless_steps. Qed.
Lemma harmless_load : harmless (load_health (remote:=remote) decode_health state_root profile_id).
Proof. unfold load_health. harmless_steps. Qed.

(** ** No accepted message is lost *)
Definition candidate_id (c : QueueCandidate) : string :=
  slack_message_id profile_id (qc_channel c) (sm_ts (qc_message c)).
Lemma enqueue_queues candidate (w : world (slack_host remote)) :
  faults (ev w) = [] → is_Some (q_incoming (q_of (st w))) →
  queued (candidate_id candidate) (q_of (st (enqueue candidate w).1)).
Proof.
  intros Hcalm Hdir.
  assert (wp true (enqueue candidate) (λ _ s, queued (candidate_id candidate) (q_of s)) (st w)) as Hwp.
  { unfold enqueue_candidate. apply wp_bind, wp_attempt, wp_on_host_queue.
    eapply wp_mono; [apply wp_enqueue_incoming|]. intros r q (_ & Hq & _ & Hok). apply wp_ret.
    rewrite host_queue_same. destruct r as [b|e]; [by apply (Hq b)|by specialize (Hok eq_refl Hdir)]. }
  pose proof (wp_run _ _ _ w Hwp (λ _, Hcalm)) as H. by destruct (enqueue candidate w).
Qed.

Record socket_ok (accepted : list QueueCandidate) (s : socket_state (remote:=remote)) : Prop := {
  ok_calm : faults (ev (so_world s)) = [];
  ok_incoming : is_Some (q_incoming (q_of (st (so_world s))));
  ok_bounded : (length (so_buffer s) ≤ SOCKET_BUFFER_CAPACITY)%nat;
  ok_idle : so_buffer s = [] ∨ so_control s = Reading ∨ ∃ outcome, so_control s = Joining outcome;
  ok_kept : ∀ c, c ∈ accepted →
    c ∈ so_buffer s ∨ queued (candidate_id c) (q_of (st (so_world s)));
}.
(** What a harmless computation does between two states with the same buffer. *)
Lemma socket_ok_harmless {E A} accepted s s' (m : IO (slack_host remote) E A) w r :
  socket_ok accepted s → harmless m → m (so_world s) = (w, r) →
  so_world s' = w → so_buffer s' = so_buffer s →
  (so_buffer s = [] ∨ so_control s' = Reading ∨ ∃ outcome, so_control s' = Joining outcome) →
  socket_ok accepted s'.
Proof.
  intros [Hc Hi Hb _ Hk] [Hev Hcalm] Hm <- Hbuf Hidle.
  specialize (Hev (so_world s)). specialize (Hcalm _ Hc). rewrite Hm in Hev, Hcalm.
  destruct Hev as [Hq Hdir]. split; rewrite ?Hbuf; auto.
  intros c Hin. destruct (Hk c Hin); auto.
Qed.
Lemma socket_ok_same accepted s s' : socket_ok accepted s →
  so_world s' = so_world s → so_buffer s' = so_buffer s →
  (so_buffer s = [] ∨ so_control s' = Reading ∨ ∃ outcome, so_control s' = Joining outcome) →
  socket_ok accepted s'.
Proof.
  intros Hok Hw Hb Hc. apply (socket_ok_harmless (E:=SlackError) accepted s s' (mret ()) (so_world s) (Ok ()));
    auto using harmless_ret.
Qed.
Lemma idle_buffer accepted s : socket_ok accepted s →
  so_control s = LoopTop ∨ so_control s = Sleeping → so_buffer s = [].
Proof. intros [_ _ _ [|[Hr|[o Ho]]] _] [Hc|Hc]; congruence. Qed.

Lemma socket_ok_save accepted s s' health : socket_ok accepted s →
  so_world s' = (save health (so_world s)).1 → so_buffer s' = so_buffer s → so_buffer s = [] →
  socket_ok accepted s'.
Proof.
  intros Hok Hw Hb He. destruct (save health (so_world s)) as [w r] eqn:Hs.
  eapply socket_ok_harmless; [exact Hok|apply harmless_save|exact Hs|done..|by left].
Qed.
Lemma socket_ok_break accepted s : socket_ok accepted s → so_buffer s = [] →
  socket_ok accepted (break_loop encode_health state_root profile_id s).
Proof.
  intros Hok He. unfold break_loop. destruct (sk_connected (so_health s)).
  - by eapply socket_ok_save.
  - by eapply socket_ok_same; [..|left].
Qed.
Lemma socket_ok_after accepted s outcome : socket_ok accepted s → so_buffer s = [] →
  socket_ok accepted (after_connection encode_health state_root profile_id outcome s).
Proof.
  intros Hok He. unfold after_connection.
  set (v := (with_connected false (so_health s), _)).
  set (s1 := set_loop _ (so_control s) v s).
  assert (socket_ok accepted s1) as H1 by by eapply socket_ok_save.
  assert (socket_ok accepted (set_loop (so_world s1) Sleeping v s1)) as H2
    by by eapply socket_ok_same; [..|left].
  destruct (so_force_reconnect s1); [by eapply socket_ok_same; [..|left]|].
  destruct outcome; [done|done|by apply socket_ok_break..].
Qed.
Lemma socket_ok_frame accepted more s frame buffer health :
  socket_ok accepted s → so_control s = Reading →
  handle_socket_text (sr_profile runtime) (sr_allowlist runtime) frame (so_buffer s) (so_health s)
    = (buffer, health) →
  buffer = so_buffer s ++ more →
  socket_ok (accepted ++ more) (set_connection (so_world s) health buffer (so_enqueued s) s).
Proof.
  intros [Hc Hi Hb _ Hk] Hr Hframe ->. split; simpl; auto.
  - revert Hframe. unfold handle_socket_text. destruct (frame_candidate _ _ _); [|intros [= <- _]; done].
    destruct (Nat.ltb_spec (length (so_buffer s)) SOCKET_BUFFER_CAPACITY); intros [= <- _]; [|done].
    rewrite length_app. simpl. lia.
  - intros c [Hin|Hin]%elem_of_app; [|left; apply elem_of_app; by right].
    destruct (Hk c Hin); [left; apply elem_of_app; by left|by right].
Qed.
Lemma socket_ok_worker accepted s candidate rest w r :
  socket_ok accepted s → so_buffer s = candidate :: rest → enqueue candidate (so_world s) = (w, r) →
  ∀ n, socket_ok accepted (set_connection w (so_health s) rest n s).
Proof.
  intros [Hc Hi Hb Hidle Hk] Hbuf Hw n. destruct (harmless_enqueue candidate) as [Hev Hcalm].
  pose proof (enqueue_queues candidate _ Hc Hi) as Hq. specialize (Hev (so_world s)).
  specialize (Hcalm _ Hc). rewrite Hw in Hev, Hcalm, Hq. destruct Hev as [Hold Hdir].
  rewrite Hbuf in Hb, Hidle, Hk. simpl in Hb. split; simpl; auto; [lia|destruct Hidle as [|]; [done|by right]|].
  intros c Hin. destruct (Hk c Hin) as [[->|Hrest]%elem_of_cons|Hd]; auto.
Qed.

Lemma socket_ok_step accepted more s s' :
  socket_ok accepted s → step s more s' → socket_ok (accepted ++ more) s'.
Proof.
  intros Hok Hstep. destruct Hstep; rewrite ?app_nil_r.
  1-2: by eapply socket_ok_same; [..|apply Hok].
  - apply socket_ok_break; [done|by eapply idle_buffer].
  - eapply socket_ok_same; [done..|]. left. apply (idle_buffer accepted); auto.
  - assert (so_buffer s = []) as He by (apply (idle_buffer accepted); auto).
    assert (socket_ok accepted (set_loop w Reading v s)) as Hl
      by (eapply socket_ok_harmless; [..|left]; eauto using harmless_begin).
    destruct Hl as [Hc Hi Hb _ Hk]. simpl in *. split; simpl; auto using Nat.le_0_l.
    intros c Hin. destruct (Hk c Hin) as [Hin'|]; [|by right]. rewrite He in Hin'.
    by apply elem_of_nil in Hin'.
  - eapply socket_ok_harmless; eauto using harmless_begin. left. by apply (idle_buffer accepted); auto.
  - eapply socket_ok_harmless; eauto using harmless_begin. left. by apply (idle_buffer accepted); auto.
  - by eapply socket_ok_frame.
  - by eapply socket_ok_worker.
  - eapply socket_ok_harmless; eauto using harmless_take.
  - eapply socket_ok_same; [done..|]. right. right. by eexists.
  - eapply socket_ok_same; [done..|]. right. right. by eexists.
  - by apply socket_ok_after.
Qed.
Lemma socket_ok_start w : faults (ev w) = [] → is_Some (q_incoming (q_of (st w))) →
  socket_ok [] (start w).
Proof.
  intros Hc Hi. unfold socket_start.
  destruct harmless_load as [Hk1 Hc1]. specialize (Hk1 w). specialize (Hc1 w Hc).
  destruct (load_health _ _ _ w) as [w1 loaded].
  destruct harmless_take as [Hk2 Hc2]. specialize (Hk2 w1). specialize (Hc2 w1 Hc1).
  destruct (take_reconnect_request _ w1) as [w2 requested]. cbn [fst] in *.
  destruct Hk1 as [_ Hd1], Hk2 as [_ Hd2]. split; simpl; auto using Nat.le_0_l.
Qed.

(** C22: Socket mode loses no message it accepted.  On a working disk, in every
    run of the loop, however frames, the worker, reconnections, the stop flag and
    the deadline interleave and however often Slack fails: the buffer never
    exceeds its capacity, a message the reader put into the buffer is still there
    or stands in the queue, and when the loop has ended, with a total or with an
    error, all of them stand in the queue. *)
Theorem accepted_messages_reach_the_queue (w : world (slack_host remote))
    (accepted : list QueueCandidate) (s : socket_state)
    (Hcalm : faults (ev w) = []) (Hdir : is_Some (q_incoming (q_of (st w))))
    (Hrun : run (start w) accepted s) :
  (length (so_buffer s) ≤ SOCKET_BUFFER_CAPACITY)%nat
  ∧ ∀ c, c ∈ accepted →
      (c ∈ so_buffer s ∨ queued (candidate_id c) (q_of (st (so_world s))))
      ∧ ∀ r, so_control s = LoopDone r → queued (candidate_id c) (q_of (st (so_world s))).
Proof.
  assert (socket_ok accepted s) as [_ _ Hb Hidle Hk].
  { pose proof (socket_ok_start w Hcalm Hdir) as Hok. remember (start w) as s0.
    induction Hrun; [done|]. eapply socket_ok_step; [|done]. by apply IHHrun. }
  split; [done|]. intros c Hin. split; [by apply Hk|]. intros r Hr.
  destruct (Hk c Hin) as [Hb'|]; [|done].
  destruct Hidle as [He|[Hc|[o Ho]]]; [|congruence..]. rewrite He in Hb'. by apply elem_of_nil in Hb'.
Qed.

(** ** Why the loop ends *)
(** Errors that retrying cannot help. *)
Definition fatal (err : SlackError) : Prop :=
  (∃ api_path retry_after, err = RateLimited api_path retry_after)
  ∨ (∃ context detail, err = ApiRequest (format_socket_error context detail NonRetryable)
       ∧ classify_socket_failure detail = NonRetryable)
  ∨ ∃ detail, err = ApiRequest ("failed to configure socket mode stream: " +:+ detail).
Definition fails_fatally {A} (m : IO (slack_host remote) SlackError A) : Prop :=
  ∀ w, match (m w).2 with Ok _ => True | Err err => fatal err end.
Lemma fatally_ret {A} (a : A) : fails_fatally (mret a).
Proof. by intros w. Qed.
Lemma fatally_throw {A} err : fatal err → fails_fatally (throw err : IO _ _ A).
Proof. by intros H w. Qed.
Lemma fatally_clock : fails_fatally read_clock.
Proof. intros w. unfold read_clock. by destruct (clock (ev w)). Qed.
Lemma fatally_attempt {F A} (m : IO _ F A) : fails_fatally (attempt m).
Proof. intros w. unfold attempt. by destruct (m w). Qed.
Lemma fatally_bind {A B} (m : IO _ SlackError A) (f : A → IO _ SlackError B) :
  fails_fatally m → (∀ a, fails_fatally (f a)) → fails_fatally (m ≫= f).
Proof.
  intros Hm Hf w. specialize (Hm w). rewrite bind_run. destruct (m w) as [w' [a|e]]; [|done].
  apply Hf.
Qed.
Ltac fatal_steps :=
  repeat lazymatch goal with
    | |- fails_fatally (mbind _ _) => apply fatally_bind; [|intros ?; cbv beta]
    | |- fails_fatally (mret _) => apply fatally_ret
    | |- fails_fatally read_clock => apply fatally_clock
    | |- fails_fatally (attempt _) => apply fatally_attempt
    | |- fails_fatally (match ?x with _ => _ end) => destruct x eqn:?
    | |- fails_fatally ((match ?x with _ => _ end) _) => destruct x eqn:?; cbv beta
    | |- fails_fatally _ => solve [trivial with socket]
    end.
Lemma fatally_note error health : fails_fatally (note_failure encode_health state_root profile_id error health).
Proof. unfold note_failure, save_health. fatal_steps. Qed.
#[local] Hint Resolve fatally_note : socket.
Lemma fatally_fail context detail health :
  fails_fatally (fail_attempt encode_health state_root profile_id context detail health).
Proof.
  unfold fail_attempt. fatal_steps. apply fatally_throw. right. left. rewrite e. eauto.
Qed.
#[local] Hint Resolve fatally_fail : socket.
Lemma fatally_failed context err health :
  fails_fatally (failed_call encode_health state_root profile_id context err health).
Proof. unfold failed_call. fatal_steps. apply fatally_throw. left. eauto. Qed.
#[local] Hint Resolve fatally_failed : socket.
Lemma fatally_begin connected nonblocking v : fails_fatally (begin connected nonblocking v).
Proof.
  unfold begin_connection, catch_up, open_url, connect_socket, save_health. fatal_steps.
  apply fatally_throw. right. right. eauto.
Qed.

Definition ends_for_cause (s : socket_state (remote:=remote)) : Prop :=
  match so_control s with
  | LoopDone (Ok _) => ending s = true
  | LoopDone (Err err) => fatal err
  | Joining StopRequested => so_stop s = true
  | Joining DeadlineReached => so_deadline s = true
  | _ => True
  end.
Lemma break_for_cause s : ending s = true →
  ends_for_cause (break_loop encode_health state_root profile_id s).
Proof. done. Qed.
Lemma after_for_cause s outcome : so_control s = Joining outcome → ends_for_cause s →
  ends_for_cause (after_connection encode_health state_root profile_id outcome s).
Proof.
  intros Hc He. unfold ends_for_cause in He. rewrite Hc in He. unfold after_connection.
  destruct (so_force_reconnect _); [done|].
  destruct outcome; [done|done|apply break_for_cause; unfold ending; simpl..].
  - by rewrite He.
  - by rewrite He, orb_true_r.
Qed.
Lemma step_for_cause s more s' : ends_for_cause s → step s more s' → ends_for_cause s'.
Proof.
  intros He Hstep. destruct Hstep as [| | | | | |s c n w err Hc _ Hb| | | |s o Hc Ho| |];
    unfold ends_for_cause, ending in *; simpl.
  - by destruct (so_control s) as [| | |[]|[]].
  - destruct (so_control s) as [| | |[]|[]]; try done. by rewrite orb_true_r.
  - done.
  - done.
  - done.
  - done.
  - pose proof (fatally_begin c n (so_health s, so_total s) (so_world s)) as Hf.
    by rewrite Hb in Hf.
  - done.
  - done.
  - done.
  - by destruct Ho as [[-> ?]|[-> ?]].
  - done.
  - by apply after_for_cause.
Qed.

(** A stopped loop can always finish. *)
Local Abbreviation finishes s := (∃ s' n, run s [] s' ∧ so_control s' = LoopDone (Ok n)).
Lemma run_step s1 s2 s3 : step s1 [] s2 → run s2 [] s3 → run s1 [] s3.
Proof.
  intros Hs Hr. remember [] as l eqn:Hl in Hr |- *. induction Hr as [s|s2 s3 s4 l1 l2 Hr IH Hs'].
  - change (run s1 ([] ++ []) s). eapply run_snoc; [constructor|done].
  - apply app_nil in Hl as [-> ->]. change (run s1 ([] ++ []) s4).
    eapply run_snoc; [by apply IH|done].
Qed.
Lemma finishes_step s s' : step s [] s' → finishes s' → finishes s.
Proof. intros Hs (s'' & n & Hr & Hd). exists s'', n. split; [by eapply run_step|done]. Qed.
Lemma finishes_done s n : so_control s = LoopDone (Ok n) → finishes s.
Proof. intros Hd. exists s, n. split; [constructor|done]. Qed.
Lemma finishes_top s : so_control s = LoopTop ∨ so_control s = Sleeping → so_stop s = true →
  finishes s.
Proof.
  intros Hc Hs. eapply finishes_step; [by apply sock_break; [|unfold ending; rewrite Hs]|].
  by eapply finishes_done.
Qed.
Lemma finishes_joining s outcome : so_control s = Joining outcome → so_stop s = true → finishes s.
Proof.
  remember (so_buffer s) as buffer eqn:Hb. revert s Hb.
  induction buffer as [|candidate rest IH]; intros s Hb Hc Hs.
  - eapply finishes_step; [by eapply sock_join|]. unfold after_connection.
    destruct (so_force_reconnect _); [by apply finishes_top; [right|]|].
    destruct outcome; try (by apply finishes_top; [right|]); by eapply finishes_done.
  - destruct (enqueue candidate (so_world s)) as [w r] eqn:He.
    eapply finishes_step; [by eapply sock_worker|]. by apply IH.
Qed.

(** The socket loop ends only for a reason.  In every run, whatever Slack, the
    disk and the interleaving do: when the loop has ended with its total, the
    stop flag was set or the deadline reached; when it has ended with an error,
    the error is a rate limit, a failure classified as not retryable, or a socket
    that cannot be configured; and a loop that has not ended can always finish
    once it is told to stop. *)
Theorem socket_loop_ends_for_cause (w : world (slack_host remote))
    (accepted : list QueueCandidate) (s : socket_state) (Hrun : run (start w) accepted s) :
  match so_control s with
  | LoopDone (Ok _) => so_stop s = true ∨ so_deadline s = true
  | LoopDone (Err err) => fatal err
  | _ => so_stop s = true → finishes s
  end.
Proof.
  assert (ends_for_cause s) as He.
  { remember (start w) as s0. induction Hrun; [|by eapply step_for_cause; [apply IHHrun|]].
    subst. unfold socket_start. destruct (load_health _ _ _ w) as [w1 ?].
    by destruct (take_reconnect_request _ w1). }
  unfold ends_for_cause in He. destruct (so_control s) as [| | |outcome|[n|err]] eqn:Hc.
  - intros Hs. apply finishes_top; auto.
  - intros Hs. apply finishes_top; auto.
  - intros Hs. eapply finishes_step; [by eapply (sock_end) with (outcome:=StopRequested); [|left]|].
    by eapply finishes_joining.
  - intros Hs. by eapply finishes_joining.
  - by apply orb_true_iff in He.
  - done.
Qed.
End socket.

(** ** A run of the small Slack

    One message arrives over the socket and is queued. *)
Definition demo_event : SocketEvent :=
  {| se_type := "message"; se_channel := "C1"; se_channel_type := Some "channel";
     se_user := Some "U1"; se_bot_id := None; se_subtype := None; se_text := Some "hello";
     se_ts := "1700000500.1"; se_thread_ts := None |}.
Definition demo_frame : option SocketEnvelope :=
  Some {| en_envelope_id := Some "e1"; en_event := Some demo_event |}.
Definition demo_candidate : QueueCandidate :=
  {| qc_channel := "C1"; qc_message := event_message demo_event |}.
Definition demo_socket_runtime : SlackProfileRuntime :=
  {| sr_profile := demo_profile; sr_api := demo_api; sr_allowlist := ∅;
     sr_include_im_conversations := true; sr_history_backfill_enabled := false |}.
Definition demo_health (h : SocketHealth) : string := if sk_connected h then "up" else "down".
Definition demo_start : socket_state :=
  socket_start (λ raw, Err raw) "/state" "team" demo_slack_world.
Definition demo_step : socket_state → list QueueCandidate → socket_state → Prop :=
  socket_step im_message_id (λ raw, Err raw) demo_decode_cursor demo_encode_cursor demo_health
    "/state" (from_state_root "/runtime") "team" demo_socket_runtime false.
Definition demo_run : socket_state → list QueueCandidate → socket_state → Prop :=
  socket_run im_message_id (λ raw, Err raw) demo_decode_cursor demo_encode_cursor demo_health
    "/state" (from_state_root "/runtime") "team" demo_socket_runtime false.
Definition demo_connected : socket_state :=
  match begin_connection im_message_id (λ raw, Err raw) demo_decode_cursor demo_encode_cursor
          demo_health "/state" (from_state_root "/runtime") "team" demo_socket_runtime false
          (Ok ()) (Ok ()) (so_health demo_start, so_total demo_start) (so_world demo_start) with
  | (w, Ok (v, _)) => set_connection w v.1 [] 0 (set_loop w Reading v demo_start)
  | _ => demo_start
  end.
Definition demo_received : socket_state :=
  let '(buffer, health) := handle_socket_text demo_profile ∅ demo_frame [] (so_health demo_connected) in
  set_connection (so_world demo_connected) health buffer 0 demo_connected.
Definition demo_enqueued : socket_state :=
  let '(w, r) := enqueue_candidate im_message_id (from_state_root "/runtime") "team"
                   demo_socket_runtime demo_candidate (so_world demo_received) in
  set_connection w (so_health demo_received) []
    (so_enqueued demo_received + match r with Ok true => 1 | _ => 0 end) demo_received.
Definition demo_stopped : socket_state := set_flags true (so_deadline demo_enqueued) demo_enqueued.
Definition demo_joining : socket_state :=
  set_loop (so_world demo_stopped) (Joining StopRequested)
    (so_health demo_stopped, so_total demo_stopped) demo_stopped.
Definition demo_finished : socket_state :=
  after_connection demo_health "/state" "team" StopRequested demo_joining.

Definition demo_socket_step : socket_state → list QueueCandidate → socket_state → Prop :=
  socket_step im_message_id (λ raw, Err raw) demo_decode_cursor demo_encode_cursor demo_health
    "/state" (from_state_root "/runtime") "team" demo_socket_runtime false.
Lemma demo_connects : demo_socket_step demo_start [] demo_connected.
Proof.
  assert (demo_connected = set_connection (so_world demo_connected) (so_health demo_connected) [] 0
            (set_loop (so_world demo_connected) Reading (so_health demo_connected, so_total demo_connected)
               demo_start)) as -> by (vm_compute; reflexivity).
  apply (sock_connect _ _ _ _ _ _ _ _ _ _ demo_start (Ok ()) (Ok ()) (so_world demo_connected)
    (so_health demo_connected, so_total demo_connected)); vm_compute; reflexivity.
Qed.
Lemma demo_receives : demo_socket_step demo_connected [demo_candidate] demo_received.
Proof.
  assert (demo_received = set_connection (so_world demo_connected) (so_health demo_received)
            [demo_candidate] (so_enqueued demo_connected) demo_connected) as ->
    by (vm_compute; reflexivity).
  apply (sock_frame _ _ _ _ _ _ _ _ _ _ demo_connected demo_frame); vm_compute; reflexivity.
Qed.
Lemma demo_enqueues : demo_socket_step demo_received [] demo_enqueued.
Proof.
  apply (sock_worker _ _ _ _ _ _ _ _ _ _ demo_received demo_candidate [] (so_world demo_enqueued)
    (Ok true)); vm_compute; reflexivity.
Qed.
Lemma demo_joins : demo_socket_step demo_joining [] demo_finished.
Proof. unfold demo_socket_step, demo_finished. apply sock_join; vm_compute; reflexivity. Qed.
Lemma demo_run_finishes : demo_run demo_start [demo_candidate] demo_finished.
Proof.
  pose proof (run_start im_message_id (λ raw, Err raw) demo_decode_cursor demo_encode_cursor
    demo_health "/state" (from_state_root "/runtime") "team" demo_socket_runtime false demo_start) as H.
  pose proof (run_snoc _ _ _ _ _ _ _ _ _ _ _ _ _ _ _ H demo_connects) as H1.
  pose proof (run_snoc _ _ _ _ _ _ _ _ _ _ _ _ _ _ _ H1 demo_receives) as H2.
  pose proof (run_snoc _ _ _ _ _ _ _ _ _ _ _ _ _ _ _ H2 demo_enqueues) as H3.
  pose proof (run_snoc _ _ _ _ _ _ _ _ _ _ _ _ _ _ _ H3 (sock_stop _ _ _ _ _ _ _ _ _ _ _)) as H4.
  eapply run_snoc in H4; [|apply (sock_end _ _ _ _ _ _ _ _ _ _ demo_stopped StopRequested);
    [vm_compute; reflexivity|left; split; vm_compute; reflexivity]].
  exact (run_snoc _ _ _ _ _ _ _ _ _ _ _ _ _ _ _ H4 demo_joins).
Qed.
Example demo_finished_total : so_control demo_finished = LoopDone (Ok 1%nat).
Proof. vm_compute. reflexivity. Qed.

Lemma accepted_messages_reach_the_queue_witness :
  queued "slack-team-C1-1700000500_1" (sh_queues (st (so_world demo_finished)) "/runtime").
Proof.
  assert (faults (ev demo_slack_world) = []) as Hcalm by reflexivity.
  assert (is_Some (q_incoming (sh_queues (st demo_slack_world) "/runtime"))) as Hdir by by eexists.
  pose proof demo_run_finishes as Hrun. unfold demo_run, demo_start in Hrun.
  pose proof (accepted_messages_reach_the_queue im_message_id (λ raw, Err raw) demo_decode_cursor
    demo_encode_cursor (λ raw, Err raw) demo_health "/state" (from_state_root "/runtime") "team"
    demo_socket_runtime false demo_slack_world [demo_candidate] demo_finished Hcalm Hdir Hrun) as H.
  destruct H as [_ H]. destruct (H demo_candidate ltac:(by left)) as [_ Hdone].
  exact (Hdone (Ok 1%nat) demo_finished_total).
Defined.
Lemma socket_loop_ends_for_cause_witness :
  so_control demo_finished = LoopDone (Ok 1%nat)
  ∧ (so_stop demo_finished = true ∨ so_deadline demo_finished = true).
Proof.
  pose proof demo_run_finishes as Hrun. unfold demo_run, demo_start in Hrun.
  pose proof (socket_loop_ends_for_cause im_message_id (λ raw, Err raw) demo_decode_cursor
    demo_encode_cursor (λ raw, Err raw) demo_health "/state" (from_state_root "/runtime") "team"
    demo_socket_runtime false demo_slack_world [demo_candidate] demo_finished Hrun) as H.
  rewrite demo_finished_total in H. split; [exact demo_finished_total|exact H].
Defined.
