(* ===== verification/Cron.v ===== *)
(** * Cron expressions

    The cron part of [src/src/orchestration/scheduler.rs].  The civil time of a
    timestamp in a time zone is a parameter ([chrono], [chrono_tz]). *)
From S2P Require Import Prelude RustStr.
From Stdlib Require Import Ascii.

Local Open Scope string_scope.
Local Open Scope list_scope.

Definition MAX_CRON_SEARCH_MINUTES : positive := 2635200. (* 60 * 24 * 366 * 5 *)

Record CronField := { cf_any : bool; cf_values : gset Z }.
Definition field_matches (f : CronField) (value : Z) : bool :=
  cf_any f || bool_decide (value ∈ cf_values f).

Record CronExpression := {
  ce_minute : CronField;
  ce_hour : CronField;
  ce_day_of_month : CronField;
  ce_month : CronField;
  ce_day_of_week : CronField;
}.

Inductive AliasKind := NoAlias | MonthAlias | WeekdayAlias.
#[export] Instance AliasKind_eq_dec : EqDecision AliasKind.
Proof. solve_decision. Defined.

(** The position of a name in a list of three-letter names. *)
Fixpoint alias_index (lower : string) (names : list string) (from : Z) : option Z :=
  match names with
  | [] => None
  | name :: names =>
      if String.eqb lower name then Some from else alias_index lower names (from + 1)
  end.
Definition alias_value (aliases : AliasKind) (lower : string) : option Z :=
  match aliases with
  | NoAlias => None
  | MonthAlias => alias_index lower ["jan"; "feb"; "mar"; "apr"; "may"; "jun"; "jul"; "aug";
                                     "sep"; "oct"; "nov"; "dec"] 1
  | WeekdayAlias => alias_index lower ["sun"; "mon"; "tue"; "wed"; "thu"; "fri"; "sat"] 0
  end.

Definition parse_cron_atom (raw : string) (min max : Z) (aliases : AliasKind) : result string Z :=
  let lower := to_ascii_lowercase raw in
  value ← match alias_value aliases lower with
    | Some v => Ok v
    | None => ok_or ("invalid cron value `" +:+ raw +:+ "`") (parse_u32 lower)
    end;
  if bool_decide (value < min)%Z || bool_decide (max < value)%Z then
    Err ("cron value `" +:+ raw +:+ "` is out of bounds (" +:+ fmt_int min +:+ "..="
         +:+ fmt_int max +:+ ")")
  else Ok value.

Definition normalize_weekday (aliases : AliasKind) (value : Z) : Z :=
  if bool_decide (aliases = WeekdayAlias) && bool_decide (value = 7%Z) then 0 else value.

(** [while value <= end], leaving the loop when [value + step] overflows. *)
Fixpoint insert_range (fuel : nat) (aliases : AliasKind) (step end_ value : Z) (values : gset Z) :
    gset Z :=
  match fuel with
  | O => values
  | S fuel =>
      if bool_decide (value ≤ end_)%Z then
        let values := {[normalize_weekday aliases value]} ∪ values in
        if bool_decide (value + step ≤ u32_max)%Z
        then insert_range fuel aliases step end_ (value + step) values
        else values
      else values
  end.

Definition parse_cron_segment (raw : string) (min max : Z) (aliases : AliasKind)
    (values : gset Z) : result string (gset Z) :=
  '(range_raw, step) ← match split_once "/" raw with
    | Some (range, step_raw) =>
        step ← ok_or ("invalid cron step `" +:+ step_raw +:+ "`") (parse_u32 step_raw);
        if bool_decide (step = 0%Z) then Err "cron step must be >= 1" else Ok (range, step)
    | None => Ok (raw, 1%Z)
    end;
  '(start, end_) ← (if String.eqb range_raw "*" then Ok (min, max) else
    match split_once "-" range_raw with
    | Some (start_raw, end_raw) =>
        start ← parse_cron_atom start_raw min max aliases;
        end_ ← parse_cron_atom end_raw min max aliases;
        Ok (start, end_)
    | None => value ← parse_cron_atom range_raw min max aliases; Ok (value, value)
    end);
  if bool_decide (end_ < start)%Z then Err ("invalid cron range `" +:+ raw +:+ "`")
  else Ok (insert_range (S (Z.to_nat (end_ - start))) aliases step end_ start values).

Definition parse_cron_field (raw : string) (min max : Z) (aliases : AliasKind) :
    result string CronField :=
  if String.eqb raw "*" then Ok {| cf_any := true; cf_values := ∅ |} else
  values ← for_fold (λ values segment, parse_cron_segment segment min max aliases values)
             (split_on "," raw) ∅;
  if bool_decide (values = ∅) then Err ("invalid cron field `" +:+ raw +:+ "`")
  else Ok {| cf_any := false; cf_values := values |}.

(** [str::split_whitespace]: the non-empty pieces between white space. *)
Fixpoint split_whitespace_fuel (fuel : nat) (word s : string) : list string :=
  let flush (rest : list string) := if is_empty word then rest else word :: rest in
  match fuel with
  | O => flush []
  | S fuel =>
      match s with
      | "" => flush []
      | String a s1 =>
          let keep := split_whitespace_fuel fuel (word +:+ String a "") s1 in
          if ws1 a then flush (split_whitespace_fuel fuel "" s1) else
          match s1 with
          | String b s2 =>
              if ws2 a b then flush (split_whitespace_fuel fuel "" s2) else
              match s2 with
              | String c s3 =>
                  if ws3 a b c then flush (split_whitespace_fuel fuel "" s3) else keep
              | _ => keep
              end
          | _ => keep
          end
      end
  end.
Definition split_whitespace (s : string) : list string :=
  split_whitespace_fuel (String.length s) "" s.

Definition parse_cron_expression (raw : string) : result string CronExpression :=
  match split_whitespace raw with
  | [f0; f1; f2; f3; f4] =>
      minute ← parse_cron_field f0 0 59 NoAlias;
      hour ← parse_cron_field f1 0 23 NoAlias;
      day_of_month ← parse_cron_field f2 1 31 NoAlias;
      month ← parse_cron_field f3 1 12 MonthAlias;
      day_of_week ← parse_cron_field f4 0 7 WeekdayAlias;
      Ok {| ce_minute := minute; ce_hour := hour; ce_day_of_month := day_of_month;
            ce_month := month; ce_day_of_week := day_of_week |}
  | _ => Err ("cron expression must use 5 fields: minute hour day_of_month month "
              +:+ "day_of_week")
  end.

(** Civil time of an instant in a time zone; the weekday counts from Sunday. *)
Record civil := { c_minute : Z; c_hour : Z; c_day : Z; c_month : Z; c_weekday : Z }.

Section cron.
(** [Utc.timestamp_opt(ts, 0).single()] then [with_timezone]; [None] for a
    timestamp out of range. *)
Context (local_time : string → Z → option civil).

Definition cron_matches (expr : CronExpression) (unix_ts : Z) (timezone : string) : bool :=
  match local_time timezone unix_ts with
  | None => false
  | Some local =>
      if negb (field_matches (ce_minute expr) (c_minute local))
         || negb (field_matches (ce_hour expr) (c_hour local))
         || negb (field_matches (ce_month expr) (c_month local))
      then false
      else
        let day_of_month_match := field_matches (ce_day_of_month expr) (c_day local) in
        let day_of_week_match := field_matches (ce_day_of_week expr) (c_weekday local) in
        if cf_any (ce_day_of_month expr) || cf_any (ce_day_of_week expr)
        then day_of_month_match && day_of_week_match
        else day_of_month_match || day_of_week_match
  end.

Definition cron_step (cron : CronExpression) (timezone : string) (candidate : Z) : Z + Z :=
  if cron_matches cron candidate timezone then inr candidate
  else inl (i64_sat_add candidate 60).

(** The search loop of [compute_next_run_at]; [/] truncates. *)
Definition next_cron_run (cron : CronExpression) (timezone : string) (base : Z) : option Z :=
  match for_pos (cron_step cron timezone) MAX_CRON_SEARCH_MINUTES
          ((Z.quot base 60 + 1) * 60)%Z with
  | inr candidate => Some candidate
  | inl _ => None
  end.
End cron.

(** ** Fields *)
Definition range_member (start step end_ v : Z) : Prop :=
  ∃ k, (0 ≤ k)%Z ∧ v = (start + k * step)%Z ∧ (v ≤ end_)%Z.

Lemma insert_range_spec fuel aliases step end_ value values v :
  (1 ≤ step)%Z → (0 ≤ value)%Z → (end_ ≤ u32_max)%Z → (end_ - value < Z.of_nat fuel)%Z →
  v ∈ insert_range fuel aliases step end_ value values ↔
  v ∈ values ∨ ∃ u, range_member value step end_ u ∧ v = normalize_weekday aliases u.
Proof.
  revert value values. induction fuel as [|fuel IH]; intros value values Hs Hv He Hf.
  { simpl. split; [by left|]. intros [?|(u & (k & ? & -> & ?) & _)]; [done|]. nia. }
  cbn [insert_range]. destruct (bool_decide (value ≤ end_)%Z) eqn:Ele.
  2:{ apply bool_decide_eq_false in Ele. split; [by left|].
      intros [?|(u & (k & ? & -> & ?) & _)]; [done|]. nia. }
  apply bool_decide_eq_true in Ele.
  assert (∀ u, range_member value step end_ u ↔ u = value ∨ range_member (value + step) step end_ u)
    as Hsplit.
  { intros u. split.
    - intros (k & Hk & -> & Hle). destruct (decide (k = 0%Z)) as [->|]; [left; lia|right].
      exists (k - 1)%Z. split; [lia|]. split; [lia|done].
    - intros [->|(k & Hk & -> & Hle)]; [exists 0%Z; lia|].
      exists (k + 1)%Z. split; [lia|]. split; [lia|done]. }
  destruct (bool_decide (value + step ≤ u32_max)%Z) eqn:Eov.
  - rewrite IH by lia. setoid_rewrite Hsplit. rewrite elem_of_union, elem_of_singleton.
    naive_solver.
  - apply bool_decide_eq_false in Eov. setoid_rewrite Hsplit.
    rewrite elem_of_union, elem_of_singleton. split; [naive_solver|].
    intros [?|(u & [->|(k & ? & -> & ?)] & ->)]; [by right|by left|]. nia.
Qed.

Lemma parse_cron_atom_bounds raw min max aliases v :
  parse_cron_atom raw min max aliases = Ok v → (min ≤ v ≤ max)%Z.
Proof.
  unfold parse_cron_atom. intros (x & _ & H)%bind_Ok.
  destruct (bool_decide (x < min)%Z) eqn:E1; [done|].
  destruct (bool_decide (max < x)%Z) eqn:E2; [done|]. injection H as <-.
  apply bool_decide_eq_false in E1, E2. lia.
Qed.

Lemma parse_cron_segment_bounds raw min max aliases values values' :
  (0 ≤ min)%Z → (max ≤ u32_max)%Z → (min = 0 ∨ aliases ≠ WeekdayAlias)%Z → (min ≤ max)%Z →
  parse_cron_segment raw min max aliases values = Ok values' →
  (∀ v, v ∈ values' → v ∈ values ∨ (min ≤ v ≤ max)%Z
     ∧ (aliases = WeekdayAlias → v ≠ 7%Z)).
Proof.
  intros Hmin Hmax Hal Hle H. unfold parse_cron_segment in H.
  apply bind_Ok in H as ([range_raw step] & Hstep & H).
  apply bind_Ok in H as ([start end_] & Hrange & H).
  destruct (bool_decide (end_ < start)%Z) eqn:E; [done|].
  assert (values' = insert_range (S (Z.to_nat (end_ - start))) aliases step end_ start values)
    as -> by congruence. clear H.
  apply bool_decide_eq_false in E.
  assert (1 ≤ step)%Z as Hs.
  { destruct (split_once "/" raw) as [[range step_raw]|]; [|by injection Hstep as _ <-].
    apply bind_Ok in Hstep as (st & Hst%ok_or_Ok%parse_unsigned_range & H).
    destruct (bool_decide (st = 0%Z)) eqn:E0; [done|]. injection H as _ <-.
    apply bool_decide_eq_false in E0. lia. }
  assert (min ≤ start ∧ end_ ≤ max)%Z as [Hst Hen].
  { destruct (String.eqb range_raw "*"); [injection Hrange as <- <-; lia|].
    destruct (split_once "-" range_raw) as [[s_raw e_raw]|].
    - apply bind_Ok in Hrange as (a & Ha%parse_cron_atom_bounds & Hrange).
      apply bind_Ok in Hrange as (b & Hb%parse_cron_atom_bounds & [= <- <-]). lia.
    - apply bind_Ok in Hrange as (a & Ha%parse_cron_atom_bounds & [= <- <-]). lia. }
  intros v. rewrite insert_range_spec by lia.
  intros [?|(u & (k & Hk & -> & Hu) & ->)]; [by left|right].
  unfold normalize_weekday. destruct (bool_decide (aliases = WeekdayAlias)) eqn:Ea; simpl.
  - apply bool_decide_eq_true in Ea. destruct Hal as [->|Hal]; [|done].
    destruct (bool_decide _) eqn:E7; [lia|]. apply bool_decide_eq_false in E7. split; [nia|done].
  - apply bool_decide_eq_false in Ea. split; [nia|done].
Qed.

(** The values a field may take. *)
Definition field_in (f : CronField) (min max : Z) (weekday : bool) : Prop :=
  ∀ v, v ∈ cf_values f → (min ≤ v ≤ max)%Z ∧ (weekday = true → v ≠ 7%Z).

Lemma parse_cron_field_bounds raw min max aliases f :
  (0 ≤ min)%Z → (max ≤ u32_max)%Z → (min = 0 ∨ aliases ≠ WeekdayAlias)%Z → (min ≤ max)%Z →
  parse_cron_field raw min max aliases = Ok f →
  field_in f min max (bool_decide (aliases = WeekdayAlias))
  ∧ (cf_any f = false → ∃ v, v ∈ cf_values f).
Proof.
  intros Hmin Hmax Hal Hle. unfold parse_cron_field, field_in.
  destruct (String.eqb raw "*"); [intros [= <-]; simpl; split; [set_solver|done]|].
  intros (values & Hv & H)%bind_Ok. destruct (bool_decide (values = ∅)) eqn:E; [done|].
  injection H as <-. simpl. apply bool_decide_eq_false in E. split.
  - setoid_rewrite bool_decide_eq_true.
    refine (for_fold_inv (λ vs : gset Z, ∀ v, v ∈ vs → (min ≤ v ≤ max)%Z
      ∧ (aliases = WeekdayAlias → v ≠ 7%Z)) _ _ _ _ _ _ Hv); [set_solver|].
    intros c x c' _ Hc Hx v Hv'.
    destruct (parse_cron_segment_bounds _ _ _ _ _ _ Hmin Hmax Hal Hle Hx v Hv'); [by apply Hc|done].
  - intros _. by apply set_choose_L in E.
Qed.

Lemma any_or_some f :
  (cf_any f = false → ∃ v, v ∈ cf_values f) → cf_any f = true ∨ ∃ v, v ∈ cf_values f.
Proof. destruct (cf_any f); auto. Qed.

(** A cron expression that is accepted has five fields, and each field
    matches everything or a non-empty set of values of its calendar range;
    Sunday is always 0 there, never 7. *)
Theorem parse_cron_expression_bounds (raw : string) (e : CronExpression)
    (H : parse_cron_expression raw = Ok e) :
  length (split_whitespace raw) = 5
  ∧ field_in (ce_minute e) 0 59 false ∧ field_in (ce_hour e) 0 23 false
  ∧ field_in (ce_day_of_month e) 1 31 false ∧ field_in (ce_month e) 1 12 false
  ∧ field_in (ce_day_of_week e) 0 6 false
  ∧ Forall (λ f, cf_any f = true ∨ ∃ v, v ∈ cf_values f)
      [ce_minute e; ce_hour e; ce_day_of_month e; ce_month e; ce_day_of_week e].
Proof.
  unfold parse_cron_expression in H.
  destruct (split_whitespace raw) as [|f0 [|f1 [|f2 [|f3 [|f4 [|]]]]]]; try done.
  apply bind_Ok in H as (mi & Hmi & H). apply bind_Ok in H as (ho & Hho & H).
  apply bind_Ok in H as (dm & Hdm & H). apply bind_Ok in H as (mo & Hmo & H).
  apply bind_Ok in H as (dw & Hdw & [= <-]). simpl.
  pose proof (parse_cron_field_bounds f0 0 59 NoAlias mi ltac:(done) ltac:(done) ltac:(right; discriminate) ltac:(done) Hmi)
    as [Bmi Nmi].
  pose proof (parse_cron_field_bounds f1 0 23 NoAlias ho ltac:(done) ltac:(done) ltac:(right; discriminate) ltac:(done) Hho)
    as [Bho Nho].
  pose proof (parse_cron_field_bounds f2 1 31 NoAlias dm ltac:(done) ltac:(done) ltac:(right; discriminate) ltac:(done) Hdm)
    as [Bdm Ndm].
  pose proof (parse_cron_field_bounds f3 1 12 MonthAlias mo ltac:(done) ltac:(done) ltac:(right; discriminate) ltac:(done) Hmo)
    as [Bmo Nmo].
  pose proof (parse_cron_field_bounds f4 0 7 WeekdayAlias dw ltac:(done) ltac:(done) ltac:(left; reflexivity) ltac:(done) Hdw)
    as [Bdw Ndw].
  do 5 (split; [done|]). split.
  - intros v Hv. split; [|done]. destruct (Bdw v Hv) as [? H7]. specialize (H7 eq_refl). lia.
  - rewrite !Forall_cons. repeat split; auto using any_or_some.
Qed.
Lemma parse_cron_expression_bounds_witness :
  ∃ e, parse_cron_expression "*/15 9-17 * jan-mar sun,7" = Ok e
    ∧ field_in (ce_day_of_week e) 0 6 false.
Proof.
  eexists. split; [vm_compute; reflexivity|].
  exact (proj1 (proj2 (proj2 (proj2 (proj2 (proj2
    (parse_cron_expression_bounds "*/15 9-17 * jan-mar sun,7" _ eq_refl))))))).
Defined.

(** ** The next run *)
Lemma cron_search local_time cron timezone n start :
  (start + 60 * Z.of_nat n ≤ i64_max)%Z → (i64_min ≤ start)%Z →
  match for_nat (cron_step local_time cron timezone) n start with
  | inr t => ∃ k, (0 ≤ k < Z.of_nat n)%Z ∧ t = (start + 60 * k)%Z
      ∧ cron_matches local_time cron t timezone = true
      ∧ ∀ j, (0 ≤ j < k)%Z → cron_matches local_time cron (start + 60 * j) timezone = false
  | inl _ => ∀ j, (0 ≤ j < Z.of_nat n)%Z →
      cron_matches local_time cron (start + 60 * j) timezone = false
  end.
Proof.
  revert start. induction n as [|n IH]; intros start Hmax Hmin; [simpl; lia|].
  cbn [for_nat]. unfold cron_step at 1.
  destruct (cron_matches local_time cron start timezone) eqn:E.
  { exists 0%Z. split; [lia|]. split; [lia|]. split; [done|lia]. }
  assert (i64_sat_add start 60 = start + 60)%Z as ->.
  { unfold_widths. lia. }
  specialize (IH (start + 60)%Z).
  assert (∀ j, (0 ≤ j)%Z → (start + 60 + 60 * j)%Z = (start + 60 * (j + 1))%Z) as Hj by lia.
  destruct (for_nat _ n (start + 60)%Z) as [s|t].
  - intros j Hjn. destruct (decide (j = 0)%Z) as [->|].
    { by replace (start + 60 * 0)%Z with start by lia. }
    specialize (IH ltac:(lia) ltac:(lia) (j - 1)%Z ltac:(lia)). rewrite Hj in IH by lia.
    by replace (j - 1 + 1)%Z with j in IH by lia.
  - destruct IH as (k & Hk & -> & Hm & Hprev); [lia..|].
    exists (k + 1)%Z. split; [lia|]. split; [lia|]. split; [done|].
    intros j Hjk. destruct (decide (j = 0)%Z) as [->|].
    { by replace (start + 60 * 0)%Z with start by lia. }
    specialize (Hprev (j - 1)%Z ltac:(lia)). rewrite Hj in Hprev by lia.
    by replace (j - 1 + 1)%Z with j in Hprev by lia.
Qed.

(** C30: The next cron run is the right one: strictly after the last run, on a
    whole minute, matching the expression in the zone, with no earlier matching
    minute skipped; and the search only gives up when nothing matches in the
    next five years. *)
Theorem next_cron_run_exact (local_time : string → Z → option civil) (cron : CronExpression)
    (timezone : string) (base : Z)
    (Hbase : (0 ≤ base ≤ i64_max - 60 * (Zpos MAX_CRON_SEARCH_MINUTES + 1))%Z) :
  match next_cron_run local_time cron timezone base with
  | Some t => (base < t)%Z ∧ (t mod 60 = 0)%Z ∧ cron_matches local_time cron t timezone = true
      ∧ ∀ t', (base < t' < t)%Z → (t' mod 60 = 0)%Z →
          cron_matches local_time cron t' timezone = false
  | None => ∀ t', (base < t' ≤ base + 60 * (Zpos MAX_CRON_SEARCH_MINUTES))%Z →
      (t' mod 60 = 0)%Z → cron_matches local_time cron t' timezone = false
  end.
Proof.
  unfold next_cron_run. rewrite for_pos_nat.
  rewrite Z.quot_div_nonneg by lia. set (q := (base / 60)%Z).
  assert (60 * q ≤ base < 60 * q + 60)%Z as Hq.
  { subst q. pose proof (Z.div_mod base 60 ltac:(lia)).
    pose proof (Z.mod_pos_bound base 60 ltac:(lia)). lia. }
  pose proof (cron_search local_time cron timezone (Pos.to_nat MAX_CRON_SEARCH_MINUTES)
    ((q + 1) * 60)) as Hs.
  assert (Z.of_nat (Pos.to_nat MAX_CRON_SEARCH_MINUTES) = Zpos MAX_CRON_SEARCH_MINUTES) as Hn
    by apply positive_nat_Z.
  rewrite Hn in Hs.
  assert (∀ t', (base < t')%Z → (t' mod 60 = 0)%Z →
    ∃ j, (0 ≤ j)%Z ∧ t' = ((q + 1) * 60 + 60 * j)%Z) as Hgrid.
  { intros t' Ht Hm. exists (t' / 60 - (q + 1))%Z.
    pose proof (Z.div_mod t' 60 ltac:(lia)) as Hd. rewrite Hm in Hd. lia. }
  unfold_widths. destruct (for_nat _ _ _) as [s|t].
  - intros t' Ht Hm. destruct (Hgrid t') as (j & Hj & ->); [lia|done|].
    apply Hs; lia.
  - destruct Hs as (k & Hk & -> & Hm & Hprev); [lia..|].
    split; [lia|]. split.
    { replace ((q + 1) * 60 + 60 * k)%Z with ((q + 1 + k) * 60)%Z by lia. apply Z.mod_mul. lia. }
    split; [done|]. intros t' Ht Hm'. destruct (Hgrid t') as (j & Hj & ->); [lia|done|].
    apply Hprev. lia.
Qed.

(** UTC arithmetic for a concrete instance: minutes and hours of the day. *)
Definition demo_local_time (timezone : string) (ts : Z) : option civil :=
  Some {| c_minute := ts / 60 mod 60; c_hour := ts / 3600 mod 24; c_day := 1; c_month := 1;
          c_weekday := (ts / 86400 + 4) mod 7 |}.
Lemma next_cron_run_exact_witness :
  ∃ cron, parse_cron_expression "30 9 * * *" = Ok cron
    ∧ next_cron_run demo_local_time cron "UTC" 1000000 = Some 1071000%Z
    ∧ cron_matches demo_local_time cron 1071000 "UTC" = true.
Proof.
  eexists. split; [vm_compute; reflexivity|].
  match goal with |- next_cron_run _ ?c _ _ = _ ∧ _ =>
    pose proof (next_cron_run_exact demo_local_time c "UTC" 1000000 ltac:(vm_compute; split; discriminate)) as H;
    assert (next_cron_run demo_local_time c "UTC" 1000000 = Some 1071000%Z) as E
      by (vm_compute; reflexivity)
  end.
  split; [exact E|]. rewrite E in H. exact (proj1 (proj2 (proj2 H))).
Defined.
