(* ===== verification/Scheduler.v ===== *)
(** * The job scheduler

    [src/src/orchestration/scheduler.rs]: the job store and the worker that
    dispatches due jobs into the incoming queue.  The files of a runtime root are
    maps from path to record; [sf_dirs] holds the directories that were created.
    Time zones, the JSON text of an envelope and of a log line are parameters. *)
From S2P Require Import Prelude RustStr RustPath Io Json QueueMessage SlackTarget Cron RunStore.
From Stdlib Require Import Ascii.

Local Open Scope string_scope.
Local Open Scope list_scope.

Inductive JobState := Enabled | Paused | Disabled | Deleted.
#[export] Instance JobState_eq_dec : EqDecision JobState.
Proof. solve_decision. Defined.

Inductive MisfirePolicy := FireOnceOnRecovery | SkipMissed.
#[export] Instance MisfirePolicy_eq_dec : EqDecision MisfirePolicy.
Proof. solve_decision. Defined.

Inductive ScheduleConfig :=
  | Once (run_at : Z)
  | Interval (every_seconds : Z) (anchor_at : option Z)
  | Cron (expression timezone : string).

Inductive TargetAction :=
  | WorkflowStart (workflow_id : string) (inputs : JMap)
  | CommandInvoke (function_id : string) (function_args : JMap).

Record ScheduledJob := {
  sj_job_id : string;
  sj_orchestrator_id : string;
  sj_created_by : JMap;
  sj_schedule : ScheduleConfig;
  sj_target_action : TargetAction;
  sj_target_ref : option Value;
  sj_state : JobState;
  sj_misfire_policy : MisfirePolicy;
  sj_next_run_at : option Z;
  sj_last_run_at : option Z;
  sj_last_result : option string;
  sj_allow_overlap : bool;
  sj_created_at : Z;
  sj_updated_at : Z;
}.

(** The fields the store and the worker assign. *)
Definition set_job (state : JobState) (next last : option Z) (res : option string)
    (updated_at : Z) (j : ScheduledJob) : ScheduledJob :=
  {| sj_job_id := sj_job_id j; sj_orchestrator_id := sj_orchestrator_id j;
     sj_created_by := sj_created_by j; sj_schedule := sj_schedule j;
     sj_target_action := sj_target_action j; sj_target_ref := sj_target_ref j;
     sj_state := state; sj_misfire_policy := sj_misfire_policy j; sj_next_run_at := next;
     sj_last_run_at := last; sj_last_result := res; sj_allow_overlap := sj_allow_overlap j;
     sj_created_at := sj_created_at j; sj_updated_at := updated_at |}.

Record NewJob := {
  nj_orchestrator_id : string;
  nj_created_by : JMap;
  nj_schedule : ScheduleConfig;
  nj_target_action : TargetAction;
  nj_target_ref : option Value;
  nj_misfire_policy : MisfirePolicy;
  nj_allow_overlap : bool;
}.

Record JobPatch := {
  jp_schedule : option ScheduleConfig;
  jp_target_action : option TargetAction;
  jp_target_ref : option (option Value);
  jp_misfire_policy : option MisfirePolicy;
  jp_allow_overlap : option bool;
}.

Record ScheduledTriggerEnvelope := {
  te_job_id : string;
  te_execution_id : string;
  te_triggered_at : Z;
  te_orchestrator_id : string;
  te_target_action : TargetAction;
  te_target_ref : option Value;
}.

Inductive RunStatus := Dispatched | SkippedMissed | SkippedDuplicate | Completed | RunFailed.
Record ActiveExecution := { ae_job_id : string; ae_execution_id : string; ae_started_at : Z }.
Record RunRecord := {
  rr_job_id : string;
  rr_execution_id : string;
  rr_triggered_at : Z;
  rr_status : RunStatus;
  rr_created_at : Z;
}.
Record SchedulerState := {
  ss_last_tick_at : option Z;
  ss_recent_execution_ids : list string;
  ss_active_executions : list ActiveExecution;
}.
Definition SchedulerState_default : SchedulerState :=
  {| ss_last_tick_at := None; ss_recent_execution_ids := []; ss_active_executions := [] |}.
Definition STALE_ACTIVE_EXECUTION_MAX_AGE_SECS : Z := 86400.
Record DispatchedRun := { dr_job_id : string; dr_execution_id : string; dr_triggered_at : Z }.

(** ** The files under a runtime root *)
Record sched_fs := {
  sf_dirs : gset string;
  sf_jobs : gmap string (stored ScheduledJob);
  sf_runs : gmap string (stored RunRecord);
  sf_state : option (stored SchedulerState);
  sf_incoming : gmap string IncomingMessage;
  sf_log : list string;
}.

Definition mkdir (path : string) (s : sched_fs) : sched_fs * result io_error () :=
  ({| sf_dirs := {[path]} ∪ sf_dirs s; sf_jobs := sf_jobs s; sf_runs := sf_runs s;
      sf_state := sf_state s; sf_incoming := sf_incoming s; sf_log := sf_log s |}, Ok ()).
Definition put_job (path : string) (job : ScheduledJob) (s : sched_fs) :
    sched_fs * result io_error () :=
  ({| sf_dirs := sf_dirs s; sf_jobs := <[path := Parsed job]> (sf_jobs s);
      sf_runs := sf_runs s; sf_state := sf_state s; sf_incoming := sf_incoming s;
      sf_log := sf_log s |}, Ok ()).
Definition put_run_record (path : string) (record : RunRecord) (s : sched_fs) :
    sched_fs * result io_error () :=
  ({| sf_dirs := sf_dirs s; sf_jobs := sf_jobs s;
      sf_runs := <[path := Parsed record]> (sf_runs s); sf_state := sf_state s;
      sf_incoming := sf_incoming s; sf_log := sf_log s |}, Ok ()).
Definition put_state (state : SchedulerState) (s : sched_fs) : sched_fs * result io_error () :=
  ({| sf_dirs := sf_dirs s; sf_jobs := sf_jobs s; sf_runs := sf_runs s;
      sf_state := Some (Parsed state); sf_incoming := sf_incoming s; sf_log := sf_log s |}, Ok ()).
Definition put_incoming (path : string) (m : IncomingMessage) (s : sched_fs) :
    sched_fs * result io_error () :=
  ({| sf_dirs := sf_dirs s; sf_jobs := sf_jobs s; sf_runs := sf_runs s;
      sf_state := sf_state s; sf_incoming := <[path := m]> (sf_incoming s);
      sf_log := sf_log s |}, Ok ()).
Definition put_log_line (line : string) (s : sched_fs) : sched_fs * result io_error () :=
  ({| sf_dirs := sf_dirs s; sf_jobs := sf_jobs s; sf_runs := sf_runs s;
      sf_state := sf_state s; sf_incoming := sf_incoming s;
      sf_log := sf_log s ++ [line] |}, Ok ()).

(** [fs::read_dir]: the files whose parent is the directory. *)
Definition dir_entries {A} (dir : string) (m : gmap string A) : list string :=
  filter (λ p, path_parent p = Some dir) (map_to_list m).*1.

(** ** Rules without state *)
Definition validate_iana_timezone (valid_tz : string → bool) (raw : string) : result string () :=
  reject_if (negb (valid_tz raw)) ("invalid timezone `" +:+ raw
    +:+ "`; expected IANA timezone id").

Definition compute_next_run_at (valid_tz : string → bool)
    (local_time : string → Z → option civil) (schedule : ScheduleConfig) (now : Z)
    (last_run_at : option Z) : result string (option Z) :=
  match schedule with
  | Once run_at => Ok (match last_run_at with Some _ => None | None => Some run_at end)
  | Interval every_seconds anchor_at =>
      if decide (every_seconds = 0%Z) then Err "interval.every_seconds must be >= 1" else
      Ok (Some (match last_run_at with
                | Some last => i64_sat_add last (u64_as_i64 every_seconds)
                | None => i64_sat_add (from_option id now anchor_at) (u64_as_i64 every_seconds)
                end))
  | Cron expression timezone =>
      validate_iana_timezone valid_tz timezone ;;
      cron ← parse_cron_expression expression;
      candidate ← ok_or ("unable to compute next run for cron expression `" +:+ expression
                         +:+ "` in timezone `" +:+ timezone +:+ "`")
        (next_cron_run local_time cron timezone (from_option id now last_run_at));
      Ok (Some candidate)
  end.

Definition compute_recovery_next_run_at (valid_tz : string → bool)
    (local_time : string → Z → option civil) (schedule : ScheduleConfig) (now : Z) :
    result string (option Z) :=
  match schedule with
  | Once _ => Ok None
  | Interval _ _ | Cron _ _ => compute_next_run_at valid_tz local_time schedule now (Some now)
  end.

Definition validate_schedule (valid_tz : string → bool) (schedule : ScheduleConfig) :
    result string () :=
  match schedule with
  | Once _ => Ok ()
  | Interval every_seconds _ =>
      reject_if (bool_decide (every_seconds = 0%Z)) "interval.every_seconds must be >= 1" ;;
      reject_if (bool_decide (31536000 < every_seconds)%Z)
        "interval.every_seconds must be <= 31536000"
  | Cron expression timezone =>
      parse_cron_expression expression ;;
      validate_iana_timezone valid_tz timezone
  end.

Definition validate_target_action (action : TargetAction) : result string () :=
  match action with
  | WorkflowStart workflow_id _ =>
      reject_if (is_empty (trim workflow_id))
        "target_action.workflow_start.workflow_id must be non-empty"
  | CommandInvoke function_id _ =>
      reject_if (is_empty (trim function_id))
        "target_action.command_invoke.function_id must be non-empty"
  end.

Definition validate_target_ref (target_ref : option Value) : result string () :=
  match target_ref with
  | None => Ok ()
  | Some value =>
      parsed ← parse_slack_target_ref value "target_ref";
      match parsed with
      | Some target =>
          reject_if (negb (is_object (slack_target_ref_to_value target)))
            "target_ref slack normalization failed"
      | None => Ok ()
      end
  end.

Definition valid_transition (from to : JobState) : bool :=
  match from with
  | Enabled => match to with Paused | Disabled | Deleted => true | _ => false end
  | Paused => match to with Enabled | Disabled | Deleted => true | _ => false end
  | Disabled => match to with Enabled | Deleted => true | _ => false end
  | Deleted => false
  end.

Definition state_name (state : JobState) : string :=
  match state with
  | Enabled => "enabled" | Paused => "paused" | Disabled => "disabled" | Deleted => "deleted"
  end.

Definition sanitize_id (raw : string) : string := map_chars_else is_ascii_alphanumeric "-" raw.

(** [Value::from(i64)] *)
Definition value_of_i64 (n : Z) : Value :=
  VNumber (if decide (0 ≤ n)%Z then NPosInt n else NNegInt n).

Section scheduler.
Context (runtime_root : string).
Context (valid_tz : string → bool) (local_time : string → Z → option civil).
Context (encode_envelope : ScheduledTriggerEnvelope → string).
Context (json_to_string : Value → string).

Notation next_run := (compute_next_run_at valid_tz local_time).
Notation recovery_next_run := (compute_recovery_next_run_at valid_tz local_time).

(** ** [JobStore] *)
Definition jobs_dir : string := path_join runtime_root "automation/jobs".
Definition job_path (job_id : string) : string := path_join jobs_dir (job_id +:+ ".json").

(** [fs] errors become text: [context], the path and the error. *)
Definition fs_err (context path : string) (e : io_error) : string :=
  "failed to " +:+ context +:+ " " +:+ path +:+ ": " +:+ ioe_display e.

Definition persist_job (job : ScheduledJob) : IO sched_fs string () :=
  io_map_err (λ e, "failed to create jobs dir: " +:+ ioe_display e) (sys (mkdir jobs_dir)) ;;
  let path := job_path (sj_job_id job) in
  io_map_err (fs_err "write" path) (sys (put_job path job)).

Definition parse_stored {A} (path : string) (raw : stored A) : IO sched_fs string A :=
  match raw with
  | Parsed a => mret a
  | Corrupt e => throw ("failed to parse " +:+ path +:+ ": " +:+ e)
  end.

Definition read_job (path : string) : IO sched_fs string ScheduledJob :=
  raw ← io_map_err (fs_err "read" path)
          (sys (λ s, (s, ok_or not_found (sf_jobs s !! path))));
  parse_stored path raw.
Definition load (job_id : string) : IO sched_fs string ScheduledJob :=
  read_job (job_path job_id).

Definition job_le (a b : ScheduledJob) : Prop := String.le (sj_job_id a) (sj_job_id b).
#[global] Instance job_le_dec : RelDecision job_le := λ a b, decide (String.le _ _).

Definition list_all : IO sched_fs string (list ScheduledJob) :=
  s ← get;
  if decide (jobs_dir ∉ sf_dirs s) then mret [] else
  entries ← io_map_err (fs_err "read" jobs_dir)
              (sys (λ s, (s, Ok (dir_entries jobs_dir (sf_jobs s)))));
  jobs ← io_for_fold (λ jobs path,
    if negb (bool_decide (extension path = Some "json")) then mret jobs
    else job ← read_job path; mret (jobs ++ [job])) entries [];
  mret (merge_sort job_le jobs).

Definition list_for_orchestrator (orchestrator_id : string) :
    IO sched_fs string (list ScheduledJob) :=
  jobs ← list_all;
  mret (filter (λ job, sj_orchestrator_id job = orchestrator_id) jobs).

Definition create (input : NewJob) (now : Z) : IO sched_fs string ScheduledJob :=
  lift (validate_schedule valid_tz (nj_schedule input)) ;;
  lift (validate_target_action (nj_target_action input)) ;;
  lift (validate_target_ref (nj_target_ref input)) ;;
  if is_empty (trim (nj_orchestrator_id input)) then
    throw "orchestrator_id must be non-empty"
  else
    now_nanos ← read_clock;
    let job_id := "job-" +:+ sanitize_id (nj_orchestrator_id input) +:+ "-"
                  +:+ fmt_int (Z.abs now_nanos) in
    next_run_at ← lift (next_run (nj_schedule input) now None);
    let job := {|
      sj_job_id := job_id; sj_orchestrator_id := nj_orchestrator_id input;
      sj_created_by := nj_created_by input; sj_schedule := nj_schedule input;
      sj_target_action := nj_target_action input; sj_target_ref := nj_target_ref input;
      sj_state := Enabled; sj_misfire_policy := nj_misfire_policy input;
      sj_next_run_at := next_run_at; sj_last_run_at := None; sj_last_result := None;
      sj_allow_overlap := nj_allow_overlap input; sj_created_at := now;
      sj_updated_at := now |} in
    persist_job job ;;
    mret job.

(** The fields a patch assigns, in the code's order. *)
Definition apply_patch (patch : JobPatch) (now : Z) (job : ScheduledJob) :
    result string ScheduledJob :=
  '(schedule, next_run_at) ← match jp_schedule patch with
    | Some schedule =>
        validate_schedule valid_tz schedule ;;
        next ← next_run schedule now (sj_last_run_at job);
        Ok (schedule, next)
    | None => Ok (sj_schedule job, sj_next_run_at job)
    end;
  target_action ← match jp_target_action patch with
    | Some action => validate_target_action action ;; Ok action
    | None => Ok (sj_target_action job)
    end;
  target_ref ← match jp_target_ref patch with
    | Some target_ref => validate_target_ref target_ref ;; Ok target_ref
    | None => Ok (sj_target_ref job)
    end;
  Ok {| sj_job_id := sj_job_id job; sj_orchestrator_id := sj_orchestrator_id job;
        sj_created_by := sj_created_by job; sj_schedule := schedule;
        sj_target_action := target_action; sj_target_ref := target_ref;
        sj_state := sj_state job;
        sj_misfire_policy := from_option id (sj_misfire_policy job) (jp_misfire_policy patch);
        sj_next_run_at := next_run_at; sj_last_run_at := sj_last_run_at job;
        sj_last_result := sj_last_result job;
        sj_allow_overlap := from_option id (sj_allow_overlap job) (jp_allow_overlap patch);
        sj_created_at := sj_created_at job; sj_updated_at := now |}.

Definition update (job_id : string) (patch : JobPatch) (now : Z) :
    IO sched_fs string ScheduledJob :=
  job ← load job_id;
  if decide (sj_state job = Deleted) then throw ("job `" +:+ job_id +:+ "` is deleted") else
  job ← lift (apply_patch patch now job);
  persist_job job ;;
  mret job.

Definition transition_state (job_id : string) (to : JobState) (now : Z) :
    IO sched_fs string ScheduledJob :=
  job ← load job_id;
  if negb (valid_transition (sj_state job) to) then
    throw ("invalid scheduler job transition `" +:+ state_name (sj_state job) +:+ "` -> `"
           +:+ state_name to +:+ "`")
  else
    let job := set_job to (sj_next_run_at job) (sj_last_run_at job) (sj_last_result job) now job in
    persist_job job ;;
    mret job.
Definition pause (job_id : string) (now : Z) := transition_state job_id Paused now.
Definition resume (job_id : string) (now : Z) := transition_state job_id Enabled now.
Definition delete_job (job_id : string) (now : Z) := transition_state job_id Deleted now.

Definition run_now (job_id : string) (now : Z) : IO sched_fs string ScheduledJob :=
  job ← load job_id;
  if negb (bool_decide (sj_state job = Enabled)) then
    throw ("job `" +:+ job_id +:+ "` must be enabled before run_now (state="
           +:+ state_name (sj_state job) +:+ ")")
  else
    let job := set_job (sj_state job) (Some now) (sj_last_run_at job) (sj_last_result job)
                 now job in
    persist_job job ;;
    mret job.

(** ** [SchedulerWorker] *)

(** [let _ = append_orchestrator_log_line(..)]: failures are ignored. *)
Definition append_log_value (payload : Value) : IO sched_fs string () :=
  _ ← attempt (sys (mkdir (path_join runtime_root "logs")) ;;
               sys (put_log_line (json_to_string payload)));
  mret ().

Definition stale (now : Z) (active : ActiveExecution) : bool :=
  negb (bool_decide (i64_sat_sub now (ae_started_at active)
                     ≤ STALE_ACTIVE_EXECUTION_MAX_AGE_SECS)%Z).

Definition recover_stale_active_executions (state : SchedulerState) (now : Z) :
    IO sched_fs string SchedulerState :=
  retained ← io_for_fold (λ retained active,
    if negb (stale now active) then mret (retained ++ [active])
    else
      append_log_value (VObject (map_from_iter [
        ("event", VString "scheduler.active_execution.recovered");
        ("jobId", VString (ae_job_id active));
        ("executionId", VString (ae_execution_id active));
        ("startedAt", value_of_i64 (ae_started_at active));
        ("timestamp", value_of_i64 now);
        ("reason", VString "stale_timeout")])) ;;
      mret retained) (ss_active_executions state) [];
  mret {| ss_last_tick_at := ss_last_tick_at state;
          ss_recent_execution_ids := ss_recent_execution_ids state;
          ss_active_executions := retained |}.

Definition slack_event_fields (target : SlackTargetRef) : list (string * Value) :=
  [("targetChannelProfileId", VString (st_channel_profile_id target));
   ("targetChannelId", VString (st_channel_id target));
   ("targetPostingMode", VString (posting_mode_str (st_posting_mode target)))]
  ++ match st_thread_ts target with
     | Some thread_ts => [("targetThreadTs", VString thread_ts)]
     | None => []
     end.

Definition append_scheduler_event (event : string) (job : ScheduledJob)
    (execution_id : option string) (now : Z) : IO sched_fs string () :=
  append_log_value (VObject (map_from_iter (
    [("event", VString event); ("jobId", VString (sj_job_id job));
     ("orchestratorId", VString (sj_orchestrator_id job)); ("timestamp", value_of_i64 now)]
    ++ match execution_id with
       | Some execution_id => [("executionId", VString execution_id)]
       | None => []
       end
    ++ match sj_target_ref job with
       | Some target_ref =>
           match parse_slack_target_ref target_ref "target_ref" with
           | Ok (Some target) => slack_event_fields target
           | _ => []
           end
       | None => []
       end))).

Definition trigger_message (envelope : ScheduledTriggerEnvelope) : IncomingMessage :=
  {| im_channel := "scheduler"; im_channel_profile_id := None;
     im_sender := "scheduler:" +:+ te_orchestrator_id envelope;
     im_sender_id := te_job_id envelope; im_message := encode_envelope envelope;
     im_timestamp := te_triggered_at envelope; im_message_id := te_execution_id envelope;
     im_conversation_id := Some ("scheduler:" +:+ te_job_id envelope);
     im_is_direct := false; im_is_thread_reply := false; im_is_mentioned := false;
     im_files := []; im_workflow_run_id := None; im_workflow_step_id := None |}.

Definition incoming_path (execution_id : string) : string :=
  path_join (qp_incoming (from_state_root runtime_root)) (execution_id +:+ ".json").

Definition envelope_for (now : Z) (execution_id : string) (job : ScheduledJob) :
    ScheduledTriggerEnvelope :=
  {| te_job_id := sj_job_id job; te_execution_id := execution_id; te_triggered_at := now;
     te_orchestrator_id := sj_orchestrator_id job;
     te_target_action := sj_target_action job; te_target_ref := sj_target_ref job |}.

Definition enqueue_trigger (envelope : ScheduledTriggerEnvelope) : IO sched_fs string () :=
  let incoming := qp_incoming (from_state_root runtime_root) in
  io_map_err (fs_err "create" incoming) (sys (mkdir incoming)) ;;
  let path := incoming_path (te_execution_id envelope) in
  io_map_err (fs_err "write" path) (sys (put_incoming path (trigger_message envelope))).

Definition runs_dir (job_id : string) : string :=
  path_join (path_join runtime_root "automation/runs") job_id.
Definition run_record_path (job_id execution_id : string) (triggered_at : Z) : string :=
  path_join (runs_dir job_id) (fmt_int triggered_at +:+ "-" +:+ sanitize_id execution_id
                               +:+ ".json").

Definition persist_run_record (job : ScheduledJob) (execution_id : string) (triggered_at : Z)
    (status : RunStatus) (now : Z) : IO sched_fs string () :=
  let dir := runs_dir (sj_job_id job) in
  io_map_err (fs_err "create" dir) (sys (mkdir dir)) ;;
  let path := run_record_path (sj_job_id job) execution_id triggered_at in
  io_map_err (fs_err "write" path) (sys (put_run_record path
    {| rr_job_id := sj_job_id job; rr_execution_id := execution_id;
       rr_triggered_at := triggered_at; rr_status := status; rr_created_at := now |})).

(** The loop of [execution_exists] stops at the first match. *)
Fixpoint find_execution (execution_id : string) (paths : list string) :
    IO sched_fs string bool :=
  match paths with
  | [] => mret false
  | path :: paths =>
      if negb (bool_decide (extension path = Some "json")) then find_execution execution_id paths
      else
        raw ← io_map_err (fs_err "read" path)
                (sys (λ s, (s, ok_or not_found (sf_runs s !! path))));
        record ← parse_stored path raw;
        if String.eqb (rr_execution_id record) execution_id then mret true
        else find_execution execution_id paths
  end.
Definition execution_exists (job_id execution_id : string) : IO sched_fs string bool :=
  let dir := runs_dir job_id in
  s ← get;
  if decide (dir ∉ sf_dirs s) then mret false else
  entries ← io_map_err (fs_err "read" dir)
              (sys (λ s, (s, Ok (dir_entries dir (sf_runs s)))));
  find_execution execution_id entries.

Definition scheduler_state_path : string :=
  path_join runtime_root "automation/scheduler_state.json".
Definition load_state : IO sched_fs string SchedulerState :=
  s ← get;
  match sf_state s with
  | None => mret SchedulerState_default
  | Some _ =>
      raw ← io_map_err (fs_err "read" scheduler_state_path)
              (sys (λ s, (s, ok_or not_found (sf_state s))));
      parse_stored scheduler_state_path raw
  end.
Definition save_state (state : SchedulerState) : IO sched_fs string () :=
  match path_parent scheduler_state_path with
  | Some parent => io_map_err (fs_err "create" parent) (sys (mkdir parent))
  | None => mret ()
  end ;;
  io_map_err (fs_err "write" scheduler_state_path) (sys (put_state state)).

Definition is_skip (p : MisfirePolicy) : bool := bool_decide (p = SkipMissed).
Definition missed (next_run_at now : Z) : bool :=
  bool_decide (next_run_at < now)%Z.

(** The assignments to [job] in the skip and in the dispatch branch. *)
Definition skipped_job (now : Z) (next : option Z) (job : ScheduledJob) : ScheduledJob :=
  set_job (match next with None => Disabled | Some _ => sj_state job end) next
    (sj_last_run_at job) (Some "skipped_missed") now job.
Definition dispatched_job (now : Z) (next : option Z) (job : ScheduledJob) : ScheduledJob :=
  match next with
  | None => set_job Disabled None (Some now) (Some "completed") now job
  | Some _ => set_job (sj_state job) next (Some now) (Some "dispatched") now job
  end.

(** A missed run of a [SkipMissed] job. *)
Definition skip_missed (now : Z) (job : ScheduledJob) : IO sched_fs string () :=
  next ← lift (recovery_next_run (sj_schedule job) now);
  let job := skipped_job now next job in
  persist_job job ;;
  nanos ← read_clock;
  persist_run_record job ("skip-" +:+ fmt_int (Z.abs nanos)) now SkippedMissed now ;;
  append_scheduler_event "scheduler.misfire.skip_missed" job None now.

Definition execution_id_of (job_id : string) (next_run_at : Z) : string :=
  "exec-" +:+ sanitize_id job_id +:+ "-" +:+ fmt_int next_run_at.

(** [recent_execution_ids] keeps its last 2048 entries. *)
Definition push_recent (ids : list string) (id : string) : list string :=
  let ids := ids ++ [id] in
  if bool_decide (2048 < length ids)%nat then drop (length ids - 2048) ids else ids.

(** The run that is enqueued, and the bookkeeping after it. *)
Definition dispatch (now next_run_at : Z) (execution_id : string) (job : ScheduledJob) :
    IO sched_fs string () :=
  enqueue_trigger (envelope_for now execution_id job) ;;
  append_scheduler_event "scheduler.trigger.dispatched" job (Some execution_id) now ;;
  next ← (if missed next_run_at now && negb (is_skip (sj_misfire_policy job)) then
      append_scheduler_event "scheduler.misfire.fire_once"
        (set_job (sj_state job) (sj_next_run_at job) (Some now) (Some "dispatched")
           (sj_updated_at job) job) None now ;;
      lift (recovery_next_run (sj_schedule job) now)
    else lift (next_run (sj_schedule job) now (Some next_run_at)));
  let job := dispatched_job now next job in
  persist_job job ;;
  persist_run_record job execution_id now Dispatched now.

(** One iteration of the loop of [tick]. *)
Definition tick_job (now : Z) (acc : SchedulerState * list DispatchedRun)
    (job : ScheduledJob) : IO sched_fs string (SchedulerState * list DispatchedRun) :=
  let '(state, dispatched) := acc in
  if negb (bool_decide (sj_state job = Enabled)) then mret acc else
  match sj_next_run_at job with
  | None => mret acc
  | Some next_run_at =>
      if bool_decide (now < next_run_at)%Z then mret acc
      else if missed next_run_at now && is_skip (sj_misfire_policy job) then
        skip_missed now job ;; mret acc
      else if negb (sj_allow_overlap job)
              && existsb (λ active, String.eqb (ae_job_id active) (sj_job_id job))
                   (ss_active_executions state) then mret acc
      else
        let execution_id := execution_id_of (sj_job_id job) next_run_at in
        known ← (if existsb (String.eqb execution_id) (ss_recent_execution_ids state)
                 then mret true else execution_exists (sj_job_id job) execution_id);
        if known : bool then
          persist_run_record job execution_id now SkippedDuplicate now ;; mret acc
        else
          dispatch now next_run_at execution_id job ;;
          mret ({| ss_last_tick_at := ss_last_tick_at state;
                   ss_recent_execution_ids :=
                     push_recent (ss_recent_execution_ids state) execution_id;
                   ss_active_executions := ss_active_executions state ++
                     [{| ae_job_id := sj_job_id job; ae_execution_id := execution_id;
                         ae_started_at := now |}] |},
                dispatched ++ [{| dr_job_id := sj_job_id job;
                                  dr_execution_id := execution_id;
                                  dr_triggered_at := now |}])
  end.

Definition tick (now : Z) : IO sched_fs string (list DispatchedRun) :=
  state ← load_state;
  state ← recover_stale_active_executions state now;
  jobs ← list_all;
  '(state, dispatched) ← io_for_fold (tick_job now) jobs (state, []);
  save_state {| ss_last_tick_at := Some now;
                ss_recent_execution_ids := ss_recent_execution_ids state;
                ss_active_executions := ss_active_executions state |} ;;
  mret dispatched.

Definition complete_execution (job_id execution_id : string) (succeeded : bool) (now : Z) :
    IO sched_fs string () :=
  state ← load_state;
  save_state {|
    ss_last_tick_at := ss_last_tick_at state;
    ss_recent_execution_ids := ss_recent_execution_ids state;
    ss_active_executions := filter
      (λ active, ¬ (ae_job_id active = job_id ∧ ae_execution_id active = execution_id))
      (ss_active_executions state) |} ;;
  let event := if succeeded then "scheduler.trigger.completed" else "scheduler.trigger.failed" in
  loaded ← attempt (load job_id);
  match loaded with
  | Ok job =>
      let job := set_job (sj_state job) (sj_next_run_at job) (sj_last_run_at job)
        (Some (if succeeded then "succeeded" else "failed")) now job in
      persist_job job ;;
      persist_run_record job execution_id now (if succeeded then Completed else RunFailed) now ;;
      append_scheduler_event event job (Some execution_id) now
  | Err _ =>
      append_log_value (VObject (map_from_iter [
        ("event", VString event); ("jobId", VString job_id);
        ("executionId", VString execution_id); ("timestamp", value_of_i64 now)]))
  end.
End scheduler.

Definition parse_trigger_envelope
    (decode_envelope : string → result string ScheduledTriggerEnvelope) (message : string) :
    result string ScheduledTriggerEnvelope :=
  envelope ← map_err (λ err, "invalid scheduler trigger payload: " +:+ err)
    (decode_envelope message);
  validate_target_ref (te_target_ref envelope) ;;
  Ok envelope.
