(* ===== verification/SchedulerGuarantees.v ===== *)
(** * What the scheduler guarantees

    One step of the dispatch loop is characterised by [job_step]; the theorems
    about ticks are inductions over the loop with it.  They hold for every
    pattern of I/O errors. *)
From S2P Require Import Prelude RustStr RustPath Io Json QueueMessage SlackTarget Cron RunStore Scheduler.
From Stdlib Require Import Ascii.

Local Open Scope string_scope.
Local Open Scope list_scope.

(** ** Schedules move forward *)
Definition schedule_valid (valid_tz : string → bool) (sc : ScheduleConfig) : Prop :=
  validate_schedule valid_tz sc = Ok () ∧
  match sc with Interval every _ => (0 ≤ every)%Z | _ => True end.
(** Instants far enough from the ends of [i64] for the five-year cron search. *)
Definition instant_ok (t : Z) : Prop :=
  (0 ≤ t ≤ i64_max - 60 * (Zpos MAX_CRON_SEARCH_MINUTES + 1))%Z.

Lemma next_cron_run_later local_time cron timezone base t :
  instant_ok base → next_cron_run local_time cron timezone base = Some t → (base < t)%Z.
Proof.
  intros Hb. unfold next_cron_run. rewrite for_pos_nat, Z.quot_div_nonneg by (unfold instant_ok in Hb; lia).
  assert (60 * (base / 60) ≤ base < 60 * (base / 60) + 60)%Z as Hq.
  { pose proof (Z.div_mod base 60 ltac:(lia)).
    pose proof (Z.mod_pos_bound base 60 ltac:(lia)). lia. }
  pose proof (cron_search local_time cron timezone (Pos.to_nat MAX_CRON_SEARCH_MINUTES)
    ((base / 60 + 1) * 60)) as Hs.
  rewrite (positive_nat_Z MAX_CRON_SEARCH_MINUTES) in Hs.
  unfold instant_ok in Hb. unfold_widths.
  destruct (for_nat _ _ _) as [x|x]; [done|]. intros [= <-].
  destruct Hs as (k & Hk & -> & _); lia.
Qed.

Lemma next_run_later valid_tz local_time sc now t :
  schedule_valid valid_tz sc → instant_ok now →
  compute_next_run_at valid_tz local_time sc now (Some now) = Ok (Some t) → (now < t)%Z.
Proof.
  intros [Hv Hr] Hn. destruct sc as [r|every a|e tz]; simpl in *; [done|..].
  - destruct (decide (every = 0%Z)) as [|Hz]; [done|]. intros [= <-].
    apply bind_Ok in Hv as ([] & _ & Hv%reject_if_Ok). apply bool_decide_eq_false in Hv.
    unfold u64_as_i64. unfold instant_ok in Hn. unfold_widths. case_decide; lia.
  - intros (? & _ & (cron & _ & (c & Hc%ok_or_Ok & [= <-])%bind_Ok)%bind_Ok)%bind_Ok.
    by eapply next_cron_run_later.
Qed.

Section guarantees.
Context (runtime_root : string).
Context (valid_tz : string → bool) (local_time : string → Z → option civil).
Context (encode_envelope : ScheduledTriggerEnvelope → string).
Context (json_to_string : Value → string).

Notation job_path := (job_path runtime_root).
Notation jobs_dir := (jobs_dir runtime_root).
Notation incoming_path := (incoming_path runtime_root).
Notation runs_dir := (runs_dir runtime_root).
Notation run_record_path := (run_record_path runtime_root).
Notation next_run := (compute_next_run_at valid_tz local_time).
Notation recovery_next_run := (compute_recovery_next_run_at valid_tz local_time).
Notation tick_job := (tick_job runtime_root valid_tz local_time encode_envelope json_to_string).
Notation tick := (tick runtime_root valid_tz local_time encode_envelope json_to_string).

(** ** Frames *)
Definition files_after (s : sched_fs) (jobs : gmap string (stored ScheduledJob))
    (runs : gmap string (stored RunRecord)) (inc : gmap string IncomingMessage)
    (s' : sched_fs) : Prop :=
  sf_jobs s' = jobs ∧ sf_runs s' = runs ∧ sf_incoming s' = inc ∧ sf_state s' = sf_state s
  ∧ sf_dirs s ⊆ sf_dirs s'.
Definition unchanged (s s' : sched_fs) : Prop :=
  files_after s (sf_jobs s) (sf_runs s) (sf_incoming s) s'.

Lemma unchanged_refl s : unchanged s s.
Proof using Type. clear valid_tz local_time. by repeat split. Qed.
Lemma files_after_trans s s1 s2 jobs runs inc :
  unchanged s s1 → files_after s1 jobs runs inc s2 → files_after s jobs runs inc s2.
Proof using Type. clear valid_tz local_time.
  intros (_ & _ & _ & ? & ?) (? & ? & ? & ? & ?). repeat split; [done..|congruence|set_solver].
Qed.

Lemma wp_mkdir f p (Φ : result string () → sched_fs → Prop) s :
  (∀ r s', unchanged s s' → Φ r s') → wp false (io_map_err f (sys (mkdir p))) Φ s.
Proof using Type. clear valid_tz local_time.
  intros H. apply wp_map_err, wp_sys.
  - intros _ e. apply H, unchanged_refl.
  - apply H. repeat split; simpl; set_solver.
Qed.
Lemma wp_event v (Φ : result string () → sched_fs → Prop) s :
  (∀ s', unchanged s s' → Φ (Ok ()) s') →
  wp false (append_log_value runtime_root json_to_string v) Φ s.
Proof using Type. clear valid_tz local_time.
  intros H. unfold append_log_value. apply wp_bind, wp_attempt, wp_bind.
  apply wp_sys; [intros _ e; apply wp_ret, H, unchanged_refl|].
  apply wp_sys; [intros _ e|]; apply wp_ret, H; repeat split; simpl; set_solver.
Qed.

Lemma wp_persist_job job (Φ : result string () → sched_fs → Prop) s :
  (∀ e s', unchanged s s' → Φ (Err e) s') →
  (∀ s', files_after s (<[job_path (sj_job_id job) := Parsed job]> (sf_jobs s))
           (sf_runs s) (sf_incoming s) s' → Φ (Ok ()) s') →
  wp false (persist_job runtime_root job) Φ s.
Proof using Type. clear valid_tz local_time.
  intros He Ho. apply wp_bind, wp_mkdir. intros [[]|e] s1 H1; [|by apply He].
  apply wp_map_err, wp_sys; [intros _ e; by apply He|].
  apply Ho. eapply files_after_trans; [done|].
  destruct H1 as (Hj & Hr & Hi & _). rewrite <- Hj, <- Hr, <- Hi. by repeat split.
Qed.
Lemma wp_persist_run_record job exec at_ status now (Φ : result string () → sched_fs → Prop) s :
  (∀ e s', unchanged s s' → Φ (Err e) s') →
  (∀ s', files_after s (sf_jobs s)
           (<[run_record_path (sj_job_id job) exec at_ := Parsed
              {| rr_job_id := sj_job_id job; rr_execution_id := exec; rr_triggered_at := at_;
                 rr_status := status; rr_created_at := now |}]> (sf_runs s))
           (sf_incoming s) s' → Φ (Ok ()) s') →
  wp false (persist_run_record runtime_root job exec at_ status now) Φ s.
Proof using Type. clear valid_tz local_time.
  intros He Ho. apply wp_bind, wp_mkdir. intros [[]|e] s1 H1; [|by apply He].
  apply wp_map_err, wp_sys; [intros _ e; by apply He|].
  apply Ho. eapply files_after_trans; [done|].
  destruct H1 as (Hj & Hr & Hi & _). rewrite <- Hj, <- Hr, <- Hi. by repeat split.
Qed.
Lemma wp_enqueue envelope (Φ : result string () → sched_fs → Prop) s :
  (∀ e s', unchanged s s' → Φ (Err e) s') →
  (∀ s', files_after s (sf_jobs s) (sf_runs s)
           (<[incoming_path (te_execution_id envelope) :=
              trigger_message encode_envelope envelope]> (sf_incoming s)) s' → Φ (Ok ()) s') →
  wp false (enqueue_trigger runtime_root encode_envelope envelope) Φ s.
Proof.
  intros He Ho. apply wp_bind, wp_mkdir. intros [[]|e] s1 H1; [|by apply He].
  apply wp_map_err, wp_sys; [intros _ e; by apply He|].
  apply Ho. eapply files_after_trans; [done|].
  destruct H1 as (Hj & Hr & Hi & _). rewrite <- Hj, <- Hr, <- Hi. by repeat split.
Qed.

(** ** Reading *)
Definition is_json (p : string) : Prop := extension p = Some "json".
(** A run record of the job names the execution. *)
Definition recorded (s : sched_fs) (job_id exec : string) : Prop :=
  runs_dir job_id ∈ sf_dirs s ∧ ∃ p record, path_parent p = Some (runs_dir job_id) ∧ is_json p
    ∧ sf_runs s !! p = Some (Parsed record) ∧ rr_execution_id record = exec.

Lemma wp_find_execution exec paths (Φ : result string bool → sched_fs → Prop) s :
  (∀ e, Φ (Err e) s) →
  (∀ b : bool, (b = true ↔ ∃ p record, p ∈ paths ∧ is_json p
      ∧ sf_runs s !! p = Some (Parsed record) ∧ rr_execution_id record = exec) → Φ (Ok b) s) →
  wp false (find_execution exec paths) Φ s.
Proof.
  intros He. induction paths as [|p paths IH]; intros Ho; cbn [find_execution].
  { apply wp_ret, Ho. split; [done|]. set_solver. }
  destruct (bool_decide (extension p = Some "json")) eqn:Ej; cbn [negb].
  2:{ apply bool_decide_eq_false in Ej. apply IH. intros b Hb. apply Ho. rewrite Hb.
      unfold is_json. set_solver. }
  apply bool_decide_eq_true in Ej.
  apply wp_bind, wp_map_err, wp_sys; [intros _ e; apply He|]. simpl.
  destruct (sf_runs s !! p) as [[record|e]|] eqn:Ep; simpl;
    [|apply wp_bind, wp_throw, He|apply He].
  apply wp_bind, wp_ret. destruct (String.eqb (rr_execution_id record) exec) eqn:Eq.
  - apply String.eqb_eq in Eq. apply wp_ret, Ho. split; [|done]. intros _.
    exists p, record. split; [left|done].
  - apply String.eqb_neq in Eq. apply IH. intros b Hb. apply Ho. rewrite Hb.
    split; [set_solver|]. intros (p' & r & [->|Hp]%elem_of_cons & Hj & Hr & Hx); [congruence|].
    by exists p', r.
Qed.

Lemma elem_of_dir_entries {A} dir (m : gmap string A) p :
  p ∈ dir_entries dir m ↔ path_parent p = Some dir ∧ is_Some (m !! p).
Proof.
  unfold dir_entries. rewrite list_elem_of_filter, list_elem_of_fmap. split.
  - intros [? ([p' x] & -> & Hx%elem_of_map_to_list)]. eauto.
  - intros [? [x Hx]]. split; [done|]. exists (p, x). by rewrite elem_of_map_to_list.
Qed.

Lemma wp_execution_exists job_id exec (Φ : result string bool → sched_fs → Prop) s :
  (∀ e, Φ (Err e) s) →
  (∀ b : bool, (b = true ↔ recorded s job_id exec) → Φ (Ok b) s) →
  wp false (execution_exists runtime_root job_id exec) Φ s.
Proof.
  intros He Ho. apply wp_bind, wp_get. case_decide as Hd.
  { apply wp_ret, Ho. split; [done|]. by intros [? _]. }
  apply wp_bind, wp_map_err, wp_sys; [intros _ e; apply He|].
  apply wp_find_execution; [done|]. intros b Hb. apply Ho. rewrite Hb. unfold recorded.
  setoid_rewrite elem_of_dir_entries. split.
  - intros (p & r & [Hp _] & ? & ? & ?). split; [done|]. eauto 10.
  - intros (_ & p & r & Hp & ? & Hr & ?). exists p, r. split; [|done]. split; [done|]. by eexists.
Qed.

(** The jobs [list_all] finds, one per JSON file of the jobs directory. *)
Definition listed (s : sched_fs) (job : ScheduledJob) : Prop :=
  jobs_dir ∈ sf_dirs s ∧ ∃ p, path_parent p = Some jobs_dir ∧ is_json p
    ∧ sf_jobs s !! p = Some (Parsed job).

Lemma wp_read_jobs paths jobs0 (Φ : result string (list ScheduledJob) → sched_fs → Prop) s :
  (∀ e, Φ (Err e) s) →
  (∀ jobs, Forall2 (λ p j, sf_jobs s !! p = Some (Parsed j)) (filter is_json paths) jobs →
     Φ (Ok (jobs0 ++ jobs)) s) →
  wp false (io_for_fold (λ jobs path,
    if negb (bool_decide (extension path = Some "json")) then mret jobs
    else job ← read_job path; mret (jobs ++ [job])) paths jobs0) Φ s.
Proof.
  intros He. revert jobs0. induction paths as [|p paths IH]; intros jobs0 Ho; cbn [io_for_fold].
  { apply wp_ret. rewrite <- (app_nil_r jobs0). apply Ho. constructor. }
  rewrite filter_cons in Ho. apply wp_bind.
  destruct (bool_decide (extension p = Some "json")) eqn:Ej; cbn [negb].
  2:{ apply bool_decide_eq_false in Ej. rewrite decide_False in Ho by done.
      apply wp_ret. by apply IH. }
  apply bool_decide_eq_true in Ej. rewrite decide_True in Ho by done.
  apply wp_bind, wp_bind, wp_map_err, wp_sys; [intros _ e; apply He|]. simpl.
  destruct (sf_jobs s !! p) as [[j|e]|] eqn:Ep; simpl; [|apply wp_throw, He|apply He].
  apply wp_ret, wp_ret, IH. intros jobs Hjobs. rewrite <- (assoc (++)). apply Ho.
  by constructor.
Qed.

#[local] Instance job_le_total : Total job_le.
Proof. intros a b. apply (total String.le). Qed.

Lemma wp_list_all (Φ : result string (list ScheduledJob) → sched_fs → Prop) s :
  (∀ e, Φ (Err e) s) →
  (∀ jobs ps, (∀ j, j ∈ jobs ↔ listed s j) → NoDup ps →
     (∃ js, js ≡ₚ jobs ∧ Forall2 (λ p j, sf_jobs s !! p = Some (Parsed j)) ps js) →
     Φ (Ok jobs) s) →
  wp false (list_all runtime_root) Φ s.
Proof.
  intros He Ho. apply wp_bind, wp_get. case_decide as Hd.
  { apply wp_ret, (Ho [] []); [|constructor|by exists []].
    intros j. unfold listed. set_solver. }
  apply wp_bind, wp_map_err, wp_sys; [intros _ e; apply He|].
  apply wp_bind, wp_read_jobs; [done|]. intros jobs Hjobs. apply wp_ret.
  rewrite app_nil_l. simpl in *.
  apply (Ho _ (filter is_json (dir_entries jobs_dir (sf_jobs s)))).
  - intros j. rewrite (merge_sort_Permutation job_le jobs). split.
    + intros Hj. split; [done|].
      apply list_elem_of_lookup in Hj as [i Hi].
      destruct (Forall2_lookup_r _ _ _ _ _ Hjobs Hi) as (p & Hp & Hpj).
      apply list_elem_of_lookup_2 in Hp. rewrite list_elem_of_filter, elem_of_dir_entries in Hp.
      exists p. naive_solver.
    + intros (_ & p & Hp & Hx & Hj).
      assert (p ∈ filter is_json (dir_entries jobs_dir (sf_jobs s))) as Hin.
      { rewrite list_elem_of_filter, elem_of_dir_entries. split; [done|]. split; [done|].
        by eexists. }
      apply list_elem_of_lookup in Hin as [i Hi].
      destruct (Forall2_lookup_l _ _ _ _ _ Hjobs Hi) as (j' & Hj' & Hpj).
      apply list_elem_of_lookup_2 in Hj'. congruence.
  - apply NoDup_filter, NoDup_filter, NoDup_fst_map_to_list.
  - exists jobs. split; [|done]. symmetry. apply merge_sort_Permutation.
Qed.

(** ** One iteration of the loop *)
Definition due (job : ScheduledJob) (now n : Z) : Prop :=
  sj_state job = Enabled ∧ sj_next_run_at job = Some n ∧ (n ≤ now)%Z.
Definition to_skip (job : ScheduledJob) (now n : Z) : Prop :=
  (n < now)%Z ∧ sj_misfire_policy job = SkipMissed.
Definition overlapping (active : list ActiveExecution) (job : ScheduledJob) : Prop :=
  sj_allow_overlap job = false ∧ sj_job_id job ∈ (ae_job_id <$> active).

Definition exec_of (job : ScheduledJob) (n : Z) : string := execution_id_of (sj_job_id job) n.
Definition run_of (now n : Z) (job : ScheduledJob) : DispatchedRun :=
  {| dr_job_id := sj_job_id job; dr_execution_id := exec_of job n; dr_triggered_at := now |}.
Definition active_of (r : DispatchedRun) : ActiveExecution :=
  {| ae_job_id := dr_job_id r; ae_execution_id := dr_execution_id r;
     ae_started_at := dr_triggered_at r |}.
Definition record_of (now : Z) (job : ScheduledJob) (exec : string) (status : RunStatus) :
    RunRecord :=
  {| rr_job_id := sj_job_id job; rr_execution_id := exec; rr_triggered_at := now;
     rr_status := status; rr_created_at := now |}.
Definition push_run (state : SchedulerState) (r : DispatchedRun) : SchedulerState :=
  {| ss_last_tick_at := ss_last_tick_at state;
     ss_recent_execution_ids := push_recent (ss_recent_execution_ids state) (dr_execution_id r);
     ss_active_executions := ss_active_executions state ++ [active_of r] |}.

Inductive job_step (now : Z) (state : SchedulerState) (runs : list DispatchedRun)
    (job : ScheduledJob) (s : sched_fs) :
    result string (SchedulerState * list DispatchedRun) → sched_fs → Prop :=
  | js_idle : (∀ n, ¬ due job now n) → job_step now state runs job s (Ok (state, runs)) s
  | js_overlap n : due job now n → ¬ to_skip job now n →
      overlapping (ss_active_executions state) job →
      job_step now state runs job s (Ok (state, runs)) s
  | js_skip n next exec s' : due job now n → to_skip job now n →
      recovery_next_run (sj_schedule job) now = Ok next → starts_with "skip-" exec = true →
      files_after s (<[job_path (sj_job_id job) := Parsed (skipped_job now next job)]> (sf_jobs s))
        (<[run_record_path (sj_job_id job) exec now :=
           Parsed (record_of now job exec SkippedMissed)]> (sf_runs s)) (sf_incoming s) s' →
      job_step now state runs job s (Ok (state, runs)) s'
  | js_duplicate n s' : due job now n → ¬ to_skip job now n →
      ¬ overlapping (ss_active_executions state) job →
      exec_of job n ∈ ss_recent_execution_ids state ∨ recorded s (sj_job_id job) (exec_of job n) →
      files_after s (sf_jobs s)
        (<[run_record_path (sj_job_id job) (exec_of job n) now :=
           Parsed (record_of now job (exec_of job n) SkippedDuplicate)]> (sf_runs s))
        (sf_incoming s) s' →
      job_step now state runs job s (Ok (state, runs)) s'
  | js_run n next s' : due job now n → ¬ to_skip job now n →
      ¬ overlapping (ss_active_executions state) job →
      exec_of job n ∉ ss_recent_execution_ids state →
      ¬ recorded s (sj_job_id job) (exec_of job n) →
      recovery_next_run (sj_schedule job) now = Ok next →
      files_after s
        (<[job_path (sj_job_id job) := Parsed (dispatched_job now next job)]> (sf_jobs s))
        (<[run_record_path (sj_job_id job) (exec_of job n) now :=
           Parsed (record_of now job (exec_of job n) Dispatched)]> (sf_runs s))
        (<[incoming_path (exec_of job n) :=
           trigger_message encode_envelope (envelope_for now (exec_of job n) job)]>
           (sf_incoming s)) s' →
      job_step now state runs job s (Ok (push_run state (run_of now n job), runs ++ [run_of now n job])) s'
  | js_error e s' : files_after s (sf_jobs s) (sf_runs s) (sf_incoming s') s' →
      job_step now state runs job s (Err e) s'
  | js_error_written e s' n j' : due job now n →
      to_skip job now n ∨ ¬ recorded s (sj_job_id job) (exec_of job n) →
      sj_job_id j' = sj_job_id job →
      files_after s (<[job_path (sj_job_id job) := Parsed j']> (sf_jobs s)) (sf_runs s)
        (sf_incoming s') s' →
      job_step now state runs job s (Err e) s'.

Lemma recovery_is_next_run sc now : recovery_next_run sc now = next_run sc now (Some now).
Proof. by destruct sc. Qed.
Lemma dispatched_job_id now next job : sj_job_id (dispatched_job now next job) = sj_job_id job.
Proof. by destruct next. Qed.

Lemma files_after_incoming s jobs runs inc s' :
  files_after s jobs runs inc s' → files_after s jobs runs (sf_incoming s') s'.
Proof. intros (? & ? & ? & ? & ?). by repeat split. Qed.
Lemma files_after_jobs s jobs runs inc s' : files_after s jobs runs inc s' → sf_jobs s' = jobs.
Proof. by intros [? _]. Qed.
Lemma files_after_fields s jobs runs inc s' :
  files_after s jobs runs inc s' → sf_jobs s' = jobs ∧ sf_runs s' = runs ∧ sf_incoming s' = inc.
Proof. by intros (? & ? & ? & _). Qed.
Lemma files_after_compose s jobs runs inc s1 jobs' runs' inc' s2 :
  files_after s jobs runs inc s1 → files_after s1 jobs' runs' inc' s2 →
  files_after s jobs' runs' inc' s2.
Proof.
  intros (_ & _ & _ & Hst & Hd) (Hj & Hr & Hi & Hst' & Hd').
  repeat split; [done..|congruence|set_solver].
Qed.

Lemma wp_skip_missed now job n state runs s :
  due job now n → to_skip job now n →
  wp false (skip_missed runtime_root valid_tz local_time json_to_string now job)
    (λ r s', match r with
             | Ok _ => job_step now state runs job s (Ok (state, runs)) s'
             | Err e => job_step now state runs job s (Err e) s'
             end) s.
Proof.
  intros Hdue Hskip. unfold skip_missed. apply wp_bind, wp_lift.
  destruct (recovery_next_run (sj_schedule job) now) as [next|e] eqn:En;
    [|apply js_error, unchanged_refl].
  apply wp_bind, wp_persist_job; [intros e s1 H1; by eapply js_error, files_after_incoming|].
  intros s1 H1. apply wp_bind, wp_clock. intros nanos.
  apply wp_bind, wp_persist_run_record.
  - intros e s2 H2. eapply (js_error_written _ _ _ _ _ _ _ _ (skipped_job now next job));
      [done|by left|done|].
    destruct (files_after_fields _ _ _ _ _ H1) as (Ej1 & Er1 & Ei1).
    unfold unchanged in H2. rewrite Ej1, Er1, Ei1 in H2.
    by eapply files_after_incoming, files_after_compose.
  - intros s2 H2. apply wp_event. intros s3 H3.
    eapply js_skip with (exec := "skip-" +:+ fmt_int (Z.abs nanos)); [done..| |].
    + reflexivity.
    + destruct (files_after_fields _ _ _ _ _ H1) as (Ej1 & Er1 & Ei1).
      rewrite Ej1, Er1, Ei1 in H2.
      destruct (files_after_fields _ _ _ _ _ H2) as (Ej2 & Er2 & Ei2).
      unfold unchanged in H3. rewrite Ej2, Er2, Ei2 in H3.
      eapply files_after_compose; [exact H1|]. by eapply files_after_compose.
Qed.

(** [fields_in H1 H2] rewrites the files after [H1] in the frame [H2]. *)
Ltac fields_in H1 H2 :=
  let Ej := fresh in let Er := fresh in let Ei := fresh in
  destruct (files_after_fields _ _ _ _ _ H1) as (Ej & Er & Ei);
  unfold unchanged in H2; rewrite Ej, Er, Ei in H2; clear Ej Er Ei;
  pose proof (files_after_compose _ _ _ _ _ _ _ _ _ H1 H2); clear H1 H2.

Lemma wp_dispatch now n job state runs s :
  due job now n → ¬ to_skip job now n → ¬ overlapping (ss_active_executions state) job →
  exec_of job n ∉ ss_recent_execution_ids state →
  ¬ recorded s (sj_job_id job) (exec_of job n) →
  wp false (dispatch runtime_root valid_tz local_time encode_envelope json_to_string now n
              (exec_of job n) job)
    (λ r s', match r with
             | Ok _ => job_step now state runs job s
                 (Ok (push_run state (run_of now n job), runs ++ [run_of now n job])) s'
             | Err e => job_step now state runs job s (Err e) s'
             end) s.
Proof.
  intros Hdue Hskip Hov Hrec Hr. unfold dispatch.
  apply wp_bind, wp_enqueue.
  { intros e s1 H1. by eapply js_error, files_after_incoming. }
  intros s1 H1. apply wp_bind, wp_event. intros s2 H2. fields_in H1 H2.
  apply wp_bind.
  eapply (wp_mono _ _ (λ r s', files_after s (sf_jobs s) (sf_runs s)
    (<[incoming_path (exec_of job n) :=
       trigger_message encode_envelope (envelope_for now (exec_of job n) job)]> (sf_incoming s)) s'
    ∧ match r with Ok next => recovery_next_run (sj_schedule job) now = Ok next
      | Err _ => True end)).
  { destruct (missed n now && negb (is_skip (sj_misfire_policy job))) eqn:Em.
    - apply wp_bind, wp_event. intros s3 H3. fields_in H H3. apply wp_lift.
      split; [done|]. by destruct (recovery_next_run (sj_schedule job) now).
    - assert (n = now) as ->.
      { destruct Hdue as (_ & _ & Hle). unfold missed, is_skip in Em.
        destruct (bool_decide (n < now)%Z) eqn:El.
        - apply bool_decide_eq_true in El. simpl in Em.
          destruct (bool_decide (sj_misfire_policy job = SkipMissed)) eqn:Es; [|done].
          apply bool_decide_eq_true in Es. by destruct Hskip.
        - apply bool_decide_eq_false in El. lia. }
      apply wp_lift. rewrite <- recovery_is_next_run. split; [done|].
      by destruct (recovery_next_run (sj_schedule job) now). }
  intros [next|e] s3 [H3 Hnext].
  2:{ by eapply js_error, files_after_incoming. }
  apply wp_bind, wp_persist_job.
  { intros e s4 H4. fields_in H3 H4. by eapply js_error, files_after_incoming. }
  intros s4 H4. rewrite dispatched_job_id in H4. fields_in H3 H4.
  apply wp_persist_run_record.
  - intros e s5 H5. fields_in H0 H5.
    eapply (js_error_written _ _ _ _ _ _ _ n (dispatched_job now next job));
      [done|by right|apply dispatched_job_id|by eapply files_after_incoming].
  - intros s5 H5. fields_in H0 H5. eapply js_run; [done..|].
    rewrite dispatched_job_id in *. exact H1.
Qed.

Lemma known_exec state job n :
  existsb (String.eqb (exec_of job n)) (ss_recent_execution_ids state) = true
  ↔ exec_of job n ∈ ss_recent_execution_ids state.
Proof.
  rewrite existsb_exists. setoid_rewrite <- list_elem_of_In. split.
  - intros (x & Hx & ->%String.eqb_eq). done.
  - intros Hx. eexists. split; [done|]. apply String.eqb_refl.
Qed.
Lemma overlap_test state job :
  negb (sj_allow_overlap job)
  && existsb (λ active, String.eqb (ae_job_id active) (sj_job_id job))
       (ss_active_executions state) = true
  ↔ overlapping (ss_active_executions state) job.
Proof.
  unfold overlapping. rewrite andb_true_iff, negb_true_iff, existsb_exists, list_elem_of_fmap.
  setoid_rewrite <- list_elem_of_In. setoid_rewrite String.eqb_eq. naive_solver.
Qed.

Lemma wp_duplicate now n job state runs s :
  due job now n → ¬ to_skip job now n → ¬ overlapping (ss_active_executions state) job →
  exec_of job n ∈ ss_recent_execution_ids state ∨ recorded s (sj_job_id job) (exec_of job n) →
  wp false (persist_run_record runtime_root job (exec_of job n) now SkippedDuplicate now ;;
            mret (state, runs)) (job_step now state runs job s) s.
Proof.
  intros Hdue Hskip Hov Hk. apply wp_bind, wp_persist_run_record.
  - intros e s1 H1. by eapply js_error, files_after_incoming.
  - intros s1 H1. apply wp_ret. by eapply js_duplicate.
Qed.

Lemma wp_run_job now n job state runs s :
  due job now n → ¬ to_skip job now n → ¬ overlapping (ss_active_executions state) job →
  exec_of job n ∉ ss_recent_execution_ids state →
  ¬ recorded s (sj_job_id job) (exec_of job n) →
  wp false (dispatch runtime_root valid_tz local_time encode_envelope json_to_string now n
              (exec_of job n) job ;;
            mret (push_run state (run_of now n job), runs ++ [run_of now n job]))
    (job_step now state runs job s) s.
Proof.
  intros. apply wp_bind. eapply wp_mono; [by apply wp_dispatch|].
  intros [[]|e] s' H'; [by apply wp_ret|done].
Qed.

Lemma wp_tick_job now state runs job s :
  wp false (tick_job now (state, runs) job) (job_step now state runs job s) s.
Proof.
  unfold Scheduler.tick_job.
  destruct (bool_decide (sj_state job = Enabled)) eqn:Est; cbn [negb].
  2:{ apply bool_decide_eq_false in Est. apply wp_ret, js_idle. intros n [? _]. done. }
  apply bool_decide_eq_true in Est.
  destruct (sj_next_run_at job) as [n|] eqn:En.
  2:{ apply wp_ret, js_idle. intros n (_ & ? & _). congruence. }
  destruct (bool_decide (now < n)%Z) eqn:El.
  { apply bool_decide_eq_true in El. apply wp_ret, js_idle. intros m (_ & ? & ?).
    simplify_eq. lia. }
  apply bool_decide_eq_false in El.
  assert (due job now n) as Hdue by (repeat split; [done..|lia]).
  destruct (missed n now && is_skip (sj_misfire_policy job)) eqn:Esk.
  { apply andb_prop in Esk as [H1%bool_decide_eq_true H2%bool_decide_eq_true].
    apply wp_bind. eapply wp_mono; [by apply (wp_skip_missed _ _ n state runs)|].
    intros [[]|e] s' H'; [by apply wp_ret|done]. }
  assert (¬ to_skip job now n) as Hskip.
  { intros [H1 H2]. apply andb_false_iff in Esk as [H|H]; apply bool_decide_eq_false in H; done. }
  destruct (negb (sj_allow_overlap job) && _) eqn:Eo.
  { apply overlap_test in Eo. apply wp_ret. by eapply js_overlap. }
  assert (¬ overlapping (ss_active_executions state) job) as Hov.
  { rewrite <- overlap_test. congruence. }
  clear Eo Esk. fold (exec_of job n).
  destruct (existsb (String.eqb (exec_of job n)) _) eqn:Ek.
  - apply wp_bind, wp_ret. apply known_exec in Ek. apply (wp_duplicate _ n); auto.
  - assert (exec_of job n ∉ ss_recent_execution_ids state) as Hn.
    { rewrite <- known_exec. congruence. }
    apply wp_bind, wp_execution_exists; [intros e; apply js_error, unchanged_refl|].
    intros [] Hb.
    + apply (wp_duplicate _ n); auto. right. by apply Hb.
    + apply (wp_run_job _ n); auto. rewrite <- Hb. done.
Qed.

(** ** The whole tick *)
Definition loaded_state (s : sched_fs) : SchedulerState :=
  match sf_state s with Some (Parsed state) => state | _ => SchedulerState_default end.
Definition fresh_active (now : Z) (s : sched_fs) : list ActiveExecution :=
  filter (λ a, stale now a = false) (ss_active_executions (loaded_state s)).
Definition start_state (now : Z) (s : sched_fs) : SchedulerState :=
  {| ss_last_tick_at := ss_last_tick_at (loaded_state s);
     ss_recent_execution_ids := ss_recent_execution_ids (loaded_state s);
     ss_active_executions := fresh_active now s |}.

Lemma wp_load_state (Φ : result string SchedulerState → sched_fs → Prop) s :
  (∀ e, Φ (Err e) s) → Φ (Ok (loaded_state s)) s → wp false (load_state runtime_root) Φ s.
Proof.
  intros He Ho. apply wp_bind, wp_get. unfold loaded_state in Ho.
  destruct (sf_state s) as [[state|e]|] eqn:Es; [..|by apply wp_ret].
  - apply wp_bind, wp_map_err, wp_sys; [intros _ e; apply He|]. simpl. rewrite Es.
    by apply wp_ret.
  - apply wp_bind, wp_map_err, wp_sys; [intros _ e'; apply He|]. simpl. rewrite Es.
    apply wp_throw, He.
Qed.

Lemma wp_recover_stale now state (Φ : result string SchedulerState → sched_fs → Prop) s :
  (∀ s', unchanged s s' → Φ (Ok {| ss_last_tick_at := ss_last_tick_at state;
      ss_recent_execution_ids := ss_recent_execution_ids state;
      ss_active_executions :=
        filter (λ a, stale now a = false) (ss_active_executions state) |}) s') →
  wp false (recover_stale_active_executions runtime_root json_to_string state now) Φ s.
Proof.
  intros Ho. apply wp_bind.
  apply (wp_for_fold _ (λ kept rest s', unchanged s s' ∧
    kept ++ filter (λ a, stale now a = false) rest
    = filter (λ a, stale now a = false) (ss_active_executions state))).
  - split; [apply unchanged_refl|done].
  - intros kept a rest s1 [H1 Hk]. rewrite filter_cons in Hk.
    destruct (stale now a); cbn [negb] in *.
    + rewrite decide_False in Hk by done.
      apply wp_bind, wp_event. intros s2 H2. fields_in H1 H2. by apply wp_ret.
    + rewrite decide_True in Hk by done. apply wp_ret. split; [done|].
      by rewrite <- (assoc (++)).
  - intros kept s1 [H1 Hk]. rewrite app_nil_r in Hk. apply wp_ret. rewrite Hk. by apply Ho.
Qed.

Definition saved (s : sched_fs) (state : SchedulerState) (s' : sched_fs) : Prop :=
  sf_jobs s' = sf_jobs s ∧ sf_runs s' = sf_runs s ∧ sf_incoming s' = sf_incoming s
  ∧ sf_state s' = Some (Parsed state) ∧ sf_dirs s ⊆ sf_dirs s'.
Lemma wp_save_state state (Φ : result string () → sched_fs → Prop) s :
  (∀ e s', unchanged s s' → Φ (Err e) s') →
  (∀ s', saved s state s' → Φ (Ok ()) s') →
  wp false (save_state runtime_root state) Φ s.
Proof.
  intros He Ho. apply wp_bind.
  eapply (wp_mono _ _ (λ _ s', unchanged s s')).
  { destruct (path_parent _); [by apply wp_mkdir|]. apply wp_ret, unchanged_refl. }
  intros [[]|e] s1 H1; [|by apply He].
  apply wp_map_err, wp_sys; [intros _ e; by apply He|]. apply Ho.
  destruct H1 as (? & ? & ? & ? & ?). by repeat split.
Qed.

(** The rule for [tick]: an invariant over the loop. *)
Lemma wp_tick now (I : SchedulerState → list DispatchedRun → list ScheduledJob → sched_fs → Prop)
    (Φ : result string (list DispatchedRun) → sched_fs → Prop) s :
  (∀ e s', unchanged s s' → Φ (Err e) s') →
  (∀ jobs ps s', unchanged s s' → (∀ j, j ∈ jobs ↔ listed s' j) → NoDup ps →
     (∃ js, js ≡ₚ jobs ∧ Forall2 (λ p j, sf_jobs s !! p = Some (Parsed j)) ps js) →
     I (start_state now s) [] jobs s') →
  (∀ state runs job rest s1 r s2, I state runs (job :: rest) s1 →
     job_step now state runs job s1 r s2 →
     match r with Ok (state', runs') => I state' runs' rest s2 | Err e => Φ (Err e) s2 end) →
  (∀ state runs s1, I state runs [] s1 →
     (∀ e s2, unchanged s1 s2 → Φ (Err e) s2)
     ∧ (∀ s2, saved s1 {| ss_last_tick_at := Some now;
           ss_recent_execution_ids := ss_recent_execution_ids state;
           ss_active_executions := ss_active_executions state |} s2 → Φ (Ok runs) s2)) →
  wp false (tick now) Φ s.
Proof.
  intros He Hinit Hstep Hend. apply wp_bind, wp_load_state.
  { intros e. apply He, unchanged_refl. }
  apply wp_bind, wp_recover_stale. intros s1 H1. apply wp_bind, wp_list_all.
  { intros e. by apply He. }
  intros jobs ps Hjobs Hps Hjs. apply wp_bind.
  apply (wp_for_fold _ (λ acc rest s', I acc.1 acc.2 rest s')).
  - apply (Hinit jobs ps); [done..|].
    destruct (files_after_fields _ _ _ _ _ H1) as (Hj & _ & _). by rewrite <- Hj.
  - intros [state runs] job rest s2 HI. eapply wp_mono; [apply wp_tick_job|].
    intros r s3 Hr. specialize (Hstep _ _ _ _ _ _ _ HI Hr).
    by destruct r as [[state' runs']|e].
  - intros [state runs] s2 HI. destruct (Hend _ _ _ HI) as [Hf Hok].
    apply wp_bind, wp_save_state; [done|]. intros s3 H3. by apply wp_ret, Hok.
Qed.

(** ** What is dispatched *)
Definition stored_job (s : sched_fs) (job : ScheduledJob) : Prop :=
  ∃ p, sf_jobs s !! p = Some (Parsed job).
Definition last_2048 (ids : list string) : list string := drop (length ids - 2048) ids.

Lemma push_last_2048 ids x : push_recent (last_2048 ids) x = last_2048 (ids ++ [x]).
Proof.
  unfold push_recent, last_2048. rewrite !length_app, length_drop. simpl.
  destruct (bool_decide _) eqn:E.
  - apply bool_decide_eq_true in E. rewrite !drop_app_le by (rewrite ?length_drop; lia).
    rewrite drop_drop. do 2 f_equal. lia.
  - apply bool_decide_eq_false in E. rewrite drop_app_le by lia. f_equal. f_equal. lia.
Qed.

(** What holds of the runs dispatched so far. *)
Definition run_justified (now : Z) (s0 : sched_fs) (runs : list DispatchedRun) (i : nat)
    (r : DispatchedRun) : Prop :=
  ∃ job n, stored_job s0 job ∧ due job now n ∧ ¬ to_skip job now n ∧ r = run_of now n job
    ∧ ¬ overlapping (fresh_active now s0 ++ (active_of <$> take i runs)) job
    ∧ dr_execution_id r ∉
        last_2048 (ss_recent_execution_ids (loaded_state s0) ++ (dr_execution_id <$> take i runs)).
Definition trigger_queued (now : Z) (s0 s : sched_fs) (exec : string) : Prop :=
  ∃ job n, stored_job s0 job ∧ due job now n ∧ exec_of job n = exec
    ∧ sf_incoming s !! incoming_path exec
      = Some (trigger_message encode_envelope (envelope_for now exec job)).

Lemma path_join_inj base x y :
  is_absolute x = false → is_absolute y = false →
  path_join base x = path_join base y → x = y.
Proof.
  intros Hx Hy. unfold path_join. rewrite Hx, Hy.
  destruct (is_empty base); [done|].
  destruct (ends_with "/" base); intros H.
  - by apply (inj (String.append base)) in H.
  - apply (inj (String.append base)) in H. by injection H.
Qed.
Lemma incoming_path_inj x y :
  is_absolute x = false → is_absolute y = false → x ≠ "" → y ≠ "" →
  incoming_path x = incoming_path y → x = y.
Proof.
  intros Hx Hy Nx Ny H. apply path_join_inj in H.
  - by apply str_app_inv_r in H.
  - by destruct x.
  - by destruct y.
Qed.

Definition tick_inv (now : Z) (s0 : sched_fs) (state : SchedulerState)
    (runs : list DispatchedRun) (rest : list ScheduledJob) (s : sched_fs) : Prop :=
  ss_recent_execution_ids state
    = last_2048 (ss_recent_execution_ids (loaded_state s0) ++ (dr_execution_id <$> runs))
  ∧ ss_active_executions state = fresh_active now s0 ++ (active_of <$> runs)
  ∧ (∀ i r, runs !! i = Some r → run_justified now s0 runs i r)
  ∧ (∀ r, r ∈ runs → trigger_queued now s0 s (dr_execution_id r))
  ∧ (∀ j, j ∈ rest → stored_job s0 j).

Lemma trigger_queued_mono now s0 s s' exec :
  sf_incoming s' = sf_incoming s → trigger_queued now s0 s exec → trigger_queued now s0 s' exec.
Proof. intros Hi (job & n & H). exists job, n. by rewrite Hi. Qed.
Lemma run_justified_snoc now s0 runs r' i r :
  i < length runs → run_justified now s0 runs i r → run_justified now s0 (runs ++ [r']) i r.
Proof. intros Hi H. unfold run_justified. by rewrite take_app_le by lia. Qed.

Lemma tick_inv_step now s0 state runs job rest s1 r s2 :
  tick_inv now s0 state runs (job :: rest) s1 → job_step now state runs job s1 r s2 →
  match r with Ok (state', runs') => tick_inv now s0 state' runs' rest s2 | Err _ => True end.
Proof.
  intros (Hre & Hac & Hju & Hq & Hst) Hstep.
  assert (∀ s', sf_incoming s' = sf_incoming s1 → tick_inv now s0 state runs rest s') as Hsame.
  { intros s' Hi. repeat split; [done..| |].
    - intros r0 Hr0. eapply trigger_queued_mono; [done|]. by apply Hq.
    - intros j Hj. apply Hst. by right. }
  destruct Hstep as [|? ? ? Hx|? ? ? ? ? ? ? ? Hf|? ? ? ? ? ? Hf|n next s' Hdue Hsk Hov Hrec Hrd _ Hf| |];
    [by apply Hsame|by apply Hsame|..|done|done].
  - apply Hsame. by destruct (files_after_fields _ _ _ _ _ Hf) as (_ & _ & ?).
  - apply Hsame. by destruct (files_after_fields _ _ _ _ _ Hf) as (_ & _ & ?).
  - destruct (files_after_fields _ _ _ _ _ Hf) as (_ & _ & Hi). simpl.
    assert (stored_job s0 job) as Hjob by (apply Hst; left).
    repeat split; simpl.
    + rewrite Hre, push_last_2048, fmap_app, <- (assoc (++)). done.
    + rewrite Hac, fmap_app, <- (assoc (++)). done.
    + intros i r0 Hr0. destruct (decide (i < length runs)) as [Hlt|Hge].
      { rewrite lookup_app_l in Hr0 by done. apply run_justified_snoc; [done|]. by apply Hju. }
      rewrite lookup_app_r in Hr0 by lia.
      apply list_lookup_singleton_Some in Hr0 as [Hi0 <-].
      exists job, n. rewrite take_app_length' by lia. rewrite <- Hac, <- Hre. do 4 (split; [done|]). by split.
    + intros r0 [Hr0| ->%list_elem_of_singleton]%elem_of_app.
      * destruct (Hq r0 Hr0) as (job' & n' & Hj' & Hd' & He' & Hin').
        destruct (decide (dr_execution_id r0 = exec_of job n)) as [Heq|Hne].
        { exists job, n. rewrite Hi, Heq. rewrite lookup_insert. by rewrite decide_True. }
        exists job', n'. rewrite Hi, lookup_insert_ne; [done|].
        rewrite <- He'. intros Hp. apply Hne. rewrite <- He'.
        by apply incoming_path_inj in Hp.
      * exists job, n. simpl. rewrite Hi. rewrite lookup_insert. by rewrite decide_True.
    + intros j Hj. apply Hst. by right.
Qed.


(** ** Progress *)
Record jobs_wf (s : sched_fs) : Prop := {
  jw_file p j : sf_jobs s !! p = Some (Parsed j) →
    jobs_dir ∈ sf_dirs s ∧ p = job_path (sj_job_id j) ∧ path_parent p = Some jobs_dir ∧ is_json p;
  jw_valid p j : sf_jobs s !! p = Some (Parsed j) → schedule_valid valid_tz (sj_schedule j);
}.

(** Execution ids that were used before, or in this tick. *)
Definition used (s0 : sched_fs) (runs : list DispatchedRun) (exec : string) : Prop :=
  exec ∈ ss_recent_execution_ids (loaded_state s0)
  ∨ (∃ p record, sf_runs s0 !! p = Some (Parsed record) ∧ rr_execution_id record = exec)
  ∨ exec ∈ (dr_execution_id <$> runs).
(** Why a job that is still due was left alone. *)
Definition held_back (now : Z) (s0 : sched_fs) (active : list ActiveExecution)
    (runs : list DispatchedRun) (p : string) (j : ScheduledJob) (n : Z) : Prop :=
  sf_jobs s0 !! p = Some (Parsed j) ∧ (overlapping active j ∨ used s0 runs (exec_of j n)).
Definition settled (now : Z) (s0 : sched_fs) (active : list ActiveExecution)
    (runs : list DispatchedRun) (p : string) (j : ScheduledJob) : Prop :=
  ∀ n, due j now n → held_back now s0 active runs p j n.

Lemma used_mono s0 runs r exec : used s0 runs exec → used s0 (runs ++ [r]) exec.
Proof. unfold used. rewrite fmap_app. set_solver. Qed.
Lemma settled_mono now s0 active runs a r p j :
  settled now s0 active runs p j → settled now s0 (active ++ [a]) (runs ++ [r]) p j.
Proof.
  intros H n Hn. destruct (H n Hn) as [Hs [[H1 H2]|Hu]]; split; [done| |done|].
  - left. split; [done|]. rewrite fmap_app. set_solver.
  - right. by apply used_mono.
Qed.

Lemma rescheduled_not_due sc now t :
  schedule_valid valid_tz sc → instant_ok now → recovery_next_run sc now = Ok (Some t) →
  (now < t)%Z.
Proof. rewrite recovery_is_next_run. apply next_run_later. Qed.
Lemma skipped_settled now s0 active runs p job next :
  schedule_valid valid_tz (sj_schedule job) → instant_ok now →
  recovery_next_run (sj_schedule job) now = Ok next →
  settled now s0 active runs p (skipped_job now next job).
Proof.
  intros Hv Hn Hr n (Hs & Hx & Hle). destruct next as [t|]; simpl in *; [|done].
  apply rescheduled_not_due in Hr; [|done..]. simplify_eq. lia.
Qed.
Lemma dispatched_settled now s0 active runs p job next :
  schedule_valid valid_tz (sj_schedule job) → instant_ok now →
  recovery_next_run (sj_schedule job) now = Ok next →
  settled now s0 active runs p (dispatched_job now next job).
Proof.
  intros Hv Hn Hr n (Hs & Hx & Hle). destruct next as [t|]; simpl in *; [|done].
  apply rescheduled_not_due in Hr; [|done..]. simplify_eq. lia.
Qed.

Record progress_inv (now : Z) (s0 : sched_fs) (state : SchedulerState)
    (runs : list DispatchedRun) (rest : list ScheduledJob) (s : sched_fs) : Prop := {
  pi_recent x : x ∈ ss_recent_execution_ids state → used s0 runs x;
  pi_records p record : sf_runs s !! p = Some (Parsed record) →
    used s0 runs (rr_execution_id record) ∨ starts_with "skip-" (rr_execution_id record) = true;
  pi_file p j : sf_jobs s !! p = Some (Parsed j) → p = job_path (sj_job_id j);
  pi_rest j : j ∈ rest → sf_jobs s !! job_path (sj_job_id j) = Some (Parsed j)
    ∧ sf_jobs s0 !! job_path (sj_job_id j) = Some (Parsed j)
    ∧ schedule_valid valid_tz (sj_schedule j);
  pi_nodup : NoDup (sj_job_id <$> rest);
  pi_done p j : sf_jobs s !! p = Some (Parsed j) → sj_job_id j ∉ (sj_job_id <$> rest) →
    settled now s0 (ss_active_executions state) runs p j;
}.

(** The shared part of every branch that goes on with the loop. *)
Lemma progress_next now s0 state runs job rest s1 state' runs' j' s2 :
  progress_inv now s0 state runs (job :: rest) s1 →
  (∀ x, x ∈ ss_recent_execution_ids state' → used s0 runs' x) →
  (∀ p record, sf_runs s2 !! p = Some (Parsed record) → used s0 runs' (rr_execution_id record)
     ∨ starts_with "skip-" (rr_execution_id record) = true) →
  sf_jobs s2 = <[job_path (sj_job_id job) := Parsed j']> (sf_jobs s1) →
  sj_job_id j' = sj_job_id job →
  settled now s0 (ss_active_executions state') runs' (job_path (sj_job_id job)) j' →
  (∀ p j, settled now s0 (ss_active_executions state) runs p j →
     settled now s0 (ss_active_executions state') runs' p j) →
  progress_inv now s0 state' runs' rest s2.
Proof.
  intros HI Hrec Hrr Hjobs Hid Hset Hmono.
  pose proof (pi_nodup _ _ _ _ _ _ HI) as [Hnot Hnd]%NoDup_cons.
  split; [done|done|..|done|].
  - intros p j. rewrite Hjobs, lookup_insert_Some.
    intros [[<- [= <-]]|[_ Hp]]; [by rewrite Hid|]. by eapply pi_file.
  - intros j Hj. destruct (pi_rest _ _ _ _ _ _ HI j) as (H1 & H2 & H3); [by right|].
    rewrite Hjobs, lookup_insert_ne; [done|]. intros Hp. apply Hnot.
    assert (sf_jobs s1 !! job_path (sj_job_id job) = Some (Parsed job)) as Hj1
      by (apply (pi_rest _ _ _ _ _ _ HI); left).
    rewrite Hp, H1 in Hj1. injection Hj1 as <-. by apply list_elem_of_fmap_2.
  - intros p j. rewrite Hjobs, lookup_insert_Some.
    intros [[<- [= <-]]|[Hne Hp]] Hin; [done|]. apply Hmono.
    apply (pi_done _ _ _ _ _ _ HI); [done|]. cbn. rewrite not_elem_of_cons. split; [|done].
    intros Heq. apply Hne. rewrite <- Heq. symmetry. by eapply pi_file.
Qed.

Lemma push_recent_elem ids x y : y ∈ push_recent ids x → y ∈ ids ∨ y = x.
Proof.
  unfold push_recent. intros H. assert (y ∈ ids ++ [x]) as Hin.
  { destruct (bool_decide _); [|done]. by eapply subseteq_drop. }
  apply elem_of_app in Hin as [?|?%list_elem_of_singleton]; auto.
Qed.
Lemma exec_of_not_skip job n : starts_with "skip-" (exec_of job n) = false.
Proof. done. Qed.

Lemma progress_step now s0 state runs job rest s1 r s2 :
  instant_ok now →
  progress_inv now s0 state runs (job :: rest) s1 → job_step now state runs job s1 r s2 →
  match r with Ok (state', runs') => progress_inv now s0 state' runs' rest s2 | Err _ => True end.
Proof.
  intros Hnow HI Hstep.
  destruct (pi_rest _ _ _ _ _ _ HI job) as (Hj1 & Hj0 & Hv); [left|].
  assert (∀ s2, sf_jobs s2 = sf_jobs s1 →
    <[job_path (sj_job_id job) := Parsed job]> (sf_jobs s1) = sf_jobs s2) as Hsame.
  { intros s3 ->. by apply insert_id. }
  assert (∀ s2 exec status, sf_runs s2 = <[run_record_path (sj_job_id job) exec now :=
      Parsed (record_of now job exec status)]> (sf_runs s1) →
    (used s0 runs exec ∨ starts_with "skip-" exec = true) →
    ∀ p record, sf_runs s2 !! p = Some (Parsed record) → used s0 runs (rr_execution_id record)
     ∨ starts_with "skip-" (rr_execution_id record) = true) as Hrecords.
  { intros s3 exec status -> Hexec p record. rewrite lookup_insert_Some.
    intros [[_ [= <-]]|[_ Hp]]; [done|]. by apply (pi_records _ _ _ _ _ _ HI p). }
  destruct Hstep as [Hidle|n Hdue Hsk Hov|n next exec s2 Hdue Hsk Hnext Hexec Hf
    |n s2 Hdue Hsk Hov Hk Hf|n next s2 Hdue Hsk Hov Hrec Hrd Hnext Hf| |]; [..|done|done].
  - eapply (progress_next _ _ _ _ _ _ _ _ _ job); [done|apply HI|apply HI|symmetry; by apply Hsame|done| |done].
    intros n Hn. by destruct (Hidle n).
  - eapply (progress_next _ _ _ _ _ _ _ _ _ job); [done|apply HI|apply HI|symmetry; by apply Hsame|done| |done].
    intros m Hm. split; [done|by left].
  - destruct (files_after_fields _ _ _ _ _ Hf) as (Ej & Er & _).
    eapply progress_next; [done|apply HI|by eapply Hrecords; [|right]|done|done| |done].
    by apply skipped_settled.
  - destruct (files_after_fields _ _ _ _ _ Hf) as (Ej & Er & _).
    assert (used s0 runs (exec_of job n)) as Hu.
    { destruct Hk as [Hk|(_ & p & record & _ & _ & Hp & He)]; [by apply (pi_recent _ _ _ _ _ _ HI)|].
      rewrite <- He. destruct (pi_records _ _ _ _ _ _ HI p record Hp) as [|Hx]; [done|].
      rewrite He, exec_of_not_skip in Hx. done. }
    eapply (progress_next _ _ _ _ _ _ _ _ _ job);
      [done|apply HI|by eapply Hrecords; [|left]|symmetry; by apply Hsame|done| |done].
    intros m (Hst & Hm & Hle). destruct Hdue as (_ & Hn & _). simplify_eq. split; [done|by right].
  - destruct (files_after_fields _ _ _ _ _ Hf) as (Ej & Er & _).
    assert (∀ x, used s0 runs x → used s0 (runs ++ [run_of now n job]) x) as Hmono
      by (intros x; apply used_mono).
    assert (used s0 (runs ++ [run_of now n job]) (exec_of job n)) as Hu.
    { right; right. rewrite fmap_app. set_solver. }
    eapply progress_next; [done|..|done|apply dispatched_job_id| |].
    + intros x [Hx| ->]%push_recent_elem; [apply Hmono; by apply HI|done].
    + intros p record. rewrite Er, lookup_insert_Some. intros [[_ [= <-]]|[_ Hp]]; [by left|].
      destruct (pi_records _ _ _ _ _ _ HI p record Hp); auto.
    + by apply dispatched_settled.
    + intros p j. apply settled_mono.
Qed.

Lemma job_path_inj x y : x ≠ "" → y ≠ "" → is_absolute x = false → is_absolute y = false →
  job_path x = job_path y → x = y.
Proof.
  intros Nx Ny Hx Hy H. apply path_join_inj in H.
  - by apply str_app_inv_r in H.
  - by destruct x.
  - by destruct y.
Qed.
Lemma Forall2_ids s ps js :
  (∀ p j, sf_jobs s !! p = Some (Parsed j) → p = job_path (sj_job_id j)) →
  Forall2 (λ p j, sf_jobs s !! p = Some (Parsed j)) ps js → ps = job_path ∘ sj_job_id <$> js.
Proof.
  intros Hf. induction 1 as [|p j ps js Hp _ IH]; [done|].
  rewrite IH, (Hf p j Hp). done.
Qed.

(** A tick catches up.  After a tick that succeeds, no enabled job of a
    well-formed store is still due, except one left as it was because an
    execution of it is still active and it forbids overlap, or because its
    execution id had been used already.  In particular every schedule that fired
    or was skipped moved into the future or was disabled. *)
Theorem tick_leaves_no_due_job (now : Z) (s : sched_fs) (e : env) (runs : list DispatchedRun)
    (Hnow : instant_ok now) (Hwf : jobs_wf s) (Hok : (tick now (World s e)).2 = Ok runs)
    (p : string) (j : ScheduledJob) (n : Z)
    (Hj : sf_jobs (st (tick now (World s e)).1) !! p = Some (Parsed j)) (Hdue : due j now n) :
  held_back now s (fresh_active now s ++ (active_of <$> runs)) runs p j n.
Proof.
  assert (wp false (tick now) (λ r s', ∀ runs, r = Ok runs →
    ∃ state, ss_active_executions state = fresh_active now s ++ (active_of <$> runs)
      ∧ progress_inv now s state runs [] s') s) as Hwp.
  { apply (wp_tick _ (λ state runs rest s',
      ss_active_executions state = fresh_active now s ++ (active_of <$> runs)
      ∧ progress_inv now s state runs rest s')); [done|..].
    - intros jobs ps s' Hu Hjobs Hps (js & Hjs & Hpjs). simpl. rewrite app_nil_r.
      split; [done|]. destruct (files_after_fields _ _ _ _ _ Hu) as (Ej & Er & _).
      apply Forall2_ids in Hpjs; [|intros q k Hq; by destruct (jw_file _ Hwf q k Hq) as (_ & ? & _)].
      split; [by left| |..].
      + intros q record Hq. left. right; left. exists q, record. by rewrite <- Er.
      + intros q k Hq. rewrite Ej in Hq. by destruct (jw_file _ Hwf q k Hq) as (_ & ? & _).
      + intros k (Hd & q & _ & _ & Hq)%Hjobs. rewrite Ej in *.
        pose proof Hq as (_ & -> & _)%(jw_file _ Hwf). split; [done|]. split; [done|].
        by apply (jw_valid _ Hwf) in Hq.
      + rewrite <- Hjs. apply (NoDup_fmap_1 job_path). rewrite <- list_fmap_compose. by subst ps.
      + intros q k Hq Hin. exfalso. apply Hin. apply list_elem_of_fmap_2. apply Hjobs.
        rewrite Ej in Hq. pose proof (jw_file _ Hwf q k Hq) as (Hd & _ & Hp & Hx).
        split; [|exists q; by rewrite Ej].
        destruct Hu as (_ & _ & _ & _ & Hsub). set_solver.
    - intros state runs' job rest s1 r s2 [Ha HI] Hs.
      pose proof (progress_step _ _ _ _ _ _ _ _ _ Hnow HI Hs) as H.
      destruct r as [[state' runs'']|]; [|done]. split; [|done].
      inversion Hs; subst; try done. simpl. by rewrite Ha, fmap_app, <- (assoc (++)).
    - intros state runs' s1 [Ha HI]. split; [done|].
      intros s2 (Ej & Er & _) ? [= <-]. exists state. split; [done|].
      destruct HI. split; rewrite ?Ej, ?Er; done. }
  destruct (wp_run _ _ _ (World s e) Hwp ltac:(done) runs Hok) as (state & <- & HI).
  apply (pi_done _ _ _ _ _ _ HI); [done|set_solver|done].
Qed.

(** ** Runs that are lost *)
Lemma json_name_plain x : str_forall not_slash x = true → plain_name (x +:+ ".json") = true.
Proof.
  intros Hx. apply plain_name_spec. rewrite str_forall_app, Hx. split; [done|].
  destruct x as [|? [|? [|? ?]]]; done.
Qed.
Lemma sanitize_id_chars raw : str_forall filename_char (sanitize_id raw) = true.
Proof.
  unfold sanitize_id. induction raw as [|a s IH]; simpl; [done|].
  destruct (is_continuation a); [done|]. simpl. rewrite IH. unfold filename_char.
  by destruct (is_ascii_alphanumeric a) eqn:E; rewrite ?E.
Qed.
Lemma record_name_plain exec at_ :
  plain_name (fmt_int at_ +:+ "-" +:+ sanitize_id exec +:+ ".json") = true.
Proof.
  assert (∀ x, str_forall filename_char x = true → str_forall not_slash x = true) as Hf.
  { intros x. apply str_forall_impl, filename_char_not_slash. }
  rewrite <- !str_app_assoc. apply json_name_plain.
  rewrite !str_forall_app, (Hf _ (fmt_int_filename_chars _)). simpl.
  apply Hf, sanitize_id_chars.
Qed.

Lemma run_record_components job_id exec at_ :
  is_absolute runtime_root = true → plain_name job_id = true →
  components (run_record_path job_id exec at_)
  = components (path_join runtime_root "automation/runs")
    ++ [Normal job_id; Normal (fmt_int at_ +:+ "-" +:+ sanitize_id exec +:+ ".json")].
Proof.
  intros Hroot Hid. unfold Scheduler.run_record_path, Scheduler.runs_dir.
  assert (is_absolute (path_join runtime_root "automation/runs") = true) as Hr
    by by apply is_absolute_join.
  rewrite components_join_plain; [|by apply is_absolute_join|apply record_name_plain].
  rewrite components_join_plain by done. by rewrite <- (assoc (++)).
Qed.
Lemma run_record_path_ne id1 id2 e1 e2 a1 a2 :
  is_absolute runtime_root = true → plain_name id1 = true → plain_name id2 = true →
  id1 ≠ id2 → run_record_path id1 e1 a1 ≠ run_record_path id2 e2 a2.
Proof.
  intros Hroot H1 H2 Hne Heq. apply (f_equal components) in Heq.
  rewrite !run_record_components in Heq by done. apply (inj (app _)) in Heq. congruence.
Qed.
Lemma job_path_ne id1 id2 :
  plain_name id1 = true → plain_name id2 = true → id1 ≠ id2 → job_path id1 ≠ job_path id2.
Proof.
  intros (Hs1 & Hn1 & _)%plain_name_spec (Hs2 & Hn2 & _)%plain_name_spec Hne Heq.
  apply Hne, job_path_inj; auto using not_slash_not_absolute.
Qed.

(** Each job file holds the job its name says. *)
Definition jobs_named (s : sched_fs) : Prop := ∀ p j, sf_jobs s !! p = Some (Parsed j) →
  p = job_path (sj_job_id j) ∧ plain_name (sj_job_id j) = true.

(** A due run whose execution id is already in the job's run history. *)
Record stuck (j : ScheduledJob) (n : Z) (s : sched_fs) : Prop := {
  stuck_named : jobs_named s;
  stuck_job : sf_jobs s !! job_path (sj_job_id j) = Some (Parsed j);
  stuck_dir : runs_dir (sj_job_id j) ∈ sf_dirs s;
  stuck_record : ∃ at_ record,
    let p := run_record_path (sj_job_id j) (exec_of j n) at_ in
    path_parent p = Some (runs_dir (sj_job_id j)) ∧ is_json p
    ∧ sf_runs s !! p = Some (Parsed record) ∧ rr_execution_id record = exec_of j n;
}.
Lemma stuck_recorded j n s : stuck j n s → recorded s (sj_job_id j) (exec_of j n).
Proof. intros [_ _ Hd (at_ & record & Hp & Hx & Hr & He)]. split; [done|]. eauto 10. Qed.

Lemma jobs_named_insert s s' job :
  jobs_named s → sf_jobs s' = <[job_path (sj_job_id job) := Parsed job]> (sf_jobs s) →
  plain_name (sj_job_id job) = true → jobs_named s'.
Proof.
  intros Hn Hs Hp p j. rewrite Hs, lookup_insert_Some. intros [[<- [= <-]]|[_ H]]; auto.
Qed.

(** Writes for another job leave it stuck. *)
Lemma stuck_other j n s k jobs' runs' s' :
  is_absolute runtime_root = true → plain_name (sj_job_id j) = true →
  plain_name (sj_job_id k) = true → sj_job_id k ≠ sj_job_id j → stuck j n s →
  jobs' = sf_jobs s ∨ (∃ k', sj_job_id k' = sj_job_id k
    ∧ jobs' = <[job_path (sj_job_id k) := Parsed k']> (sf_jobs s)) →
  runs' = sf_runs s ∨ (∃ exec at_ v, runs' = <[run_record_path (sj_job_id k) exec at_ := v]> (sf_runs s)) →
  files_after s jobs' runs' (sf_incoming s') s' → stuck j n s'.
Proof.
  intros Hroot Hpj Hpk Hne [Hn Hj Hd (a & record & Hp & Hx & Hr & He)] Hjobs Hruns
    (Ej & Er & _ & _ & Hsub). split; [..|set_solver|].
  - destruct Hjobs as [->|(k' & Hk' & Hjobs)].
    { intros p x. rewrite Ej. apply Hn. }
    apply (jobs_named_insert s s' k'); [done| |]; rewrite Hk'; congruence.
  - rewrite Ej. destruct Hjobs as [->|(k' & _ & ->)]; [done|].
    rewrite lookup_insert_ne; [done|]. by apply job_path_ne.
  - exists a, record. split; [done|]. split; [done|]. split; [|done]. rewrite Er.
    destruct Hruns as [->|(e & b & v & ->)]; [done|].
    rewrite lookup_insert_ne; [done|]. by apply run_record_path_ne.
Qed.

(** So does recording the duplicate. *)
Lemma stuck_duplicate j n s now status s' :
  stuck j n s →
  files_after s (sf_jobs s) (<[run_record_path (sj_job_id j) (exec_of j n) now :=
    Parsed (record_of now j (exec_of j n) status)]> (sf_runs s)) (sf_incoming s) s' →
  stuck j n s'.
Proof.
  intros [Hn Hj Hd (a & record & Hp & Hx & Hr & He)] (Ej & Er & _ & _ & Hsub).
  split; [intros p k; rewrite Ej; apply Hn|by rewrite Ej|set_solver|].
  destruct (decide (run_record_path (sj_job_id j) (exec_of j n) now
                    = run_record_path (sj_job_id j) (exec_of j n) a)) as [Heq|Hne].
  - exists a. eexists. split; [done|]. split; [done|].
    rewrite Er, Heq, lookup_insert, decide_True by done. done.
  - exists a, record. split; [done|]. split; [done|]. split; [|done].
    by rewrite Er, lookup_insert_ne.
Qed.

Lemma stuck_step j n now state runs k s1 r s2 :
  is_absolute runtime_root = true → plain_name (sj_job_id j) = true →
  plain_name (sj_job_id k) = true → sj_misfire_policy j ≠ SkipMissed →
  sj_next_run_at j = Some n → (sj_job_id k = sj_job_id j → k = j) →
  stuck j n s1 → job_step now state runs k s1 r s2 →
  stuck j n s2 ∧ match r with
                 | Ok (_, runs') => runs' = runs ∨ ∃ x, runs' = runs ++ [x]
                     ∧ dr_job_id x ≠ sj_job_id j
                 | Err _ => True
                 end.
Proof.
  intros Hroot Hpj Hpk Hpol Hn Hk Hst Hstep.
  pose proof (stuck_recorded _ _ _ Hst) as Hrec.
  destruct (decide (sj_job_id k = sj_job_id j)) as [Heq|Hne].
  - specialize (Hk Heq) as ->.
    assert (∀ m, due j now m → m = n) as Hdue by (intros m (_ & ? & _); congruence).
    destruct Hstep as [| |m ? ? ? ? [_ ?]|m s2 Hd ? ? ? Hf|m ? ? Hd ? ? ? Hr|e s2 Hf|? ? m ? Hd [[_ ?]|Hr]];
      try done; [auto..| |].
    + rewrite (Hdue m Hd) in *. split; [|auto]. by eapply stuck_duplicate.
    + rewrite (Hdue m Hd) in Hr. done.
    + split; [|done]. destruct Hst, Hf as (Ej & Er & _ & _ & Hsub).
      split; rewrite ?Ej, ?Er; [..|set_solver|done].
      * intros p x. rewrite Ej. auto.
      * done.
    + rewrite (Hdue m Hd) in Hr. done.
  - destruct Hstep as [| |m ? ? ? ? ? ? ? Hf|m ? ? ? ? ? Hf|m next ? ? ? ? ? ? ? Hf|e s2 Hf|? ? m k' ? ? Hid Hf];
      (split; [|try (by left); try (right; eauto)]); try done.
    all: eapply stuck_other; [done|exact Hpj|exact Hpk|done|done| | |by eapply files_after_incoming]; eauto.
    + right. by exists (skipped_job now next k).
    + right. exists (dispatched_job now next k). split; [apply dispatched_job_id|done].
Qed.

Lemma stuck_tick j n now s :
  is_absolute runtime_root = true → sj_misfire_policy j ≠ SkipMissed →
  sj_next_run_at j = Some n → stuck j n s →
  wp false (tick now) (λ r s', stuck j n s' ∧
    ∀ runs, r = Ok runs → ∀ x, x ∈ runs → dr_job_id x ≠ sj_job_id j) s.
Proof.
  intros Hroot Hpol Hn Hst.
  assert (plain_name (sj_job_id j) = true) as Hpj by by eapply (stuck_named _ _ _ Hst), Hst.
  assert (∀ s', unchanged s s' → stuck j n s') as Hun.
  { intros s' (Ej & Er & _ & _ & Hsub). destruct Hst.
    split; rewrite ?Er, ?Ej; [|done|set_solver|done]. intros p x. rewrite Ej. auto. }
  apply (wp_tick _ (λ _ runs rest s', stuck j n s' ∧ (∀ x, x ∈ runs → dr_job_id x ≠ sj_job_id j)
    ∧ ∀ k, k ∈ rest → plain_name (sj_job_id k) = true ∧ (sj_job_id k = sj_job_id j → k = j))).
  - intros e s' Hu. split; [by apply Hun|done].
  - intros jobs ps s' Hu Hjobs _ _. pose proof (Hun s' Hu) as Hs'.
    split; [done|]. split; [set_solver|]. intros k (_ & p & _ & _ & Hp)%Hjobs.
    pose proof (stuck_named _ _ _ Hs' p k Hp) as [-> Hpk]. split; [done|].
    intros Heq. rewrite Heq, (stuck_job _ _ _ Hs') in Hp. congruence.
  - intros state runs k rest s1 r s2 (H1 & Hr & Hk) Hstep.
    destruct (Hk k) as [Hpk Heq]; [left|].
    destruct (stuck_step _ n _ _ _ _ _ _ _ Hroot Hpj Hpk Hpol Hn Heq H1 Hstep) as [H2 Hr'].
    destruct r as [[state' runs']|]; [|done]. split; [done|]. split.
    + destruct Hr' as [->|(x & -> & Hx)]; [done|].
      intros y [?| ->%list_elem_of_singleton]%elem_of_app; auto.
    + intros y Hy. apply Hk. by right.
  - intros state runs s1 (H1 & Hr & _). split.
    + intros e s2 (Ej & Er & _ & _ & Hsub). split; [|done]. destruct H1.
      split; rewrite ?Er, ?Ej; [|done|set_solver|done]. intros p x. rewrite Ej. auto.
    + intros s2 (Ej & Er & _ & _ & Hsub). split; [|by intros ? [= <-]]. destruct H1.
      split; rewrite ?Er, ?Ej; [|done|set_solver|done]. intros p x. rewrite Ej. auto.
Qed.

(** A finding.  When the execution id of a due run is already in the job's
    run history, the tick records a duplicate and leaves [next_run_at] as it
    is: the same id comes up at every later tick, and the job, still enabled,
    never runs again, whatever the times of the ticks and the I/O errors. *)
Theorem duplicate_run_never_fires (j : ScheduledJob) (n : Z) (s : sched_fs)
    (Hroot : is_absolute runtime_root = true) (Hpol : sj_misfire_policy j = FireOnceOnRecovery)
    (Hn : sj_next_run_at j = Some n) (Hst : stuck j n s) (ticks : list (Z * env)) :
  let s' := foldl (λ s te, st (tick te.1 (World s te.2)).1) s ticks in
  sf_jobs s' !! job_path (sj_job_id j) = Some (Parsed j)
  ∧ ∀ now e runs, (tick now (World s' e)).2 = Ok runs →
      ∀ r, r ∈ runs → dr_job_id r ≠ sj_job_id j.
Proof.
  intros s'. assert (stuck j n s') as Hs'.
  { subst s'. induction ticks as [|te ticks IH] using rev_ind; [done|].
    rewrite foldl_snoc. set (s1 := foldl _ _ _) in *.
    destruct (wp_run _ _ _ (World s1 te.2)
      (stuck_tick j n te.1 s1 Hroot ltac:(congruence) Hn IH) ltac:(done)) as [H _]. exact H. }
  split; [apply Hs'|]. intros now e runs Hok.
  destruct (wp_run _ _ _ (World s' e)
    (stuck_tick j n now s' Hroot ltac:(congruence) Hn Hs') ltac:(done)) as [_ H].
  by apply H.
Qed.

(** Every run of a tick is of a due job that is not to be skipped. *)
Lemma tick_runs_due now s :
  wp false (tick now) (λ r _, ∀ runs, r = Ok runs → ∀ x, x ∈ runs →
    ∃ job n, stored_job s job ∧ due job now n ∧ ¬ to_skip job now n ∧ x = run_of now n job) s.
Proof.
  apply (wp_tick _ (λ _ runs rest _, (∀ x, x ∈ runs →
      ∃ job n, stored_job s job ∧ due job now n ∧ ¬ to_skip job now n ∧ x = run_of now n job)
    ∧ ∀ k, k ∈ rest → stored_job s k)); [done|..].
  - intros jobs ps s' Hu Hjobs _ _. split; [set_solver|].
    intros k (_ & p & _ & _ & Hp)%Hjobs. exists p. by rewrite <- (files_after_jobs _ _ _ _ _ Hu).
  - intros state runs k rest s1 r s2 [Hr Hk] Hstep.
    assert (stored_job s k) as Hst by (apply Hk; left).
    assert (∀ y, y ∈ rest → stored_job s y) as Hrest by (intros y Hy; apply Hk; by right).
    destruct Hstep; try done. split; [|done].
    intros x [?| ->%list_elem_of_singleton]%elem_of_app; [by apply Hr|]. by exists k, n.
  - intros state runs s1 [Hr _]. split; [done|]. by intros s2 _ ? [= <-].
Qed.

Lemma wp_load job_id (Φ : result string ScheduledJob → sched_fs → Prop) s :
  (∀ e, Φ (Err e) s) →
  (∀ job, sf_jobs s !! job_path job_id = Some (Parsed job) → Φ (Ok job) s) →
  wp false (load runtime_root job_id) Φ s.
Proof.
  intros He Ho. apply wp_bind, wp_map_err, wp_sys; [intros _ e; apply He|]. simpl.
  destruct (sf_jobs s !! job_path job_id) as [[job|e]|] eqn:Ej; simpl;
    [apply wp_ret; by apply Ho|apply wp_throw, He|apply He].
Qed.

(** A finding.  [run_now] of a job that skips missed runs is lost unless a
    tick falls in the very second it was asked for: any later tick sees a missed
    run and does not dispatch the job. *)
Theorem run_now_of_skipping_job_is_lost (job_id : string) (t now : Z) (s : sched_fs) (e e' : env)
    (j : ScheduledJob) (runs : list DispatchedRun)
    (Hnamed : jobs_named s) (Hpol : sj_misfire_policy j = SkipMissed) (Hlater : (t < now)%Z)
    (Hrun : (run_now runtime_root job_id t (World s e)).2 = Ok j)
    (Htick : (tick now (World (st (run_now runtime_root job_id t (World s e)).1) e')).2 = Ok runs) :
  ∀ r, r ∈ runs → dr_job_id r ≠ sj_job_id j.
Proof.
  assert (wp false (run_now runtime_root job_id t) (λ r s', ∀ j, r = Ok j →
    sj_next_run_at j = Some t ∧ sf_jobs s' !! job_path (sj_job_id j) = Some (Parsed j)
    ∧ jobs_named s') s) as Hwp.
  { apply wp_bind, wp_load; [done|]. intros job Hjob.
    destruct (negb _); [by apply wp_throw|].
    apply wp_bind, wp_persist_job; [done|]. intros s1 H1. apply wp_ret. intros ? [= <-].
    split; [done|]. rewrite (files_after_jobs _ _ _ _ _ H1). split.
    - by rewrite lookup_insert, decide_True.
    - eapply jobs_named_insert; [done|by eapply files_after_jobs|]. exact (proj2 (Hnamed _ _ Hjob)). }
  destruct (wp_run _ _ _ (World s e) Hwp ltac:(done) j Hrun) as (Hnext & Hj & Hnm).
  set (s1 := st _) in *. intros r Hr Hid.
  destruct (wp_run _ _ _ (World s1 e') (tick_runs_due now s1) ltac:(done) runs Htick r Hr)
    as (k & n & [p Hk] & (_ & Hn & _) & Hsk & ->).
  destruct (Hnm p k Hk) as [-> _]. simpl in Hid. rewrite Hid, Hj in Hk. injection Hk as <-.
  apply Hsk. split; [congruence|done].
Qed.

(** ** The job state machine *)
Inductive sched_op :=
  | OpUpdate (job_id : string) (patch : JobPatch) (now : Z)
  | OpTransition (job_id : string) (to : JobState) (now : Z)
  | OpRunNow (job_id : string) (now : Z)
  | OpComplete (job_id execution_id : string) (succeeded : bool) (now : Z)
  | OpTick (now : Z).
Definition run_op (op : sched_op) : IO sched_fs string () :=
  match op with
  | OpUpdate job_id patch now => update runtime_root valid_tz local_time job_id patch now ;; mret ()
  | OpTransition job_id to now => transition_state runtime_root job_id to now ;; mret ()
  | OpRunNow job_id now => Scheduler.run_now runtime_root job_id now ;; mret ()
  | OpComplete job_id exec ok now =>
      complete_execution runtime_root json_to_string job_id exec ok now
  | OpTick now => tick now ;; mret ()
  end.

(** What a deleted job keeps: everything but the report of a run that was still
    going on. *)
Definition same_deleted (j j' : ScheduledJob) : Prop :=
  j' = set_job Deleted (sj_next_run_at j) (sj_last_run_at j) (sj_last_result j') (sj_updated_at j') j.
Definition deleted_at (p : string) (j : ScheduledJob) (s : sched_fs) : Prop :=
  jobs_named s ∧ ∃ j', sf_jobs s !! p = Some (Parsed j') ∧ same_deleted j j'.

Lemma deleted_unchanged p j s s' : sf_jobs s' = sf_jobs s → deleted_at p j s → deleted_at p j s'.
Proof. intros Ej [Hn Hd]. split; [|by rewrite Ej]. intros q k. rewrite Ej. auto. Qed.
Lemma deleted_write p j s s' job job' :
  deleted_at p j s → sf_jobs s !! job_path (sj_job_id job) = Some (Parsed job) →
  sj_job_id job' = sj_job_id job →
  (sj_state job = Deleted → same_deleted job job') →
  sf_jobs s' = <[job_path (sj_job_id job) := Parsed job']> (sf_jobs s) → deleted_at p j s'.
Proof.
  intros [Hn (j' & Hj' & Hd)] Hjob Hid Hdel Ej. split.
  { apply (jobs_named_insert s s' job'); [done|by rewrite Hid|]. rewrite Hid. by eapply Hn. }
  rewrite Ej. destruct (decide (p = job_path (sj_job_id job))) as [->|Hne].
  - rewrite lookup_insert, decide_True by done. exists job'. split; [done|].
    rewrite Hjob in Hj'. injection Hj' as <-. unfold same_deleted in *.
    rewrite Hdel by (by rewrite Hd). rewrite Hd. done.
  - rewrite lookup_insert_ne by done. by exists j'.
Qed.
Lemma deleted_other p j s s' k :
  deleted_at p j s → job_path (sj_job_id k) ≠ p → plain_name (sj_job_id k) = true →
  sf_jobs s' = <[job_path (sj_job_id k) := Parsed k]> (sf_jobs s) → deleted_at p j s'.
Proof.
  intros [Hn (j' & Hj' & Hd)] Hne Hpk Ej. split; [by eapply jobs_named_insert|].
  exists j'. by rewrite Ej, lookup_insert_ne.
Qed.

(** Storing a changed job that was just loaded. *)
Lemma wp_store_loaded p j job job' s (Φ : result string () → sched_fs → Prop) :
  deleted_at p j s → sf_jobs s !! job_path (sj_job_id job) = Some (Parsed job) →
  sj_job_id job' = sj_job_id job → (sj_state job = Deleted → same_deleted job job') →
  (∀ r s', deleted_at p j s' → Φ r s') →
  wp false (persist_job runtime_root job') Φ s.
Proof.
  intros Hd Hjob Hid Hsame HΦ. apply wp_persist_job.
  - intros e s' H'. apply HΦ. eapply deleted_unchanged; [by eapply files_after_jobs|done].
  - intros s' H'. apply HΦ. eapply (deleted_write _ _ _ _ job job'); [done..|].
    rewrite <- Hid. by eapply files_after_jobs.
Qed.
Lemma load_named p j job_id job s :
  deleted_at p j s → sf_jobs s !! job_path job_id = Some (Parsed job) →
  sf_jobs s !! job_path (sj_job_id job) = Some (Parsed job).
Proof. intros [Hn _] Hjob. by destruct (Hn _ _ Hjob) as [<- _]. Qed.

Lemma apply_patch_id patch now job job' :
  apply_patch valid_tz local_time patch now job = Ok job' → sj_job_id job' = sj_job_id job.
Proof.
  unfold apply_patch. intros ([sc next] & _ & (ta & _ & (tr & _ & [= <-])%bind_Ok)%bind_Ok)%bind_Ok.
  done.
Qed.

Lemma deleted_tick p j now s :
  deleted_at p j s → wp false (tick now) (λ _ s', deleted_at p j s') s.
Proof.
  intros Hd.
  apply (wp_tick _ (λ _ _ rest s', deleted_at p j s' ∧ ∀ k, k ∈ rest →
    plain_name (sj_job_id k) = true ∧ (sj_state k = Enabled → job_path (sj_job_id k) ≠ p))).
  - intros e s' Hu. eapply deleted_unchanged; [by eapply files_after_jobs|done].
  - intros jobs ps s' Hu Hjobs _ _.
    assert (deleted_at p j s') as Hd'
      by (eapply deleted_unchanged; [by eapply files_after_jobs|done]).
    split; [done|]. intros k (_ & q & _ & _ & Hq)%Hjobs.
    destruct Hd' as [Hn (j' & Hj' & Hdel)]. destruct (Hn q k Hq) as [-> Hpk].
    split; [done|]. intros Hen <-. rewrite Hq in Hj'. injection Hj' as <-.
    rewrite Hdel in Hen. done.
  - intros state runs k rest s1 r s2 [H1 Hk] Hstep.
    destruct (Hk k) as [Hpk Hne]; [left|].
    assert (∀ k, k ∈ rest → plain_name (sj_job_id k) = true
      ∧ (sj_state k = Enabled → job_path (sj_job_id k) ≠ p)) as Hrest
      by (intros y Hy; apply Hk; by right).
    assert (∀ k', sj_job_id k' = sj_job_id k → sj_state k = Enabled →
      sf_jobs s2 = <[job_path (sj_job_id k) := Parsed k']> (sf_jobs s1) →
      deleted_at p j s2) as Hw.
    { intros k' Hid Hen Hw. rewrite <- Hid in *. eapply (deleted_other _ _ s1); auto. }
    destruct Hstep as [| |m ? ? ? [? _] ? ? ? Hf|m ? ? ? ? ? Hf|m next ? [? _] ? ? ? ? ? Hf|e s2 Hf|? ? m k' [? _] ? Hid Hf];
      try (split; [|done]); try done.
    + eapply Hw; [|done|by eapply files_after_jobs]. done.
    + eapply deleted_unchanged; [by eapply files_after_jobs|done].
    + eapply Hw; [|done|by eapply files_after_jobs]. apply dispatched_job_id.
    + eapply deleted_unchanged; [by eapply files_after_jobs|done].
    + eapply Hw; [exact Hid|done|by eapply files_after_jobs].
  - intros state runs s1 [H1 _]. split.
    + intros e s2 Hu. eapply deleted_unchanged; [by eapply files_after_jobs|done].
    + intros s2 (Ej & _). by eapply deleted_unchanged.
Qed.

Lemma deleted_op p j op s :
  deleted_at p j s → wp false (run_op op) (λ _ s', deleted_at p j s') s.
Proof.
  intros Hd. destruct op as [id patch now|id to now|id now|id exec ok now|now]; simpl.
  - apply wp_bind, wp_bind, wp_load; [done|]. intros job Hjob.
    pose proof (load_named _ _ _ _ _ Hd Hjob) as Hjob'.
    case_decide as Hdel; [by apply wp_throw|]. apply wp_bind, wp_lift.
    destruct (apply_patch valid_tz local_time patch now job) as [job'|e] eqn:Ep; [|done].
    apply wp_bind, (wp_store_loaded p j job); auto; [by eapply apply_patch_id|by intros Hs|].
    intros [[]|e] s' Hs'; [by apply wp_ret, wp_ret|done].
  - apply wp_bind, wp_bind, wp_load; [done|]. intros job Hjob.
    pose proof (load_named _ _ _ _ _ Hd Hjob) as Hjob'.
    destruct (valid_transition (sj_state job) to) eqn:Ev; [|by apply wp_throw].
    apply wp_bind, (wp_store_loaded p j job); auto.
    + intros Hs. by rewrite Hs in Ev.
    + intros [[]|e] s' Hs'; [by apply wp_ret, wp_ret|done].
  - apply wp_bind, wp_bind, wp_load; [done|]. intros job Hjob.
    pose proof (load_named _ _ _ _ _ Hd Hjob) as Hjob'.
    destruct (bool_decide (sj_state job = Enabled)) eqn:Ev; [|by apply wp_throw].
    apply bool_decide_eq_true in Ev. apply wp_bind, (wp_store_loaded p j job); auto.
    + intros Hs. congruence.
    + intros [[]|e] s' Hs'; [by apply wp_ret, wp_ret|done].
  - apply wp_bind, wp_load_state; [done|]. apply wp_bind, wp_save_state.
    { intros e s' Hu. eapply deleted_unchanged; [by eapply files_after_jobs|done]. }
    intros s1 (Ej & _). apply (deleted_unchanged _ _ _ s1 Ej) in Hd.
    apply wp_bind, wp_attempt, wp_load.
    { intros _. apply wp_event. intros s2 Hu.
      eapply deleted_unchanged; [by eapply files_after_jobs|done]. }
    intros job Hjob. pose proof (load_named _ _ _ _ _ Hd Hjob) as Hjob'.
    apply wp_bind, (wp_store_loaded p j job); auto; [by intros Hs; unfold same_deleted; simpl; rewrite Hs|].
    intros [[]|e] s2 Hs2; [|done].
    apply wp_bind, wp_persist_run_record.
    + intros e s3 Hu. eapply deleted_unchanged; [by eapply files_after_jobs|done].
    + intros s3 Hu. apply wp_event. intros s4 Hu4.
      eapply deleted_unchanged; [by eapply files_after_jobs|].
      eapply deleted_unchanged; [by eapply files_after_jobs|done].
  - apply wp_bind. eapply wp_mono; [by apply deleted_tick|].
    intros [runs|e] s' Hs'; [by apply wp_ret|done].
Qed.

End guarantees.

(** ** Concrete stores *)
Definition demo_job (name : string) (policy : MisfirePolicy) (state : JobState)
    (next : option Z) : ScheduledJob :=
  {| sj_job_id := name; sj_orchestrator_id := "main"; sj_created_by := [];
     sj_schedule := Interval 60 None; sj_target_action := WorkflowStart "daily" [];
     sj_target_ref := None; sj_state := state; sj_misfire_policy := policy;
     sj_next_run_at := next; sj_last_run_at := None; sj_last_result := None;
     sj_allow_overlap := false; sj_created_at := 0; sj_updated_at := 0 |}.
Definition demo_fs (jobs : list ScheduledJob) (records : list (string * RunRecord)) : sched_fs :=
  {| sf_dirs := {[jobs_dir "/srv"; runs_dir "/srv" "job-a"]};
     sf_jobs := list_to_map ((λ j, (job_path "/srv" (sj_job_id j), Parsed j)) <$> jobs);
     sf_runs := list_to_map ((λ r, (r.1, Parsed r.2)) <$> records);
     sf_state := None; sf_incoming := ∅; sf_log := [] |}.
Definition any_tz (_ : string) : bool := true.
Definition demo_log (_ : Value) : string := "event".
Definition demo_tick (now : Z) : IO sched_fs string (list DispatchedRun) :=
  tick "/srv" any_tz demo_local_time te_execution_id demo_log now.

Definition demo_a := demo_job "job-a" FireOnceOnRecovery Enabled (Some 1000%Z).
Definition demo_b := demo_job "job-b" SkipMissed Enabled (Some 900%Z).
Definition demo_store := demo_fs [demo_a; demo_b] [].
Definition demo_runs := [run_of 1000 1000 demo_a].


Lemma demo_sched_stored jobs records p j :
  sf_jobs (demo_fs jobs records) !! p = Some (Parsed j) →
  p = job_path "/srv" (sj_job_id j) ∧ j ∈ jobs.
Proof.
  simpl. intros H. apply elem_of_list_to_map_2 in H.
  apply list_elem_of_fmap in H as (k & Hk & Hin). injection Hk as -> ->. done.
Qed.
Lemma demo_jobs_wf jobs records :
  Forall (λ j, path_parent (job_path "/srv" (sj_job_id j)) = Some (jobs_dir "/srv")
    ∧ is_json (job_path "/srv" (sj_job_id j)) ∧ schedule_valid any_tz (sj_schedule j)) jobs →
  jobs_wf "/srv" any_tz (demo_fs jobs records).
Proof.
  rewrite Forall_forall. intros Hf.
  split; intros p j [-> Hin]%demo_sched_stored; destruct (Hf j Hin) as (? & ? & ?); [|done].
  split; [set_solver|done].
Qed.
Lemma demo_jobs_named jobs records :
  Forall (λ j, plain_name (sj_job_id j) = true) jobs → jobs_named "/srv" (demo_fs jobs records).
Proof.
  rewrite Forall_forall. intros Hf p j [-> Hin]%demo_sched_stored. split; [done|]. by apply Hf.
Qed.

(** The job in the way: its earlier execution is still active. *)
Definition busy_store : sched_fs :=
  {| sf_dirs := sf_dirs demo_store; sf_jobs := sf_jobs demo_store; sf_runs := ∅;
     sf_state := Some (Parsed {| ss_last_tick_at := None; ss_recent_execution_ids := [];
       ss_active_executions := [{| ae_job_id := "job-a"; ae_execution_id := "exec-job-a-900";
                                   ae_started_at := 900 |}] |});
     sf_incoming := ∅; sf_log := [] |}.
Lemma tick_leaves_no_due_job_witness :
  (demo_tick 1000 (World busy_store (Env [] []))).2 = Ok []
  ∧ held_back 1000 busy_store (fresh_active 1000 busy_store) [] (job_path "/srv" "job-a") demo_a 1000.
Proof.
  assert ((demo_tick 1000 (World busy_store (Env [] []))).2 = Ok []) as Hok
    by (vm_compute; reflexivity).
  split; [exact Hok|].
  apply (tick_leaves_no_due_job "/srv" any_tz demo_local_time te_execution_id demo_log
    1000 busy_store (Env [] []) []).
  - vm_compute. split; discriminate.
  - assert (jobs_wf "/srv" any_tz demo_store) as [H1 H2].
    { apply demo_jobs_wf. repeat constructor; vm_compute; discriminate. }
    split; [exact H1|exact H2].
  - exact Hok.
  - vm_compute. reflexivity.
  - vm_compute. repeat split. discriminate.
Defined.

Definition duplicate_store : sched_fs := demo_fs [demo_a]
  [(run_record_path "/srv" "job-a" "exec-job-a-1000" 1000,
    record_of 1000 demo_a "exec-job-a-1000" Dispatched)].
Lemma duplicate_run_never_fires_witness :
  sf_jobs (foldl (λ s te, st (demo_tick te.1 (World s te.2)).1) duplicate_store
             [(1000%Z, Env [] []); (2000%Z, Env [] [])])
    !! job_path "/srv" "job-a" = Some (Parsed demo_a).
Proof.
  apply (duplicate_run_never_fires "/srv" any_tz demo_local_time te_execution_id demo_log
    demo_a 1000 duplicate_store).
  - reflexivity.
  - reflexivity.
  - reflexivity.
  - split.
    + apply demo_jobs_named. repeat constructor.
    + vm_compute. reflexivity.
    + set_solver.
    + exists 1000%Z. eexists. repeat split; vm_compute; reflexivity.
Defined.

Lemma run_now_of_skipping_job_is_lost_witness :
  ∃ j runs,
    (run_now "/srv" "job-b" 1000 (World demo_store (Env [] []))).2 = Ok j
    ∧ (demo_tick 1001 (World (st (run_now "/srv" "job-b" 1000 (World demo_store (Env [] []))).1)
         (Env [] []))).2 = Ok runs
    ∧ length runs = 1%nat ∧ ∀ r, r ∈ runs → dr_job_id r ≠ "job-b".
Proof.
  eexists _, _. split; [vm_compute; reflexivity|]. split; [vm_compute; reflexivity|].
  split; [reflexivity|].
  match goal with |- ∀ r, r ∈ ?runs → _ =>
    apply (run_now_of_skipping_job_is_lost "/srv" any_tz demo_local_time te_execution_id demo_log
      "job-b" 1000 1001 demo_store (Env [] []) (Env [] [])
      (set_job Enabled (Some 1000%Z) None None 1000 demo_b) runs)
  end.
  - apply demo_jobs_named. repeat constructor.
  - reflexivity.
  - lia.
  - vm_compute. reflexivity.
  - vm_compute. reflexivity.
Defined.

Definition demo_deleted := demo_job "job-a" FireOnceOnRecovery Deleted (Some 1000%Z).
