(* ===== verification/ScheduleParsing.v ===== *)
(** * Schedule arguments

    [src/src/app/schedule_parsing.rs]: schedules, actions, patches and command
    arguments as JSON and as words.  The JSON parser is a parameter. *)
From S2P Require Import Prelude RustStr Json SlackTarget Cron Scheduler.
From Stdlib Require Import Ascii.

Local Open Scope string_scope.
Local Open Scope list_scope.

Record ScheduleCreateTailArgs := {
  ta_target_ref : option Value;
  ta_misfire_policy : MisfirePolicy;
  ta_allow_overlap : bool;
}.

(** [obj.get(key).and_then(Value::as_..)] *)
Definition get_as {A} (as_a : Value → option A) (key : string) (obj : JMap) : option A :=
  map_get key obj ≫= as_a.

Definition parse_schedule_config (schedule_type : string) (schedule : JMap) :
    result string ScheduleConfig :=
  if String.eqb schedule_type "once" then
    run_at ← ok_or "schedule.once requires integer `runAt`" (get_as as_i64 "runAt" schedule);
    Ok (Once run_at)
  else if String.eqb schedule_type "interval" then
    every_seconds ← ok_or "schedule.interval requires integer `everySeconds`"
      (get_as as_u64 "everySeconds" schedule);
    Ok (Interval every_seconds (get_as as_i64 "anchorAt" schedule))
  else if String.eqb schedule_type "cron" then
    expression ← ok_or "schedule.cron requires string `expression`"
      (get_as as_str "expression" schedule);
    timezone ← ok_or "schedule.cron requires string `timezone`"
      (get_as as_str "timezone" schedule);
    Ok (Cron expression timezone)
  else Err ("scheduleType must be one of: once, interval, cron (got `" +:+ schedule_type +:+ "`)").

Definition parse_target_action_config (action : JMap) : result string TargetAction :=
  action_type ← ok_or "targetAction.type is required" (get_as as_str "type" action);
  if String.eqb action_type "workflow_start" then
    workflow_id ← ok_or "targetAction.workflow_start requires `workflowId`"
      (get_as as_str "workflowId" action);
    Ok (WorkflowStart workflow_id (from_option id [] (get_as as_object "inputs" action)))
  else if String.eqb action_type "command_invoke" then
    function_id ← ok_or "targetAction.command_invoke requires `functionId`"
      (get_as as_str "functionId" action);
    Ok (CommandInvoke function_id (from_option id [] (get_as as_object "functionArgs" action)))
  else Err ("targetAction.type must be workflow_start|command_invoke (got `" +:+ action_type
            +:+ "`)").

Definition parse_misfire_policy_arg (raw : option string) : result string MisfirePolicy :=
  match raw with
  | None => Ok FireOnceOnRecovery
  | Some raw =>
      if String.eqb raw "fire_once_on_recovery" then Ok FireOnceOnRecovery
      else if String.eqb raw "skip_missed" then Ok SkipMissed
      else Err ("misfirePolicy must be fire_once_on_recovery|skip_missed (got `" +:+ raw +:+ "`)")
  end.

Definition parse_bool (raw field : string) : result string bool :=
  if String.eqb raw "true" then Ok true
  else if String.eqb raw "false" then Ok false
  else Err (field +:+ " must be true|false").

(** [Option::transpose] of a mapped option. *)
Definition transpose {A B} (f : A → result string B) (o : option A) : result string (option B) :=
  match o with
  | Some a => b ← f a; Ok (Some b)
  | None => Ok None
  end.

Definition parse_job_patch (patch : JMap) : result string JobPatch :=
  schedule ← transpose (λ schedule,
      schedule_type ← ok_or "patch.schedule.type is required" (get_as as_str "type" schedule);
      parse_schedule_config schedule_type schedule) (get_as as_object "schedule" patch);
  target_action ← transpose parse_target_action_config (get_as as_object "targetAction" patch);
  let target_ref :=
    if map_contains_key "targetRef" patch then Some (map_get "targetRef" patch) else None in
  match target_ref with
  | Some (Some target_ref) => parse_slack_target_ref target_ref "patch.targetRef" ;; Ok ()
  | _ => Ok ()
  end ;;
  misfire_policy ← transpose (λ raw, parse_misfire_policy_arg (Some raw))
    (get_as as_str "misfirePolicy" patch);
  Ok {| jp_schedule := schedule; jp_target_action := target_action; jp_target_ref := target_ref;
        jp_misfire_policy := misfire_policy;
        jp_allow_overlap := get_as as_bool "allowOverlap" patch |}.

Definition normalize_slack_target_ref_value (target_ref : option Value) (field_path : string) :
    result string (option Value * option SlackTargetRef) :=
  match target_ref with
  | None => Ok (None, None)
  | Some target_ref =>
      parsed ← parse_slack_target_ref target_ref field_path;
      match parsed with
      | Some slack_target => Ok (Some (slack_target_ref_to_value slack_target), Some slack_target)
      | None => Ok (Some target_ref, None)
      end
  end.

(** The patch is changed in place: the new patch is returned with the target. *)
Definition normalize_patch_slack_target_ref (patch : JobPatch) (field_path : string) :
    result string (JobPatch * option SlackTargetRef) :=
  match jp_target_ref patch with
  | Some (Some target_ref) =>
      parsed ← parse_slack_target_ref target_ref field_path;
      match parsed with
      | Some slack_target =>
          Ok ({| jp_schedule := jp_schedule patch; jp_target_action := jp_target_action patch;
                 jp_target_ref := Some (Some (slack_target_ref_to_value slack_target));
                 jp_misfire_policy := jp_misfire_policy patch;
                 jp_allow_overlap := jp_allow_overlap patch |}, Some slack_target)
      | None => Ok (patch, None)
      end
  | _ => Ok (patch, None)
  end.

Section words.
(** [serde_json::from_str::<Value>] *)
Context (json_from_str : string → result string Value).

Definition parse_json_object_value (raw field : string) : result string Value :=
  value ← map_err (λ err, field +:+ " must be valid JSON object: " +:+ err) (json_from_str raw);
  if negb (is_object value) then Err (field +:+ " must be a JSON object") else Ok value.

Fixpoint tail_flags (args : list string) (acc : ScheduleCreateTailArgs) :
    result string ScheduleCreateTailArgs :=
  match args with
  | [] => Ok acc
  | flag :: args =>
      if String.eqb flag "--target-ref" then
        match args with
        | [] => Err "--target-ref requires a JSON object argument"
        | raw :: args =>
            value ← parse_json_object_value raw "target_ref_json";
            tail_flags args {| ta_target_ref := Some value;
              ta_misfire_policy := ta_misfire_policy acc;
              ta_allow_overlap := ta_allow_overlap acc |}
        end
      else if String.eqb flag "--misfire-policy" then
        match args with
        | [] => Err "--misfire-policy requires a value"
        | raw :: args =>
            policy ← parse_misfire_policy_arg (Some raw);
            tail_flags args {| ta_target_ref := ta_target_ref acc; ta_misfire_policy := policy;
              ta_allow_overlap := ta_allow_overlap acc |}
        end
      else if String.eqb flag "--allow-overlap" then
        match args with
        | [] => Err "--allow-overlap requires true|false"
        | raw :: args =>
            value ← parse_bool raw "allow_overlap";
            tail_flags args {| ta_target_ref := ta_target_ref acc;
              ta_misfire_policy := ta_misfire_policy acc; ta_allow_overlap := value |}
        end
      else if starts_with "--" flag then
        Err ("unknown schedule create flag `" +:+ flag +:+ "`")
      else Err ("unexpected positional argument `" +:+ flag
                +:+ "` when using named schedule flags")
  end.

Definition tail_default : ScheduleCreateTailArgs :=
  {| ta_target_ref := None; ta_misfire_policy := FireOnceOnRecovery; ta_allow_overlap := false |}.
Definition parse_schedule_create_tail_flags (args : list string) :
    result string ScheduleCreateTailArgs := tail_flags args tail_default.

(** [misfire_set] and [overlap_set] with the values. *)
Record tail_acc := { tc_args : ScheduleCreateTailArgs; tc_misfire_set : bool; tc_overlap_set : bool }.
Definition tail_positional (acc : tail_acc) (raw : string) : result string tail_acc :=
  let a := tc_args acc in
  match (if ta_target_ref a then None
         else result_ok (parse_json_object_value raw "target_ref_json")) with
  | Some value =>
      Ok {| tc_args := {| ta_target_ref := Some value; ta_misfire_policy := ta_misfire_policy a;
                          ta_allow_overlap := ta_allow_overlap a |};
            tc_misfire_set := tc_misfire_set acc; tc_overlap_set := tc_overlap_set acc |}
  | None =>
  match (if tc_misfire_set acc then None else result_ok (parse_misfire_policy_arg (Some raw))) with
  | Some policy =>
      Ok {| tc_args := {| ta_target_ref := ta_target_ref a; ta_misfire_policy := policy;
                          ta_allow_overlap := ta_allow_overlap a |};
            tc_misfire_set := true; tc_overlap_set := tc_overlap_set acc |}
  | None =>
  match (if tc_overlap_set acc then None else result_ok (parse_bool raw "allow_overlap")) with
  | Some value =>
      Ok {| tc_args := {| ta_target_ref := ta_target_ref a;
                          ta_misfire_policy := ta_misfire_policy a; ta_allow_overlap := value |};
            tc_misfire_set := tc_misfire_set acc; tc_overlap_set := true |}
  | None =>
      Err ("invalid schedule create argument `" +:+ raw
           +:+ "`; expected target_ref_json, misfire_policy, or allow_overlap")
  end end end.
Definition parse_schedule_create_tail_positionals (args : list string) :
    result string ScheduleCreateTailArgs :=
  acc ← for_fold tail_positional args
          {| tc_args := tail_default; tc_misfire_set := false; tc_overlap_set := false |};
  Ok (tc_args acc).

Definition parse_schedule_create_tail_args (args : list string) :
    result string ScheduleCreateTailArgs :=
  if is_nil args then Ok tail_default
  else if existsb (starts_with "--") args then parse_schedule_create_tail_flags args
  else parse_schedule_create_tail_positionals args.
End words.

(** ** Theorems *)
Definition policy_word (p : MisfirePolicy) : string :=
  match p with FireOnceOnRecovery => "fire_once_on_recovery" | SkipMissed => "skip_missed" end.
Definition bool_word (b : bool) : string := if b then "true" else "false".

Lemma permutations_of_three {A} (l : list A) x y z :
  l ≡ₚ [x; y; z] →
  l = [x; y; z] ∨ l = [x; z; y] ∨ l = [y; x; z] ∨ l = [y; z; x] ∨ l = [z; x; y] ∨ l = [z; y; x].
Proof.
  intros (k1 & k2 & -> & H)%Permutation_cons_inv_r.
  symmetry in H. apply Permutation_cons_inv_r in H as (m1 & m2 & E & H).
  symmetry in H. apply Permutation_singleton_r in H.
  assert (m1 = [] ∧ m2 = [z] ∨ m1 = [z] ∧ m2 = []) as [[-> ->]|[-> ->]].
  { destruct m1 as [|a [|]]; simpl in H; simplify_eq; auto. }
  all: destruct k1 as [|a [|b [|]]]; simpl in *; simplify_eq; auto 10; destruct k2; simplify_eq; auto 10.
Qed.

(** The arguments of [schedule create] can be given in any order, and as
    words or as named flags, with the same result: the JSON text of a target, the
    policy and the overlap setting are told apart by their form.  (The JSON
    parser reads neither a policy word nor a boolean as an object.) *)
Theorem schedule_arguments_order_irrelevant (json_from_str : string → result string Value)
    (text : string) (kvs : JMap) (p : MisfirePolicy) (b : bool) (args : list string)
    (Htext : json_from_str text = Ok (VObject kvs)) (Hdash : starts_with "--" text = false)
    (Hpolicy : ∀ p v, json_from_str (policy_word p) = Ok v → is_object v = false)
    (Hbool : ∀ b v, json_from_str (bool_word b) = Ok v → is_object v = false)
    (Hargs : args ≡ₚ [text; policy_word p; bool_word b]) :
  parse_schedule_create_tail_args json_from_str args
  = Ok {| ta_target_ref := Some (VObject kvs); ta_misfire_policy := p; ta_allow_overlap := b |}
  ∧ parse_schedule_create_tail_args json_from_str
      ["--allow-overlap"; bool_word b; "--misfire-policy"; policy_word p; "--target-ref"; text]
    = Ok {| ta_target_ref := Some (VObject kvs); ta_misfire_policy := p; ta_allow_overlap := b |}.
Proof.
  assert (result_ok (parse_json_object_value json_from_str text "target_ref_json")
          = Some (VObject kvs)) as Ht
    by (unfold parse_json_object_value; by rewrite Htext).
  assert (∀ w, (∀ v, json_from_str w = Ok v → is_object v = false) →
    result_ok (parse_json_object_value json_from_str w "target_ref_json") = None) as Hw.
  { intros w Hw. unfold parse_json_object_value. destruct (json_from_str w) as [v|e] eqn:E; [|done].
    simpl. by rewrite (Hw v). }
  pose proof (Hw _ (Hpolicy p)) as Hp. pose proof (Hw _ (Hbool b)) as Hb. clear Hw Hpolicy Hbool.
  split.
  2:{ unfold parse_schedule_create_tail_args. simpl.
      assert (parse_json_object_value json_from_str text "target_ref_json" = Ok (VObject kvs)) as Ht'
        by (unfold parse_json_object_value; by rewrite Htext).
      unfold parse_schedule_create_tail_flags. destruct b, p; simpl; by rewrite Ht'. }
  assert (∀ x, x ∈ args → starts_with "--" x = false) as Hd.
  { intros x. rewrite Hargs, !elem_of_cons. intros [->|[->|[->|Hx]]]; [done|by destruct p|by destruct b|].
    by apply elem_of_nil in Hx. }
  unfold parse_schedule_create_tail_args.
  assert (existsb (starts_with "--") args = false) as ->.
  { apply not_true_iff_false. rewrite existsb_exists. intros (x & Hx%list_elem_of_In & Hs).
    rewrite Hd in Hs; done. }
  assert (is_nil args = false) as ->.
  { apply is_nil_false. intros ->. by apply Permutation_nil_cons in Hargs. }
  unfold parse_schedule_create_tail_positionals.
  unfold tail_positional. revert Ht Hp Hb.
  generalize (parse_json_object_value json_from_str). intros parse_object Ht Hp Hb.
  apply permutations_of_three in Hargs as [->|[->|[->|[->|[->| ->]]]]].
  all: destruct p, b; simpl in *; repeat (rewrite ?Ht, ?Hp, ?Hb; simpl); done.
Qed.

(** A JSON reader for the demonstration: one object, everything else an error. *)
Definition demo_json (raw : string) : result string Value :=
  if String.eqb raw "{}" then Ok (VObject []) else Err "expected value".
Lemma schedule_arguments_order_irrelevant_witness :
  parse_schedule_create_tail_args demo_json ["true"; "{}"; "skip_missed"]
  = Ok {| ta_target_ref := Some (VObject []); ta_misfire_policy := SkipMissed;
          ta_allow_overlap := true |}.
Proof.
  apply (schedule_arguments_order_irrelevant demo_json "{}" [] SkipMissed true
    ["true"; "{}"; "skip_missed"]).
  - reflexivity.
  - reflexivity.
  - intros [] v H; vm_compute in H; discriminate.
  - intros [] v H; vm_compute in H; discriminate.
  - simpl. apply (Permutation_trans (l' := ["{}"; "true"; "skip_missed"])).
    + apply perm_swap.
    + apply perm_skip, perm_swap.
Defined.

(** A finding.  A patch can replace a job's target but not remove it: the
    patch type has a case for that, but no JSON patch parses to it ([null] is
    refused), so a job with a target keeps one through every update. *)
Theorem patch_cannot_clear_target (valid_tz : string → bool)
    (local_time : string → Z → option civil) (patch : JMap) (jp : JobPatch) (now : Z)
    (job job' : ScheduledJob) (Hparse : parse_job_patch patch = Ok jp)
    (Htarget : is_Some (sj_target_ref job))
    (Hupdate : apply_patch valid_tz local_time jp now job = Ok job') :
  is_Some (sj_target_ref job') ∧ jp_target_ref jp ≠ Some None
  ∧ ∃ e, parse_job_patch [("targetRef", VNull)] = Err e.
Proof.
  assert (jp_target_ref jp ≠ Some None) as Hne.
  { revert Hparse. unfold parse_job_patch, map_contains_key.
    intros (sc & _ & (ta & _ & ([] & _ & (mp & _ & [= <-])%bind_Ok)%bind_Ok)%bind_Ok)%bind_Ok.
    simpl. by destruct (map_get "targetRef" patch). }
  split; [|split; [done|by eexists]]. revert Hupdate. unfold apply_patch.
  intros ([sc nx] & _ & (ta & _ & (tr & Htr & [= <-])%bind_Ok)%bind_Ok)%bind_Ok. simpl.
  destruct (jp_target_ref jp) as [[v|]|]; [|done|by injection Htr as <-].
  apply bind_Ok in Htr as (? & _ & [= <-]). by eexists.
Qed.
Definition demo_target_job : ScheduledJob :=
  {| sj_job_id := "job-a"; sj_orchestrator_id := "main"; sj_created_by := [];
     sj_schedule := Interval 60 None; sj_target_action := WorkflowStart "daily" [];
     sj_target_ref := Some (VObject []); sj_state := Enabled;
     sj_misfire_policy := SkipMissed; sj_next_run_at := Some 60%Z; sj_last_run_at := None;
     sj_last_result := None; sj_allow_overlap := false; sj_created_at := 0; sj_updated_at := 0 |}.
Lemma patch_cannot_clear_target_witness :
  ∃ jp job',
    parse_job_patch [("allowOverlap", VBool true)] = Ok jp
    ∧ apply_patch (λ _, true) demo_local_time jp 7 demo_target_job = Ok job'
    ∧ sj_allow_overlap job' = true ∧ is_Some (sj_target_ref job').
Proof.
  eexists _, _. split; [reflexivity|]. split; [reflexivity|]. split; [reflexivity|].
  refine (proj1 (patch_cannot_clear_target (λ _, true) demo_local_time
    [("allowOverlap", VBool true)] _ 7 demo_target_job _ eq_refl _ eq_refl)).
  eexists. reflexivity.
Defined.
