(* ===== verification/Selector.v ===== *)
(** * Choosing the action for a message

    [src/src/orchestration/selector.rs], the selector part of
    [src/src/orchestration/routing.rs], [src/src/channels/policy.rs] and
    [src/src/orchestration/function_registry.rs].  The selector agent (and the
    caller's hook before it) is [next_attempt]: any computation that answers with
    text or not at all; the JSON decoder is a parameter. *)
From S2P Require Import Prelude RustStr RustPath Io Json QueueMessage Config OrchestratorFile OrchestratorError RunStore.
From Stdlib Require Import Ascii.

Local Open Scope string_scope.
Local Open Scope list_scope.

(** ** Functions *)
Inductive FunctionArgType := TString | TBoolean | TInteger | TObject.
Definition arg_type_matches (t : FunctionArgType) (value : Value) : bool :=
  match t with
  | TString => is_string value
  | TBoolean => is_boolean value
  | TInteger => is_i64 value || is_u64 value
  | TObject => is_object value
  end.
Definition FunctionArgType_display (t : FunctionArgType) : string :=
  match t with
  | TString => "string" | TBoolean => "boolean" | TInteger => "integer" | TObject => "object"
  end.

Record FunctionArgSchema := { fa_type : FunctionArgType; fa_required : bool; fa_description : string }.
Record FunctionSchema := {
  fs_function_id : string;
  fs_description : string;
  fs_args : list (string * FunctionArgSchema);
  fs_read_only : bool;
}.

(** ** Requests and results *)
Record SelectorRequest := {
  rq_selector_id : string;
  rq_channel_profile_id : string;
  rq_message_id : string;
  rq_conversation_id : option string;
  rq_user_message : string;
  rq_thread_context : option string;
  rq_memory_bulletin : option string;
  rq_memory_bulletin_citations : list string;
  rq_available_workflows : list string;
  rq_default_workflow : string;
  rq_available_functions : list string;
  rq_available_function_schemas : list FunctionSchema;
}.

Inductive SelectorStatus := Selected | SelectorFailed.
Inductive SelectorAction := WorkflowStart | WorkflowStatus | CommandInvoke | NoResponse.
#[export] Instance SelectorStatus_eq_dec : EqDecision SelectorStatus.
Proof. solve_decision. Defined.
#[export] Instance SelectorAction_eq_dec : EqDecision SelectorAction.
Proof. solve_decision. Defined.

Record SelectorResult := {
  sr_selector_id : string;
  sr_status : SelectorStatus;
  sr_action : option SelectorAction;
  sr_selected_workflow : option string;
  sr_function_id : option string;
  sr_function_args : option JMap;
  sr_reason : option string;
}.

(** ** Slash commands *)
Definition is_command_identifier_char (ch : ascii) : bool :=
  is_ascii_alphanumeric ch || Ascii.eqb ch "." || Ascii.eqb ch "_" || Ascii.eqb ch "-".
(** The character before and the character after a match; a multi-byte character
    is not an identifier character, and neither is any of its bytes. *)
Definition starts_free (s : string) : bool :=
  match s with "" => true | String c _ => negb (is_command_identifier_char c) end.
Definition ends_free (s : string) : bool := starts_free (String.rev s).

(** The non-overlapping matches of [needle], from left to right. *)
Fixpoint slash_matches (fuel : nat) (needle before rest : string) : bool :=
  match fuel with
  | O => false
  | S fuel =>
      match cut needle rest with
      | None => false
      | Some (skipped, after) =>
          (ends_free (before +:+ skipped) && starts_free after)
          || slash_matches fuel needle (before +:+ skipped +:+ needle) after
      end
  end.
Definition has_explicit_slash_command (user_message function_id : string) : bool :=
  let message := to_ascii_lowercase user_message in
  let needle := "/" +:+ to_ascii_lowercase function_id in
  slash_matches (S (String.length message)) needle "" message.

(** ** Validation *)
Definition selector_invalid (parts : list string) : OrchestratorError :=
  SelectorValidation (String.concat "" parts).

Definition validate_command_args (function_id : string) (schema : FunctionSchema) (args : JMap) :
    result OrchestratorError () :=
  for_each (λ key, reject_if (negb (map_contains_key key (fs_args schema)))
      (selector_invalid ["command_invoke has unknown argument `"; key; "` for function `";
                         function_id; "`"])) (map_keys args) ;;
  for_each (λ '(arg, arg_schema),
      match map_get arg args with
      | Some value =>
          reject_if (negb (arg_type_matches (fa_type arg_schema) value))
            (selector_invalid ["command_invoke argument `"; arg; "` for function `"; function_id;
               "` must be "; FunctionArgType_display (fa_type arg_schema)])
      | None =>
          reject_if (fa_required arg_schema)
            (selector_invalid ["command_invoke missing required argument `"; arg;
               "` for function `"; function_id; "`"])
      end) (fs_args schema).

Definition find_schema (function_id : string) (schemas : list FunctionSchema) :
    option FunctionSchema :=
  List.find (λ schema, String.eqb (fs_function_id schema) function_id) schemas.

Definition validate_command (request : SelectorRequest) (r : SelectorResult) :
    result OrchestratorError () :=
  function_id ← ok_or (SelectorValidation "command_invoke requires functionId") (sr_function_id r);
  reject_if (negb (has_explicit_slash_command (rq_user_message request) function_id))
    (selector_invalid ["command_invoke requires explicit slash command `/"; function_id;
                       "` in user_message"]) ;;
  reject_if (negb (bool_decide (function_id ∈ rq_available_functions request)))
    (selector_invalid ["function `"; function_id; "` is not in availableFunctions"]) ;;
  args ← ok_or (SelectorValidation "command_invoke requires functionArgs object")
           (sr_function_args r);
  match find_schema function_id (rq_available_function_schemas request) with
  | Some schema => validate_command_args function_id schema args
  | None => Ok ()
  end.

Definition validate_selected (request : SelectorRequest) (r : SelectorResult) :
    result OrchestratorError () :=
  action ← ok_or (SelectorValidation "selected result requires action") (sr_action r);
  match action with
  | WorkflowStart =>
      selected ← ok_or (SelectorValidation "workflow_start requires selectedWorkflow")
                   (sr_selected_workflow r);
      reject_if (negb (bool_decide (selected ∈ rq_available_workflows request)))
        (selector_invalid ["workflow `"; selected; "` is not in availableWorkflows"])
  | WorkflowStatus => Ok ()
  | CommandInvoke => validate_command request r
  | NoResponse => Ok ()
  end.

(** The checks on a decoded result. *)
Definition validate_selector_result (request : SelectorRequest) (r : SelectorResult) :
    result OrchestratorError SelectorResult :=
  reject_if (negb (String.eqb (sr_selector_id r) (rq_selector_id request)))
    (SelectorValidation "selectorId mismatch") ;;
  match sr_status r with
  | SelectorFailed => Ok r
  | Selected => validate_selected request r ;; Ok r
  end.

(** ** Who must be answered *)
Inductive ResponseEligibility := NotApplicable | MustReply | Opportunistic.
Definition is_explicit_profile_mention (inbound : IncomingMessage) : bool := im_is_mentioned inbound.
Definition classify_response_eligibility (settings : Settings) (inbound : IncomingMessage) :
    ResponseEligibility :=
  if im_is_direct inbound || is_explicit_profile_mention inbound then MustReply else Opportunistic.
Definition ResponseEligibility_debug (e : ResponseEligibility) : string :=
  match e with
  | NotApplicable => "NotApplicable" | MustReply => "MustReply" | Opportunistic => "Opportunistic"
  end.

(** ** Which orchestrator a message belongs to *)
Definition sender_orchestrator (settings : Settings) (prefix : string)
    (inbound : IncomingMessage) : option string :=
  rest ← strip_prefix prefix (im_sender inbound);
  let id := trim rest in
  if is_empty id then None
  else if map_contains_key id (s_orchestrators settings) then Some id else None.

Definition resolve_orchestrator_id (settings : Settings) (inbound : IncomingMessage) :
    result OrchestratorError string :=
  let channel_profile_id :=
    match im_channel_profile_id inbound with
    | Some id => if is_empty (trim id) then None else Some id
    | None => None
    end in
  match channel_profile_id with
  | Some id =>
      profile ← ok_or (UnknownChannelProfileId id) (map_get id (s_channel_profiles settings));
      Ok (cp_orchestrator_id profile)
  | None =>
      ok_or (MissingChannelProfileId (im_message_id inbound))
        (if String.eqb (im_channel inbound) "heartbeat" then
           sender_orchestrator settings "heartbeat:" inbound
         else if String.eqb (im_channel inbound) "scheduler" then
           sender_orchestrator settings "scheduler:" inbound
         else None)
  end.

(** ** The function registry *)
Record FunctionCall := { fc_function_id : string; fc_args : JMap }.
(** The allow list and the catalog; the context of the calls is in [execute]. *)
Record FunctionRegistry := {
  fr_allowed : gset string;
  fr_catalog : list (string * FunctionSchema);
}.
Definition normalize_allowlist (function_ids : list string)
    (catalog : list (string * FunctionSchema)) : gset string :=
  list_to_set (filter (λ id, map_contains_key id catalog = true) function_ids).
Definition registry_new (catalog : list (string * FunctionSchema)) (function_ids : list string) :
    FunctionRegistry :=
  {| fr_allowed := normalize_allowlist function_ids catalog; fr_catalog := catalog |}.
Definition v1_defaults (catalog : list (string * FunctionSchema)) : FunctionRegistry :=
  {| fr_allowed := list_to_set (map_keys catalog); fr_catalog := catalog |}.
Definition registry_contains (r : FunctionRegistry) (function_id : string) : bool :=
  bool_decide (function_id ∈ fr_allowed r).
(** A [BTreeSet] is listed in order. *)
Definition available_function_ids (r : FunctionRegistry) : list string :=
  merge_sort String.le (elements (fr_allowed r)).
Definition available_function_schemas (r : FunctionRegistry) : list FunctionSchema :=
  omap (λ id, map_get id (fr_catalog r)) (available_function_ids r).

Definition registry_validate_args (call : FunctionCall) (schema : FunctionSchema) :
    result OrchestratorError () :=
  for_each (λ key, reject_if (negb (map_contains_key key (fs_args schema)))
      (UnknownFunctionArg (fc_function_id call) key)) (map_keys (fc_args call)) ;;
  for_each (λ '(arg, arg_schema),
      match map_get arg (fc_args call) with
      | Some value =>
          reject_if (negb (arg_type_matches (fa_type arg_schema) value))
            (InvalidFunctionArgType (fc_function_id call) arg
               (FunctionArgType_display (fa_type arg_schema)))
      | None => reject_if (fa_required arg_schema) (MissingFunctionArg arg)
      end) (fs_args schema).

Definition invoke_with_context {S} (r : FunctionRegistry)
    (execute : string → JMap → option string → IO S OrchestratorError Value)
    (call : FunctionCall) (orchestrator_id : option string) : IO S OrchestratorError Value :=
  lift (reject_if (negb (registry_contains r (fc_function_id call)))
          (UnknownFunction (fc_function_id call))) ;;
  schema ← lift (ok_or (UnknownFunction (fc_function_id call))
                   (map_get (fc_function_id call) (fr_catalog r)));
  lift (registry_validate_args call schema) ;;
  execute (fc_function_id call) (fc_args call) orchestrator_id.

(** ** Asking the selector *)
Record SelectionResolution := {
  se_result : SelectorResult;
  se_retries_used : Z;
  se_fell_back_to_default_workflow : bool;
}.

Definition OPPORTUNISTIC_SELECTOR_RETRY_COUNT : Z := 3.

Section selection.
Context (state_root : string).
Context (decode_selector_result : string → result string SelectorResult).
(** Any computation that answers with text, or not: it cannot fail otherwise. *)
Context (next_attempt : Z → world run_store → world run_store * option string).

Definition ask (attempt : Z) : IO run_store OrchestratorError (option string) := λ w,
  let '(w', raw) := next_attempt attempt w in (w', Ok raw).

Definition parse_and_validate_selector_result (raw_json : string) (request : SelectorRequest) :
    result OrchestratorError SelectorResult :=
  r ← map_err SelectorJson (decode_selector_result raw_json);
  validate_selector_result request r.

(** An answer that ends the search. *)
Definition usable_answer (request : SelectorRequest) (raw : option string) :
    option SelectorResult :=
  raw ← raw;
  validated ← result_ok (parse_and_validate_selector_result raw request);
  if decide (sr_status validated = Selected) then Some validated else None.

(** [remaining] attempts from number [attempt] on; then [exhausted]. *)
Fixpoint attempts_loop (remaining : nat) (attempt : Z) (request : SelectorRequest)
    (exhausted : SelectionResolution) : IO run_store OrchestratorError SelectionResolution :=
  match remaining with
  | O => mret exhausted
  | S remaining =>
      raw ← ask attempt;
      match usable_answer request raw with
      | Some validated =>
          mret {| se_result := validated; se_retries_used := attempt;
                  se_fell_back_to_default_workflow := false |}
      | None => attempts_loop remaining (attempt + 1) request exhausted
      end
  end.

Definition fallback_result (request : SelectorRequest) (action : SelectorAction)
    (workflow : option string) (reason : string) : SelectorResult :=
  {| sr_selector_id := rq_selector_id request; sr_status := Selected; sr_action := Some action;
     sr_selected_workflow := workflow; sr_function_id := None; sr_function_args := None;
     sr_reason := Some reason |}.

Definition resolve_selector_with_retries (orchestrator : OrchestratorConfig)
    (request : SelectorRequest) : IO run_store OrchestratorError SelectionResolution :=
  let max_attempts := u32_sat_add (oc_selection_max_retries orchestrator) 1 in
  attempts_loop (Z.to_nat max_attempts) 0 request {|
    se_result := fallback_result request WorkflowStart
      (Some (oc_default_workflow orchestrator)) "fallback_to_default_workflow_after_retry_limit";
    se_retries_used := oc_selection_max_retries orchestrator;
    se_fell_back_to_default_workflow := true |}.

Definition resolve_selector_for_inbound (settings : Settings) (inbound : IncomingMessage)
    (request : SelectorRequest) (orchestrator : OrchestratorConfig) :
    IO run_store OrchestratorError SelectionResolution :=
  match classify_response_eligibility settings inbound with
  | Opportunistic =>
      attempts_loop (Z.to_nat (OPPORTUNISTIC_SELECTOR_RETRY_COUNT + 1)) 0 request {|
        se_result := fallback_result request NoResponse None
          "selector_retry_exhausted_no_response";
        se_retries_used := OPPORTUNISTIC_SELECTOR_RETRY_COUNT;
        se_fell_back_to_default_workflow := false |}
  | _ => resolve_selector_with_retries orchestrator request
  end.

(** [append_security_log]: failures are ignored. *)
Definition append_security_log (line : string) : IO run_store OrchestratorError () :=
  _ ← attempt (sys (create_dir_all (path_join state_root "logs")) ;; sys (append_log_line line));
  mret ().

Definition fmt_bool (b : bool) : string := if b then "true" else "false".
Definition no_response_line (event : string) (settings : Settings) (inbound : IncomingMessage)
    (tail : list string) : string :=
  String.concat "" (["selector.no_response."; event; " message_id="; im_message_id inbound;
    " channel_profile_id="; from_option id "" (im_channel_profile_id inbound); " mode=";
    ResponseEligibility_debug (classify_response_eligibility settings inbound);
    " mention_detected="; fmt_bool (is_explicit_profile_mention inbound)] ++ tail).

Definition overridden (orchestrator : OrchestratorConfig) (r : SelectorResult) : SelectorResult :=
  {| sr_selector_id := sr_selector_id r; sr_status := sr_status r;
     sr_action := Some WorkflowStart;
     sr_selected_workflow := Some (oc_default_workflow orchestrator);
     sr_function_id := None; sr_function_args := None;
     sr_reason := Some "no_response_overridden_to_default_workflow" |}.

(** The result after the policy ([result: &mut SelectorResult]). *)
Definition enforce_no_response_policy (settings : Settings) (inbound : IncomingMessage)
    (orchestrator : OrchestratorConfig) (r : SelectorResult) :
    IO run_store OrchestratorError SelectorResult :=
  if negb (bool_decide (sr_action r = Some NoResponse)) then mret r else
  let mention_detected := is_explicit_profile_mention inbound in
  let allow := match classify_response_eligibility settings inbound with
               | Opportunistic => true | _ => false end && negb mention_detected in
  if allow then
    append_security_log (no_response_line "accepted" settings inbound []) ;;
    mret r
  else
    append_security_log (no_response_line "overridden" settings inbound
      [" thread_message="; fmt_bool (im_is_thread_reply inbound)]) ;;
    mret (overridden orchestrator r).
End selection.
