(* ===== verification/SelectorGuarantees.v ===== *)
(** * What the selector may decide

    Commands need an explicit slash command and well-typed arguments, a message
    that must be answered is answered, functions run only when permitted. *)
From S2P Require Import Prelude RustStr Io Json TypedFields QueueMessage Config OrchestratorFile OrchestratorError RunStore Selector.
From Stdlib Require Import Ascii.

Local Open Scope string_scope.
Local Open Scope list_scope.

(** ** Arguments *)
Record args_ok (schema : FunctionSchema) (args : JMap) : Prop := {
  args_known key : key ∈ map_keys args → key ∈ map_keys (fs_args schema);
  args_typed arg arg_schema : (arg, arg_schema) ∈ fs_args schema →
    match map_get arg args with
    | Some value => arg_type_matches (fa_type arg_schema) value = true
    | None => fa_required arg_schema = false
    end;
}.

(** Both argument checks are this loop, with different errors. *)
Lemma check_args_Ok {E} (unknown : string → E) (bad : string → FunctionArgSchema → E)
    (missing : string → E) schema args u :
  (for_each (λ key, reject_if (negb (map_contains_key key (fs_args schema))) (unknown key))
     (map_keys args) ;;
   for_each (λ '(arg, arg_schema),
      match map_get arg args with
      | Some value => reject_if (negb (arg_type_matches (fa_type arg_schema) value)) (bad arg arg_schema)
      | None => reject_if (fa_required arg_schema) (missing arg)
      end) (fs_args schema)) = Ok u ↔ args_ok schema args.
Proof.
  rewrite seq_Ok, !for_each_Ok, !Forall_forall.
  setoid_rewrite reject_if_Ok. setoid_rewrite negb_false_iff.
  setoid_rewrite map_contains_key_elem.
  split.
  - intros [Hk Ht]. split; [done|]. intros arg sch Hin. specialize (Ht _ Hin). simpl in Ht.
    destruct (map_get arg args).
    + by apply reject_if_Ok, negb_false_iff in Ht.
    + by apply reject_if_Ok in Ht.
  - intros [Hk Ht]. split; [done|]. intros [arg sch] Hin. specialize (Ht _ _ Hin).
    destruct (map_get arg args); by rewrite Ht.
Qed.

(** ** Slash commands *)
Lemma slash_matches_sound fuel needle before rest :
  slash_matches fuel needle before rest = true →
  ∃ pre post, before +:+ rest = pre +:+ needle +:+ post
    ∧ ends_free pre = true ∧ starts_free post = true.
Proof.
  revert before rest. induction fuel as [|fuel IH]; intros before rest; [done|].
  cbn [slash_matches]. destruct (cut needle rest) as [[skipped after]|] eqn:Ec; [|done].
  apply cut_Some in Ec as ->. intros [[H1 H2]%andb_prop|H]%orb_prop.
  - exists (before +:+ skipped), after. split; [by rewrite !str_app_assoc|done].
  - apply IH in H as (pre & post & Heq & H1 & H2). exists pre, post.
    split; [|done]. rewrite <- Heq. by rewrite !str_app_assoc.
Qed.

(** The user typed the command: it stands in the message, in any case, with no
    identifier character right before or after it. *)
Definition typed_command (message function_id : string) : Prop :=
  ∃ pre post, to_ascii_lowercase message
    = pre +:+ ("/" +:+ to_ascii_lowercase function_id) +:+ post
    ∧ ends_free pre = true ∧ starts_free post = true.

(** The selector agent cannot invent a command.  If its answer is accepted as
    a command, then the user's message contains the slash command of exactly that
    function as a separate word, the function is among the available ones, and
    the arguments are exactly of its schema: no unknown name, every required one
    present, every value of the declared type. *)
Theorem selector_commands_are_explicit (decode : string → result string SelectorResult)
    (raw : string) (request : SelectorRequest) (r : SelectorResult)
    (Hok : parse_and_validate_selector_result decode raw request = Ok r)
    (Hsel : sr_status r = Selected) (Hcmd : sr_action r = Some CommandInvoke) :
  ∃ function_id args,
    sr_function_id r = Some function_id ∧ sr_function_args r = Some args
    ∧ typed_command (rq_user_message request) function_id
    ∧ function_id ∈ rq_available_functions request
    ∧ (∀ schema, find_schema function_id (rq_available_function_schemas request) = Some schema →
         args_ok schema args)
    ∧ sr_selector_id r = rq_selector_id request.
Proof.
  unfold parse_and_validate_selector_result in Hok. apply bind_Ok in Hok as (r' & _ & Hok).
  unfold validate_selector_result in Hok. apply seq_Ok in Hok as [Hid Hok].
  apply reject_if_Ok, negb_false_iff, String.eqb_eq in Hid.
  destruct (sr_status r') eqn:Es; [|injection Hok as ->; congruence].
  apply seq_Ok in Hok as [Hok [= ->]]. unfold validate_selected in Hok. rewrite Hcmd in Hok.
  simpl in Hok. unfold validate_command in Hok.
  apply bind_Ok in Hok as (f & Hf%ok_or_Ok & Hok). apply seq_Ok in Hok as [Hs Hok].
  apply seq_Ok in Hok as [Ha Hok]. apply bind_Ok in Hok as (args & Hargs%ok_or_Ok & Hok).
  apply reject_if_Ok, negb_false_iff in Hs, Ha. apply bool_decide_eq_true in Ha.
  exists f, args. split; [done|]. split; [done|]. split.
  { apply slash_matches_sound in Hs. exact Hs. }
  split; [done|]. split; [|done].
  intros schema Hschema. rewrite Hschema in Hok. by apply check_args_Ok in Hok.
Qed.

(** ** Functions *)
Definition call_permitted (r : FunctionRegistry) (call : FunctionCall) : Prop :=
  fc_function_id call ∈ fr_allowed r ∧ ∃ schema,
    map_get (fc_function_id call) (fr_catalog r) = Some schema ∧ args_ok schema (fc_args call).

Lemma registry_validate_args_Ok call schema :
  registry_validate_args call schema = Ok () ↔ args_ok schema (fc_args call).
Proof. apply check_args_Ok. Qed.

(** A function runs exactly when the call is permitted: allowed, in the
    catalog, with arguments of its schema.  Then the call is the execution
    itself; otherwise it is an error that touches nothing.  A registry built from
    an allow list permits only functions of the catalog. *)
Theorem invoke_exactly_when_permitted {S} (r : FunctionRegistry)
    (execute : string → JMap → option string → IO S OrchestratorError Value)
    (call : FunctionCall) (orchestrator_id : option string) (w : world S) :
  (call_permitted r call →
     invoke_with_context r execute call orchestrator_id w
     = execute (fc_function_id call) (fc_args call) orchestrator_id w)
  ∧ (¬ call_permitted r call →
     ∃ e, invoke_with_context r execute call orchestrator_id w = (w, Err e))
  ∧ (∀ catalog ids function_id, registry_contains (registry_new catalog ids) function_id = true →
       function_id ∈ ids ∧ is_Some (map_get function_id catalog)).
Proof.
  unfold invoke_with_context, registry_contains, call_permitted. split; [|split].
  - intros (Ha & schema & Hs & Hargs). rewrite bool_decide_true by done. rewrite Hs.
    apply registry_validate_args_Ok in Hargs. unfold lift, mbind, IO_bind. simpl. by rewrite Hargs.
  - intros Hn. destruct (bool_decide_reflect (fc_function_id call ∈ fr_allowed r)) as [Ha|Ha];
      [|by eexists]. simpl.
    destruct (map_get (fc_function_id call) (fr_catalog r)) as [schema|] eqn:Es; [|by eexists].
    unfold lift, mbind, IO_bind. simpl.
    destruct (registry_validate_args call schema) as [[]|e] eqn:Ev; [|by eexists].
    destruct Hn. split; [done|]. exists schema. split; [done|]. by apply registry_validate_args_Ok.
  - intros catalog ids f H%bool_decide_eq_true. simpl in H. unfold normalize_allowlist in H.
    apply elem_of_list_to_set, list_elem_of_filter in H as [Hc Hin]. split; [done|].
    unfold map_contains_key in Hc. by destruct (map_get f catalog).
Qed.

(** ** The final decision *)
Section decision.
Context (state_root : string).
Context (decode : string → result string SelectorResult).
Context (next_attempt : Z → world run_store → world run_store * option string).

(** A decision the routing step accepts for this request. *)
Definition acceptable (request : SelectorRequest) (r : SelectorResult) : Prop :=
  sr_status r = Selected ∧ validate_selector_result request r = Ok r.

Lemma usable_answer_acceptable request raw r :
  usable_answer decode request raw = Some r → acceptable request r.
Proof.
  unfold usable_answer. destruct raw as [raw|]; [|done]. simpl.
  destruct (parse_and_validate_selector_result decode raw request) as [v|] eqn:Ev; [|done].
  simpl. case_decide as Hs; [|done]. intros [= <-]. split; [done|].
  unfold parse_and_validate_selector_result in Ev. apply bind_Ok in Ev as (v' & _ & Ev).
  assert (v = v') as ->; [|done]. unfold validate_selector_result in Ev.
  apply seq_Ok in Ev as [_ Ev]. destruct (sr_status v'); [|by injection Ev].
  by apply seq_Ok in Ev as [_ [= ->]].
Qed.
Lemma wp_ask n (Φ : result OrchestratorError (option string) → run_store → Prop) s :
  (∀ raw s', Φ (Ok raw) s') → wp false (ask next_attempt n) Φ s.
Proof.
  intros H e _. unfold ask. destruct (next_attempt n _) as [w raw]. split; [done|apply H].
Qed.
Lemma wp_attempts_loop remaining n request exhausted s :
  acceptable request (se_result exhausted) →
  wp false (attempts_loop decode next_attempt remaining n request exhausted)
    (λ r _, ∃ resolution, r = Ok resolution ∧ acceptable request (se_result resolution)) s.
Proof.
  intros He. revert n s. induction remaining as [|remaining IH]; intros n s.
  { apply wp_ret. by exists exhausted. }
  cbn [attempts_loop]. apply wp_bind, wp_ask. intros raw s1.
  destruct (usable_answer decode request raw) as [v|] eqn:Ev; [|apply IH].
  apply wp_ret. eexists. split; [done|]. simpl. by eapply usable_answer_acceptable.
Qed.

Lemma fallback_workflow_acceptable request workflow reason :
  workflow ∈ rq_available_workflows request →
  acceptable request (fallback_result request WorkflowStart (Some workflow) reason).
Proof.
  intros Hw. split; [done|]. unfold validate_selector_result. simpl. rewrite String.eqb_refl.
  unfold validate_selected. simpl. by rewrite bool_decide_true.
Qed.

Lemma wp_security_log line (Φ : result OrchestratorError () → run_store → Prop) s :
  (∀ s', Φ (Ok ()) s') → wp false (append_security_log state_root line) Φ s.
Proof.
  intros H. apply wp_bind, wp_attempt, wp_bind.
  apply wp_sys; [intros _ e; apply wp_ret, H|].
  apply wp_sys; [intros _ e|]; apply wp_ret, H.
Qed.

(** C29: Every message gets a decision, and one the router will accept, whatever
    the selector agent answers or fails to answer: a selected action that
    passes the validation against the request.  A direct or mentioning message
    is never left without a response.  (The request offers the workflows of a
    valid configuration.) *)
Theorem every_message_gets_a_decision (settings : Settings) (inbound : IncomingMessage)
    (orchestrator : OrchestratorConfig) (request : SelectorRequest) (w : world run_store)
    (Hvalid : validate_setup_invariants orchestrator = Ok ())
    (Hrequest : rq_available_workflows request = wf_id <$> oc_workflows orchestrator) :
  ∃ resolution decision,
    (resolve_selector_for_inbound decode next_attempt settings inbound request orchestrator w).2
      = Ok resolution
    ∧ (enforce_no_response_policy state_root settings inbound orchestrator (se_result resolution)
        (resolve_selector_for_inbound decode next_attempt settings inbound request orchestrator w).1).2
      = Ok decision
    ∧ acceptable request decision
    ∧ (im_is_direct inbound || im_is_mentioned inbound = true → sr_action decision ≠ Some NoResponse).
Proof.
  assert (oc_default_workflow orchestrator ∈ rq_available_workflows request) as Hdef.
  { rewrite Hrequest. by apply validate_setup_sound in Hvalid as [_ _ ? _]. }
  assert (∀ s, wp false
    (resolve_selector_for_inbound decode next_attempt settings inbound request orchestrator)
    (λ r _, ∃ resolution, r = Ok resolution ∧ acceptable request (se_result resolution)) s) as H1.
  { intros s. unfold resolve_selector_for_inbound, resolve_selector_with_retries.
    destruct (classify_response_eligibility settings inbound); apply wp_attempts_loop; simpl;
      [by apply fallback_workflow_acceptable..|].
    split; [done|]. unfold validate_selector_result. simpl. by rewrite String.eqb_refl. }
  destruct (wp_run _ _ _ w (H1 (st w)) ltac:(done)) as (resolution & Hres & Hacc).
  set (w1 := (resolve_selector_for_inbound _ _ _ _ _ _ w).1) in *.
  assert (wp false (enforce_no_response_policy state_root settings inbound orchestrator
      (se_result resolution))
    (λ r _, ∃ d, r = Ok d ∧ acceptable request d
      ∧ (im_is_direct inbound || im_is_mentioned inbound = true → sr_action d ≠ Some NoResponse))
    (st w1)) as H2.
  { unfold enforce_no_response_policy.
    destruct (bool_decide_reflect (sr_action (se_result resolution) = Some NoResponse)) as [Hn|Hn];
      simpl; [|by apply wp_ret; eexists].
    unfold classify_response_eligibility, is_explicit_profile_mention.
    destruct (im_is_direct inbound || im_is_mentioned inbound) eqn:Em; simpl.
    - apply wp_bind, wp_security_log. intros s'. apply wp_ret. eexists. split; [done|].
      split; [|done]. destruct Hacc as [Hs Hv]. split; [done|].
      unfold validate_selector_result in *. apply seq_Ok in Hv as [Hid _].
      simpl. rewrite Hid. simpl. rewrite Hs. unfold validate_selected. simpl.
      by rewrite bool_decide_true.
    - apply orb_false_iff in Em as [_ Em]. rewrite Em. simpl.
      apply wp_bind, wp_security_log. intros s'. apply wp_ret. by eexists. }
  destruct (wp_run _ _ _ w1 H2 ltac:(done)) as (d & Hd & Ha & Hr).
  by exists resolution, d.
Qed.
End decision.

(** ** Concrete messages *)
Definition demo_schema : FunctionSchema := {|
  fs_function_id := "schedule.list"; fs_description := "list jobs";
  fs_args := [("limit", {| fa_type := TInteger; fa_required := true; fa_description := "" |})];
  fs_read_only := true |}.
Definition demo_request (message : string) : SelectorRequest := {|
  rq_selector_id := "sel-1"; rq_channel_profile_id := "slack"; rq_message_id := "1";
  rq_conversation_id := None; rq_user_message := message; rq_thread_context := None;
  rq_memory_bulletin := None; rq_memory_bulletin_citations := [];
  rq_available_workflows := ["w"]; rq_default_workflow := "w";
  rq_available_functions := ["schedule.list"];
  rq_available_function_schemas := [demo_schema] |}.
Definition demo_answer (action : SelectorAction) : SelectorResult := {|
  sr_selector_id := "sel-1"; sr_status := Selected; sr_action := Some action;
  sr_selected_workflow := None; sr_function_id := Some "schedule.list";
  sr_function_args := Some [("limit", VNumber (NPosInt 3))]; sr_reason := None |}.
Definition demo_decode (raw : string) : result string SelectorResult :=
  if String.eqb raw "command" then Ok (demo_answer CommandInvoke)
  else if String.eqb raw "silent" then Ok (demo_answer NoResponse)
  else Err "expected value".

Lemma selector_commands_are_explicit_witness :
  parse_and_validate_selector_result demo_decode "command" (demo_request "hey, /Schedule.List!")
    = Ok (demo_answer CommandInvoke)
  ∧ typed_command "hey, /Schedule.List!" "schedule.list".
Proof.
  split; [vm_compute; reflexivity|].
  destruct (selector_commands_are_explicit demo_decode "command"
    (demo_request "hey, /Schedule.List!") (demo_answer CommandInvoke)
    ltac:(vm_compute; reflexivity) eq_refl eq_refl) as (f & args & Hf & _ & H & _).
  injection Hf as <-. exact H.
Defined.

Definition demo_settings : Settings := {|
  s_workspaces_path := "/srv"; s_shared_workspaces := []; s_orchestrators := [];
  s_channel_profiles := []; s_heartbeat_interval := None; s_channels := [];
  s_auth_sync := {| auth_enabled := false; auth_sources := [] |};
  s_memory := MemoryConfig_default; s_local_llm := LocalLlmConfig_default |}.
Definition demo_mention : IncomingMessage := {|
  im_channel := "slack"; im_channel_profile_id := Some "slack"; im_sender := "dana";
  im_sender_id := "U1"; im_message := "hello"; im_timestamp := 1; im_message_id := "1";
  im_conversation_id := None; im_is_direct := false; im_is_thread_reply := false;
  im_is_mentioned := true; im_files := []; im_workflow_run_id := None;
  im_workflow_step_id := None |}.
Definition demo_config : OrchestratorConfig := {|
  oc_id := "main"; oc_selector_agent := "main"; oc_default_workflow := "w";
  oc_selection_max_retries := 1; oc_selector_timeout_seconds := 30;
  oc_agents := [("main", {| ag_provider := Anthropic; ag_model := "sonnet";
                            ag_can_orchestrate_workflows := true |})];
  oc_workflows := [{| wf_id := "w"; wf_version := 1; wf_description := "d"; wf_tags := [];
    wf_inputs := []; wf_limits := None; wf_steps := [{|
      ws_id := "plan"; ws_step_type := AgentTask; ws_agent := "main"; ws_prompt := "do it";
      ws_prompt_type := WorkflowResultEnvelope; ws_workspace_mode := OrchestratorWorkspace;
      ws_next := None; ws_on_approve := None; ws_on_reject := None;
      ws_outputs := [{| ok_name := "summary"; ok_required := true |}];
      ws_output_files := [("summary", "summary.md")];
      ws_final_output_priority := [{| ok_name := "summary"; ok_required := true |}];
      ws_limits := None |}] |}];
  oc_workflow_orchestration := None |}.
(** A selector agent that always wants to stay silent. *)
Definition silent_agent (_ : Z) (w : world run_store) : world run_store * option string :=
  (w, Some "silent").
Definition empty_store : world run_store :=
  World {| rs_runs := ∅; rs_progress := ∅; rs_attempts := ∅; rs_log := []; rs_files := ∅ |} (Env [] []).

Lemma every_message_gets_a_decision_witness :
  validate_setup_invariants demo_config = Ok ()
  ∧ ∃ decision, acceptable (demo_request "hello") decision
      ∧ sr_action decision ≠ Some NoResponse.
Proof.
  split; [vm_compute; reflexivity|].
  destruct (every_message_gets_a_decision "/state" demo_decode silent_agent demo_settings
    demo_mention demo_config (demo_request "hello") empty_store ltac:(vm_compute; reflexivity)
    eq_refl) as (resolution & decision & _ & _ & Ha & Hr).
  exists decision. split; [exact Ha|exact (Hr eq_refl)].
Defined.
