(* ===== verification/StepExecution.v ===== *)
(** * Executing a step

    [src/src/orchestration/step_execution.rs] and the invocation log of
    [src/src/orchestration/diagnostics.rs]: one attempt of a step, from the access
    check over the rendered prompt and the provider's program to the judged
    outputs.  The program is a parameter: how it behaves when it is started on
    some files, and the files it leaves.  [step_executor] is the implementation of
    the engine's [StepExecutor]. *)
From S2P Require Import Prelude RustStr RustPath Io Json TypedFields Config OrchestratorFile OrchestratorError WorkspaceAccess OutputContract RunStore Prompts PromptRender WorkflowEngine Selector Provider.

Local Open Scope string_scope.
Local Open Scope list_scope.

(** ** The invocation log *)
Definition invocation_payload (log : InvocationLog) : Value := VObject (map_from_iter
  [("agentId", VString (il_agent_id log));
   ("provider", VString (ProviderKind_display (il_provider log)));
   ("model", VString (il_model log));
   ("commandForm", VString (il_command_form log));
   ("workingDirectory", VString (il_working_directory log));
   ("promptFile", VString (il_prompt_file log));
   ("contextFiles", VArray (VString <$> il_context_files log));
   ("exitCode", match il_exit_code log with Some value => VInt value | None => VNull end);
   ("timedOut", VBool (il_timed_out log))]).
Definition persist_provider_invocation_log (to_vec_pretty : Value → string) (path_root : string)
    (log : InvocationLog) : IO disk io_error () :=
  sys (disk_write (path_join path_root "provider_invocation.json")
         (to_vec_pretty (invocation_payload log))).

(** ** What the provider is asked *)
Definition file_name_or (default path : string) : string := from_option id default (file_name path).
Definition provider_instruction_message (artifacts : PromptArtifacts) : string :=
  let prompt_parent := path_parent (pa_prompt_file artifacts) in
  let context_files := pa_context_files artifacts in
  match prompt_parent with
  | Some parent =>
      if forallb (λ path, bool_decide (path_parent path = Some parent)) context_files then
        String.concat "" ["Read file(s) ";
          join ", " (file_name_or "prompt.md" (pa_prompt_file artifacts)
                     :: (file_name_or "context.md" <$> context_files));
          " from "; parent; ". Execute exactly as instructed in those files."]
      else String.concat "" ["Read file(s) "; join ", " (pa_prompt_file artifacts :: context_files);
             ". Execute exactly as instructed in those files."]
  | None => String.concat "" ["Read file(s) "; join ", " (pa_prompt_file artifacts :: context_files);
              ". Execute exactly as instructed in those files."]
  end.

(** ** The outputs of earlier steps *)
(** The directory of the attempts of a step: the attempts with a record. *)
Definition attempts_root (state_root run_id step_id : string) : string :=
  path_join (path_join (path_join (path_join (path_join state_root "workflows/runs") run_id)
    "steps") step_id) "attempts".
Definition attempt_entry (root path : string) : option (string * string) :=
  rest ← strip_prefix (root +:+ "/") path;
  name ← strip_suffix "/result.json" rest;
  if plain_name name then Some (name, path) else None.
Definition attempt_entries (root : string) (s : run_store) : list (string * string) :=
  omap (attempt_entry root) (map_to_list (rs_attempts s)).*1.

Definition read_attempt (root : string) (latest_attempt : option (Z * StepAttemptRecord))
    (entry : string * string) :
    IO run_store OrchestratorError (option (Z * StepAttemptRecord)) :=
  let '(name, result_path) := entry in
  io_map_err (IoErr root) (sys (λ s, (s, Ok ()))) ;;
  match parse_u32 name with
  | None => mret latest_attempt
  | Some attempt_num =>
      is_file ← path_exists (λ s,
        (s, match rs_attempts s !! result_path with Some _ => Ok () | None => Err not_found end));
      if negb is_file then mret latest_attempt else
      attempt ← read_json rs_attempts result_path;
      if negb (String.eqb (sa_state attempt) "succeeded") then mret latest_attempt else
      match latest_attempt with
      | Some (current, _) =>
          mret (if bool_decide (attempt_num ≤ current)%Z then latest_attempt
                else Some (attempt_num, attempt))
      | None => mret (Some (attempt_num, attempt))
      end
  end.
Definition read_step_outputs (root : string) :
    IO run_store OrchestratorError (option (Z * StepAttemptRecord)) :=
  exists_ ← path_exists (λ s, (s, if is_nil (attempt_entries root s) then Err not_found else Ok ()));
  if negb exists_ then mret None else
  entries ← io_map_err (IoErr root) (sys (λ s, (s, Ok (attempt_entries root s))));
  io_for_fold (read_attempt root) entries None.
Definition load_latest_step_outputs (state_root run_id : string) (workflow : WorkflowConfig)
    (current_step_id : string) : IO run_store OrchestratorError (list (string * JMap)) :=
  io_for_fold (λ outputs step,
    if String.eqb (ws_id step) current_step_id then mret outputs else
    latest_attempt ← read_step_outputs (attempts_root state_root run_id (ws_id step));
    mret match latest_attempt with
         | Some (_, attempt) => map_insert (ws_id step) (sa_outputs attempt) outputs
         | None => outputs
         end) (wf_steps workflow) [].

(** ** The templates *)
Definition read_template (what : string) (workflow : WorkflowConfig) (step : WorkflowStepConfig)
    (path : string) : IO disk string string :=
  io_map_err (λ err, String.concat "" ["failed to read "; what; " template for workflow `";
      wf_id workflow; "` step `"; ws_id step; "` at "; path; ": "; ioe_display err])
    (sys (disk_read path)).
Definition load_step_templates (prompt_root : string) (workflow : WorkflowConfig)
    (step : WorkflowStepConfig) : IO disk string (string * string) :=
  if negb (is_prompt_template_reference (ws_prompt step)) then
    mret (ws_prompt step, default_step_context) else
  prompt_path ← lift (resolve_prompt_template_path prompt_root (trim (ws_prompt step)));
  let context_rel := context_path_for_prompt_reference (trim (ws_prompt step)) in
  context_path ← lift (resolve_prompt_template_path prompt_root context_rel);
  prompt_template ← read_template "prompt" workflow step prompt_path;
  context_template ← read_template "context" workflow step context_path;
  mret (prompt_template, context_template).

(** ** One attempt *)
Record WorkflowOutputWriteback := {
  wb_orchestrator_id : string;
  wb_run_id : string;
  wb_step_id : string;
  wb_attempt : Z;
  wb_conversation_id : option string;
  wb_outputs : JMap;
  wb_output_files : list (string * string);
  wb_captured_at : Z;
}.

Section execution.
(** JSON, the file system's canonical paths, the memory repository. *)
Context (from_str : string → result string Value) (to_string to_string_pretty : Value → string)
  (output_keys_to_string : list OutputKey → string).
Context (canonicalize : string → result io_error string).
Context (open_repository : string → string → result string ())
  (persist_workflow_output_memories : WorkflowOutputWriteback → result string ()).
Context (program : InvocationSpec → string → disk → process * disk).
(** [StepExecutionContext] *)
Context (state_root : string) (orchestrator : OrchestratorConfig)
  (workspace_access_context : option WorkspaceAccessContext) (runner_binaries : RunnerBinaries)
  (memory_enabled : bool).

Definition orchestrator_workspace : string :=
  match workspace_access_context with
  | Some workspace => wa_private_workspace_root workspace
  | None => state_root
  end.
Definition run_workspace (run_id : string) : string :=
  path_join (path_join (path_join orchestrator_workspace "work") "runs") run_id.
Definition prompt_root : string := path_join orchestrator_workspace PROMPTS_DIR.
Definition step_workspace (run_id : string) (step : WorkflowStepConfig) : string :=
  match ws_workspace_mode step with
  | OrchestratorWorkspace => orchestrator_workspace
  | RunWorkspace => run_workspace run_id
  end.
Definition shared_contexts : list StepSharedWorkspaceContext :=
  match workspace_access_context with
  | Some workspace =>
      (λ '(name, shared), {| sc_name := name; sc_path := "./shared/" +:+ name;
                             sc_description := sa_description shared |})
        <$> wa_shared_workspaces workspace
  | None => []
  end.

Definition step_error (step : WorkflowStepConfig) (reason : string) : OrchestratorError :=
  StepExecution (ws_id step) reason.
Definition provider_failure (step : WorkflowStepConfig) (err : ProviderError) : OrchestratorError :=
  step_error step (ProviderError_display err).
Definition note (parts : list string) : IO run_store OrchestratorError () :=
  append_security_log state_root (String.concat "" parts).
Definition make_dir (path : string) : IO run_store OrchestratorError () :=
  io_map_err (IoErr path) (sys (create_dir_all path)).

Definition check_access (run_id : string) (step : WorkflowStepConfig) :
    IO run_store OrchestratorError () :=
  match workspace_access_context with
  | None => mret ()
  | Some workspace =>
      match enforce_workspace_access canonicalize workspace
              [orchestrator_workspace; run_workspace run_id; step_workspace run_id step] with
      | Ok _ => mret ()
      | Err err =>
          note ["workspace access denied for run `"; run_id; "` step `"; ws_id step; "`: ";
                error_display err] ;;
          throw err
      end
  end.
Definition output_paths_for (run_id : string) (step : WorkflowStepConfig) (attempt : Z) :
    IO run_store OrchestratorError (list (string * string)) :=
  match resolve_step_output_paths state_root run_id step attempt with
  | Ok paths => mret paths
  | Err err =>
      match err with
      | OutputPathValidation _ _ _ =>
          note ["output path validation denied for run `"; run_id; "` step `"; ws_id step;
                "` attempt `"; fmt_int attempt; "`: "; error_display err]
      | _ => mret ()
      end ;;
      throw err
  end.

Definition provider_request (step : WorkflowStepConfig) (agent : AgentConfig)
    (provider : ProviderKind) (artifacts : PromptArtifacts) (timeout_seconds : Z)
    (reset_requested : bool) : ProviderRequest := {|
  pq_agent_id := ws_agent step; pq_provider := provider; pq_model := ag_model agent;
  pq_cwd := orchestrator_workspace; pq_message := provider_instruction_message artifacts;
  pq_prompt_artifacts := artifacts; pq_timeout_ms := timeout_seconds * 1000;
  pq_reset_requested := reset_requested; pq_fresh_on_failure := false; pq_env_overrides := [] |}.
(** [run_provider] and its error handling; [None] as in [run_provider]. *)
Definition call_provider (step : WorkflowStepConfig) (attempt_dir : string)
    (timeout_seconds : Z) (request : ProviderRequest) :
    IO disk OrchestratorError (option ProviderResult) :=
  answer ← provider_call from_str program runner_binaries request;
  match answer with
  | None => mret None
  | Some (Ok output) => mret (Some output)
  | Some (Err err) =>
      match provider_error_log err with
      | Some log => _ ← attempt (persist_provider_invocation_log to_string_pretty attempt_dir log);
                    mret ()
      | None => mret ()
      end ;;
      throw match err with
            | ProviderTimeout _ _ _ => StepTimeout timeout_seconds
            | _ => provider_failure step err
            end
  end.

Definition write_back (run : WorkflowRunRecord) (step : WorkflowStepConfig) (attempt now : Z)
    (evaluation : StepEvaluation) : IO run_store OrchestratorError () :=
  if negb memory_enabled then mret () else
  let where_ := String.concat "" [" run_id="; wr_run_id run; " step_id="; ws_id step; " attempt=";
                                  fmt_int attempt; ": "] in
  match open_repository state_root (oc_id orchestrator) with
  | Err err => note ["memory repository unavailable for"; where_; err]
  | Ok _ =>
      match persist_workflow_output_memories {|
              wb_orchestrator_id := oc_id orchestrator; wb_run_id := wr_run_id run;
              wb_step_id := ws_id step; wb_attempt := attempt;
              wb_conversation_id := map_get "conversation_id" (wr_inputs run) ≫= as_str;
              wb_outputs := se_outputs evaluation;
              wb_output_files := se_output_files evaluation; wb_captured_at := now |} with
      | Ok _ => mret ()
      | Err err => note ["memory output write-back failed"; where_; err]
      end
  end.

(** The prompt, ready in the directory of the attempt, and whether the agent's
    session is to be reset. *)
Definition prepare_prompt (run : WorkflowRunRecord) (workflow : WorkflowConfig)
    (step : WorkflowStepConfig) (attempt : Z) (output_paths : list (string * string))
    (step_outputs : list (string * JMap)) :
    IO run_store OrchestratorError (PromptArtifacts * bool) :=
  let run_id := wr_run_id run in
  let attempt_dir := attempt_root state_root run_id (ws_id step) attempt in
  templates ← io_map_err (step_error step)
    (on_step_files (load_step_templates prompt_root workflow step));
  rendered ← lift (render_step_prompt to_string to_string_pretty output_keys_to_string
    {| ps_run := run; ps_workflow := workflow; ps_step := step; ps_attempt := attempt;
       ps_run_workspace := run_workspace run_id; ps_output_paths := output_paths;
       ps_step_outputs := step_outputs; ps_shared_workspaces := shared_contexts |}
    templates.1 templates.2);
  make_dir attempt_dir ;;
  artifacts ← io_map_err (provider_failure step)
    (on_step_files (write_file_backed_prompt attempt_dir (sr_prompt rendered) (sr_context rendered)));
  reset_resolution ← io_map_err (provider_failure step)
    (on_step_files (consume_reset_flag (path_join (step_workspace run_id step) "reset_flag")));
  mret (artifacts, rr_reset_requested reset_resolution).

(** The judged answer with its files. *)
Definition evaluate_answer (workflow : WorkflowConfig) (step : WorkflowStepConfig)
    (message : string) (output_paths : list (string * string)) :
    IO disk OrchestratorError (option StepEvaluation) :=
  evaluated ← evaluate_step_result from_str workflow step message output_paths;
  match evaluated with
  | None => mret None
  | Some evaluation =>
      output_files ← materialize_output_files to_string_pretty step (se_outputs evaluation)
        output_paths;
      mret (Some {| se_outputs := se_outputs evaluation; se_output_files := output_files;
                    se_next_step_id := se_next_step_id evaluation |})
  end.

(** [execute_step_attempt]; [None]: it does not come back. *)
Definition execute_attempt (run : WorkflowRunRecord) (workflow : WorkflowConfig)
    (step : WorkflowStepConfig) (attempt now timeout_seconds : Z) :
    IO run_store OrchestratorError (option StepEvaluation) :=
  let run_id := wr_run_id run in
  let attempt_dir := attempt_root state_root run_id (ws_id step) attempt in
  agent ← lift (ok_or (step_error step
      (String.concat "" ["step references unknown agent `"; ws_agent step; "`"]))
    (map_get (ws_agent step) (oc_agents orchestrator)));
  check_access run_id step ;;
  make_dir orchestrator_workspace ;;
  make_dir (run_workspace run_id) ;;
  make_dir (step_workspace run_id step) ;;
  step_outputs ← load_latest_step_outputs state_root run_id workflow (ws_id step);
  output_paths ← output_paths_for run_id step attempt;
  prepared ← prepare_prompt run workflow step attempt output_paths step_outputs;
  provider ← lift (map_err (provider_failure step)
    (ProviderKind_try_from (ConfigProviderKind_as_str (ag_provider agent))));
  answered ← on_step_files (call_provider step attempt_dir timeout_seconds
    (provider_request step agent provider prepared.1 timeout_seconds prepared.2));
  match answered with
  | None => mret None
  | Some output =>
      io_map_err (IoErr attempt_dir) (on_step_files
        (persist_provider_invocation_log to_string_pretty attempt_dir (pv_log output))) ;;
      evaluated ← on_step_files (evaluate_answer workflow step (pv_message output) output_paths);
      match evaluated with
      | None => mret None
      | Some evaluation =>
          write_back run step attempt now evaluation ;;
          append_engine_log state_root run_id now (String.concat "" ["run_id="; run_id; " step_id=";
            ws_id step; " attempt="; fmt_int attempt; " provider=";
            ProviderKind_display (il_provider (pv_log output)); " model="; il_model (pv_log output);
            " cwd="; il_working_directory (pv_log output)]) ;;
          mret (Some evaluation)
      end
  end.

(** The executor of the engine; the case of an attempt that does not come back does
    not arise ([attempt_comes_back]). *)
Definition step_executor : StepExecutor := λ run workflow step attempt now timeout_seconds,
  answered ← execute_attempt run workflow step attempt now timeout_seconds;
  match answered with
  | Some evaluation => mret evaluation
  | None => throw (step_error step "")
  end.
End execution.
