(* ===== verification/StepGuarantees.v ===== *)
(** * What executing a step guarantees

    Theorems about [StepExecution]: an attempt comes back and leaves the records of
    the engine alone, so that it implements the engine's interface; without access
    nothing is run; what an attempt that succeeds has done; what becomes of a
    failing provider and of a reset flag. *)
From S2P Require Import Prelude RustStr RustPath Io Json TypedFields Config OrchestratorFile OrchestratorError WorkspaceAccess OutputContract OutputGuarantees RunStore Prompts PromptRender WorkflowEngine Selector Provider ProviderGuarantees StepExecution.

Local Open Scope string_scope.
Local Open Scope list_scope.

(** ** The engine's records *)
Definition records_kept (s s' : run_store) : Prop :=
  rs_runs s' = rs_runs s ∧ rs_attempts s' = rs_attempts s.
#[export] Instance records_kept_preorder : PreOrder records_kept.
Proof. split; [by intros s|]. intros s1 s2 s3 [H1 H2] [H3 H4]. by split; etrans. Qed.

(** Only the log changes. *)
Definition quiet (s s' : run_store) : Prop := records_kept s s' ∧ rs_files s' = rs_files s.
#[export] Instance quiet_preorder : PreOrder quiet.
Proof.
  split; [by intros s|]. intros s1 s2 s3 [H1 H2] [H3 H4]. split; [by etrans|by rewrite H4].
Qed.

Lemma calm_get {S E} : keeps_calm (get : IO S E S).
Proof. by intros w. Qed.
Lemma calm_modify {S E} (f : S → S) : keeps_calm (modify f : IO S E ()).
Proof. by intros w. Qed.
#[local] Hint Resolve calm_get calm_modify : direclaw.
Lemma quiet_sys {A} (f : run_store → run_store * result io_error A) :
  (∀ s, quiet s (f s).1) → evolves quiet (sys f).
Proof. apply evolves_sys. apply _. Qed.
Lemma quiet_same {A} (f : run_store → result io_error A) : evolves quiet (sys (λ s, (s, f s))).
Proof. by apply quiet_sys. Qed.
Lemma quiet_exists {E} (probe : run_store → result io_error ()) :
  evolves quiet (path_exists (λ s, (s, probe s)) : IO run_store E bool).
Proof. apply evolves_fmap, evolves_attempt, quiet_same; apply _. Qed.
Lemma quiet_make_dir path : evolves quiet (make_dir path).
Proof. by apply evolves_map_err, quiet_sys. Qed.
Lemma quiet_note state_root parts : evolves quiet (note state_root parts).
Proof.
  apply evolves_bind; [apply _| |intros; apply evolves_ret; apply _].
  apply evolves_attempt, evolves_bind; [apply _| |intros _]; by apply quiet_sys.
Qed.
#[local] Hint Resolve quiet_same quiet_exists quiet_make_dir quiet_note : direclaw.
Lemma quiet_read_json {A} (files : run_store → gmap string (stored A)) path :
  evolves quiet (read_json files path).
Proof. unfold read_json. evolve_steps. Qed.
#[local] Hint Resolve quiet_read_json : direclaw.

Lemma quiet_step_outputs state_root run_id workflow step_id :
  evolves quiet (load_latest_step_outputs state_root run_id workflow step_id).
Proof.
  apply evolves_for_fold; [apply _|]. intros outputs step. unfold read_step_outputs.
  evolve_steps. apply evolves_for_fold; [apply _|]. intros latest [name path].
  unfold read_attempt. evolve_steps.
Qed.
Lemma calm_step_outputs state_root run_id workflow step_id :
  keeps_calm (load_latest_step_outputs state_root run_id workflow step_id).
Proof.
  apply calm_for_fold. intros outputs step. unfold read_step_outputs, path_exists.
  calm_steps. unfold read_attempt, path_exists, read_json. calm_steps.
Qed.
#[local] Hint Resolve quiet_step_outputs calm_step_outputs : direclaw.

Lemma quiet_kept {E A} (m : IO run_store E A) : evolves quiet m → evolves records_kept m.
Proof. intros H w. apply H. Qed.
Lemma kept_files {E A} (m : IO disk E A) : evolves records_kept (on_step_files m).
Proof. by apply evolves_zoom_any. Qed.
#[local] Hint Resolve quiet_kept kept_files : direclaw.

(** ** No attempt brings I/O errors about *)
Lemma calm_load_outputs from_str step paths contract outputs missing :
  keeps_calm (load_outputs_loop from_str step paths contract outputs missing).
Proof.
  revert outputs missing. induction contract as [|key contract IH]; intros; simpl; [calm_steps|].
  destruct (map_get _ _); calm_steps; apply IH.
Qed.
Lemma calm_materialize to_vec_pretty step outputs paths contract path_by_key :
  keeps_calm (materialize_loop to_vec_pretty step outputs paths contract path_by_key).
Proof.
  revert path_by_key. induction contract as [|key contract IH]; intros; simpl; [calm_steps|].
  destruct (map_get _ outputs); [|apply IH]. destruct (map_get _ paths); [|calm_steps].
  apply calm_bind; [destruct (decide _); calm_steps|intros _; apply IH].
Qed.
#[local] Hint Resolve calm_load_outputs calm_materialize : direclaw.
Lemma calm_evaluate_answer from_str to_string_pretty workflow step message paths :
  keeps_calm (evaluate_answer from_str to_string_pretty workflow step message paths).
Proof.
  unfold evaluate_answer, evaluate_step_result, load_outputs_from_files, materialize_output_files.
  calm_steps.
Qed.
Lemma calm_load_templates prompt_root workflow step :
  keeps_calm (load_step_templates prompt_root workflow step).
Proof. unfold load_step_templates, read_template. calm_steps. Qed.
Lemma calm_write_prompt workspace prompt context :
  keeps_calm (write_file_backed_prompt workspace prompt context).
Proof. unfold write_file_backed_prompt. calm_steps. Qed.
Lemma calm_reset_flag agent_flag : keeps_calm (consume_reset_flag agent_flag).
Proof. unfold consume_reset_flag, path_exists. calm_steps. Qed.
Lemma calm_call from_str to_string_pretty program binaries step dir timeout request :
  keeps_calm (call_provider from_str to_string_pretty program binaries step dir timeout request).
Proof. unfold call_provider, provider_call, persist_provider_invocation_log. calm_steps. Qed.
Lemma calm_zoom_files {E A} (m : IO disk E A) : keeps_calm m → keeps_calm (on_step_files m).
Proof. apply calm_zoom. Qed.
Lemma calm_make_dir path : keeps_calm (make_dir path).
Proof. unfold make_dir. calm_steps. Qed.
Lemma calm_note state_root parts : keeps_calm (note state_root parts).
Proof. unfold note, append_security_log. calm_steps. Qed.
#[local] Hint Resolve calm_evaluate_answer calm_load_templates calm_write_prompt calm_reset_flag
  calm_call calm_zoom_files calm_make_dir calm_note : direclaw.

Section execution.
Context (from_str : string → result string Value) (to_string to_string_pretty : Value → string)
  (output_keys_to_string : list OutputKey → string).
Context (canonicalize : string → result io_error string).
Context (open_repository : string → string → result string ())
  (persist_workflow_output_memories : WorkflowOutputWriteback → result string ()).
Context (program : InvocationSpec → string → disk → process * disk).
Context (state_root : string) (orchestrator : OrchestratorConfig)
  (workspace_access_context : option WorkspaceAccessContext) (runner_binaries : RunnerBinaries)
  (memory_enabled : bool).

Local Abbreviation execute_attempt_of program :=
  (execute_attempt from_str to_string to_string_pretty output_keys_to_string canonicalize
     open_repository persist_workflow_output_memories program state_root orchestrator
     workspace_access_context runner_binaries memory_enabled).
Local Abbreviation execute_attempt := (execute_attempt_of program).
Local Abbreviation step_executor :=
  (step_executor from_str to_string to_string_pretty output_keys_to_string canonicalize
     open_repository persist_workflow_output_memories program state_root orchestrator
     workspace_access_context runner_binaries memory_enabled).
Local Abbreviation prepare_prompt :=
  (prepare_prompt to_string to_string_pretty output_keys_to_string state_root
     workspace_access_context).
Local Abbreviation check_access := (check_access canonicalize state_root workspace_access_context).
Local Abbreviation write_back :=
  (write_back open_repository persist_workflow_output_memories state_root orchestrator
     memory_enabled).

Lemma quiet_check_access run_id step : evolves quiet (check_access run_id step).
Proof. unfold StepExecution.check_access. evolve_steps. Qed.
Lemma calm_check_access run_id step : keeps_calm (check_access run_id step).
Proof. unfold StepExecution.check_access. calm_steps. Qed.
Lemma quiet_output_paths run_id step attempt :
  evolves quiet (output_paths_for state_root run_id step attempt).
Proof. unfold output_paths_for. evolve_steps. Qed.
Lemma calm_output_paths run_id step attempt :
  keeps_calm (output_paths_for state_root run_id step attempt).
Proof. unfold output_paths_for. calm_steps. Qed.
Lemma kept_prepare run workflow step attempt paths outputs :
  evolves records_kept (prepare_prompt run workflow step attempt paths outputs).
Proof. unfold StepExecution.prepare_prompt. evolve_steps. Qed.
Lemma calm_prepare run workflow step attempt paths outputs :
  keeps_calm (prepare_prompt run workflow step attempt paths outputs).
Proof. unfold StepExecution.prepare_prompt. calm_steps. Qed.
Lemma quiet_write_back run step attempt now evaluation :
  evolves quiet (write_back run step attempt now evaluation).
Proof. unfold StepExecution.write_back. evolve_steps. Qed.
Lemma calm_write_back run step attempt now evaluation :
  keeps_calm (write_back run step attempt now evaluation).
Proof. unfold StepExecution.write_back. calm_steps. Qed.
Lemma quiet_engine_log run_id now message :
  evolves quiet (append_engine_log state_root run_id now message).
Proof. unfold append_engine_log. evolve_steps. all: by apply quiet_sys. Qed.
Lemma calm_engine_log run_id now message :
  keeps_calm (append_engine_log state_root run_id now message).
Proof. unfold append_engine_log. calm_steps. Qed.
#[local] Hint Resolve quiet_check_access calm_check_access quiet_output_paths calm_output_paths
  kept_prepare calm_prepare quiet_write_back calm_write_back quiet_engine_log calm_engine_log : direclaw.

Lemma attempt_keeps_records run workflow step attempt now timeout :
  evolves records_kept (execute_attempt run workflow step attempt now timeout).
Proof. unfold StepExecution.execute_attempt. evolve_steps. Qed.
Lemma attempt_keeps_calm run workflow step attempt now timeout :
  keeps_calm (execute_attempt run workflow step attempt now timeout).
Proof. unfold StepExecution.execute_attempt. calm_steps. Qed.

(** ** An attempt comes back *)
Definition well_behaved : Prop := ∀ spec cwd files,
  clock_runs (program spec cwd files).1 ∧ pipes_close (program spec cwd files).1.

Lemma call_returns step dir timeout request :
  well_behaved → (0 ≤ pq_timeout_ms request)%Z →
  returns is_Some (call_provider from_str to_string_pretty program runner_binaries step dir
                     timeout request).
Proof.
  intros Hgood H0. apply (returns_bind is_Some).
  { apply returns_seq. intros files. apply returns_seq. intros _. apply returns_ret.
    apply run_provider_returns; [done|]. intros spec. apply Hgood. }
  intros answer [r ->]. destruct r as [output|err]; [by apply returns_ret|]. apply returns_seq. by intros _ w.
Qed.
Lemma returns_Some {S E A} (m : IO S E A) : returns is_Some (Some <$> m).
Proof. apply returns_fmap. by intros w a _; eexists. Qed.
Lemma evaluate_returns workflow step message paths :
  returns is_Some (evaluate_answer from_str to_string_pretty workflow step message paths).
Proof.
  apply (returns_bind is_Some).
  - apply (returns_bind is_Some).
    + destruct (ws_prompt_type step); [|apply returns_Some].
      destruct (parse_workflow_result_envelope_exact from_str message) as [Hn _].
      destruct (parse_workflow_result_envelope _ _); [|done]. apply returns_Some.
    + intros parsed [m ->]. apply returns_Some.
  - intros evaluated [evaluation ->]. apply returns_seq. intros files. by apply returns_ret.
Qed.
Lemma attempt_returns run workflow step attempt now timeout :
  well_behaved → (0 ≤ timeout)%Z →
  returns is_Some (execute_attempt run workflow step attempt now timeout).
Proof.
  intros Hgood H0. unfold StepExecution.execute_attempt. cbv zeta.
  do 9 (apply returns_seq; intros ?).
  apply (returns_bind is_Some).
  { apply returns_zoom, call_returns; [done|]. simpl. lia. }
  intros answered [output ->]. apply returns_seq. intros _. apply (returns_bind is_Some).
  { apply returns_zoom, evaluate_returns. }
  intros evaluated [evaluation ->]. do 2 (apply returns_seq; intros _). by apply returns_ret.
Qed.

Lemma executor_keeps_records run workflow step attempt now timeout :
  evolves records_kept (step_executor run workflow step attempt now timeout).
Proof.
  apply evolves_bind; [apply _|apply attempt_keeps_records|]. intros [evaluation|].
  - apply evolves_ret, _.
  - apply evolves_throw, _.
Qed.
Lemma executor_keeps_calm run workflow step attempt now timeout :
  keeps_calm (step_executor run workflow step attempt now timeout).
Proof.
  apply calm_bind; [apply attempt_keeps_calm|]. intros [evaluation|]; [apply calm_ret|apply calm_throw].
Qed.


(** ** What an attempt has done *)
Lemma wp_bind_known {A B} (R : run_store → run_store → Prop) (P : A → Prop)
    (m : IO run_store OrchestratorError A) (f : A → IO run_store OrchestratorError B) Φ s :
  evolves R m → returns P m → (∀ e s', Φ (Err e) s') →
  (∀ a s', R s s' → P a → wp false (f a) Φ s') → wp false (m ≫= f) Φ s.
Proof.
  intros Hm Hp He Hf. apply wp_bind, (wp_evolves _ R); [done|]. apply (wp_returns _ P); [done|].
  apply wp_any. intros [a|e] s' Ha Hr; [|done]. by apply Hf; [|apply Ha].
Qed.
Lemma path_join_suffix base rel : ∃ p, path_join base rel = p +:+ rel.
Proof.
  unfold path_join. destruct (is_absolute rel); [by exists ""|].
  destruct (is_empty base); [by exists ""|]. destruct (ends_with "/" base); [by exists base|].
  exists (base +:+ "/"). by rewrite str_app_assoc.
Qed.
Lemma path_join_ne base base' rel rel' :
  (∀ x y, String.rev rel +:+ x ≠ String.rev rel' +:+ y) →
  path_join base rel ≠ path_join base' rel'.
Proof.
  intros Hne. destruct (path_join_suffix base rel) as [x ->].
  destruct (path_join_suffix base' rel') as [y ->]. intros H.
  apply (f_equal String.rev) in H. rewrite !str_rev_app in H. by apply Hne in H.
Qed.
Lemma prompt_file_names base base' :
  path_join base "prompt.md" ≠ path_join base' "context.md"
  ∧ path_join base "reset_flag" ≠ path_join base' "prompt.md"
  ∧ path_join base "reset_flag" ≠ path_join base' "context.md".
Proof. split_and!; by apply path_join_ne. Qed.

(** Where the templates of a step come from. *)
Definition templates_of (files : disk) (prompt_root : string) (step : WorkflowStepConfig)
    (templates : string * string) : Prop :=
  if is_prompt_template_reference (ws_prompt step) then ∃ prompt_path context_path,
    resolve_prompt_template_path prompt_root (trim (ws_prompt step)) = Ok prompt_path
    ∧ resolve_prompt_template_path prompt_root
        (context_path_for_prompt_reference (trim (ws_prompt step))) = Ok context_path
    ∧ files !! prompt_path = Some templates.1 ∧ files !! context_path = Some templates.2
  else templates = (ws_prompt step, default_step_context).
Lemma wp_load_templates workflow step (files : disk) :
  wp false (load_step_templates (prompt_root state_root workspace_access_context) workflow step)
    (λ r files', files' = files ∧ ∀ templates, r = Ok templates →
       templates_of files (prompt_root state_root workspace_access_context) step templates) files.
Proof.
  unfold load_step_templates, templates_of, read_template.
  destruct (is_prompt_template_reference (ws_prompt step)); simpl.
  2: { apply wp_ret. split; [done|]. by intros ? [= <-]. }
  apply wp_bind, wp_lift. destruct (resolve_prompt_template_path _ (trim _)) as [p|e]; [|done].
  apply wp_bind, wp_lift.
  destruct (resolve_prompt_template_path _ (context_path_for_prompt_reference _)) as [x|e]; [|done].
  apply wp_bind, wp_map_err, wp_sys; [done|]. simpl.
  destruct (files !! p) as [body|] eqn:Hp; [|done]. simpl.
  apply wp_bind, wp_map_err, wp_sys; [done|]. simpl.
  destruct (files !! x) as [context|] eqn:Hx; [|done]. simpl. apply wp_ret.
  split; [done|]. intros ? [= <-]. by exists p, x.
Qed.

(** The prompt is in place, and a reset is requested only for a flag that was there
    and is gone. *)
Definition prompt_ready (files files' : disk) (dir flag : string)
    (rendered : StepPromptRendering) (artifacts : PromptArtifacts) (reset : bool) : Prop :=
  artifacts = {| pa_prompt_file := path_join dir "prompt.md";
                 pa_context_files := [path_join dir "context.md"] |}
  ∧ files' !! path_join dir "prompt.md" = Some (sr_prompt rendered)
  ∧ files' !! path_join dir "context.md" = Some (sr_context rendered)
  ∧ (reset = true → is_Some (files !! flag) ∧ files' !! flag = None).
Lemma wp_write_prompt dir prompt context (files : disk) (Φ : result ProviderError _ → disk → Prop) :
  (∀ e files', Φ (Err e) files') →
  Φ (Ok {| pa_prompt_file := path_join dir "prompt.md";
           pa_context_files := [path_join dir "context.md"] |})
    (<[path_join dir "context.md" := context]> (<[path_join dir "prompt.md" := prompt]> files)) →
  wp false (write_file_backed_prompt dir prompt context) Φ files.
Proof.
  intros He HΦ. unfold write_file_backed_prompt.
  apply wp_bind, wp_map_err, wp_sys; [by intros; apply He|]. simpl.
  apply wp_bind, wp_map_err, wp_sys; [by intros; apply He|]. simpl.
  apply wp_bind, wp_map_err, wp_sys; [by intros; apply He|]. simpl. by apply wp_ret.
Qed.
Lemma wp_consume flag (files : disk) (Φ : result ProviderError _ → disk → Prop) :
  (∀ e files', Φ (Err e) files') →
  Φ (Ok {| rr_reset_requested := false; rr_consumed_agent := false |}) files →
  (is_Some (files !! flag) →
   Φ (Ok {| rr_reset_requested := true; rr_consumed_agent := true |}) (delete flag files)) →
  wp false (consume_reset_flag flag) Φ files.
Proof.
  intros He Hno Hyes. unfold consume_reset_flag, path_exists.
  apply wp_bind, wp_fmap, wp_attempt, wp_sys.
  { intros _ e. simpl. by apply wp_bind, wp_ret, wp_ret. }
  unfold disk_exists, disk_is_file. simpl. destruct (files !! flag) as [body|] eqn:Hflag.
  2: { rewrite bool_decide_eq_false_2 by (by intros []). simpl. by apply wp_bind, wp_ret, wp_ret. }
  rewrite bool_decide_eq_true_2 by eauto. simpl.
  apply wp_bind, wp_bind, wp_map_err, wp_sys; [by intros; apply He|]. unfold disk_remove. simpl.
  rewrite Hflag. simpl. apply wp_ret, wp_ret, Hyes. by eexists.
Qed.

Lemma prompt_written dir base rendered (files files2 : disk) :
  files2 = <[path_join dir "context.md" := sr_context rendered]>
             (<[path_join dir "prompt.md" := sr_prompt rendered]> files) →
  let artifacts := {| pa_prompt_file := path_join dir "prompt.md";
                      pa_context_files := [path_join dir "context.md"] |} in
  prompt_ready files files2 dir (path_join base "reset_flag") rendered artifacts false
  ∧ (is_Some (files2 !! path_join base "reset_flag") →
     prompt_ready files (delete (path_join base "reset_flag") files2) dir
       (path_join base "reset_flag") rendered artifacts true).
Proof.
  destruct (prompt_file_names dir dir) as (Hpc & _ & _).
  destruct (prompt_file_names base dir) as (_ & Hfp & Hfc).
  intros ->. unfold prompt_ready, disk in *. split.
  - split_and!; [done| | |done]; [|apply lookup_insert_eq].
    rewrite lookup_insert_ne by done. apply lookup_insert_eq.
  - rewrite !lookup_insert_ne by done. intros Hf.
    split_and!; [done| | |intros _; split; [done|apply lookup_delete_eq]];
      rewrite lookup_delete_ne by done; [|apply lookup_insert_eq].
    rewrite lookup_insert_ne by done. apply lookup_insert_eq.
Qed.

Definition scope_of (run : WorkflowRunRecord) (workflow : WorkflowConfig) (step : WorkflowStepConfig)
    (attempt : Z) (paths : list (string * string)) (outputs : list (string * JMap)) : prompt_scope := {|
  ps_run := run; ps_workflow := workflow; ps_step := step; ps_attempt := attempt;
  ps_run_workspace := run_workspace state_root workspace_access_context (wr_run_id run);
  ps_output_paths := paths; ps_step_outputs := outputs;
  ps_shared_workspaces := shared_contexts workspace_access_context |}.
(** The rendered templates are in place for the program. *)
Definition prompt_prepared (files files' : disk) (run : WorkflowRunRecord) (workflow : WorkflowConfig)
    (step : WorkflowStepConfig) (attempt : Z) (paths : list (string * string))
    (outputs : list (string * JMap)) (prepared : PromptArtifacts * bool) : Prop :=
  ∃ templates rendered,
    templates_of files (prompt_root state_root workspace_access_context) step templates
    ∧ render_step_prompt to_string to_string_pretty output_keys_to_string
        (scope_of run workflow step attempt paths outputs) templates.1 templates.2 = Ok rendered
    ∧ prompt_ready files files'
        (attempt_root state_root (wr_run_id run) (ws_id step) attempt)
        (path_join (step_workspace state_root workspace_access_context (wr_run_id run) step)
           "reset_flag")
        rendered prepared.1 prepared.2.

Lemma wp_prepare run workflow step attempt paths outputs (s : run_store) :
  wp false (prepare_prompt run workflow step attempt paths outputs)
    (λ r s', ∀ prepared, r = Ok prepared →
       prompt_prepared (rs_files s) (rs_files s') run workflow step attempt paths outputs prepared) s.
Proof.
  unfold StepExecution.prepare_prompt. cbv zeta.
  apply wp_bind, wp_map_err, wp_zoom. eapply wp_mono; [apply wp_load_templates|].
  intros [templates|e] files' [-> Ht]; [|done]. specialize (Ht _ eq_refl). simpl.
  replace (set_files (rs_files s) s) with s by (by destruct s).
  apply wp_bind, wp_lift. change {| ps_run := run |} with (scope_of run workflow step attempt paths outputs).
  destruct (render_step_prompt _ _ _ _ _ _) as [rendered|e] eqn:Hr; [|done].
  apply (wp_bind_known quiet (λ _, True)); [apply quiet_make_dir|done|done|].
  intros _ s1 [_ Hs1] _. apply wp_bind, wp_map_err, wp_zoom. rewrite Hs1.
  apply wp_write_prompt; [done|]. simpl.
  destruct (prompt_written (attempt_root state_root (wr_run_id run) (ws_id step) attempt)
    (step_workspace state_root workspace_access_context (wr_run_id run) step) rendered
    (rs_files s) _ eq_refl) as [Hno Hyes].
  apply wp_bind, wp_map_err, wp_zoom, wp_consume; [done| |].
  - apply wp_ret. intros ? [= <-]. by exists templates, rendered.
  - intros Hflag. apply wp_ret. intros ? [= <-]. exists templates, rendered.
    split; [done|]. split; [done|]. by apply Hyes.
Qed.

Definition provider_error (step : WorkflowStepConfig) (timeout : Z) (err : ProviderError) :
    OrchestratorError :=
  match err with ProviderTimeout _ _ _ => StepTimeout timeout | _ => provider_failure step err end.
Lemma wp_call step dir timeout request (files : disk) :
  wp false (call_provider from_str to_string_pretty program runner_binaries step dir timeout request)
    (λ r _, match r with
     | Ok answered => ∀ output, answered = Some output → answer_of from_str program runner_binaries files request = Some (Ok output)
     | Err e => ∃ err, answer_of from_str program runner_binaries files request = Some (Err err) ∧ e = provider_error step timeout err
     end) files.
Proof.
  unfold call_provider, provider_call. apply wp_bind, wp_bind, wp_get, wp_bind, wp_modify, wp_ret.
  destruct (answer_of from_str program runner_binaries files request) as [[output|err]|] eqn:Ha.
  - apply wp_ret. by intros ? [= <-].
  - apply wp_bind. destruct (provider_error_log err) as [log|].
    + apply wp_bind, wp_attempt, wp_any. intros r s'. apply wp_ret, wp_throw. by exists err.
    + apply wp_ret, wp_throw. by exists err.
  - by apply wp_ret.
Qed.
Definition concluded (workflow : WorkflowConfig) (step : WorkflowStepConfig)
    (evaluation : StepEvaluation) : Prop :=
  ∃ judged, conclude_step workflow step (se_outputs evaluation) = Ok judged
            ∧ se_next_step_id judged = se_next_step_id evaluation.
Lemma conclude_step_outputs workflow step parsed judged :
  conclude_step workflow step parsed = Ok judged → se_outputs judged = parsed.
Proof.
  unfold conclude_step. intros (_ & _ & H)%bind_Ok. by apply bind_Ok in H as (next & _ & [= <-]).
Qed.
Lemma evaluate_concluded workflow step message paths :
  returns (λ o, ∀ evaluation, o = Some evaluation → concluded workflow step evaluation)
    (evaluate_answer from_str to_string_pretty workflow step message paths).
Proof.
  apply (returns_bind (λ o, ∀ judged, o = Some judged →
    conclude_step workflow step (se_outputs judged) = Ok judged)).
  - apply returns_seq. intros [parsed|]; [|by apply returns_ret]. apply returns_fmap.
    apply returns_lift. intros judged Hj ? [= <-]. by rewrite (conclude_step_outputs _ _ _ _ Hj).
  - intros [judged|] Hj; [|by apply returns_ret]. apply returns_seq. intros files.
    apply returns_ret. intros ? [= <-]. exists judged. split; [exact (Hj judged eq_refl)|done].
Qed.

(** What a successful attempt has done. *)
Definition attempt_done (run : WorkflowRunRecord) (workflow : WorkflowConfig)
    (step : WorkflowStepConfig) (attempt timeout : Z) (files : disk)
    (evaluation : StepEvaluation) : Prop :=
  ∃ agent provider paths outputs files' prepared output,
    map_get (ws_agent step) (oc_agents orchestrator) = Some agent
    ∧ (∀ workspace, workspace_access_context = Some workspace →
        enforce_workspace_access canonicalize workspace
          [orchestrator_workspace state_root workspace_access_context;
           run_workspace state_root workspace_access_context (wr_run_id run);
           step_workspace state_root workspace_access_context (wr_run_id run) step] = Ok ())
    ∧ resolve_step_output_paths state_root (wr_run_id run) step attempt = Ok paths
    ∧ prompt_prepared files files' run workflow step attempt paths outputs prepared
    ∧ answer_of from_str program runner_binaries files'
        (provider_request state_root workspace_access_context step agent provider prepared.1 timeout
           prepared.2) = Some (Ok output)
    ∧ concluded workflow step evaluation.

Lemma wp_attempt_done run workflow step attempt now timeout (s : run_store) :
  wp false (execute_attempt run workflow step attempt now timeout)
    (λ r _, ∀ evaluation, r = Ok (Some evaluation) →
       attempt_done run workflow step attempt timeout (rs_files s) evaluation) s.
Proof.
  unfold StepExecution.execute_attempt. cbv zeta.
  apply wp_bind, wp_lift. destruct (map_get (ws_agent step) _) as [agent|] eqn:Ha; [|done]. simpl.
  apply (wp_bind_known quiet (λ _, ∀ workspace, workspace_access_context = Some workspace →
    enforce_workspace_access canonicalize workspace
      [orchestrator_workspace state_root workspace_access_context;
       run_workspace state_root workspace_access_context (wr_run_id run);
       step_workspace state_root workspace_access_context (wr_run_id run) step] = Ok ()));
    [apply quiet_check_access| |done|].
  { unfold StepExecution.check_access. destruct workspace_access_context as [workspace|].
    - destruct (enforce_workspace_access _ _ _) as [[]|e] eqn:He.
      + apply returns_ret. by intros ? [= <-].
      + apply returns_seq. intros _. apply returns_throw.
    - by apply returns_ret. }
  intros _ s1 [_ H1] Haccess.
  do 3 (apply (wp_bind_known quiet (λ _, True)); [apply quiet_make_dir|done|done|];
        let s := fresh "s" in let H := fresh "H" in intros _ s [_ H] _).
  apply (wp_bind_known quiet (λ _, True)); [apply quiet_step_outputs|done|done|].
  intros outputs s5 [_ H5] _.
  apply (wp_bind_known quiet (λ paths,
    resolve_step_output_paths state_root (wr_run_id run) step attempt = Ok paths));
    [apply quiet_output_paths| |done|].
  { unfold output_paths_for. destruct (resolve_step_output_paths _ _ _ _) as [paths|e] eqn:Hp.
    - by apply returns_ret.
    - apply returns_seq. intros _. apply returns_throw. }
  intros paths s6 [_ H6] Hpaths.
  assert (rs_files s6 = rs_files s) as Hfiles by congruence.
  apply wp_bind. eapply wp_mono; [apply wp_prepare|].
  intros [prepared|e] s7 Hprepared; [|done]. specialize (Hprepared _ eq_refl). rewrite Hfiles in Hprepared.
  apply wp_bind, wp_lift. destruct (map_err _ _) as [provider|e]; [|done].
  apply wp_bind, wp_zoom. eapply wp_mono; [apply wp_call|].
  intros [[output|]|e] files' Hcall; [| |done]; [|by apply wp_ret]. specialize (Hcall _ eq_refl).
  apply wp_bind, wp_any. intros [[]|e] s8; [|done].
  apply wp_bind. apply (wp_returns _ (λ o, ∀ evaluation, o = Some evaluation →
    concluded workflow step evaluation)); [apply returns_zoom, evaluate_concluded|].
  apply wp_any. intros [[evaluation|]|e] s9 Hev; [| |done]; [|by apply wp_ret].
  specialize (Hev _ eq_refl _ eq_refl).
  apply wp_bind, wp_any. intros [[]|e] s10; [|done].
  apply wp_bind, wp_any. intros [[]|e] s11; [|done]. apply wp_ret.
  intros ? [= <-]. by exists agent, provider, paths, outputs, (rs_files s7), prepared, output.
Qed.

(** C9: An attempt that succeeds has done all of the step: its agent is declared, the
    workspaces were granted, the prompt the program found was rendered from the
    step's own templates for this attempt, the program ran in the private workspace
    and answered, a session was reset only on a flag that is now gone, and the
    outputs meet the contract of the step and lead to a step of the workflow. *)
Theorem successful_attempt_did_the_step run workflow step attempt now timeout w evaluation
    (H : (execute_attempt run workflow step attempt now timeout w).2 = Ok (Some evaluation)) :
  attempt_done run workflow step attempt timeout (rs_files (st w)) evaluation.
Proof.
  pose proof (wp_attempt_done run workflow step attempt now timeout (st w)) as Hwp.
  apply wp_run in Hwp; [|done]. by apply Hwp.
Qed.

Lemma check_refused run step workspace err w :
  workspace_access_context = Some workspace →
  enforce_workspace_access canonicalize workspace
    [orchestrator_workspace state_root workspace_access_context;
     run_workspace state_root workspace_access_context (wr_run_id run);
     step_workspace state_root workspace_access_context (wr_run_id run) step] = Err err →
  (check_access (wr_run_id run) step w).2 = Err err.
Proof.
  intros Hw Hrefused. unfold StepExecution.check_access. rewrite Hw in *. rewrite Hrefused.
  rewrite bind_run. unfold note, append_security_log. rewrite bind_run. unfold Io.attempt.
  match goal with |- context [(?m ≫= ?f) w] => destruct ((m ≫= f) w) as [w1 r1] end. done.
Qed.

(** A step whose workspaces are not granted runs nothing: the attempt fails, all
    files and records are as before, and nothing that the provider's program could
    do makes a difference. *)
Theorem refused_access_runs_nothing (workspace : WorkspaceAccessContext) (err : OrchestratorError)
    run workflow step attempt now timeout w (other_program : InvocationSpec → string → disk → process * disk)
    (Hw : workspace_access_context = Some workspace)
    (Hrefused : enforce_workspace_access canonicalize workspace
       [orchestrator_workspace state_root workspace_access_context;
        run_workspace state_root workspace_access_context (wr_run_id run);
        step_workspace state_root workspace_access_context (wr_run_id run) step] = Err err) :
  let attempted := execute_attempt run workflow step attempt now timeout w in
  is_ok attempted.2 = false ∧ quiet (st w) (st attempted.1)
  ∧ execute_attempt_of other_program run workflow step attempt now timeout w = attempted.
Proof.
  assert (∀ p, execute_attempt_of p run workflow step attempt now timeout w
    = match map_get (ws_agent step) (oc_agents orchestrator) with
      | None => (w, Err (step_error step
          (String.concat "" ["step references unknown agent `"; ws_agent step; "`"])))
      | Some _ => ((check_access (wr_run_id run) step w).1, Err err)
      end) as Hrun.
  { intros p. unfold StepExecution.execute_attempt. cbv zeta. rewrite bind_run. unfold lift.
    destruct (map_get (ws_agent step) _) as [agent|]; [|done]. cbn [ok_or]. rewrite bind_run.
    pose proof (check_refused run step workspace err w Hw Hrefused) as Hc.
    destruct (check_access (wr_run_id run) step w) as [w1 r1]. simpl in Hc. by subst r1. }
  cbv zeta. rewrite !Hrun. destruct (map_get _ _); [|done]. split; [done|]. split; [|done].
  apply quiet_check_access.
Qed.
End execution.

(** ** Concrete attempts *)
Definition demo_agent_step (mode : WorkflowStepWorkspaceMode) : WorkflowStepConfig := {|
  ws_id := "plan"; ws_step_type := AgentTask; ws_agent := "main";
  ws_prompt := "Answer {{inputs.user_message}}"; ws_prompt_type := WorkflowResultEnvelope;
  ws_workspace_mode := mode; ws_next := None; ws_on_approve := None; ws_on_reject := None;
  ws_outputs := []; ws_output_files := []; ws_final_output_priority := []; ws_limits := None |}.
Definition demo_agent_workflow (mode : WorkflowStepWorkspaceMode) : WorkflowConfig := {|
  wf_id := "w"; wf_version := 1; wf_description := "d"; wf_tags := []; wf_inputs := [];
  wf_limits := None; wf_steps := [demo_agent_step mode] |}.
Definition demo_agents : OrchestratorConfig := {|
  oc_id := "main"; oc_selector_agent := "main"; oc_default_workflow := "w";
  oc_selection_max_retries := 1; oc_selector_timeout_seconds := 30;
  oc_agents := [("main", {| ag_provider := OrchestratorFile.Anthropic; ag_model := "sonnet";
                            ag_can_orchestrate_workflows := true |})];
  oc_workflows := []; oc_workflow_orchestration := None |}.
Definition demo_agent_run : WorkflowRunRecord := {|
  wr_run_id := "run-1"; wr_workflow_id := "w"; wr_state := Running; wr_channel_profile_id := None;
  wr_inputs := [("user_message", VString "hello")];
  wr_memory_context := RunMemoryContext_default; wr_current_step_id := Some "plan";
  wr_current_attempt := Some 1%Z; wr_started_at := 100; wr_updated_at := 100;
  wr_total_iterations := 0; wr_source_message_id := None; wr_selector_id := None;
  wr_selected_workflow := None; wr_status_conversation_id := None; wr_terminal_reason := None |}.
Definition demo_files (files : disk) : world run_store :=
  World {| rs_runs := ∅; rs_progress := ∅; rs_attempts := ∅; rs_log := []; rs_files := files |}
    (Env [] []).
(** A program that answers with an empty result. *)
Definition answering (_ : InvocationSpec) (_ : string) (files : disk) : process * disk :=
  (demo_process "[workflow_result]{}[/workflow_result]", files).
(** No such program. *)
Definition missing_program (_ : InvocationSpec) (_ : string) (files : disk) : process * disk :=
  ({| pc_spawn := λ _, Err not_found; pc_try_wait := λ _, Ok None;
      pc_elapsed := λ n, (10000000 * Z.of_nat n)%Z; pc_wait := Ok None; pc_output := Some ("", "") |},
   files).
(** A program that only continues sessions. *)
Definition continuing (spec : InvocationSpec) (cwd : string) (files : disk) : process * disk :=
  if existsb (String.eqb "-c") (is_args spec) then answering spec cwd files
  else missing_program spec cwd files.
Definition demo_from_str (s : string) : result string Value :=
  if String.eqb s "{}" then Ok (VObject []) else Err "not json".
Definition demo_attempt (program : InvocationSpec → string → disk → process * disk)
    (access : option WorkspaceAccessContext) (mode : WorkflowStepWorkspaceMode) (n : Z) :
    IO run_store OrchestratorError (option StepEvaluation) :=
  execute_attempt demo_from_str (λ _, "json") (λ _, "json") (λ _, "keys") (λ path, Ok path)
    (λ _ _, Ok ()) (λ _, Ok ()) program "/state" demo_agents access RunnerBinaries_default false
    demo_agent_run (demo_agent_workflow mode) (demo_agent_step mode) n 100 60.

Lemma answering_well_behaved : well_behaved answering.
Proof. intros spec cwd files. apply demo_process_good. Qed.

Definition demo_evaluation : StepEvaluation :=
  {| se_outputs := []; se_output_files := []; se_next_step_id := None |}.
Lemma successful_attempt_did_the_step_witness :
  attempt_done demo_from_str (λ _, "json") (λ _, "json") (λ _, "keys") (λ path, Ok path) answering
    "/state" demo_agents None RunnerBinaries_default demo_agent_run
    (demo_agent_workflow OrchestratorWorkspace) (demo_agent_step OrchestratorWorkspace) 1 60 ∅
    demo_evaluation.
Proof.
  assert ((demo_attempt answering None OrchestratorWorkspace 1 (demo_files ∅)).2
          = Ok (Some demo_evaluation)) as H by (vm_compute; reflexivity).
  exact (successful_attempt_did_the_step demo_from_str (λ _, "json") (λ _, "json") (λ _, "keys")
    (λ path, Ok path) (λ _ _, Ok ()) (λ _, Ok ()) answering "/state" demo_agents None
    RunnerBinaries_default false demo_agent_run (demo_agent_workflow OrchestratorWorkspace)
    (demo_agent_step OrchestratorWorkspace) 1 100 60 (demo_files ∅) demo_evaluation H).
Defined.

(** The private workspace leads somewhere else. *)
Definition demo_access : WorkspaceAccessContext :=
  {| wa_orchestrator_id := "main"; wa_private_workspace_root := "/ws"; wa_shared_workspaces := [] |}.
Definition elsewhere (path : string) : result io_error string := Ok ("/elsewhere" +:+ path).
Lemma refused_access_runs_nothing_witness :
  let attempted := execute_attempt demo_from_str (λ _, "json") (λ _, "json") (λ _, "keys") elsewhere
    (λ _ _, Ok ()) (λ _, Ok ()) answering "/state" demo_agents (Some demo_access)
    RunnerBinaries_default false demo_agent_run (demo_agent_workflow OrchestratorWorkspace)
    (demo_agent_step OrchestratorWorkspace) 1 100 60 (demo_files ∅) in
  is_ok attempted.2 = false ∧ quiet (st (demo_files ∅)) (st attempted.1).
Proof.
  assert (enforce_workspace_access elsewhere demo_access
    [orchestrator_workspace "/state" (Some demo_access);
     run_workspace "/state" (Some demo_access) (wr_run_id demo_agent_run);
     step_workspace "/state" (Some demo_access) (wr_run_id demo_agent_run)
       (demo_agent_step OrchestratorWorkspace)]
    = Err (WorkspaceAccessDenied "main" "/elsewhere/ws")) as Hrefused by (vm_compute; reflexivity).
  pose proof (refused_access_runs_nothing demo_from_str (λ _, "json") (λ _, "json") (λ _, "keys")
    elsewhere (λ _ _, Ok ()) (λ _, Ok ()) answering "/state" demo_agents (Some demo_access)
    RunnerBinaries_default false demo_access _ demo_agent_run
    (demo_agent_workflow OrchestratorWorkspace) (demo_agent_step OrchestratorWorkspace) 1 100 60
    (demo_files ∅) missing_program eq_refl Hrefused) as H.
  split; [exact (proj1 H)|exact (proj1 (proj2 H))].
Defined.

(** A reset flag is consumed before the program is started: when it can not be
    started, the attempt fails, the flag is gone, and the retry continues the
    session that was to be reset. *)
Example reset_lost_with_a_failed_start :
  let flagged := demo_files {[ "/state/reset_flag" := "1" ]} in
  let first := demo_attempt missing_program None OrchestratorWorkspace 1 flagged in
  let retry := demo_attempt continuing None OrchestratorWorkspace 2 first.1 in
  rs_files (st first.1) !! "/state/reset_flag" = None
  ∧ first.2 = Err (StepExecution "plan" "provider binary missing for anthropic: claude")
  ∧ is_ok retry.2 = true
  ∧ is_ok (demo_attempt continuing None OrchestratorWorkspace 1 flagged).2 = false.
Proof. by vm_compute. Qed.

(** The flag is looked for in the workspace of the step: a step with a workspace of
    its run does not see the one in the private workspace, and continues. *)
Example reset_not_seen_by_a_run_workspace :
  let attempted := demo_attempt continuing None RunWorkspace 1
                     (demo_files {[ "/state/reset_flag" := "1" ]}) in
  is_ok attempted.2 = true
  ∧ rs_files (st attempted.1) !! "/state/reset_flag" = Some "1".
Proof. by vm_compute. Qed.
