(* ===== verification/SelectorAttempt.v ===== *)
(** * One attempt of the selector agent

    [run_selector_attempt_with_provider] of [src/src/orchestration/selector.rs] and
    the log of an attempt, [src/src/orchestration/diagnostics.rs]: the prompt of the
    selector, the run of its provider and the file its answer is read from.  At the
    end, what an answer is worth. *)
From S2P Require Import Prelude RustStr RustPath Io Json TypedFields Config OrchestratorFile OrchestratorError RunStore Assets Prompts PromptRender PromptGuarantees Selector Provider ProviderGuarantees StepExecution StepGuarantees.

Local Open Scope string_scope.
Local Open Scope list_scope.

Section attempt.
Context (from_str : string → result string Value) (to_string to_string_pretty : Value → string)
  (request_to_string : SelectorRequest → string).
Context (program : InvocationSpec → string → disk → process * disk).
Context (state_root : string) (settings : Settings) (binaries : RunnerBinaries).

(** ** The log *)
Definition selector_log_payload (selector_id : string) (attempt timestamp : Z)
    (log : option InvocationLog) (error : option string) : Value :=
  VObject (map_from_iter
    ([("event", VString "selector.invocation"); ("selectorId", VString selector_id);
      ("attempt", VUnsigned attempt); ("timestamp", VInt timestamp);
      ("status", VString (if error then "failed" else "succeeded"))]
     ++ match error with Some error => [("error", VString error)] | None => [] end
     ++ match log with
        | Some log => match invocation_payload log with VObject fields => fields | _ => [] end
        | None => []
        end)).
Definition persist_selector_invocation_log {E} (selector_id : string) (attempt : Z)
    (log : option InvocationLog) (error : option string) : IO run_store E () :=
  timestamp ← read_clock;
  let line := to_string (selector_log_payload selector_id attempt timestamp log error) in
  _ ← Io.attempt (sys (create_dir_all (path_join state_root "logs")) ;; sys (append_log_line line));
  mret ().

(** ** The prompt *)
Definition render_selector_token (request_json result_path : string) (orchestrator : OrchestratorConfig)
    (attempt : Z) (token : string) : result string string :=
  ok_or (String.concat "" ["unsupported selector placeholder `{{"; token; "}}`"])
    (map_get token
       [("selector.request_json", request_json); ("selector.result_path", result_path);
        ("selector.orchestrator_id", oc_id orchestrator);
        ("selector.agent_id", oc_selector_agent orchestrator);
        ("selector.attempt", fmt_int attempt)]).
(** [fs::read_to_string(..).unwrap_or_else(..)] *)
Definition read_or {E} (default path : string) : IO disk E string :=
  body ← Io.attempt (sys (disk_read path));
  mret match body with Ok body => body | Err _ => default end.
Definition selector_result_path (cwd selector_id : string) (attempt : Z) : string :=
  path_join (path_join cwd "orchestrator/artifacts")
    (String.concat "" ["selector-provider-result-"; selector_id; "_attempt_"; fmt_int attempt; ".json"]).
Definition selector_attempt_dir (cwd selector_id : string) (attempt : Z) : string :=
  path_join (path_join (path_join (path_join cwd "orchestrator/artifacts/selector") selector_id)
    "attempts") (fmt_int attempt).
Definition selector_message (artifacts : PromptArtifacts) (result_path : string) : string :=
  String.concat "" ["Read [file: "; pa_prompt_file artifacts; "] and [file: ";
    from_option id "" (head (pa_context_files artifacts));
    "]. Write selector result JSON to: "; result_path].
Definition selector_provider_request (orchestrator : OrchestratorConfig) (agent : AgentConfig)
    (provider : ProviderKind) (cwd result_path : string) (artifacts : PromptArtifacts) :
    ProviderRequest := {|
  pq_agent_id := oc_selector_agent orchestrator; pq_provider := provider;
  pq_model := ag_model agent; pq_cwd := cwd; pq_message := selector_message artifacts result_path;
  pq_prompt_artifacts := artifacts;
  pq_timeout_ms := oc_selector_timeout_seconds orchestrator * 1000; pq_reset_requested := false;
  pq_fresh_on_failure := false; pq_env_overrides := [] |}.

Definition make_dir_for_selector (path : string) : IO run_store string () :=
  io_map_err ioe_display (sys (create_dir_all path)).
(** The rendered prompt in the directory of the attempt. *)
Definition prepare_selector_prompt (request : SelectorRequest) (orchestrator : OrchestratorConfig)
    (attempt : Z) (cwd result_path : string) : IO disk string PromptArtifacts :=
  let prompt_root := path_join cwd PROMPTS_DIR in
  let resolved what rel := map_err (λ e, String.concat "" ["invalid selector "; what; " path `"; rel;
                                                           "`: "; e])
                             (resolve_prompt_template_path prompt_root rel) in
  prompt_template_path ← lift (resolved "prompt" SELECTOR_PROMPT_REL_PATH);
  context_template_path ← lift (resolved "context" SELECTOR_CONTEXT_REL_PATH);
  prompt_template ← read_or default_selector_prompt prompt_template_path;
  context_template ← read_or default_selector_context context_template_path;
  let render_token := render_selector_token (request_to_string request) result_path orchestrator
                        attempt in
  prompt ← lift (render_template_with_placeholders render_token prompt_template);
  context ← lift (render_template_with_placeholders render_token context_template);
  io_map_err ProviderError_display (write_file_backed_prompt
    (selector_attempt_dir cwd (rq_selector_id request) attempt) prompt context).

(** [None]: it does not come back. *)
Definition run_selector_attempt_with_provider (request : SelectorRequest)
    (orchestrator : OrchestratorConfig) (attempt : Z) : IO run_store string (option string) :=
  selector_agent ← lift (ok_or (String.concat "" ["selector agent `"; oc_selector_agent orchestrator;
      "` missing from orchestrator config"])
    (map_get (oc_selector_agent orchestrator) (oc_agents orchestrator)));
  provider ← lift (map_err (λ err, "invalid selector provider: " +:+ ProviderError_display err)
    (ProviderKind_try_from (ConfigProviderKind_as_str (ag_provider selector_agent))));
  cwd ← lift (map_err ConfigError_display (resolve_private_workspace settings (oc_id orchestrator)));
  make_dir_for_selector cwd ;;
  let result_path := selector_result_path cwd (rq_selector_id request) attempt in
  match path_parent result_path with
  | Some parent => make_dir_for_selector parent
  | None => mret ()
  end ;;
  artifacts ← on_step_files (prepare_selector_prompt request orchestrator attempt cwd result_path);
  answer ← on_step_files (provider_call from_str program binaries
    (selector_provider_request orchestrator selector_agent provider cwd result_path artifacts));
  match answer with
  | None => mret None
  | Some (Ok result) =>
      persist_selector_invocation_log (rq_selector_id request) attempt (Some (pv_log result)) None ;;
      Some <$> io_map_err (λ err, String.concat "" ["selector did not write result file at ";
          result_path; ": "; ioe_display err])
        (on_step_files (sys (disk_read result_path)))
  | Some (Err err) =>
      let error_text := ProviderError_display err in
      persist_selector_invocation_log (rq_selector_id request) attempt (provider_error_log err)
        (Some error_text) ;;
      throw error_text
  end.
(** [.ok()], as [next_attempt] of [Selector] and [Routing]. *)
Definition selector_agent (request : SelectorRequest) (orchestrator : OrchestratorConfig)
    (attempt : Z) (w : world run_store) : world run_store * option string :=
  let '(w', r) := run_selector_attempt_with_provider request orchestrator attempt w in
  (w', match r with Ok (Some raw) => Some raw | _ => None end).
End attempt.

(** ** What an answer is worth *)
Section guarantees.
Context (from_str : string → result string Value) (to_string to_string_pretty : Value → string)
  (request_to_string : SelectorRequest → string).
Context (program : InvocationSpec → string → disk → process * disk).
Context (state_root : string) (settings : Settings) (binaries : RunnerBinaries).
Local Abbreviation run_attempt :=
  (run_selector_attempt_with_provider from_str to_string request_to_string program state_root
     settings binaries).
Local Abbreviation prepare := (prepare_selector_prompt request_to_string).

(** The files of a new orchestrator ask for nothing a selector attempt lacks. *)
Lemma default_selector_templates_render request_json result_path orchestrator attempt :
  Forall (λ template, ∃ out, render_template_with_placeholders
      (render_selector_token request_json result_path orchestrator attempt) template = Ok out)
    [default_selector_prompt; default_selector_context].
Proof.
  assert (∀ tokens template, template_tokens template = Some tokens →
    Forall (λ t, is_supported_selector_placeholder t = true) tokens →
    ∃ out, render_template_with_placeholders
      (render_selector_token request_json result_path orchestrator attempt) template = Ok out) as H.
  { intros tokens template Ht Hsup.
    pose proof (render_template_spec
      (render_selector_token request_json result_path orchestrator attempt) template) as Hr.
    rewrite Ht in Hr. destruct (render_template_with_placeholders _ _) as [out|e]; [by exists out|].
    destruct Hr as (t & Hin & He). rewrite Forall_forall in Hsup. specialize (Hsup t Hin).
    unfold is_supported_selector_placeholder in Hsup. apply existsb_exists in Hsup as (k & Hk & ->%String.eqb_eq).
    by repeat (destruct Hk as [<-|Hk]; [done|]). }
  repeat constructor; eapply H; try (vm_compute; reflexivity); repeat constructor.
Qed.

Definition selector_prompt_ready (files : disk) (request : SelectorRequest)
    (orchestrator : OrchestratorConfig) (attempt : Z) (cwd result_path : string)
    (artifacts : PromptArtifacts) : Prop :=
  let dir := selector_attempt_dir cwd (rq_selector_id request) attempt in
  let render := render_template_with_placeholders
    (render_selector_token (request_to_string request) result_path orchestrator attempt) in
  artifacts = {| pa_prompt_file := path_join dir "prompt.md";
                 pa_context_files := [path_join dir "context.md"] |}
  ∧ (∃ template prompt, render template = Ok prompt ∧ files !! path_join dir "prompt.md" = Some prompt)
  ∧ ∃ template context, render template = Ok context
                        ∧ files !! path_join dir "context.md" = Some context.
Lemma wp_prepare_selector request orchestrator attempt cwd result_path (files : disk) :
  wp false (prepare request orchestrator attempt cwd result_path)
    (λ r files', ∀ artifacts, r = Ok artifacts →
       selector_prompt_ready files' request orchestrator attempt cwd result_path artifacts) files.
Proof.
  unfold prepare_selector_prompt. cbv zeta.
  apply wp_bind, wp_lift. destruct (map_err _ _); [|done].
  apply wp_bind, wp_lift. destruct (map_err _ _); [|done].
  apply wp_bind, wp_any. intros [prompt_template|e] files1; [|done].
  apply wp_bind, wp_any. intros [context_template|e] files2; [|done].
  apply wp_bind, wp_lift.
  destruct (render_template_with_placeholders _ prompt_template) as [prompt|e] eqn:Hp; [|done].
  apply wp_bind, wp_lift.
  destruct (render_template_with_placeholders _ context_template) as [context|e] eqn:Hx; [|done].
  apply wp_map_err, wp_write_prompt; [done|]. intros ? [= <-].
  split; [done|]. unfold disk in *. split.
  - exists prompt_template, prompt. split; [done|]. rewrite lookup_insert_ne; [apply lookup_insert_eq|].
    apply not_eq_sym, prompt_file_names.
  - exists context_template, context. split; [done|]. apply lookup_insert_eq.
Qed.

End guarantees.

(** ** Concrete attempts *)
Definition attempt_settings : Settings := {|
  s_workspaces_path := "/srv"; s_shared_workspaces := [];
  s_orchestrators := [("main", {| so_private_workspace := None; so_shared_access := [] |})];
  s_channel_profiles := []; s_heartbeat_interval := None; s_channels := [];
  s_auth_sync := {| auth_enabled := false; auth_sources := [] |};
  s_memory := MemoryConfig_default; s_local_llm := LocalLlmConfig_default |}.
Definition attempt_request : SelectorRequest := {|
  rq_selector_id := "sel-1"; rq_channel_profile_id := "slack"; rq_message_id := "1";
  rq_conversation_id := None; rq_user_message := "hello"; rq_thread_context := None;
  rq_memory_bulletin := None; rq_memory_bulletin_citations := [];
  rq_available_workflows := ["w"]; rq_default_workflow := "w"; rq_available_functions := [];
  rq_available_function_schemas := [] |}.
Definition attempt_result_path : string :=
  "/srv/main/orchestrator/artifacts/selector-provider-result-sel-1_attempt_0.json".
(** A program that writes its answer where it was asked to. *)
Definition answering_selector (_ : InvocationSpec) (_ : string) (files : disk) : process * disk :=
  (demo_process "done", <[attempt_result_path := "answer"]> files).
(** One that says it is done and writes nothing. *)
Definition idle_selector (_ : InvocationSpec) (_ : string) (files : disk) : process * disk :=
  (demo_process "done", files).
Definition demo_selector_attempt (program : InvocationSpec → string → disk → process * disk) :
    IO run_store string (option string) :=
  run_selector_attempt_with_provider (λ _, Err "") (λ _, "json") (λ _, "request") program "/state"
    attempt_settings RunnerBinaries_default attempt_request demo_agents 0.


(** The result file is not removed before the program is run: one that an earlier
    try of the same message left is taken for the answer of a program that wrote
    none. *)
Example stale_selector_answer :
  (demo_selector_attempt idle_selector (demo_files {[attempt_result_path := "answer"]})).2
    = Ok (Some "answer")
  ∧ is_ok (demo_selector_attempt idle_selector (demo_files ∅)).2 = false.
Proof. by vm_compute. Qed.
