(* ===== verification/Mounts.v ===== *)
(** * The mounts of a workspace

    [src/src/orchestration/shared_mounts.rs] and [skills_mounts.rs]: symbolic links in
    the private workspace of an orchestrator to the shared workspaces it may use and,
    for the provider programs, to its skills.  The state is what stands under the
    directories of the links; [canonicalize] is what the operating system answers for
    any other path. *)
From S2P Require Import Prelude RustStr RustPath Io Json TypedFields Config OrchestratorFile OrchestratorError WorkspaceAccess.

Local Open Scope string_scope.
Local Open Scope list_scope.

(** A symbolic link with its target, or something else (a file, a directory). *)
Inductive mount := Link (target : string) | Occupied.
#[export] Instance mount_eq_dec : EqDecision mount.
Proof. solve_decision. Defined.
Definition mounts : Type := gmap string mount.
Definition is_link (m : mount) : bool := match m with Link _ => true | Occupied => false end.

Section mounting.
Context (canonicalize : string → result io_error string).

(** *** The system calls *)
(** [fs::canonicalize] follows links. *)
Definition fs_canonicalize (path : string) (m : mounts) : mounts * result io_error string :=
  (m, match m !! path with
      | Some (Link target) => canonicalize target
      | Some Occupied => Ok path
      | None => canonicalize path
      end).
(** [Path::exists] as well. *)
Definition mount_exists (path : string) (m : mounts) : mounts * result io_error () :=
  (m, match m !! path with
      | Some (Link target) => _ ← canonicalize target; Ok ()
      | Some Occupied => Ok ()
      | None => Err not_found
      end).
Definition symlink_metadata (path : string) (m : mounts) : mounts * result io_error mount :=
  (m, ok_or not_found (m !! path)).
Definition create_symlink (target link : string) (m : mounts) : mounts * result io_error () :=
  match m !! link with
  | Some _ => (m, Err already_exists)
  | None => (<[link := Link target]> m, Ok ())
  end.
(** [remove_file] removes a link, not what it points to. *)
Definition mount_remove_file (path : string) (m : mounts) : mounts * result io_error () :=
  match m !! path with
  | Some (Link _) => (delete path m, Ok ())
  | Some Occupied => (m, Err (IoError IsADirectory "Is a directory (os error 21)"))
  | None => (m, Err not_found)
  end.
Definition fs_remove_dir (path : string) (m : mounts) : mounts * result io_error () :=
  match m !! path with
  | Some Occupied => (delete path m, Ok ())
  | Some (Link _) => (m, Err (IoError OtherKind "Not a directory (os error 20)"))
  | None => (m, Err not_found)
  end.
Definition mount_entries (dir : string) (m : mounts) : mounts * result io_error (list string) :=
  (m, Ok (filter (λ path, path_parent path = Some dir) (map_to_list m).*1)).

Definition remove_symlink (path : string) : IO mounts io_error () :=
  removed ← Io.attempt (sys (mount_remove_file path));
  match removed with
  | Ok _ => mret ()
  | Err err => if decide (ioe_kind err = IsADirectory) then sys (fs_remove_dir path) else throw err
  end.

(** *** One mount *)
(** [occupied] is the error of a mount path that is no link. *)
Definition reconcile_mount_path (occupied : OrchestratorError) (mount_path desired_target : string) :
    IO mounts OrchestratorError () :=
  exists_ ← path_exists (mount_exists mount_path);
  if negb exists_ then io_map_err (IoErr mount_path) (sys (create_symlink desired_target mount_path)) else
  metadata ← io_map_err (IoErr mount_path) (sys (symlink_metadata mount_path));
  if negb (is_link metadata) then throw occupied else
  actual ← Io.attempt (sys (fs_canonicalize mount_path));
  let points_to_desired :=
    match (actual ← result_ok actual; result_ok (normalize_absolute_path actual)) with
    | Some actual => String.eqb actual desired_target
    | None => false
    end in
  if points_to_desired then mret () else
  io_map_err (IoErr mount_path) (remove_symlink mount_path) ;;
  io_map_err (IoErr mount_path) (sys (create_symlink desired_target mount_path)).

Definition workspace_dir (settings : Settings) (orchestrator_id : string) :
    IO mounts OrchestratorError string :=
  private_workspace ← lift (map_err from_config_error (resolve_private_workspace settings orchestrator_id));
  private_workspace ← lift (normalize_absolute_path private_workspace);
  io_map_err (IoErr private_workspace) (sys (create_dir_all private_workspace)) ;;
  mret private_workspace.

(** *** Shared workspaces *)
Definition shared_occupied (orchestrator_id mount_path : string) : OrchestratorError :=
  ConfigErr (String.concat "" ["orchestrator `"; orchestrator_id; "` shared mount `"; mount_path;
                               "` exists but existing mount path is not a symlink"]).
Definition desired_target (settings : Settings) (orchestrator_id : string)
    (desired : list (string * string)) (key : string) :
    IO mounts OrchestratorError (list (string * string)) :=
  target ← lift (ok_or (ConfigErr (String.concat "" ["orchestrator `"; orchestrator_id;
      "` references unknown shared workspace `"; key; "`"]))
    (map_get key (s_shared_workspaces settings)));
  canonical_target ← io_map_err (λ _, ConfigErr (String.concat "" ["shared workspace `"; key;
      "` path `"; sw_path target; "` is missing or invalid"]))
    (sys (λ m, (m, canonicalize (sw_path target))));
  normalized ← lift (normalize_absolute_path canonical_target);
  mret (map_insert key normalized desired).
Definition remove_stale_entry (desired : list (string * string)) (path : string) :
    IO mounts OrchestratorError () :=
  if map_contains_key (from_option id "" (file_name path)) desired then mret () else
  metadata ← io_map_err (IoErr path) (sys (symlink_metadata path));
  if is_link metadata then io_map_err (IoErr path) (remove_symlink path) else mret ().
Definition remove_stale_symlink_mounts (mount_root : string) (desired : list (string * string)) :
    IO mounts OrchestratorError () :=
  entries ← io_map_err (IoErr mount_root) (sys (mount_entries mount_root));
  io_for_each (remove_stale_entry desired) entries.
Definition reconcile_orchestrator_shared_mounts (settings : Settings) (orchestrator_id : string) :
    IO mounts OrchestratorError () :=
  private_workspace ← workspace_dir settings orchestrator_id;
  orchestrator ← lift (ok_or (ConfigErr (String.concat "" ["missing orchestrator `"; orchestrator_id;
      "` in settings"])) (map_get orchestrator_id (s_orchestrators settings)));
  let mount_root := path_join private_workspace "shared" in
  io_map_err (IoErr mount_root) (sys (create_dir_all mount_root)) ;;
  desired ← io_for_fold (desired_target settings orchestrator_id) (so_shared_access orchestrator) [];
  io_for_each (λ '(key, target),
    let mount_path := path_join mount_root key in
    reconcile_mount_path (shared_occupied orchestrator_id mount_path) mount_path target) desired ;;
  remove_stale_symlink_mounts mount_root desired.
Definition reconcile_all_orchestrator_shared_mounts (settings : Settings) :
    IO mounts OrchestratorError () :=
  io_for_each (reconcile_orchestrator_shared_mounts settings) (map_keys (s_orchestrators settings)).

(** *** Skills *)
Definition skills_occupied (orchestrator_id mount_kind mount_path : string) : OrchestratorError :=
  ConfigErr (String.concat "" ["orchestrator `"; orchestrator_id; "` "; mount_kind;
    " skills mount `"; mount_path; "` exists but is not a symlink"]).
Definition reconcile_skill_mount (orchestrator_id mount_kind root skills_root : string) :
    IO mounts OrchestratorError () :=
  io_map_err (IoErr root) (sys (create_dir_all root)) ;;
  let mount_path := path_join root "skills" in
  reconcile_mount_path (skills_occupied orchestrator_id mount_kind mount_path) mount_path skills_root.
Definition reconcile_orchestrator_skill_mounts (settings : Settings) (orchestrator_id : string) :
    IO mounts OrchestratorError () :=
  private_workspace ← workspace_dir settings orchestrator_id;
  let skills_root := path_join private_workspace "skills" in
  io_map_err (IoErr skills_root) (sys (create_dir_all skills_root)) ;;
  reconcile_skill_mount orchestrator_id "agent" (path_join private_workspace ".agents") skills_root ;;
  reconcile_skill_mount orchestrator_id "claude" (path_join private_workspace ".claude") skills_root.
Definition reconcile_all_orchestrator_skill_mounts (settings : Settings) :
    IO mounts OrchestratorError () :=
  io_for_each (reconcile_orchestrator_skill_mounts settings) (map_keys (s_orchestrators settings)).
End mounting.
