(* ===== verification/MountGuarantees.v ===== *)
(** * What reconciling the mounts guarantees

    Theorems about [Mounts]: after a reconciliation that succeeded the links are
    exactly those of the granted workspaces, nothing but links is touched, and a link
    whose target is gone is never repaired. *)
From S2P Require Import Prelude RustStr RustPath Io Json TypedFields Config OrchestratorFile OrchestratorError WorkspaceAccess Mounts.

Local Open Scope string_scope.
Local Open Scope list_scope.

Section guarantees.
Context (canonicalize : string → result io_error string).
Local Abbreviation reconcile_mount := (reconcile_mount_path canonicalize).
Local Abbreviation reconcile := (reconcile_orchestrator_shared_mounts canonicalize).

(** A link that leads to the directory: made for it, or found to point there. *)
Definition leads_to (m : mounts) (path target : string) : Prop :=
  ∃ t, m !! path = Some (Link t)
    ∧ (t = target ∨ ∃ actual, canonicalize t = Ok actual ∧ normalize_absolute_path actual = Ok target).
(** Only links come and go, and only at the paths given. *)
Definition only_links_change (paths : string → Prop) (m m' : mounts) : Prop :=
  ∀ path, (¬ paths path → m' !! path = m !! path)
    ∧ (m !! path = Some Occupied ↔ m' !! path = Some Occupied).
Lemma only_links_refl paths m : only_links_change paths m m.
Proof. by split. Qed.
Lemma only_links_trans paths m1 m2 m3 :
  only_links_change paths m1 m2 → only_links_change paths m2 m3 → only_links_change paths m1 m3.
Proof.
  intros H12 H23 path. destruct (H12 path) as [Hn1 Ho1], (H23 path) as [Hn2 Ho2]. split.
  - intros Hn. by rewrite Hn2, Hn1.
  - by rewrite Ho1, Ho2.
Qed.
Lemma only_links_mono (P Q : string → Prop) m m' :
  (∀ path, P path → Q path) → only_links_change P m m' → only_links_change Q m m'.
Proof. intros HPQ H path. destruct (H path) as [Hn Ho]. split; [|done]. auto. Qed.
Lemma link_insert (m : mounts) path t :
  m !! path ≠ Some Occupied → only_links_change (eq path) m (<[path := Link t]> m).
Proof.
  intros Hm p. unfold mounts in *. destruct (decide (path = p)) as [->|Hne].
  - rewrite lookup_insert_eq. by split.
  - by rewrite lookup_insert_ne.
Qed.
Lemma link_delete (m : mounts) path t :
  m !! path = Some (Link t) → only_links_change (eq path) m (delete path m).
Proof.
  intros Hm p. unfold mounts in *. destruct (decide (path = p)) as [->|Hne].
  - rewrite lookup_delete_eq, Hm. by split.
  - by rewrite lookup_delete_ne.
Qed.

Lemma wp_remove_symlink path t (Φ : result io_error () → mounts → Prop) m :
  m !! path = Some (Link t) → (∀ e, Φ (Err e) m) → Φ (Ok ()) (delete path m) →
  wp false (remove_symlink path) Φ m.
Proof.
  intros Hm He Ho. unfold remove_symlink. apply wp_bind, wp_attempt, wp_sys.
  - intros _ e. destruct (decide _); [|by apply wp_throw].
    apply wp_sys; [by intros|]. unfold fs_remove_dir. rewrite Hm. apply He.
  - unfold mount_remove_file. rewrite Hm. simpl. by apply wp_ret.
Qed.

Lemma wp_reconcile_mount occupied path target m :
  wp false (reconcile_mount occupied path target)
    (λ r m', only_links_change (eq path) m m' ∧ (r = Ok () → leads_to m' path target)) m.
Proof.
  unfold reconcile_mount_path, path_exists.
  assert (∀ m0, only_links_change (eq path) m m0 → (m0 !! path = None → m !! path ≠ Some Occupied) →
    wp false (io_map_err (IoErr path) (sys (create_symlink target path)))
      (λ r m', only_links_change (eq path) m m' ∧ (r = Ok () → leads_to m' path target)) m0) as Hcreate.
  { intros m0 H0 Hocc. apply wp_map_err, wp_sys; [by intros|]. unfold create_symlink.
    destruct (m0 !! path) as [e|] eqn:Hp; simpl; [by split|]. split.
    - eapply only_links_trans; [exact H0|]. apply link_insert. by rewrite Hp.
    - intros _. exists target. unfold mounts in *. rewrite lookup_insert_eq. split; [done|by left]. }
  assert (∀ exists_ : bool, (exists_ = false → True) →
    wp false (if negb exists_ then io_map_err (IoErr path) (sys (create_symlink target path)) else
       metadata ← io_map_err (IoErr path) (sys (symlink_metadata path));
       if negb (is_link metadata) then throw occupied else
       actual ← Io.attempt (sys (fs_canonicalize canonicalize path));
       if match (actual ← result_ok actual; result_ok (normalize_absolute_path actual)) with
          | Some actual => String.eqb actual target | None => false end
       then mret () else
       io_map_err (IoErr path) (remove_symlink path) ;;
       io_map_err (IoErr path) (sys (create_symlink target path)))
      (λ r m', only_links_change (eq path) m m' ∧ (r = Ok () → leads_to m' path target)) m) as Hrest.
  { intros [|] _; simpl; [|apply Hcreate; [apply only_links_refl|by intros ->]].
    apply wp_bind, wp_map_err, wp_sys; [by intros|]. unfold symlink_metadata.
    destruct (m !! path) as [e|] eqn:Hp; simpl; [|by split].
    destruct e as [t|]; simpl; [|by apply wp_throw].
    assert (∀ actual : result io_error string,
      match actual with Ok a => canonicalize t = Ok a | Err _ => True end →
      wp false (if match (actual ← result_ok actual; result_ok (normalize_absolute_path actual)) with
          | Some actual => String.eqb actual target | None => false end
        then mret () else
        io_map_err (IoErr path) (remove_symlink path) ;;
        io_map_err (IoErr path) (sys (create_symlink target path)))
      (λ r m', only_links_change (eq path) m m' ∧ (r = Ok () → leads_to m' path target)) m) as Hlast.
    { intros actual Ha. destruct (match _ with Some a => String.eqb a target | None => false end) eqn:Hpts.
      - apply wp_ret. split; [apply only_links_refl|]. intros _. exists t. split; [done|]. right.
        destruct actual as [a|e]; simpl in Hpts; [|done]. exists a. split; [done|].
        destruct (normalize_absolute_path a) as [n|e]; simpl in Hpts; [|done].
        by apply String.eqb_eq in Hpts as ->.
      - apply wp_bind, wp_map_err. eapply wp_remove_symlink; [done|by split|]. simpl.
        apply Hcreate; [by eapply link_delete|]. intros _. congruence. }
    apply wp_bind, wp_attempt, wp_sys; [by intros; apply Hlast|].
    unfold fs_canonicalize. rewrite Hp. simpl. apply Hlast. by destruct (canonicalize t). }
  apply wp_bind, wp_fmap, wp_attempt, wp_sys; [intros _ e; by apply (Hrest false)|].
  simpl. by apply Hrest.
Qed.

(** ** The shared workspaces of an orchestrator *)
Definition target_of (settings : Settings) (key target : string) : Prop :=
  ∃ shared actual, map_get key (s_shared_workspaces settings) = Some shared
    ∧ canonicalize (sw_path shared) = Ok actual ∧ normalize_absolute_path actual = Ok target.
Definition desired_ok (settings : Settings) (granted : list string) (desired : list (string * string)) :
    Prop :=
  (∀ key target, (key, target) ∈ desired → target_of settings key target)
  ∧ (∀ key, key ∈ map_keys desired ↔ key ∈ granted).

Lemma wp_desired settings orchestrator_id granted (Φ : result OrchestratorError _ → mounts → Prop) m :
  (∀ e, Φ (Err e) m) → (∀ desired, desired_ok settings granted desired → Φ (Ok desired) m) →
  wp false (io_for_fold (desired_target canonicalize settings orchestrator_id) granted []) Φ m.
Proof.
  intros He Ho.
  apply (wp_for_fold _ (λ desired rest m', m' = m ∧ ∃ seen, granted = seen ++ rest
    ∧ desired_ok settings seen desired)).
  - split; [done|]. exists []. split; [done|]. split; [by intros ?? ?%not_elem_of_nil|done].
  - intros desired key rest m' (-> & seen & Hg & Hd & Hk). unfold desired_target.
    apply wp_bind, wp_lift. destruct (map_get key _) as [shared|] eqn:Hs; simpl; [|apply He].
    apply wp_bind, wp_map_err, wp_sys; [intros; apply He|]. simpl.
    destruct (canonicalize (sw_path shared)) as [actual|e] eqn:Hc; simpl; [|apply He].
    apply wp_bind, wp_lift. destruct (normalize_absolute_path actual) as [target|e] eqn:Hn; [|apply He].
    apply wp_ret. split; [done|]. exists (seen ++ [key]). split; [by rewrite <- app_assoc|]. split.
    + intros k v [[-> ->]|Hin]%map_insert_elem; [|by apply Hd]. by exists shared, actual.
    + intros k. rewrite map_insert_keys, elem_of_app, list_elem_of_singleton, Hk. tauto.
  - intros desired m' (-> & seen & Hg & Hd). rewrite app_nil_r in Hg. subst seen. by apply Ho.
Qed.

Definition under (root path : string) : Prop := path_parent path = Some root.
Lemma wp_remove_stale root desired (Φ : result OrchestratorError () → mounts → Prop) m :
  (∀ e m', only_links_change (under root) m m' → Φ (Err e) m') →
  (∀ m', only_links_change (under root) m m' →
    (∀ path, map_contains_key (from_option id "" (file_name path)) desired = true →
       m' !! path = m !! path) →
    (∀ path t, under root path → m' !! path = Some (Link t) →
       map_contains_key (from_option id "" (file_name path)) desired = true) → Φ (Ok ()) m') →
  wp false (remove_stale_symlink_mounts root desired) Φ m.
Proof.
  intros He Ho. unfold remove_stale_symlink_mounts, mount_entries.
  apply wp_bind, wp_map_err, wp_sys; [intros; apply He, only_links_refl|]. simpl.
  apply (wp_for_each _ (λ rest m', only_links_change (under root) m m'
    ∧ (∀ path, path ∈ rest → under root path)
    ∧ (∀ path, map_contains_key (from_option id "" (file_name path)) desired = true →
         m' !! path = m !! path)
    ∧ (∀ path t, under root path → m' !! path = Some (Link t) → path ∉ rest →
         map_contains_key (from_option id "" (file_name path)) desired = true))).
  - split_and!; [apply only_links_refl|by intros path [? ?]%list_elem_of_filter|done|].
    intros path t Hu Hp []. apply list_elem_of_filter. split; [done|].
    apply list_elem_of_fmap. exists (path, Link t). split; [done|]. by apply elem_of_map_to_list.
  - intros path rest m' (Hl & Hu & Hk & Hr).
    assert (∀ m2, only_links_change (under root) m m2 → (∀ t, m2 !! path = Some (Link t) →
        map_contains_key (from_option id "" (file_name path)) desired = true) →
      (∀ p, p ≠ path → m2 !! p = m' !! p) →
      (map_contains_key (from_option id "" (file_name path)) desired = true → m2 !! path = m' !! path) →
      only_links_change (under root) m m2
      ∧ (∀ p, p ∈ rest → under root p)
      ∧ (∀ p, map_contains_key (from_option id "" (file_name p)) desired = true → m2 !! p = m !! p)
      ∧ (∀ p t, under root p → m2 !! p = Some (Link t) → p ∉ rest →
           map_contains_key (from_option id "" (file_name p)) desired = true)) as Hstep.
    { intros m2 Hm2 Hpath Hne Heq. split_and!; [done|intros p Hp; apply Hu; by right| |].
      - intros p Hp. destruct (decide (p = path)) as [->|Hd]; [rewrite Heq by done|rewrite Hne by done];
          by apply Hk.
      - intros p t Hup Hlink Hin. destruct (decide (p = path)) as [->|Hd]; [by eapply Hpath|].
        rewrite Hne in Hlink by done. eapply Hr; [done..|]. by intros [?|?]%elem_of_cons. }
    unfold remove_stale_entry. destruct (map_contains_key _ desired) eqn:Hc.
    { apply wp_ret. by apply Hstep. }
    apply wp_bind, wp_map_err, wp_sys; [intros; by apply He|]. unfold symlink_metadata. simpl.
    destruct (m' !! path) as [e|] eqn:Hp; simpl; [|by apply He].
    destruct e as [t|]; simpl.
    + apply wp_map_err. eapply wp_remove_symlink; [done|intros; by apply He|]. simpl.
      apply Hstep; [| |by intros p Hne; apply lookup_delete_ne|by intros].
      * eapply only_links_trans; [exact Hl|].
        eapply only_links_mono; [|by eapply link_delete]. intros p <-. apply Hu. by left.
      * intros t'. unfold mounts in *. by rewrite lookup_delete_eq.
    + apply wp_ret. apply Hstep; [done|by rewrite Hp|done|done].
  - intros m' (Hl & _ & Hk & Hr). apply Ho; [done..|]. intros path t Hu Hp.
    eapply Hr; [done..|]. apply not_elem_of_nil.
Qed.

(** Names under a directory. *)
Lemma mount_path_under names key :
  Forall (λ n, plain_name n = true) names → plain_name key = true →
  under (abs_path names) (path_join (abs_path names) key)
  ∧ file_name (path_join (abs_path names) key) = Some key.
Proof.
  intros Hn Hk. rewrite <- abs_path_snoc.
  assert (Forall (λ n, plain_name n = true) (names ++ [key])) as Hall
    by (apply Forall_app; split; [done|by apply Forall_singleton]).
  split; [by apply path_parent_abs|]. unfold file_name.
  by rewrite abs_path_snoc, components_join_plain, last_snoc by (done || apply abs_path_absolute).
Qed.

Definition linked (settings : Settings) (root : string) (granted : list string) (m m' : mounts) : Prop :=
  (∀ key, key ∈ granted →
     ∃ target, target_of settings key target ∧ leads_to m' (path_join root key) target)
  ∧ (∀ path t, under root path → m' !! path = Some (Link t) →
       from_option id "" (file_name path) ∈ granted)
  ∧ (∀ path, ¬ under root path → m' !! path = m !! path)
  ∧ (∀ path, m !! path = Some Occupied ↔ m' !! path = Some Occupied).

Lemma wp_link_all settings orchestrator_id names desired granted m (Hn : Forall (λ n, plain_name n = true) names)
    (Hplain : ∀ key, key ∈ granted → plain_name key = true) (Hd : desired_ok settings granted desired)
    (Φ : result OrchestratorError () → mounts → Prop) :
  let root := abs_path names in
  (∀ e m', Φ (Err e) m') →
  (∀ m', only_links_change (under root) m m' →
    (∀ key target, (key, target) ∈ desired → leads_to m' (path_join root key) target) → Φ (Ok ()) m') →
  wp false (io_for_each (λ '(key, target),
    let mount_path := path_join root key in
    reconcile_mount (shared_occupied orchestrator_id mount_path) mount_path target) desired) Φ m.
Proof.
  intros root He Ho.
  assert (∀ key target, (key, target) ∈ desired → plain_name key = true) as Hkey.
  { intros key target Hin. apply Hplain, Hd, list_elem_of_fmap. by exists (key, target). }
  apply (wp_for_each _ (λ rest m', only_links_change (under root) m m' ∧ ∃ seen, desired = seen ++ rest
    ∧ ∀ key target, (key, target) ∈ seen → leads_to m' (path_join root key) target)).
  - split; [apply only_links_refl|]. exists []. split; [done|]. by intros ?? ?%not_elem_of_nil.
  - intros [key target] rest m' (Hl & seen & Hs & Hlead).
    assert ((key, target) ∈ desired) as Hin by (rewrite Hs; apply elem_of_app; right; left).
    destruct (mount_path_under names key Hn (Hkey _ _ Hin)) as [Hunder Hname].
    eapply wp_mono; [apply wp_reconcile_mount|]. intros [[]|e] m2 [Hc Hlead2]; [|apply He].
    split.
    { eapply only_links_trans; [exact Hl|]. eapply only_links_mono; [|exact Hc]. by intros p <-. }
    exists (seen ++ [(key, target)]). split; [by rewrite <- app_assoc|].
    intros k v [Hk|[= -> ->]%list_elem_of_singleton]%elem_of_app; [|by apply Hlead2].
    destruct (decide (k = key)) as [->|Hne].
    + assert (v = target) as ->; [|by apply Hlead2].
      assert ((key, v) ∈ desired) as Hin2 by (rewrite Hs; apply elem_of_app; by left).
      destruct (proj1 Hd _ _ Hin) as (? & ? & ? & ? & ?), (proj1 Hd _ _ Hin2) as (? & ? & ? & ? & ?).
      congruence.
    + destruct (Hlead k v Hk) as (t & Ht & Hto). exists t. split; [|done].
      rewrite (proj1 (Hc _)); [done|]. intros Heq.
      assert ((k, v) ∈ desired) as Hin2 by (rewrite Hs; apply elem_of_app; by left).
      destruct (mount_path_under names k Hn (Hkey _ _ Hin2)) as [_ Hname2]. unfold root in *. congruence.
  - intros m' (Hl & seen & Hs & Hlead). rewrite app_nil_r in Hs. subst seen. by apply Ho.
Qed.

Lemma wp_reconcile settings orchestrator_id m
    (Hplain : ∀ orchestrator key, map_get orchestrator_id (s_orchestrators settings) = Some orchestrator →
       key ∈ so_shared_access orchestrator → plain_name key = true) :
  wp false (reconcile settings orchestrator_id) (λ r m', r = Ok () →
    ∃ workspace private_workspace orchestrator,
      resolve_private_workspace settings orchestrator_id = Ok workspace
      ∧ normalize_absolute_path workspace = Ok private_workspace
      ∧ map_get orchestrator_id (s_orchestrators settings) = Some orchestrator
      ∧ linked settings (path_join private_workspace "shared") (so_shared_access orchestrator) m m') m.
Proof.
  unfold reconcile_orchestrator_shared_mounts, workspace_dir.
  apply wp_bind, wp_bind, wp_lift. destruct (resolve_private_workspace _ _) as [ws|e] eqn:Hws; simpl; [|done].
  apply wp_bind, wp_lift. destruct (normalize_absolute_path ws) as [pw|e] eqn:Hpw; simpl; [|done].
  apply wp_bind, wp_map_err, wp_sys; [done|]. simpl. apply wp_ret.
  apply wp_bind, wp_lift. destruct (map_get orchestrator_id _) as [orchestrator|] eqn:Ho; simpl; [|done].
  apply wp_bind, wp_map_err, wp_sys; [done|]. simpl.
  destruct (normalize_absolute_path_Ok _ _ Hpw) as (_ & ns & Hns & -> & _).
  rewrite <- abs_path_snoc. set (names := ns ++ ["shared"]).
  assert (Forall (λ n, plain_name n = true) names) as Hnames.
  { apply Forall_app. split; [done|]. by apply Forall_singleton. }
  pose proof (λ key, Hplain orchestrator key eq_refl) as Hgranted.
  apply wp_bind, wp_desired; [done|]. intros desired Hd.
  apply wp_bind. eapply wp_link_all; [done|exact Hgranted|done|done|].
  intros m1 Hl1 Hlead. apply wp_remove_stale; [done|]. intros m2 Hl2 Hkeep Hstale _.
  exists ws, (abs_path ns), orchestrator. rewrite <- abs_path_snoc. fold names. split_and!; try done.
  assert (only_links_change (under (abs_path names)) m m2) as Hl by (by eapply only_links_trans).
  split_and!.
  - intros key Hkey. apply Hd in Hkey as Hin. apply list_elem_of_fmap in Hin as ([k target] & -> & Hin).
    exists target. split; [by apply Hd|]. destruct (Hlead _ _ Hin) as (t & Ht & Hto). exists t.
    split; [|done]. simpl in *. destruct (mount_path_under names k Hnames (Hgranted _ Hkey)) as [_ Hname].
    rewrite Hkeep; [done|]. rewrite Hname. simpl. apply map_contains_key_elem.
    apply list_elem_of_fmap. by exists (k, target).
  - intros path t Hu Hp. apply Hd, map_contains_key_elem. by eapply Hstale.
  - intros path. by apply Hl.
  - intros path. apply Hl.
Qed.

End guarantees.

(** *** A link whose target is gone *)
Definition mount_settings : Settings := {|
  s_workspaces_path := "/srv";
  s_shared_workspaces := [("docs", {| sw_path := "/shared/docs"; sw_description := "d" |})];
  s_orchestrators := [("main", {| so_private_workspace := None; so_shared_access := ["docs"] |})];
  s_channel_profiles := []; s_heartbeat_interval := None; s_channels := [];
  s_auth_sync := {| auth_enabled := false; auth_sources := [] |};
  s_memory := MemoryConfig_default; s_local_llm := LocalLlmConfig_default |}.
(** [/shared/old] is not there any more. *)
Definition mount_canonicalize (path : string) : result io_error string :=
  if String.eqb path "/shared/old" then Err not_found else Ok path.
Definition reconcile_main (m : mounts) : world mounts * result OrchestratorError () :=
  reconcile_orchestrator_shared_mounts mount_canonicalize mount_settings "main" (World m (Env [] [])).

(** [exists()] follows the link: one whose target is gone counts as missing, is not
    replaced, and the reconciliation fails on it. *)
Example dangling_mount_is_never_repaired :
  let old := {["/srv/main/shared/docs" := Link "/shared/old"]} in
  (reconcile_main old).2 = Err (IoErr "/srv/main/shared/docs" already_exists)
  ∧ st (reconcile_main old).1 = old
  ∧ st (reconcile_main {["/srv/main/shared/docs" := Link "/shared/else"]}).1
    = {["/srv/main/shared/docs" := Link "/shared/docs"]}.
Proof. by vm_compute. Qed.
