(* ===== verification/Transitions.v ===== *)
(** * Carrying out a decision

    [src/src/orchestration/transitions.rs]: run ids, the inputs of a selected
    workflow, and [route_selector_action].  Randomness ([getrandom]) is the
    parameter [sample], one 32-bit value per attempt; running a function is
    [execute_function], running a step the interface [StepExecutor]. *)
From S2P Require Import Prelude RustStr RustPath Io Json Config OrchestratorFile OrchestratorError OutputContract RunStore WorkflowEngine Selector.
From Stdlib Require Import Ascii.

Local Open Scope string_scope.
Local Open Scope list_scope.

(** ** Run ids *)
Definition base36_digit (n : Z) : ascii :=
  ascii_of_N (Z.to_N (if decide (n < 10)%Z then n + 48 else n + 87)).
Definition RUN_SUFFIX_SPACE : Z := 36 * 36 * 36 * 36.
Definition RUN_ID_MAX_GENERATION_ATTEMPTS : nat := 16.

(** [while value > 0]: the digits, least significant first, are pushed and then
    reversed.  A [u64] has at most 13 of them. *)
Fixpoint base36_loop (fuel : nat) (value : Z) (chars : string) : string :=
  match fuel with
  | O => chars
  | S fuel =>
      if bool_decide (0 < value)%Z
      then base36_loop fuel (value / 36) (String (base36_digit (value mod 36)) chars)
      else chars
  end.
Definition base36_encode_u64 (value : Z) : string :=
  if bool_decide (value = 0%Z) then "0" else base36_loop 13 value "".

(** [for idx in (0..width).rev()] fills the digits from the right. *)
Fixpoint base36_fixed_loop (width : nat) (value : Z) (chars : string) : string :=
  match width with
  | O => chars
  | S width => base36_fixed_loop width (value / 36) (String (base36_digit (value mod 36)) chars)
  end.
Definition base36_encode_fixed_u32 (value : Z) (width : nat) : string :=
  base36_fixed_loop width value "".

Definition generate_compact_run_id (sample : result string Z) (now : Z) :
    result OrchestratorError string :=
  reject_if (bool_decide (now < 0)%Z)
    (SelectorValidation "workflow_start requires a non-negative timestamp") ;;
  bytes ← map_err (λ err, SelectorValidation
      ("workflow_start failed to generate run id randomness: " +:+ err)) sample;
  Ok ("run-" +:+ base36_encode_u64 now +:+ "-"
      +:+ base36_encode_fixed_u32 (bytes mod RUN_SUFFIX_SPACE) 4).

Section allocation.
Context (state_root : string).

(** [for _ in 0..RUN_ID_MAX_GENERATION_ATTEMPTS]; [next_run_id i] is the i-th
    call of the closure. *)
Fixpoint allocate_loop (remaining i : nat) (next_run_id : nat → result OrchestratorError string) :
    IO run_store OrchestratorError string :=
  match remaining with
  | O => throw (SelectorValidation ("failed to allocate unique workflow run id after "
           +:+ fmt_int (Z.of_nat RUN_ID_MAX_GENERATION_ATTEMPTS) +:+ " attempts"))
  | S remaining =>
      run_id ← lift (next_run_id i);
      s ← get;
      if bool_decide (is_Some (rs_runs s !! run_metadata_path state_root run_id))
      then allocate_loop remaining (S i) next_run_id
      else mret run_id
  end.
Definition allocate_compact_run_id_with_retry
    (next_run_id : nat → result OrchestratorError string) :
    IO run_store OrchestratorError string :=
  allocate_loop RUN_ID_MAX_GENERATION_ATTEMPTS 0 next_run_id.
End allocation.

(** ** Routing *)
Definition missing_run_for_io (run_id : string) (err : OrchestratorError) :
    option OrchestratorError :=
  match err with
  | IoErr _ source => if decide (ioe_kind source = NotFound) then Some (UnknownRunId run_id) else None
  | _ => None
  end.

Definition validate_selected_workflow_output_paths (state_root run_id : string)
    (orchestrator : OrchestratorConfig) (workflow_id : string) : result OrchestratorError () :=
  workflow ← ok_or (SelectorValidation ("workflow `" +:+ workflow_id
                      +:+ "` is not declared in orchestrator"))
    (List.find (λ w, String.eqb (wf_id w) workflow_id) (oc_workflows orchestrator));
  for_each (λ step, resolve_step_output_paths state_root run_id step 1 ;; Ok ())
    (wf_steps workflow).

Definition optional_entry {A} (key : string) (f : A → Value) (o : option A) : list (string * Value) :=
  match o with Some a => [(key, f a)] | None => [] end.
Definition selector_start_inputs (request : SelectorRequest) (source_message_id : option string)
    (workflow_inputs : option JMap) : JMap :=
  map_from_iter (
    [("user_message", VString (rq_user_message request));
     ("channel_profile_id", VString (rq_channel_profile_id request));
     ("selector_id", VString (rq_selector_id request));
     ("message_id", VString (rq_message_id request))]
    ++ optional_entry "conversation_id" VString (rq_conversation_id request)
    ++ optional_entry "thread_context" VString (rq_thread_context request)
    ++ optional_entry "source_message_id" VString source_message_id
    ++ optional_entry "workflow_inputs" VObject workflow_inputs).
Definition selector_start_memory_context (request : SelectorRequest) : RunMemoryContext :=
  from_selector_request (rq_memory_bulletin request) (rq_memory_bulletin_citations request).

Inductive RoutedSelectorAction :=
  | RWorkflowStart (run_id workflow_id : string)
  | RWorkflowStatus (run_id : option string) (progress : option ProgressSnapshot) (message : string)
  | RCommandInvoke (result : Value)
  | RNoResponse (reason : string).

(** [resolve_status_run_id] of [routing.rs]. *)
Record StatusResolutionInput := {
  si_explicit_run_id : option string;
  si_inbound_workflow_run_id : option string;
  si_channel_profile_id : option string;
  si_conversation_id : option string;
}.
Definition resolve_status_run_id (input : StatusResolutionInput)
    (active_conversation_runs : gmap (string * string) string) : option string :=
  match not_blank (si_explicit_run_id input) with
  | Some explicit => Some explicit
  | None =>
      match not_blank (si_inbound_workflow_run_id input) with
      | Some inbound => Some inbound
      | None =>
          profile ← si_channel_profile_id input;
          conversation ← si_conversation_id input;
          active_conversation_runs !! (profile, conversation)
      end
  end.

(** The parts of [RouteContext] the function reads; the runner binaries, the
    workspace context and [memory_enabled] go to the step executor. *)
Record RouteContext := {
  rc_status_input : StatusResolutionInput;
  rc_active_conversation_runs : gmap (string * string) string;
  rc_functions : FunctionRegistry;
  rc_orchestrator : OrchestratorConfig;
  rc_source_message_id : option string;
  rc_workflow_inputs : option JMap;
  rc_now : Z;
}.

Section routing.
Context `{StepExecutor}.
Context (state_root : string).
Context (decode_selector_result : string → result string SelectorResult)
  (encode_selector_result : SelectorResult → string).
Context (execute_function : string → JMap → option string →
           IO run_store OrchestratorError Value).
Context (sample : nat → result string Z).

(** [append_security_log] and the error it reports. *)
Definition deny {A} (parts : list string) (err : OrchestratorError) :
    IO run_store OrchestratorError A :=
  append_security_log state_root (String.concat "" (parts ++ [error_display err])) ;;
  throw err.

Definition route_workflow_start (request : SelectorRequest) (validated : SelectorResult)
    (ctx : RouteContext) : IO run_store OrchestratorError (option RoutedSelectorAction) :=
  workflow_id ← lift (ok_or (SelectorValidation "workflow_start requires selectedWorkflow")
                       (sr_selected_workflow validated));
  if negb (existsb (λ w, String.eqb (wf_id w) workflow_id) (oc_workflows (rc_orchestrator ctx)))
  then deny ["workflow_start denied: "]
         (SelectorValidation ("workflow `" +:+ workflow_id +:+ "` is not declared in orchestrator"))
  else
    run_id ← allocate_compact_run_id_with_retry state_root
               (λ i, generate_compact_run_id (sample i) (rc_now ctx));
    match validate_selected_workflow_output_paths state_root run_id (rc_orchestrator ctx)
            workflow_id with
    | Err err => deny ["output path validation denied for workflow `"; workflow_id; "` run `";
                       run_id; "`: "] err
    | Ok _ =>
        create_run_with_metadata state_root run_id workflow_id
          {| md_source_message_id := rc_source_message_id ctx;
             md_selector_id := Some (rq_selector_id request);
             md_selected_workflow := Some workflow_id;
             md_channel_profile_id := Some (rq_channel_profile_id request);
             md_status_conversation_id := rq_conversation_id request;
             md_memory_context := selector_start_memory_context request |}
          (selector_start_inputs request (rc_source_message_id ctx) (rc_workflow_inputs ctx))
          (rc_now ctx) ;;
        started ← start state_root (rc_orchestrator ctx) run_id (rc_now ctx);
        mret ((λ _, RWorkflowStart run_id workflow_id) <$> started)
    end.

Definition route_workflow_status (ctx : RouteContext) :
    IO run_store OrchestratorError RoutedSelectorAction :=
  match resolve_status_run_id (rc_status_input ctx) (rc_active_conversation_runs ctx) with
  | None =>
      mret (RWorkflowStatus None None "no active workflow run found for this conversation")
  | Some run_id =>
      loaded ← attempt (load_progress state_root run_id);
      match loaded with
      | Ok progress => mret (RWorkflowStatus (Some run_id) (Some progress) "workflow progress loaded")
      | Err err =>
          match from_option id err (missing_run_for_io run_id err) with
          | UnknownRunId _ =>
              mret (RWorkflowStatus (Some run_id) None
                ("workflow run `" +:+ run_id +:+ "` was not found"))
          | other => throw other
          end
      end
  end.

Definition route_selector_action (request : SelectorRequest) (r : SelectorResult)
    (ctx : RouteContext) : IO run_store OrchestratorError (option RoutedSelectorAction) :=
  validated ← lift (parse_and_validate_selector_result decode_selector_result
                      (encode_selector_result r) request);
  action ← lift (ok_or (SelectorValidation "missing action") (sr_action validated));
  match action with
  | WorkflowStart => route_workflow_start request validated ctx
  | WorkflowStatus => Some <$> route_workflow_status ctx
  | CommandInvoke =>
      function_id ← lift (ok_or (SelectorValidation "missing functionId")
                           (sr_function_id validated));
      value ← invoke_with_context (rc_functions ctx) execute_function
        {| fc_function_id := function_id;
           fc_args := from_option id [] (sr_function_args validated) |}
        (Some (oc_id (rc_orchestrator ctx)));
      mret (Some (RCommandInvoke value))
  | NoResponse =>
      mret (Some (RNoResponse (from_option id "selector chose no_response"
                                 (sr_reason validated))))
  end.
End routing.
