(* ===== verification/TransitionGuarantees.v ===== *)
(** * What carrying out a decision guarantees

    Run ids are names that identify their time and sample; a started workflow has
    a new run that the engine brings to an end. *)
From S2P Require Import Prelude RustStr RustPath Io Json TypedFields Config OrchestratorFile OrchestratorError OutputContract RunStore WorkflowEngine EngineGuarantees Selector SelectorGuarantees Transitions.
From Stdlib Require Import Ascii.

Local Open Scope string_scope.
Local Open Scope list_scope.

(** ** Base 36 *)
Definition digit36_value (a : ascii) : Z :=
  let n := Z.of_N (byte_of a) in if decide (n < 58)%Z then n - 48 else n - 87.
Fixpoint value36 (acc : Z) (s : string) : Z :=
  match s with "" => acc | String a s => value36 (36 * acc + digit36_value a) s end.
Definition char36 (a : ascii) : bool := is_ascii_digit a || is_ascii_lower a.

Lemma base36_digit_spec n : (0 ≤ n < 36)%Z →
  digit36_value (base36_digit n) = n ∧ char36 (base36_digit n) = true.
Proof.
  intros Hn. assert (n ∈ seqZ 0 36) as Hin by (apply elem_of_seqZ; lia).
  clear Hn. revert n Hin. apply Forall_forall. apply (bool_decide_unpack _). by vm_compute.
Qed.

Lemma base36_loop_value fuel v chars : (0 ≤ v < 36 ^ Z.of_nat fuel)%Z →
  value36 0 (base36_loop fuel v chars) = value36 v chars
  ∧ (str_forall char36 chars = true → str_forall char36 (base36_loop fuel v chars) = true).
Proof.
  revert v chars. induction fuel as [|fuel IH]; intros v chars Hv.
  { simpl in *. by replace v with 0%Z by lia. }
  cbn [base36_loop]. destruct (bool_decide_reflect (0 < v)%Z).
  2:{ by replace v with 0%Z by lia. }
  rewrite Nat2Z.inj_succ, Z.pow_succ_r in Hv by lia.
  pose proof (Z.div_mod v 36 ltac:(lia)) as Hdm.
  pose proof (Z.mod_pos_bound v 36 ltac:(lia)) as Hmod.
  destruct (base36_digit_spec (v mod 36) Hmod) as [Hd Hc].
  destruct (IH (v / 36)%Z (String (base36_digit (v mod 36)) chars)) as [IH1 IH2].
  { split; [apply Z.div_pos; lia|apply Z.div_lt_upper_bound; lia]. }
  split.
  - rewrite IH1. simpl. rewrite Hd. f_equal. lia.
  - intros H. apply IH2. simpl. by rewrite Hc.
Qed.
Lemma base36_fixed_value width v chars : (0 ≤ v < 36 ^ Z.of_nat width)%Z →
  value36 0 (base36_fixed_loop width v chars) = value36 v chars
  ∧ (str_forall char36 chars = true → str_forall char36 (base36_fixed_loop width v chars) = true).
Proof.
  revert v chars. induction width as [|width IH]; intros v chars Hv.
  { simpl in *. by replace v with 0%Z by lia. }
  cbn [base36_fixed_loop].
  rewrite Nat2Z.inj_succ, Z.pow_succ_r in Hv by lia.
  pose proof (Z.div_mod v 36 ltac:(lia)) as Hdm.
  pose proof (Z.mod_pos_bound v 36 ltac:(lia)) as Hmod.
  destruct (base36_digit_spec (v mod 36) Hmod) as [Hd Hc].
  destruct (IH (v / 36)%Z (String (base36_digit (v mod 36)) chars)) as [IH1 IH2].
  { split; [apply Z.div_pos; lia|apply Z.div_lt_upper_bound; lia]. }
  split.
  - rewrite IH1. simpl. rewrite Hd. f_equal. lia.
  - intros H. apply IH2. simpl. by rewrite Hc.
Qed.

Lemma base36_encode_u64_value v : in_u64 v →
  value36 0 (base36_encode_u64 v) = v ∧ str_forall char36 (base36_encode_u64 v) = true.
Proof.
  intros Hv. unfold base36_encode_u64.
  destruct (bool_decide_reflect (v = 0%Z)) as [->|Hne]; [done|].
  destruct (base36_loop_value 13 v "") as [H1 H2]; [|by rewrite H1, H2].
  unfold_widths. change (36 ^ Z.of_nat 13)%Z with 170581728179578208256%Z. lia.
Qed.
Lemma base36_suffix_value v : (0 ≤ v < RUN_SUFFIX_SPACE)%Z →
  value36 0 (base36_encode_fixed_u32 v 4) = v
  ∧ str_forall char36 (base36_encode_fixed_u32 v 4) = true.
Proof.
  intros Hv. unfold base36_encode_fixed_u32.
  destruct (base36_fixed_value 4 v "") as [H1 H2]; [done|]. by rewrite H1, H2.
Qed.

(** ** Run ids *)
Lemma run_id_shape sample now id :
  (now ≤ i64_max)%Z → generate_compact_run_id (Ok sample) now = Ok id →
  ∃ ts suffix, id = "run-" +:+ ts +:+ String "-" ("" +:+ suffix)
    ∧ str_forall char36 ts = true ∧ str_forall char36 suffix = true
    ∧ value36 0 ts = now ∧ value36 0 suffix = (sample mod RUN_SUFFIX_SPACE)%Z.
Proof.
  intros Hmax. unfold generate_compact_run_id.
  intros ([] & Hn%reject_if_Ok & (b & [= <-] & [= <-])%bind_Ok)%bind_Ok.
  apply bool_decide_eq_false in Hn.
  destruct (base36_encode_u64_value now) as [Ht1 Ht2]; [by unfold_widths; lia|].
  destruct (base36_suffix_value (sample mod RUN_SUFFIX_SPACE)) as [Hs1 Hs2];
    [apply Z.mod_pos_bound; done|].
  eexists _, _. split; [reflexivity|]. done.
Qed.
Lemma char36_no_dash s : str_forall char36 s = true →
  str_forall (λ b, negb (Ascii.eqb "-" b)) s = true.
Proof. apply str_forall_impl. intros a. destruct a as [[] [] [] [] [] [] [] []]; done. Qed.

(** A run id names its run: it is a plain file name (so a run's record and
    directory stay inside the runs directory), and it determines the second the
    run was started in and the random sample, so that ids of different seconds or
    samples never collide. *)
Theorem run_ids_identify_runs (sample sample' now now' : Z) (id : string)
    (Hnow : (now ≤ i64_max)%Z) (Hnow' : (now' ≤ i64_max)%Z)
    (H : generate_compact_run_id (Ok sample) now = Ok id)
    (H' : generate_compact_run_id (Ok sample') now' = Ok id) :
  plain_name id = true ∧ plain_name (id +:+ ".json") = true
  ∧ now = now' ∧ (sample mod RUN_SUFFIX_SPACE = sample' mod RUN_SUFFIX_SPACE)%Z.
Proof.
  apply run_id_shape in H as (ts & suffix & -> & Ht & Hs & Hvt & Hvs); [|done].
  apply run_id_shape in H' as (ts' & suffix' & Heq & Ht' & Hs' & Hvt' & Hvs'); [|done].
  assert (∀ s, str_forall char36 s = true → str_forall not_slash s = true) as Hsl.
  { intros s. apply str_forall_impl. intros a. destruct a as [[] [] [] [] [] [] [] []]; done. }
  assert (str_forall not_slash ("run-" +:+ ts +:+ String "-" ("" +:+ suffix)) = true) as Hns.
  { rewrite !str_forall_app. simpl. by rewrite !Hsl. }
  split; [by apply plain_name_spec|]. split.
  { apply plain_name_spec. rewrite str_forall_app, Hns. done. }
  apply (inj (String.append "run-")) in Heq.
  pose proof (cut_app_not_in "" "-" ts suffix (char36_no_dash _ Ht)) as Hc.
  pose proof (cut_app_not_in "" "-" ts' suffix' (char36_no_dash _ Ht')) as Hc'.
  change (String "-" ("" +:+ suffix)) with (String "-" "" +:+ suffix) in Heq.
  change (String "-" ("" +:+ suffix')) with (String "-" "" +:+ suffix') in Heq.
  rewrite Heq in Hc. rewrite Hc' in Hc. injection Hc as -> ->. split; congruence.
Qed.
Lemma run_ids_identify_runs_witness :
  generate_compact_run_id (Ok 1679617%Z) 1700000000 = Ok "run-s44we8-0001"
  ∧ plain_name "run-s44we8-0001" = true.
Proof.
  split; [vm_compute; reflexivity|].
  exact (proj1 (run_ids_identify_runs 1679617 1 1700000000 1700000000 "run-s44we8-0001"
    ltac:(vm_compute; discriminate) ltac:(vm_compute; discriminate)
    ltac:(vm_compute; reflexivity) ltac:(vm_compute; reflexivity))).
Defined.

(** ** Starting a workflow *)
Section start_workflow.
Context `{StepExecutorLaws}.
Context (root : string).
Context (decode : string → result string SelectorResult) (encode : SelectorResult → string).
Context (execute_function : string → JMap → option string →
           IO run_store OrchestratorError Value).
Context (sample : nat → result string Z).

Lemma wp_allocate remaining i next (Φ : result OrchestratorError string → run_store → Prop) s :
  (∀ e, Φ (Err e) s) →
  (∀ id, rs_runs s !! run_metadata_path root id = None → Φ (Ok id) s) →
  wp false (allocate_loop root remaining i next) Φ s.
Proof.
  intros He Ho. revert i. induction remaining as [|remaining IH]; intros i; [by apply wp_throw|].
  cbn [allocate_loop]. apply wp_bind, wp_lift. destruct (next i) as [id|e]; [|done].
  apply wp_bind, wp_get. destruct (bool_decide_reflect (is_Some (rs_runs s !! run_metadata_path root id)))
    as [Hs|Hs]; [apply IH|]. apply wp_ret, Ho. by apply eq_None_not_Some.
Qed.

Lemma wp_create_run id workflow_id md inputs now
    (Φ : result OrchestratorError WorkflowRunRecord → run_store → Prop) s :
  (∀ e s', Φ (Err e) s') →
  (∀ run s', rs_runs s' !! run_metadata_path root id = Some (Parsed run) →
     wr_run_id run = id → wr_workflow_id run = workflow_id → wr_state run = Queued →
     wr_total_iterations run = 0%Z → wr_current_attempt run = None → Φ (Ok run) s') →
  wp false (create_run_with_metadata root id workflow_id md inputs now) Φ s.
Proof.
  intros He Ho. apply wp_bind, wp_persist_run; [intros _ e; apply He|].
  apply wp_bind, wp_persist_progress; [intros _ e; apply He|].
  intros s' Hs'. apply wp_ret, Ho; try done. rewrite Hs'. simpl. by rewrite lookup_insert, decide_True.
Qed.

Lemma wp_start_new orchestrator id now run s :
  u32_config orchestrator → rs_runs s !! run_metadata_path root id = Some (Parsed run) →
  wr_run_id run = id → wr_state run = Queued → wr_total_iterations run = 0%Z →
  wr_current_attempt run = None →
  wp false (start root orchestrator id now) (λ r s', r ≠ Ok None ∧ ∀ run', r = Ok (Some run') →
    rs_runs s' !! run_metadata_path root id = Some (Parsed run')
    ∧ wr_state run' = Succeeded ∧ wr_workflow_id run' = wr_workflow_id run) s.
Proof.
  intros Hc Hfile Hid Hst Htot Hatt e _.
  assert (stored_run root id s run) as Hr.
  { split; [done|done|rewrite Htot; by unfold_widths|by rewrite Hatt]. }
  destruct (engine_concludes root orchestrator false id now (World s e) run Hc Hr ltac:(done))
    as [H1 _].
  destruct (start root orchestrator id now (World s e)) as [w' r].
  destruct H1 as [Hd Hres]. split; [done|]. split; [by intros ->|].
  intros run' ->. destruct Hres as (Hdisk & _ & Hsucc). unfold disk_run in Hdisk.
  destruct (rs_runs (st w') !! _) as [[r'|]|] eqn:Er; [|done..]. injection Hdisk as ->.
  split; [done|]. split; [|by apply Hd in Er as (_ & ? & _)].
  apply Hsucc. unfold starts. rewrite Hst. done.
Qed.

Lemma wp_attempt_log line s :
  wp false (append_security_log root line) (λ r _, r = Ok ()) s.
Proof.
  apply wp_bind, wp_attempt, wp_bind. apply wp_sys; [intros _ e; by apply wp_ret|].
  apply wp_sys; [intros _ e|]; by apply wp_ret.
Qed.

(** What starting a workflow ends with. *)
Definition start_outcome (r : SelectorResult) (ctx : RouteContext) (s : run_store)
    (outcome : result OrchestratorError (option RoutedSelectorAction)) (s' : run_store) : Prop :=
  outcome ≠ Ok None ∧ ∀ action, outcome = Ok (Some action) → ∃ id workflow_id run,
    action = RWorkflowStart id workflow_id ∧ sr_selected_workflow r = Some workflow_id
    ∧ workflow_id ∈ (wf_id <$> oc_workflows (rc_orchestrator ctx))
    ∧ rs_runs s !! run_metadata_path root id = None
    ∧ rs_runs s' !! run_metadata_path root id = Some (Parsed run)
    ∧ wr_state run = Succeeded ∧ wr_workflow_id run = workflow_id.
Lemma start_outcome_err r ctx s e s' : start_outcome r ctx s (Err e) s'.
Proof. by split. Qed.
Lemma wp_deny r ctx s0 parts e s :
  wp false (deny (A := option RoutedSelectorAction) root parts e) (start_outcome r ctx s0) s.
Proof.
  apply wp_bind. eapply wp_mono; [apply wp_attempt_log|].
  intros ? s' ->. apply wp_throw, start_outcome_err.
Qed.

Lemma wp_route_workflow_start request r ctx s :
  u32_config (rc_orchestrator ctx) →
  wp false (route_workflow_start root sample request r ctx) (start_outcome r ctx s) s.
Proof.
  intros Hconfig. unfold route_workflow_start. apply wp_bind, wp_lift.
  destruct (sr_selected_workflow r) as [wid|] eqn:Ew; [|apply start_outcome_err]. simpl.
  destruct (existsb _ _) eqn:Ex; [|apply wp_deny]. simpl.
  apply existsb_exists in Ex as (wf & Hin%list_elem_of_In & Heq%String.eqb_eq).
  apply wp_bind, wp_allocate; [intros e; apply start_outcome_err|]. intros id Hfree.
  destruct (validate_selected_workflow_output_paths root id _ _); [|apply wp_deny].
  apply wp_bind, wp_create_run; [intros e s'; apply start_outcome_err|].
  intros run s1 Hrun Hid Hwid Hst Htot Hatt. apply wp_bind.
  eapply wp_mono; [by eapply wp_start_new|].
  intros [started|e] s2 [Hnone Hdone]; [|apply start_outcome_err]. apply wp_ret.
  destruct started as [run'|]; [|done]. split; [done|]. intros action [= <-].
  destruct (Hdone run' eq_refl) as (Hr' & Hs' & Hw').
  exists id, wid, run'. split; [done|]. split; [done|].
  split; [rewrite <- Heq; by apply list_elem_of_fmap_2|]. rewrite Hw'. done.
Qed.

End start_workflow.

(** A decision to start the only workflow, and a step that succeeds at once. *)
Definition demo_start : SelectorResult := {|
  sr_selector_id := "sel-1"; sr_status := Selected; sr_action := Some WorkflowStart;
  sr_selected_workflow := Some "w"; sr_function_id := None; sr_function_args := None;
  sr_reason := None |}.
Definition demo_context : RouteContext := {|
  rc_status_input := {| si_explicit_run_id := None; si_inbound_workflow_run_id := None;
                        si_channel_profile_id := None; si_conversation_id := None |};
  rc_active_conversation_runs := ∅; rc_functions := registry_new [] [];
  rc_orchestrator := demo_config; rc_source_message_id := None; rc_workflow_inputs := None;
  rc_now := 1700000000 |}.
Definition succeeding_executor : StepExecutor :=
  demo_executor (λ _, Ok {| se_outputs := []; se_output_files := []; se_next_step_id := None |}).
Definition demo_route : IO run_store OrchestratorError (option RoutedSelectorAction) :=
  @route_selector_action succeeding_executor "/state" (λ _, Ok demo_start) (λ _, "start")
    (λ _ _ _, throw (UnknownFunction "")) (λ i, Ok (Z.of_nat i)) (demo_request "hello") demo_start
    demo_context.
Lemma demo_config_u32 : u32_config demo_config.
Proof.
  split.
  - intros w ->%list_elem_of_singleton. by unfold_widths.
  - intros w step ->%list_elem_of_singleton ->%list_elem_of_singleton. by unfold_widths.
Qed.
