(* ===== verification/RunReplies.v ===== *)
(** * Replies to the user

    The second half of [src/src/runtime/queue_worker.rs]: the texts the queue
    worker sends back for a routed message, from the records of the run store, and
    the note that a message has been given up. *)
From S2P Require Import Prelude RustStr RustPath Io Json OrchestratorError RunStore Selector Transitions.
From Stdlib Require Import Ascii.

Local Open Scope string_scope.
Local Open Scope list_scope.

(** ** Text *)
Definition nl_char : ascii := ascii_of_nat 10.
(** [text.split_whitespace()]: the maximal pieces without white space; [word] is
    the piece being read, reversed. *)
Definition end_word (word : string) (words : list string) : list string :=
  if is_empty word then words else String.rev word :: words.
Fixpoint split_whitespace_from (word : string) (s : string) : list string :=
  match s with
  | "" => end_word word []
  | String a s1 =>
      if ws1 a then end_word word (split_whitespace_from "" s1) else
      match s1 with
      | String b s2 =>
          if ws2 a b then end_word word (split_whitespace_from "" s2) else
          match s2 with
          | String c s3 =>
              if ws3 a b c then end_word word (split_whitespace_from "" s3)
              else split_whitespace_from (String a word) s1
          | "" => split_whitespace_from (String a word) s1
          end
      | "" => split_whitespace_from (String a word) s1
      end
  end.
Definition split_whitespace (s : string) : list string := split_whitespace_from "" s.

Definition flatten_and_limit (text : string) (max_chars : nat) : string :=
  let flattened := trim (join " " (split_whitespace text)) in
  if (chars_count flattened <=? max_chars)%nat then flattened else chars_take max_chars flattened.

(** [Vec::dedup] of a sorted vector. *)
Fixpoint dedup (xs : list string) : list string :=
  match xs with
  | x :: ((y :: _) as rest) => if String.eqb x y then dedup rest else x :: dedup rest
  | _ => xs
  end.
Definition non_empty_or (default : string) (o : option string) : string :=
  match o with Some s => if is_empty (trim s) then default else s | None => default end.

(** ** Labelled values *)
Definition OUTPUT_LABEL_KEYS : list string :=
  ["status"; "summary"; "artifact"; "decision"; "feedback"; "plan"; "result"].

(** The positions of a token in a text, [base] bytes further; one token is never
    empty, so the length of the text is fuel enough. *)
Fixpoint token_positions (fuel : nat) (token : string) (base : nat) (s : string) : list nat :=
  match fuel with
  | O => []
  | S fuel =>
      match cut token s with
      | None => []
      | Some (before, after) =>
          let idx := base + String.length before in
          idx :: token_positions fuel token (idx + String.length token) after
      end
  end.
Definition label := (nat * nat * string)%type.
Definition label_le (a b : label) : Prop := (a.1.1 ≤ b.1.1)%nat.
#[export] Instance label_le_dec : RelDecision label_le.
Proof. intros a b. unfold label_le. apply _. Defined.
Definition labels_of (lowered : string) : list label :=
  merge_sort label_le
    (OUTPUT_LABEL_KEYS ≫= λ key,
       (λ idx, (idx, String.length (key +:+ ":"), key)) <$>
         token_positions (S (String.length lowered)) (key +:+ ":") 0 lowered).
(** [labels.iter().find_map(|(next, ..)| (next > idx).then_some(next))] *)
Definition next_label (labels : list label) (idx : nat) : option nat :=
  (λ l : label, l.1.1) <$> List.find (λ l : label, (idx <? l.1.1)%nat) labels.

Fixpoint labelled_value (trimmed wanted : string) (labels rest : list label) : option string :=
  match rest with
  | [] => None
  | (idx, token_len, key) :: rest =>
      let start := idx + token_len in
      let stop := from_option id (String.length trimmed) (next_label labels idx) in
      let candidate := trim (String.substring start (stop - start) trimmed) in
      if negb (String.eqb key wanted) || (stop <=? start)%nat
         || (String.length trimmed <? stop)%nat || is_empty candidate
      then labelled_value trimmed wanted labels rest
      else Some candidate
  end.
Definition extract_output_label_value (text wanted : string) : option string :=
  let trimmed := trim text in
  if is_empty trimmed then None
  else let labels := labels_of (to_ascii_lowercase trimmed) in
       labelled_value trimmed wanted labels labels.

Section replies.
(** [serde_json::to_string] and [to_string_pretty]. *)
Context (json_to_string json_to_string_pretty : Value → string).
Context (state_root : string).

Definition output_value_text (value : Value) : option string :=
  match value with
  | VNull => None
  | VString text => let trimmed := trim text in
                    if is_empty trimmed then None else Some trimmed
  | other => let text := json_to_string other in
             if is_empty (trim text) then None else Some text
  end.
Definition output_value_for_label (value : Value) (wanted : string) : option string :=
  text ← output_value_text value; Some (from_option id text (extract_output_label_value text wanted)).

Definition final_output_priority (configured : list string) : list string :=
  match configured with [] => ["artifact"; "summary"] | _ => configured end.
Fixpoint select_final_output_message (outputs : JMap) (priority : list string) : option string :=
  match priority with
  | [] => None
  | key :: priority =>
      match (value ← map_get key outputs; output_value_for_label value key) with
      | Some message => Some message
      | None => select_final_output_message outputs priority
      end
  end.

(** ** The attempts of a run

    The files [steps/*/attempts/*/result.json] of the run, in the order the
    directories list them.  A directory or file that cannot be read is skipped. *)
Definition is_attempt_path (run_id path : string) : bool :=
  let base := components (run_dir state_root run_id) in
  components_prefix base (components path)
  && match drop (length base) (components path) with
     | [Normal steps; Normal _; Normal attempts; Normal _; Normal result] =>
         String.eqb steps "steps" && String.eqb attempts "attempts"
         && String.eqb result "result.json"
     | _ => false
     end.
Definition attempt_paths (run_id : string) (s : run_store) : list string :=
  filter (λ path, is_attempt_path run_id path = true) (map_to_list (rs_attempts s)).*1.

Fixpoint read_attempts {E} (paths : list string) : IO run_store E (list StepAttemptRecord) :=
  match paths with
  | [] => mret []
  | path :: paths =>
      raw ← attempt (sys (read_file rs_attempts path));
      records ← read_attempts paths;
      mret (match raw with Ok (Parsed record) => record :: records | _ => records end)
  end.
Definition scan_attempts {E} (run_id : string) : IO run_store E (list StepAttemptRecord) :=
  paths ← attempt (sys (λ s, (s, Ok (attempt_paths run_id s))));
  match paths with Ok paths => read_attempts paths | Err _ => mret [] end.

Definition attempt_le (a b : StepAttemptRecord) : Prop :=
  (sa_started_at a < sa_started_at b)%Z
  ∨ (sa_started_at a = sa_started_at b
     ∧ ((sa_ended_at a < sa_ended_at b)%Z
        ∨ (sa_ended_at a = sa_ended_at b
           ∧ ((String.le (sa_step_id a) (sa_step_id b) ∧ sa_step_id a ≠ sa_step_id b)
              ∨ (sa_step_id a = sa_step_id b ∧ (sa_attempt a ≤ sa_attempt b)%Z))))).
#[export] Instance attempt_le_dec : RelDecision attempt_le.
Proof. intros a b. unfold attempt_le. apply _. Defined.

Definition step_attempts_by_time {E} (run_id : string) : IO run_store E (list StepAttemptRecord) :=
  merge_sort attempt_le <$> scan_attempts run_id.

Definition later_success (latest : option StepAttemptRecord) (record : StepAttemptRecord) :
    option StepAttemptRecord :=
  if String.eqb (sa_state record) "succeeded"
     && match latest with
        | Some current => bool_decide (sa_ended_at current < sa_ended_at record)%Z
        | None => true
        end
  then Some record else latest.
Definition latest_succeeded_attempt {E} (run_id : string) :
    IO run_store E (option StepAttemptRecord) :=
  foldl later_success None <$> scan_attempts run_id.

(** ** The reply of a run *)
Definition final_outputs (a : StepAttemptRecord) : option string :=
  select_final_output_message (sa_outputs a) (final_output_priority (sa_final_output_priority a)).

Definition final_user_message {E} (run_id : string) (last_attempt : option StepAttemptRecord) :
    IO run_store E string :=
  run ← attempt (load_run state_root run_id);
  let succeeded := match last_attempt with
    | Some a => if String.eqb (sa_state a) "succeeded" then Some a else None
    | None => None end in
  match succeeded with
  | Some a => mret (from_option id "workflow completed" (final_outputs a))
  | None =>
      let ended := match run with
        | Ok run =>
            if decide (wr_state run = Canceled) then
              Some (from_option id "workflow canceled" (wr_terminal_reason run))
            else if decide (wr_state run = OrchestratorError.Failed) then
              Some (from_option id "workflow failed" (wr_terminal_reason run))
            else None
        | Err _ => None
        end in
      match ended with
      | Some message => mret message
      | None =>
          a ← latest_succeeded_attempt run_id;
          match (a ← a; match final_outputs a with
                        | Some message => Some message
                        | None => value ← map_get "summary" (sa_outputs a);
                                  output_value_for_label value "summary"
                        end) with
          | Some message => mret message
          | None =>
              progress ← attempt (load_progress state_root run_id);
              mret (non_empty_or "workflow update unavailable"
                (match progress with Ok p => Some (pr_summary p) | Err _ => None end))
          end
      end
  end.

Definition lifecycle_message (a : StepAttemptRecord) : option (string * string) :=
  if String.eqb (sa_state a) "failed_retryable" then
    Some ("Step `" +:+ sa_step_id a +:+ "` failed on attempt " +:+ fmt_int (sa_attempt a)
          +:+ ". Retrying.", "orchestrator")
  else if String.eqb (sa_state a) "failed" then
    Some ("Step `" +:+ sa_step_id a +:+ "` failed on attempt " +:+ fmt_int (sa_attempt a)
          +:+ ": " +:+ non_empty_or "unknown error" (sa_error a), "orchestrator")
  else None.

Definition workflow_lifecycle_messages {E} (run_id : string) :
    IO run_store E (list (string * string)) :=
  attempts ← step_attempts_by_time run_id;
  match attempts with
  | [] => mret [(String.concat "" ["workflow started"; String nl_char ""; "run_id="; run_id],
                 "orchestrator")]
  | _ =>
      final ← final_user_message run_id (last attempts);
      mret (omap lifecycle_message attempts ++ [(final, "orchestrator")])
  end.

Definition action_to_outbound_messages {E} (action : RoutedSelectorAction) :
    IO run_store E (list (string * string)) :=
  match action with
  | RWorkflowStart run_id _ => workflow_lifecycle_messages run_id
  | RWorkflowStatus run_id progress message =>
      match progress with
      | Some progress =>
          let nl := String nl_char "" in
          mret [(message +:+ nl +:+ "run_id=" +:+ from_option id "none" run_id
                 +:+ nl +:+ "state=" +:+ RunState_display (pr_state progress), "orchestrator")]
      | None => mret [(message, "orchestrator")]
      end
  | RCommandInvoke result => mret [(json_to_string_pretty result, "command")]
  | RNoResponse _ => mret []
  end.

(** ** The note of a dead letter *)
Definition format_failed_step (a : StepAttemptRecord) : string :=
  let base := sa_step_id a +:+ "#" +:+ fmt_int (sa_attempt a) in
  match sa_error a with
  | Some error => if is_empty (trim error) then base
                  else base +:+ ": " +:+ flatten_and_limit error 140
  | None => base
  end.
Definition sorted_or_none (entries : list string) : string :=
  match dedup (merge_sort String.le entries) with
  | [] => "none recorded"
  | entries => join ", " entries
  end.
Definition render_dead_letter_failure_message (run : option WorkflowRunRecord)
    (attempts : list StepAttemptRecord) (failure_attempt : Z) (queue_error : string) : string :=
  let nl := String nl_char "" in
  let reason := non_empty_or queue_error (run ≫= wr_terminal_reason) in
  let succeeded := (λ a, sa_step_id a +:+ "#" +:+ fmt_int (sa_attempt a)) <$>
    filter (λ a, String.eqb (sa_state a) "succeeded" = true) attempts in
  let failed := format_failed_step <$>
    filter (λ a, starts_with "failed" (sa_state a) = true) attempts in
  String.concat "" ["Workflow failed."; nl; "run_id=";
    from_option wr_run_id "unknown" run; nl; "failed_queue_attempt="; fmt_int failure_attempt; nl;
    "succeeded steps: "; sorted_or_none succeeded; nl;
    "failed steps: "; sorted_or_none failed; nl;
    "reason: "; flatten_and_limit reason 500].
End replies.
