(* ===== verification/Conversation.v ===== *)
(** * Conversation context

    [src/src/orchestration/conversation_context.rs]: the log of turns of every
    conversation and the recent part of it a selector request carries.  A file is
    the list of its lines, each a turn or a line that does not decode. *)
From S2P Require Import Prelude RustStr RustPath Io Json OrchestratorError RunStore.
From Stdlib Require Import Ascii.

Local Open Scope string_scope.
Local Open Scope list_scope.

Record ThreadContextLimits := { tl_max_turns : nat; tl_max_chars : nat }.
Definition ThreadContextLimits_default : ThreadContextLimits :=
  {| tl_max_turns := 8; tl_max_chars := 6000 |}.

Inductive TurnDirection := Inbound | Outbound.
Record TurnRecord := {
  tu_timestamp : Z;
  tu_direction : TurnDirection;
  tu_sender_id : string;
  tu_message : string;
  tu_message_id : string;
  tu_agent : option string;
  tu_workflow_run_id : option string;
  tu_workflow_step_id : option string;
}.

(** The conversation files by path. *)
Definition conversations : Type := gmap string (list (stored TurnRecord)).

Definition context_char (ch : ascii) : bool :=
  is_ascii_alphanumeric ch || Ascii.eqb ch "-" || Ascii.eqb ch "_" || Ascii.eqb ch ".".
Definition sanitize_component (raw : string) : string :=
  let out := map_chars_else context_char "_" raw in
  if is_empty out then "_" else out.

Section turns.
Context (state_root : string).

Definition context_path (channel_profile_id conversation_id : string) : string :=
  path_join (path_join (path_join state_root "orchestrator/conversations")
               (sanitize_component channel_profile_id))
    (sanitize_component conversation_id +:+ ".jsonl").

Definition push_turn (path : string) (turn : TurnRecord) (s : conversations) :
    conversations * result io_error () :=
  (<[path := from_option id [] (s !! path) ++ [Parsed turn]]> s, Ok ()).
Definition append_turn (channel_profile_id conversation_id : string) (turn : TurnRecord) :
    IO conversations io_error () :=
  let path := context_path channel_profile_id conversation_id in
  match path_parent path with
  | Some parent => sys (create_dir_all parent)
  | None => mret ()
  end ;;
  sys (push_turn path turn).

Definition append_inbound_turn (channel_profile_id conversation_id message_id : string)
    (timestamp : Z) (sender_id message : string) : IO conversations io_error () :=
  if is_empty (trim message) then mret () else
  append_turn channel_profile_id conversation_id {|
    tu_timestamp := timestamp; tu_direction := Inbound; tu_sender_id := sender_id;
    tu_message := message; tu_message_id := message_id; tu_agent := None;
    tu_workflow_run_id := None; tu_workflow_step_id := None |}.
Definition append_outbound_turn (channel_profile_id conversation_id message_id : string)
    (timestamp : Z) (agent message : string) (workflow_run_id workflow_step_id : option string) :
    IO conversations io_error () :=
  if is_empty (trim message) then mret () else
  append_turn channel_profile_id conversation_id {|
    tu_timestamp := timestamp; tu_direction := Outbound; tu_sender_id := "assistant";
    tu_message := message; tu_message_id := message_id; tu_agent := Some agent;
    tu_workflow_run_id := workflow_run_id; tu_workflow_step_id := workflow_step_id |}.

Definition render_turn (turn : TurnRecord) : string :=
  let who := match tu_direction turn with Inbound => "user" | Outbound => "assistant" end in
  let tagged (name : string) (value : option string) :=
    match value with Some v => " (" +:+ name +:+ "=" +:+ v +:+ ")" | None => "" end in
  "[" +:+ who +:+ "] " +:+ trim (tu_message turn)
  +:+ tagged "run_id" (tu_workflow_run_id turn) +:+ tagged "step_id" (tu_workflow_step_id turn).

Definition turn_le (a b : TurnRecord) : Prop :=
  (tu_timestamp a < tu_timestamp b)%Z
  ∨ (tu_timestamp a = tu_timestamp b ∧ String.le (tu_message_id a) (tu_message_id b)).
#[export] Instance turn_le_dec : RelDecision turn_le.
Proof. intros a b. unfold turn_le. apply _. Defined.

(** The loop over the turns from the newest on; [used] counts characters. *)
Fixpoint select_lines (max_chars : nat) (newest_first : list string) (selected : list string)
    (used : nat) : list string :=
  match newest_first with
  | [] => selected
  | line :: newest_first =>
      let line_len := chars_count line in
      let sep := if is_nil selected then 0 else 1 in
      if (max_chars <? used + sep + line_len)%nat then selected
      else select_lines max_chars newest_first (selected ++ [line]) (used + sep + line_len)
  end.
Definition recent (max_turns : nat) (turns : list TurnRecord) : list TurnRecord :=
  drop (length turns - max_turns) turns.

Definition line_break : string := String (ascii_of_nat 10) "".
Definition render_recent (limits : ThreadContextLimits) (turns : list TurnRecord) : option string :=
  let lines := select_lines (tl_max_chars limits)
    (render_turn <$> reverse (recent (tl_max_turns limits) (merge_sort turn_le turns))) [] 0 in
  match reverse lines with [] => None | lines => Some (join line_break lines) end.

Definition parsed_turns (lines : list (stored TurnRecord)) : list TurnRecord :=
  omap (λ line, match line with Parsed turn => Some turn | Corrupt _ => None end) lines.
Definition render_recent_thread_context (channel_profile_id conversation_id : string)
    (limits : ThreadContextLimits) : IO conversations io_error (option string) :=
  if Nat.eqb (tl_max_turns limits) 0 || Nat.eqb (tl_max_chars limits) 0 then mret None else
  file ← attempt (sys (λ s, (s, ok_or not_found (s !! context_path channel_profile_id conversation_id))));
  match file with
  | Ok lines => mret (render_recent limits (parsed_turns lines))
  | Err err => if decide (ioe_kind err = NotFound) then mret None else throw err
  end.
End turns.
