(* ===== verification/Routing.v ===== *)
(** * Routing a message

    [src/src/orchestration/routing.rs] and [selector_artifacts.rs]: from a claimed
    message to the action taken for it.  A [runtime] is what the program keeps
    under the runtime root of one orchestrator, a [machine] the runtime of every
    root.  The memory service and the local model are interfaces
    ([MemoryService], [LocalModel]): routing uses what they answer and carries on
    without them. *)
From S2P Require Import Prelude RustStr RustPath Io Json QueueMessage QueueLifecycle Config OrchestratorFile OrchestratorError WorkspaceAccess RunStore WorkflowEngine SlackTarget Scheduler Selector Transitions Conversation.
From Stdlib Require Import Ascii.

Local Open Scope string_scope.
Local Open Scope list_scope.

(** ** The files under a runtime root *)
Inductive artifact :=
  | ArtifactMessage (inbound : IncomingMessage)
  | ArtifactRequest (request : SelectorRequest)
  | ArtifactResult (r : SelectorResult).

(** Run records, scheduler files, conversation logs, selector artifacts by path
    and queue directories live in different directories. *)
Record runtime := {
  rt_runs : run_store;
  rt_sched : sched_fs;
  rt_turns : conversations;
  rt_artifacts : gmap string artifact;
  rt_queue : queue_fs;
}.
Definition set_runs (s : run_store) (r : runtime) : runtime :=
  {| rt_runs := s; rt_sched := rt_sched r; rt_turns := rt_turns r;
     rt_artifacts := rt_artifacts r; rt_queue := rt_queue r |}.
Definition set_sched (s : sched_fs) (r : runtime) : runtime :=
  {| rt_runs := rt_runs r; rt_sched := s; rt_turns := rt_turns r;
     rt_artifacts := rt_artifacts r; rt_queue := rt_queue r |}.
Definition set_turns (s : conversations) (r : runtime) : runtime :=
  {| rt_runs := rt_runs r; rt_sched := rt_sched r; rt_turns := s;
     rt_artifacts := rt_artifacts r; rt_queue := rt_queue r |}.
Definition set_artifacts (s : gmap string artifact) (r : runtime) : runtime :=
  {| rt_runs := rt_runs r; rt_sched := rt_sched r; rt_turns := rt_turns r;
     rt_artifacts := s; rt_queue := rt_queue r |}.
Definition set_queue (s : queue_fs) (r : runtime) : runtime :=
  {| rt_runs := rt_runs r; rt_sched := rt_sched r; rt_turns := rt_turns r;
     rt_artifacts := rt_artifacts r; rt_queue := s |}.
Definition on_runs {E A} : IO run_store E A → IO runtime E A := zoom rt_runs set_runs.
Definition on_sched {E A} : IO sched_fs E A → IO runtime E A := zoom rt_sched set_sched.
Definition on_turns {E A} : IO conversations E A → IO runtime E A := zoom rt_turns set_turns.
Definition on_artifacts {E A} : IO (gmap string artifact) E A → IO runtime E A :=
  zoom rt_artifacts set_artifacts.
Definition on_queue {E A} : IO queue_fs E A → IO runtime E A := zoom rt_queue set_queue.

Definition machine : Type := string → runtime.
Definition set_runtime (root : string) (r : runtime) (m : machine) : machine :=
  λ other, if decide (other = root) then r else m other.
Definition at_root {E A} (root : string) : IO runtime E A → IO machine E A :=
  zoom (λ m, m root) (set_runtime root).

(** ** [SelectorArtifactStore] *)
Section artifacts.
Context (state_root : string).

Definition artifact_path (prefix id : string) : string :=
  path_join (path_join state_root "orchestrator/artifacts") (prefix +:+ id +:+ ".json").
Definition put_artifact (path : string) (value : artifact) (s : gmap string artifact) :
    gmap string artifact * result io_error () := (<[path := value]> s, Ok ()).
(** [create_dir_all] of the parent, then the write. *)
Definition write_artifact (path : string) (value : artifact) :
    IO (gmap string artifact) OrchestratorError string :=
  match path_parent path with
  | Some parent => io_map_err (IoErr parent) (sys (create_dir_all parent))
  | None => mret ()
  end ;;
  io_map_err (IoErr path) (sys (put_artifact path value)) ;;
  mret path.
Definition persist_message_snapshot (inbound : IncomingMessage) :=
  write_artifact (artifact_path "message-" (im_message_id inbound)) (ArtifactMessage inbound).
Definition persist_selector_request (request : SelectorRequest) :=
  write_artifact (artifact_path "selector-request-" (rq_selector_id request))
    (ArtifactRequest request).
Definition persist_selector_result (r : SelectorResult) :=
  write_artifact (artifact_path "selector-result-" (sr_selector_id r)) (ArtifactResult r).

Definition rename_artifact (from to : string) (s : gmap string artifact) :
    gmap string artifact * result io_error () :=
  match s !! from with
  | Some value => (<[to := value]> (delete from s), Ok ())
  | None => (s, Err not_found)
  end.
Definition move_request_to_processing (selector_id : string) :
    IO (gmap string artifact) OrchestratorError string :=
  let incoming := artifact_path "selector-request-" selector_id in
  let processing := artifact_path "selector-processing-" selector_id in
  match path_parent processing with
  | Some parent => io_map_err (IoErr parent) (sys (create_dir_all parent))
  | None => mret ()
  end ;;
  io_map_err (IoErr incoming) (sys (rename_artifact incoming processing)) ;;
  mret processing.

(** The orchestrator log is kept with the run records. *)
Definition persist_selector_log (selector_id content : string) :
    IO run_store OrchestratorError () :=
  io_map_err (IoErr (orchestrator_log_path state_root))
    (match path_parent (orchestrator_log_path state_root) with
     | Some parent => sys (create_dir_all parent)
     | None => mret ()
     end ;;
     sys (append_log_line ("selector_id=" +:+ selector_id +:+ " " +:+ content))).
End artifacts.

(** ** Memory and the local model *)
Record MemoryBulletin := { mb_rendered : string; mb_citations : list string }.
Definition empty_bulletin : MemoryBulletin := {| mb_rendered := ""; mb_citations := [] |}.

(** What routing asks of the memory component: opening the repository of a
    runtime root with its schema, recording a message of a conversation (the
    arguments are the orchestrator, message and conversation ids, the text and
    the time), and the bulletin for a message ([top_n] and [rrf_k] last). *)
Class MemoryService := {
  open_repository : string → string → result string ();
  persist_transcript_observation : string → string → string → string → Z → result string ();
  generate_bulletin_for_message :
    string → IncomingMessage → WorkspaceAccessContext → Z → Z → result string MemoryBulletin;
}.
(** [local_runtime()]: the model, when one is loaded. *)
Record LocalModel := {
  preprocess_memory_bulletin :
    string → list string → LocalLlmConfig → result string (string * list string);
  preprocess_thread_context : string → LocalLlmConfig → result string string;
}.

Record PreprocessedLocalContext := {
  pc_thread_context : option string;
  pc_memory_bulletin_rendered : option string;
  pc_memory_bulletin_citations : list string;
}.

Section preprocessing.
Context (runtime_root message_id : string) (settings : Settings).
Local Abbreviation note parts :=
  (append_security_log runtime_root (String.concat "" parts)).

Definition preprocess_bulletin
    (preprocess_memory : string → list string → LocalLlmConfig → result string (string * list string))
    (c : PreprocessedLocalContext) : IO run_store OrchestratorError PreprocessedLocalContext :=
  if negb (llm_memory_bulletin_preprocess (s_local_llm settings)) then mret c else
  match pc_memory_bulletin_rendered c with
  | None => mret c
  | Some rendered =>
      match preprocess_memory rendered (pc_memory_bulletin_citations c) (s_local_llm settings) with
      | Ok (rendered, citations) =>
          mret {| pc_thread_context := pc_thread_context c;
                  pc_memory_bulletin_rendered := Some rendered;
                  pc_memory_bulletin_citations := citations |}
      | Err err =>
          note ["local llm memory bulletin preprocessing failed for message `"; message_id;
                "`: "; err] ;;
          mret c
      end
  end.
Definition preprocess_context
    (preprocess_thread : string → LocalLlmConfig → result string string)
    (c : PreprocessedLocalContext) : IO run_store OrchestratorError PreprocessedLocalContext :=
  if negb (llm_thread_context_preprocess (s_local_llm settings)) then mret c else
  match pc_thread_context c with
  | None => mret c
  | Some rendered =>
      match preprocess_thread rendered (s_local_llm settings) with
      | Ok processed =>
          mret {| pc_thread_context := Some processed;
                  pc_memory_bulletin_rendered := pc_memory_bulletin_rendered c;
                  pc_memory_bulletin_citations := pc_memory_bulletin_citations c |}
      | Err err =>
          note ["local llm thread context preprocessing failed for message `"; message_id;
                "`: "; err] ;;
          mret c
      end
  end.
Definition apply_local_llm_preprocessing_with
    (preprocess_memory : string → list string → LocalLlmConfig → result string (string * list string))
    (preprocess_thread : string → LocalLlmConfig → result string string)
    (c : PreprocessedLocalContext) : IO run_store OrchestratorError PreprocessedLocalContext :=
  if negb (llm_enabled (s_local_llm settings)) then mret c else
  c ← preprocess_bulletin preprocess_memory c;
  preprocess_context preprocess_thread c.
Definition apply_local_llm_preprocessing (local_runtime : option LocalModel)
    (c : PreprocessedLocalContext) : IO run_store OrchestratorError PreprocessedLocalContext :=
  match local_runtime with
  | None => mret c
  | Some model =>
      apply_local_llm_preprocessing_with (preprocess_memory_bulletin model)
        (preprocess_thread_context model) c
  end.
End preprocessing.

(** ** Routing *)
Section routing.
Context `{StepExecutor, MemoryService}.
Context (local_runtime : option LocalModel).
Context (canonicalize : string → result io_error string).
Context (from_path : string → result ConfigError OrchestratorConfig).
Context (decode_envelope : string → result string ScheduledTriggerEnvelope).
Context (json_to_string : Value → string).
Context (decode_selector_result : string → result string SelectorResult)
  (encode_selector_result : SelectorResult → string).
Context (execute_function : string → JMap → option string →
           IO run_store OrchestratorError Value).
Context (sample : nat → result string Z).
(** The caller's hook and, without an answer of it, the selector agent. *)
Context (next_attempt : SelectorRequest → OrchestratorConfig → Z →
           world run_store → world run_store * option string).
Context (settings : Settings).

Definition resolve_orchestrator_runtime_root (orchestrator_id : string) :
    result ConfigError string := resolve_private_workspace settings orchestrator_id.

Definition configured (orchestrator_id : string) : result OrchestratorError OrchestratorConfig :=
  map_err from_config_error (load_orchestrator_config from_path settings orchestrator_id).

(** [verify_orchestrator_workspace_access], with a log line for a refusal. *)
Definition verified (runtime_root orchestrator_id : string) (inbound : IncomingMessage) :
    IO runtime OrchestratorError WorkspaceAccessContext :=
  match verify_orchestrator_workspace_access canonicalize settings orchestrator_id with
  | Ok context => mret context
  | Err err =>
      on_runs (append_security_log runtime_root (String.concat "" [
        "workspace access denied for orchestrator `"; orchestrator_id; "` message `";
        im_message_id inbound; "`: "; error_display err])) ;;
      throw err
  end.

Definition is_status_command (inbound : IncomingMessage) : bool :=
  bool_decide (to_ascii_lowercase (trim (im_message inbound))
    ∈ ["status"; "progress"; "/status"; "/progress"]).

(** [.map_err(|e| missing_run_for_io(run_id, &e).unwrap_or(e))] and the match that
    answers a missing run with a message. *)
Definition or_not_found {A} (run_id : string) (m : IO run_store OrchestratorError A)
    (found : A → IO run_store OrchestratorError (option RoutedSelectorAction)) :
    IO run_store OrchestratorError (option RoutedSelectorAction) :=
  loaded ← attempt m;
  match loaded with
  | Ok a => found a
  | Err err =>
      match from_option id err (missing_run_for_io run_id err) with
      | UnknownRunId _ => mret (Some (RWorkflowStatus (Some run_id) None
          ("workflow run `" +:+ run_id +:+ "` was not found")))
      | other => throw other
      end
  end.

Definition resume_run (runtime_root : string) (orchestrator : OrchestratorConfig)
    (run_id : string) (now : Z) : IO run_store OrchestratorError (option RoutedSelectorAction) :=
  or_not_found run_id (WorkflowEngine.resume runtime_root orchestrator run_id now) (λ resumed,
    match resumed with
    | None => mret None
    | Some resumed =>
        or_not_found run_id (load_progress runtime_root run_id) (λ progress,
          mret (Some (RWorkflowStatus (Some (wr_run_id resumed)) (Some progress)
            "workflow progress loaded")))
    end).

(** A message that belongs to a run continues it. *)
Definition route_resume (runtime_root orchestrator_id : string) (inbound : IncomingMessage)
    (run_id : string) (now : Z) : IO runtime OrchestratorError (option RoutedSelectorAction) :=
  orchestrator ← lift (configured orchestrator_id);
  verified runtime_root orchestrator_id inbound ;;
  on_runs (resume_run runtime_root orchestrator run_id now).

(** ** The selector request *)
Definition memory_note (runtime_root : string) (inbound : IncomingMessage) (what err : string) :
    IO run_store OrchestratorError () :=
  append_security_log runtime_root
    (String.concat "" [what; " for message `"; im_message_id inbound; "`: "; err]).

Definition memory_bulletin (runtime_root orchestrator_id : string)
    (context : WorkspaceAccessContext) (inbound : IncomingMessage) (now : Z) :
    IO run_store OrchestratorError (option MemoryBulletin) :=
  if negb (mem_enabled (s_memory settings)) then mret None else
  match open_repository runtime_root orchestrator_id with
  | Err err =>
      memory_note runtime_root inbound "memory repository unavailable" err ;;
      mret (Some empty_bulletin)
  | Ok _ =>
      match not_blank (im_conversation_id inbound) with
      | Some conversation_id =>
          match persist_transcript_observation orchestrator_id (im_message_id inbound)
                  conversation_id (im_message inbound) now with
          | Ok _ => mret ()
          | Err err => memory_note runtime_root inbound "memory transcript write-back failed" err
          end
      | None => mret ()
      end ;;
      match generate_bulletin_for_message runtime_root inbound context
              (mem_retrieval_top_n (s_memory settings))
              (mem_retrieval_rrf_k (s_memory settings)) with
      | Ok bulletin => mret (Some bulletin)
      | Err err =>
          memory_note runtime_root inbound "memory bulletin generation failed" err ;;
          mret (Some empty_bulletin)
      end
  end.

Definition thread_context (runtime_root : string) (inbound : IncomingMessage) (now : Z) :
    IO runtime OrchestratorError (option string) :=
  match im_channel_profile_id inbound, im_conversation_id inbound with
  | Some channel_profile_id, Some conversation_id =>
      appended ← attempt (on_turns (append_inbound_turn runtime_root channel_profile_id
        conversation_id (im_message_id inbound) now (im_sender_id inbound) (im_message inbound)));
      match appended with
      | Ok _ => mret ()
      | Err err => on_runs (append_security_log runtime_root (String.concat "" [
          "failed to persist inbound conversation context for message `"; im_message_id inbound;
          "`: "; ioe_display err]))
      end ;;
      rendered ← attempt (on_turns (render_recent_thread_context runtime_root channel_profile_id
        conversation_id ThreadContextLimits_default));
      match rendered with
      | Ok rendered => mret rendered
      | Err err =>
          on_runs (append_security_log runtime_root (String.concat "" [
            "failed to render thread context for message `"; im_message_id inbound; "`: ";
            ioe_display err])) ;;
          mret None
      end
  | _, _ => mret None
  end.

Definition selector_request (functions : FunctionRegistry) (orchestrator : OrchestratorConfig)
    (inbound : IncomingMessage) (c : PreprocessedLocalContext) : SelectorRequest := {|
  rq_selector_id := "sel-" +:+ im_message_id inbound;
  rq_channel_profile_id := from_option id "unknown" (im_channel_profile_id inbound);
  rq_message_id := im_message_id inbound;
  rq_conversation_id := im_conversation_id inbound;
  rq_user_message := im_message inbound;
  rq_thread_context := pc_thread_context c;
  rq_memory_bulletin := pc_memory_bulletin_rendered c;
  rq_memory_bulletin_citations := pc_memory_bulletin_citations c;
  rq_available_workflows := wf_id <$> oc_workflows orchestrator;
  rq_default_workflow := oc_default_workflow orchestrator;
  rq_available_functions := available_function_ids functions;
  rq_available_function_schemas := available_function_schemas functions |}.

Definition prepare_request (runtime_root orchestrator_id : string) (functions : FunctionRegistry)
    (orchestrator : OrchestratorConfig) (context : WorkspaceAccessContext)
    (inbound : IncomingMessage) (now : Z) : IO runtime OrchestratorError SelectorRequest :=
  bulletin ← on_runs (memory_bulletin runtime_root orchestrator_id context inbound now);
  thread ← thread_context runtime_root inbound now;
  c ← on_runs (apply_local_llm_preprocessing runtime_root (im_message_id inbound) settings
        local_runtime
        {| pc_thread_context := thread;
           pc_memory_bulletin_rendered := mb_rendered <$> bulletin;
           pc_memory_bulletin_citations := from_option mb_citations [] bulletin |});
  let request := selector_request functions orchestrator inbound c in
  on_artifacts (persist_message_snapshot runtime_root inbound) ;;
  on_artifacts (persist_selector_request runtime_root request) ;;
  on_artifacts (move_request_to_processing runtime_root (rq_selector_id request)) ;;
  mret request.

(** The decision for a request, recorded. *)
Definition select_action (runtime_root : string) (orchestrator : OrchestratorConfig)
    (inbound : IncomingMessage) (request : SelectorRequest) :
    IO runtime OrchestratorError SelectorResult :=
  selection ← on_runs (resolve_selector_for_inbound decode_selector_result
    (next_attempt request orchestrator) settings inbound request orchestrator);
  r ← on_runs (enforce_no_response_policy runtime_root settings inbound orchestrator
    (se_result selection));
  on_artifacts (persist_selector_result runtime_root r) ;;
  on_runs (persist_selector_log runtime_root (rq_selector_id request)
    (from_option id "selector completed" (sr_reason r))) ;;
  mret r.

(** The workflow [on_workflow_selected] is called with, and its number of steps. *)
Definition announced_workflow (orchestrator : OrchestratorConfig) (r : SelectorResult) :
    option (string * nat) :=
  if bool_decide (sr_status r = Selected) && bool_decide (sr_action r = Some Selector.WorkflowStart)
  then (λ workflow_id, (workflow_id,
          from_option (λ w, length (wf_steps w)) 0%nat
            (List.find (λ w, String.eqb (wf_id w) workflow_id) (oc_workflows orchestrator))))
       <$> not_blank (sr_selected_workflow r)
  else None.

Definition status_input (inbound : IncomingMessage) : StatusResolutionInput := {|
  si_explicit_run_id := None;
  si_inbound_workflow_run_id := im_workflow_run_id inbound;
  si_channel_profile_id := im_channel_profile_id inbound;
  si_conversation_id := im_conversation_id inbound |}.

Definition execute_action (runtime_root : string) (request : SelectorRequest) (r : SelectorResult)
    (ctx : RouteContext) : IO runtime OrchestratorError (option RoutedSelectorAction) :=
  on_runs (route_selector_action runtime_root decode_selector_result encode_selector_result
    execute_function sample request r ctx).

(** ** Scheduled triggers *)
Definition trigger_target (inbound : IncomingMessage) (orchestrator_id : string) :
    result OrchestratorError ScheduledTriggerEnvelope :=
  envelope ← map_err SelectorValidation (parse_trigger_envelope decode_envelope (im_message inbound));
  reject_if (negb (String.eqb (te_orchestrator_id envelope) orchestrator_id))
    (SelectorValidation (String.concat "" [
      "scheduled trigger orchestrator mismatch: expected `"; orchestrator_id; "`, got `";
      te_orchestrator_id envelope; "`"])) ;;
  slack_target ← map_err SelectorValidation
    (match te_target_ref envelope with
     | Some value => parse_slack_target_ref value "targetRef"
     | None => Ok None
     end);
  map_err SelectorValidation (validate_profile_mapping settings orchestrator_id slack_target) ;;
  Ok envelope.

Definition trigger_request (functions : FunctionRegistry) (orchestrator : OrchestratorConfig)
    (inbound : IncomingMessage) (envelope : ScheduledTriggerEnvelope) : SelectorRequest := {|
  rq_selector_id := "schedule-" +:+ te_execution_id envelope;
  rq_channel_profile_id := from_option id "scheduler" (im_channel_profile_id inbound);
  rq_message_id := te_execution_id envelope;
  rq_conversation_id := im_conversation_id inbound;
  rq_user_message :=
    match te_target_action envelope with
    | Scheduler.WorkflowStart _ _ => "scheduled trigger " +:+ te_job_id envelope
    | Scheduler.CommandInvoke function_id _ => "/" +:+ function_id
    end;
  rq_thread_context := None; rq_memory_bulletin := None; rq_memory_bulletin_citations := [];
  rq_available_workflows := wf_id <$> oc_workflows orchestrator;
  rq_default_workflow := oc_default_workflow orchestrator;
  rq_available_functions := available_function_ids functions;
  rq_available_function_schemas := available_function_schemas functions |}.

Definition trigger_result (request : SelectorRequest) (envelope : ScheduledTriggerEnvelope) :
    SelectorResult :=
  let reason := "scheduled_trigger job_id=" +:+ te_job_id envelope +:+ " execution_id="
                +:+ te_execution_id envelope in
  match te_target_action envelope with
  | Scheduler.WorkflowStart workflow_id _ =>
      {| sr_selector_id := rq_selector_id request; sr_status := Selected;
         sr_action := Some Selector.WorkflowStart; sr_selected_workflow := Some workflow_id;
         sr_function_id := None; sr_function_args := None; sr_reason := Some reason |}
  | Scheduler.CommandInvoke function_id function_args =>
      {| sr_selector_id := rq_selector_id request; sr_status := Selected;
         sr_action := Some Selector.CommandInvoke; sr_selected_workflow := None;
         sr_function_id := Some function_id; sr_function_args := Some function_args;
         sr_reason := Some reason |}
  end.
Definition trigger_inputs (envelope : ScheduledTriggerEnvelope) : option JMap :=
  match te_target_action envelope with
  | Scheduler.WorkflowStart _ inputs => Some inputs
  | Scheduler.CommandInvoke _ _ => None
  end.

Definition complete_scheduled_execution (runtime_root job_id execution_id : string)
    (succeeded : bool) (now : Z) : IO sched_fs string () :=
  complete_execution runtime_root json_to_string job_id execution_id succeeded now.

(** The execution of a trigger, and the report of its outcome to the job. *)
Definition settle_trigger (runtime_root : string) (envelope : ScheduledTriggerEnvelope) (now : Z)
    (execute : IO runtime OrchestratorError (option RoutedSelectorAction)) :
    IO runtime OrchestratorError (option RoutedSelectorAction) :=
  let job := te_job_id envelope in
  let execution := te_execution_id envelope in
  outcome ← attempt execute;
  completion ← attempt (on_sched (complete_scheduled_execution runtime_root job execution
    (match outcome with Ok _ => true | Err _ => false end) now));
  match outcome, completion with
  | Ok action, Ok _ => mret action
  | Ok _, Err err =>
      on_runs (append_security_log runtime_root (String.concat "" [
        "scheduled trigger completion failed for job `"; job; "` execution `"; execution; "`: ";
        err])) ;;
      throw (ScheduledExecutionCompletion job execution err)
  | Err err, Ok _ =>
      on_runs (append_security_log runtime_root (String.concat "" [
        "scheduled trigger execution failed for job `"; job; "` execution `"; execution; "`: ";
        error_display err])) ;;
      throw err
  | Err err, Err completion_err =>
      on_runs (append_security_log runtime_root (String.concat "" [
        "scheduled trigger completion failed for job `"; job; "` execution `"; execution;
        "` after routing error `"; error_display err; "`: "; completion_err])) ;;
      throw (ScheduledExecutionCompletion job execution (String.concat "" [
        "routing error: "; error_display err; "; completion error: "; completion_err]))
  end.

Definition route_scheduled_trigger (inbound : IncomingMessage) (orchestrator_id runtime_root : string)
    (active_conversation_runs : gmap (string * string) string) (functions : FunctionRegistry)
    (now : Z) : IO runtime OrchestratorError (option RoutedSelectorAction) :=
  envelope ← lift (trigger_target inbound orchestrator_id);
  orchestrator ← lift (configured orchestrator_id);
  lift (verify_orchestrator_workspace_access canonicalize settings orchestrator_id) ;;
  let request := trigger_request functions orchestrator inbound envelope in
  settle_trigger runtime_root envelope now
    (execute_action runtime_root request (trigger_result request envelope)
      {| rc_status_input := status_input inbound;
         rc_active_conversation_runs := active_conversation_runs;
         rc_functions := functions; rc_orchestrator := orchestrator;
         rc_source_message_id := Some (im_message_id inbound);
         rc_workflow_inputs := trigger_inputs envelope; rc_now := now |}).

(** ** A message for the selector *)
Definition route_message (runtime_root orchestrator_id : string) (inbound : IncomingMessage)
    (now : Z) (active_conversation_runs : gmap (string * string) string)
    (functions : FunctionRegistry)
    (on_workflow_selected : string → nat → IO machine OrchestratorError ()) :
    IO machine OrchestratorError (option RoutedSelectorAction) :=
  orchestrator ← lift (configured orchestrator_id);
  context ← at_root runtime_root (verified runtime_root orchestrator_id inbound);
  request ← at_root runtime_root
    (prepare_request runtime_root orchestrator_id functions orchestrator context inbound now);
  r ← at_root runtime_root (select_action runtime_root orchestrator inbound request);
  match announced_workflow orchestrator r with
  | Some (workflow_id, workflow_step_count) =>
      on_workflow_selected workflow_id workflow_step_count
  | None => mret ()
  end ;;
  at_root runtime_root (execute_action runtime_root request r
    {| rc_status_input := status_input inbound;
       rc_active_conversation_runs := active_conversation_runs;
       rc_functions := functions; rc_orchestrator := orchestrator;
       rc_source_message_id := Some (im_message_id inbound);
       rc_workflow_inputs := None; rc_now := now |}).

Definition process_queued_message_with_runner_binaries_and_hook (inbound : IncomingMessage)
    (now : Z) (active_conversation_runs : gmap (string * string) string)
    (functions : FunctionRegistry)
    (on_workflow_selected : string → nat → IO machine OrchestratorError ()) :
    IO machine OrchestratorError (option RoutedSelectorAction) :=
  orchestrator_id ← lift (resolve_orchestrator_id settings inbound);
  runtime_root ← lift (map_err (λ err, ConfigErr (ConfigError_display err))
    (resolve_orchestrator_runtime_root orchestrator_id));
  if String.eqb (im_channel inbound) "scheduler" then
    at_root runtime_root (route_scheduled_trigger inbound orchestrator_id runtime_root
      active_conversation_runs functions now)
  else
    match (if is_status_command inbound then None else not_blank (im_workflow_run_id inbound)) with
    | Some run_id =>
        at_root runtime_root (route_resume runtime_root orchestrator_id inbound run_id now)
    | None =>
        route_message runtime_root orchestrator_id inbound now active_conversation_runs functions
          on_workflow_selected
    end.

(** [process_queued_message]: nothing to do for a selected workflow. *)
Definition process_queued_message (inbound : IncomingMessage) (now : Z)
    (active_conversation_runs : gmap (string * string) string) (functions : FunctionRegistry) :
    IO machine OrchestratorError (option RoutedSelectorAction) :=
  process_queued_message_with_runner_binaries_and_hook inbound now active_conversation_runs
    functions (λ _ _, mret ()).
End routing.
