(* ===== verification/RoutingGuarantees.v ===== *)
(** * What routing guarantees

    Routing always comes back, answers whoever must be answered, reports the
    outcome of scheduled triggers, and leaves the queue to the queue worker. *)
From S2P Require Import Prelude RustStr RustPath Io Json QueueMessage QueueLifecycle QueueGuarantees Config OrchestratorFile OrchestratorError WorkspaceAccess RunStore WorkflowEngine EngineGuarantees SlackTarget Scheduler SchedulerGuarantees Selector SelectorGuarantees Transitions TransitionGuarantees Conversation Routing.

Local Open Scope string_scope.
Local Open Scope list_scope.

(** ** Who is answered *)
Definition replies (action : option RoutedSelectorAction) : Prop :=
  ∀ reason, action ≠ Some (RNoResponse reason).
Definition must_reply (inbound : IncomingMessage) : bool :=
  im_is_direct inbound || im_is_mentioned inbound.

Lemma validate_selector_result_same request r v :
  validate_selector_result request r = Ok v → v = r.
Proof.
  unfold validate_selector_result. intros [_ Hv]%seq_Ok. destruct (sr_status r); [|congruence].
  apply seq_Ok in Hv as [_ Hv]. congruence.
Qed.

(** ** The queue

    What a computation on the machine may do to the queues. *)
(** Only outgoing files appear, and the counter of requeue names stays. *)
Definition queue_grows (q q' : queue_fs) : Prop :=
  only_adds_outgoing q q' ∧ q_requeue_counter q' = q_requeue_counter q.
#[export] Instance queue_grows_preorder : PreOrder queue_grows.
Proof.
  split; [intros q; split; [apply only_adds_outgoing_refl|done]|].
  intros q1 q2 q3 [H1 C1] [H2 C2]. split; [by eapply only_adds_outgoing_trans|congruence].
Qed.
Definition queues_grow (m m' : machine) : Prop :=
  ∀ root, queue_grows (rt_queue (m root)) (rt_queue (m' root)).
#[export] Instance queues_grow_preorder : PreOrder queues_grow.
Proof.
  split.
  - intros m root. reflexivity.
  - intros m1 m2 m3 H1 H2 root. etrans; [apply H1|apply H2].
Qed.
Definition same_queue (r r' : runtime) : Prop := rt_queue r' = rt_queue r.
#[export] Instance same_queue_preorder : PreOrder same_queue.
Proof. split; [done|]. unfold same_queue. intros r1 r2 r3 H1 H2. congruence. Qed.

Lemma runtime_keeps_queue {E A} (m : IO runtime E A) root :
  evolves same_queue m → evolves queues_grow (at_root root m).
Proof.
  intros Hm. apply (evolves_zoom _ same_queue); [done|].
  intros s r Hr root'. unfold set_runtime. case_decide as Hroot; [|done].
  rewrite Hr, Hroot. reflexivity.
Qed.
Lemma on_runs_queue {E A} (m : IO run_store E A) : evolves same_queue (on_runs m).
Proof. by apply evolves_zoom_any. Qed.
Lemma on_sched_queue {E A} (m : IO sched_fs E A) : evolves same_queue (on_sched m).
Proof. by apply evolves_zoom_any. Qed.
Lemma on_turns_queue {E A} (m : IO conversations E A) : evolves same_queue (on_turns m).
Proof. by apply evolves_zoom_any. Qed.
Lemma on_artifacts_queue {E A} (m : IO (gmap string artifact) E A) :
  evolves same_queue (on_artifacts m).
Proof. by apply evolves_zoom_any. Qed.
#[export] Hint Resolve on_runs_queue on_sched_queue on_turns_queue on_artifacts_queue
  runtime_keeps_queue : direclaw.

(** ** Settled executions *)
Definition execution_settled (job_id execution_id : string) (s : sched_fs) : Prop :=
  ∃ state, sf_state s = Some (Parsed state)
    ∧ ∀ active, active ∈ ss_active_executions state →
        ¬ (ae_job_id active = job_id ∧ ae_execution_id active = execution_id).

Lemma wp_save_settled_state root state (Φ : result string () → sched_fs → Prop) s :
  (∀ e s', Φ (Err e) s') → (∀ s', sf_state s' = Some (Parsed state) → Φ (Ok ()) s') →
  wp false (save_state root state) Φ s.
Proof.
  intros He Ho. assert (∀ s1, wp false (io_map_err (fs_err "write" (scheduler_state_path root))
    (sys (put_state state))) Φ s1) as Hwrite.
  { intros s1. apply wp_map_err, wp_sys; [intros _ e; apply He|by apply Ho]. }
  apply wp_bind. destruct (path_parent _); [|apply wp_ret, Hwrite].
  apply wp_mkdir. intros [[]|e] s1 _; [apply Hwrite|apply He].
Qed.

(** A completion that succeeds has removed the execution from the active ones. *)
Lemma wp_complete_execution root to_string job_id execution_id ok now s :
  wp false (complete_execution root to_string job_id execution_id ok now)
    (λ r s', r = Ok () → execution_settled job_id execution_id s') s.
Proof.
  apply wp_bind. apply wp_any. intros [state|e] s1; [|done].
  apply wp_bind, wp_save_settled_state; [done|]. intros s2 Hs2.
  assert (∀ s', sf_state s' = sf_state s2 → execution_settled job_id execution_id s') as Hdone.
  { unfold execution_settled. intros s' ->. rewrite Hs2. eexists. split; [done|]. simpl. intros active Ha.
    by apply list_elem_of_filter in Ha as [Hn _]. }
  apply wp_bind, wp_attempt. eapply (wp_mono _ _ (λ _ s', sf_state s' = sf_state s2)).
  { apply wp_bind, wp_map_err, wp_sys; [by intros|]. simpl.
    destruct (sf_jobs s2 !! job_path root job_id) as [[job|]|]; simpl; [by apply wp_ret|by apply wp_throw|done]. }
  intros [job|e] s3 H3.
  - apply wp_bind, wp_persist_job; [done|]. intros s4 (_ & _ & _ & H4 & _).
    apply wp_bind, wp_persist_run_record; [done|]. intros s5 (_ & _ & _ & H5 & _).
    apply wp_event. intros s6 (_ & _ & _ & H6 & _) _. apply Hdone. congruence.
  - apply wp_event. intros s4 (_ & _ & _ & H4 & _) _. apply Hdone. congruence.
Qed.

Section routing.
Context `{StepExecutorLaws, MemoryService}.
Context (local_runtime : option LocalModel).
Context (canonicalize : string → result io_error string).
Context (from_path : string → result ConfigError OrchestratorConfig).
Context (decode_envelope : string → result string ScheduledTriggerEnvelope).
Context (json_to_string : Value → string).
Context (decode_selector_result : string → result string SelectorResult)
  (encode_selector_result : SelectorResult → string).
Context (execute_function : string → JMap → option string →
           IO run_store OrchestratorError Value).
Context (sample : nat → result string Z).
Context (next_attempt : SelectorRequest → OrchestratorConfig → Z →
           world run_store → world run_store * option string).
Context (settings : Settings).

Local Abbreviation route_action root :=
  (route_selector_action root decode_selector_result encode_selector_result execute_function sample).
Local Abbreviation route := (process_queued_message_with_runner_binaries_and_hook local_runtime
  canonicalize from_path decode_envelope json_to_string decode_selector_result
  encode_selector_result execute_function sample next_attempt settings).
Local Abbreviation route_trigger := (route_scheduled_trigger canonicalize from_path
  decode_envelope json_to_string decode_selector_result encode_selector_result execute_function
  sample settings).

(** *** Frames *)
Lemma route_trigger_queue inbound id root active functions now :
  evolves same_queue (route_trigger inbound id root active functions now).
Proof. unfold route_scheduled_trigger, settle_trigger, execute_action. evolve_steps. Qed.
Lemma verified_queue root id inbound :
  evolves same_queue (verified canonicalize settings root id inbound).
Proof. unfold verified. evolve_steps. Qed.
Lemma route_resume_queue root id inbound run_id now :
  evolves same_queue (route_resume canonicalize from_path settings root id inbound run_id now).
Proof. pose proof verified_queue. unfold route_resume. evolve_steps. Qed.
Lemma prepare_request_queue root id functions orchestrator ctx inbound now :
  evolves same_queue (prepare_request local_runtime settings root id functions orchestrator ctx
    inbound now).
Proof. unfold prepare_request, thread_context. evolve_steps. Qed.
Lemma select_action_queue root orchestrator inbound request :
  evolves same_queue (select_action decode_selector_result next_attempt settings root orchestrator
    inbound request).
Proof. unfold select_action. evolve_steps. Qed.

(** Routing itself leaves every queue alone: what appears in it, the hook put there. *)
Lemma route_queues_grow inbound now active functions hook :
  (∀ workflow_id n, evolves queues_grow (hook workflow_id n)) →
  evolves queues_grow (route inbound now active functions hook).
Proof.
  intros Hhook. pose proof route_trigger_queue. pose proof route_resume_queue.
  pose proof prepare_request_queue. pose proof select_action_queue. pose proof verified_queue.
  unfold process_queued_message_with_runner_binaries_and_hook, route_message, execute_action.
  evolve_steps.
Qed.

(** *** Answers *)
(** What a result goes through as JSON text does not change its action. *)
Definition keeps_action : Prop := ∀ r r',
  decode_selector_result (encode_selector_result r) = Ok r' → sr_action r' = sr_action r.
Lemma route_action_replies root request r ctx :
  keeps_action → sr_action r ≠ Some NoResponse → returns replies (route_action root request r ctx).
Proof.
  intros Hcodec Haction. unfold route_selector_action.
  apply (returns_bind (λ v, sr_action v = sr_action r)).
  { apply returns_lift. intros v (r' & Hr'%map_err_Ok & ->%validate_selector_result_same)%bind_Ok.
    by apply Hcodec. }
  intros v Hv. rewrite Hv. apply (returns_bind (λ a, a ≠ NoResponse)).
  { apply returns_lift. destruct (sr_action r); naive_solver. }
  intros [] Hne; [| | |done].
  - unfold route_workflow_start, deny. apply returns_seq. intros workflow_id.
    destruct (negb _); [by apply returns_seq|]. apply returns_seq. intros run_id.
    destruct (validate_selected_workflow_output_paths _ _ _ _); [|by apply returns_seq].
    apply returns_seq. intros ?. apply returns_seq. intros [?|]; by apply returns_ret.
  - apply returns_fmap. unfold route_workflow_status.
    destruct (resolve_status_run_id _ _); [|by apply returns_ret].
    apply returns_seq. intros [?|err]; [by apply returns_ret|].
    destruct (from_option id err _); (by apply returns_throw) || by apply returns_ret.
  - apply returns_seq. intros ?. apply returns_seq. intros ?. by apply returns_ret.
Qed.

Lemma enforce_replies root inbound orchestrator r :
  must_reply inbound = true →
  returns (λ d, sr_action d ≠ Some NoResponse)
    (enforce_no_response_policy root settings inbound orchestrator r).
Proof.
  unfold must_reply. intros Hmust. unfold enforce_no_response_policy.
  destruct (bool_decide_reflect (sr_action r = Some NoResponse)) as [|Hne]; simpl;
    [|by apply returns_ret].
  unfold classify_response_eligibility, is_explicit_profile_mention. rewrite Hmust. simpl.
  apply returns_seq. intros ?. by apply returns_ret.
Qed.

Lemma or_not_found_replies {A} run_id (m : IO run_store OrchestratorError A) found :
  (∀ a, returns replies (found a)) → returns replies (or_not_found run_id m found).
Proof.
  intros Hf. apply returns_seq. intros [a|err]; [apply Hf|].
  destruct (from_option id err _); (by apply returns_throw) || by apply returns_ret.
Qed.

Lemma route_replies inbound now active functions hook :
  keeps_action →
  (must_reply inbound = true ∨ im_channel inbound = "scheduler"
   ∨ (is_status_command inbound = false ∧ not_blank (im_workflow_run_id inbound) ≠ None)) →
  returns replies (route inbound now active functions hook).
Proof.
  intros Hcodec Hwho. unfold process_queued_message_with_runner_binaries_and_hook.
  apply returns_seq. intros orchestrator_id. apply returns_seq. intros root.
  destruct (String.eqb_spec (im_channel inbound) "scheduler") as [Hc|Hc].
  { apply returns_zoom. unfold route_scheduled_trigger. apply returns_seq. intros envelope.
    apply returns_seq. intros orchestrator. apply returns_seq. intros ctx. unfold settle_trigger.
    apply (returns_bind (λ o, ∀ a, o = Ok a → replies a)).
    - intros w o Ho a ->. unfold attempt in Ho.
      pose proof (returns_zoom rt_runs set_runs replies _ (route_action_replies root
        (trigger_request functions orchestrator inbound envelope) (trigger_result
        (trigger_request functions orchestrator inbound envelope) envelope)
        {| rc_status_input := status_input inbound; rc_active_conversation_runs := active;
           rc_functions := functions; rc_orchestrator := orchestrator;
           rc_source_message_id := Some (im_message_id inbound);
           rc_workflow_inputs := trigger_inputs envelope; rc_now := now |} Hcodec
        ltac:(by unfold trigger_result; destruct (te_target_action envelope))) w a) as Hr.
      unfold execute_action, on_runs in Ho. destruct (zoom _ _ _ w) as [w' res]. simpl in *.
      injection Ho as ->. by apply Hr.
    - intros [a|err] Ha; apply returns_seq; intros [[]|err'].
      + apply returns_ret. by apply Ha.
      + by apply returns_seq.
      + by apply returns_seq.
      + by apply returns_seq. }
  destruct (if is_status_command inbound then None else _) as [run_id|] eqn:Erun.
  { apply returns_zoom. unfold route_resume. apply returns_seq. intros orchestrator.
    apply returns_seq. intros ctx. apply returns_zoom. unfold resume_run.
    apply or_not_found_replies. intros [run|]; [|by apply returns_ret].
    apply or_not_found_replies. intros progress. by apply returns_ret. }
  assert (must_reply inbound = true) as Hmust.
  { destruct Hwho as [|[|[Hs Hn]]]; [done|done|]. by rewrite Hs in Erun. }
  unfold route_message. apply returns_seq. intros orchestrator. apply returns_seq. intros ctx.
  apply returns_seq. intros request.
  apply (returns_bind (λ d, sr_action d ≠ Some NoResponse)).
  { apply returns_zoom. unfold select_action. apply returns_seq. intros selection.
    apply (returns_bind (λ d, sr_action d ≠ Some NoResponse)).
    { by apply returns_zoom, enforce_replies. }
    intros d Hd. apply returns_seq. intros ?. apply returns_seq. intros ?. by apply returns_ret. }
  intros d Hd. apply returns_seq. intros ?. apply returns_zoom, returns_zoom.
  by apply route_action_replies.
Qed.

(** *** Totality *)
Hypothesis config_u32 : ∀ path config, from_path path = Ok config → u32_config config.
Definition typed_runs (m : machine) : Prop :=
  ∀ root id run, rs_runs (rt_runs (m root)) !! run_metadata_path root id = Some (Parsed run) →
    stored_run root id (rt_runs (m root)) run.

Lemma configured_u32 id config : configured from_path settings id = Ok config → u32_config config.
Proof.
  unfold configured, load_orchestrator_config. intros Hc%map_err_Ok.
  apply seq_Ok in Hc as [_ Hc]. apply bind_Ok in Hc as (workspace & _ & Hc).
  apply bind_Ok in Hc as (c & Hfrom & Hc). apply seq_Ok in Hc as [_ [= <-]].
  by eapply config_u32.
Qed.

Lemma wp_route_action root request r ctx s :
  u32_config (rc_orchestrator ctx) →
  wp false (route_action root request r ctx) (λ o _, o ≠ Ok None) s.
Proof.
  intros Hu. apply wp_bind, wp_lift. destruct (parse_and_validate_selector_result _ _ _); [|done].
  apply wp_bind, wp_lift. destruct (sr_action _) as [[]|]; simpl; [| | | |done].
  - eapply wp_mono; [by apply wp_route_workflow_start|]. by intros o s' [].
  - apply wp_fmap, wp_any. by intros [].
  - apply wp_bind, wp_lift. destruct (sr_function_id _); simpl; [|done].
    apply wp_bind. apply wp_any. intros [] s'; [by apply wp_ret|done].
  - by apply wp_ret.
Qed.
Lemma wp_execute_action root request r ctx s :
  u32_config (rc_orchestrator ctx) →
  wp false (execute_action decode_selector_result encode_selector_result execute_function sample
    root request r ctx) (λ o _, o ≠ Ok None) s.
Proof. intros Hu. apply wp_zoom. by apply wp_route_action. Qed.

Lemma wp_or_not_found {A} run_id (m : IO run_store OrchestratorError A) found s :
  wp false m (λ r s', ∀ a, r = Ok a → wp false (found a) (λ o _, o ≠ Ok None) s') s →
  wp false (or_not_found run_id m found) (λ o _, o ≠ Ok None) s.
Proof.
  intros Hm. apply wp_bind, wp_attempt. eapply wp_mono; [exact Hm|].
  intros [a|err] s' Hr; [by apply Hr|].
  destruct (from_option id err _); (by apply wp_throw) || by apply wp_ret.
Qed.

Lemma wp_resume_run root config id now s :
  u32_config config →
  (∀ run, rs_runs s !! run_metadata_path root id = Some (Parsed run) → stored_run root id s run) →
  wp false (resume_run root config id now) (λ o _, o ≠ Ok None) s.
Proof.
  intros Hc Hty. apply wp_or_not_found.
  assert (wp false (WorkflowEngine.resume root config id now) (λ r _, r ≠ Ok None) s) as Hres.
  { destruct (rs_runs s !! run_metadata_path root id) as [[run|e]|] eqn:Er.
    - intros e He. destruct (engine_concludes root config false id now (World s e) run Hc
        (Hty run eq_refl) ltac:(done)) as [_ H2].
      destruct (WorkflowEngine.resume _ _ _ _ _) as [w' r]. split; [done|].
      destruct H2 as [_ H2]. by intros ->.
    - apply wp_bind, wp_bind, wp_map_err, wp_sys; [done|]. simpl. rewrite Er. by apply wp_throw.
    - apply wp_bind, wp_bind, wp_map_err, wp_sys; [done|]. simpl. by rewrite Er. }
  eapply wp_mono; [exact Hres|]. intros r s' Hr [run|] ->; [|done].
  apply wp_or_not_found. apply wp_any. intros r' s'' p _. by apply wp_ret.
Qed.

Lemma wp_verified root id inbound (Φ : result OrchestratorError WorkspaceAccessContext → runtime → Prop) s :
  (∀ ctx, Φ (Ok ctx) s) → (∀ e s', Φ (Err e) s') →
  wp false (verified canonicalize settings root id inbound) Φ s.
Proof.
  intros Ho He. unfold verified. destruct (verify_orchestrator_workspace_access _ _ _);
    [by apply wp_ret|].
  apply wp_bind. apply wp_any. intros [] s'; [by apply wp_throw|apply He].
Qed.

(** The outcome of a trigger reported to its job. *)
Lemma wp_settle_trigger root envelope now execute s :
  wp false execute (λ o _, o ≠ Ok None) s →
  wp false (settle_trigger json_to_string root envelope now execute)
    (λ o s', o ≠ Ok None
      ∧ ((∀ job id reason, o ≠ Err (ScheduledExecutionCompletion job id reason)) →
         execution_settled (te_job_id envelope) (te_execution_id envelope) (rt_sched s'))) s.
Proof.
  intros Hx. apply wp_bind, wp_attempt. eapply wp_mono; [exact Hx|]. intros outcome s1 Hne.
  apply wp_bind, wp_attempt, wp_zoom. eapply wp_mono; [apply wp_complete_execution|].
  intros completion t Hdone.
  assert (∀ parts (Φ : result OrchestratorError () → runtime → Prop) s2,
    (∀ s3, rt_sched s3 = rt_sched s2 → Φ (Ok ()) s3) →
    wp false (on_runs (append_security_log root (String.concat "" parts))) Φ s2) as Hlog.
  { intros parts Φ s2 HΦ. apply wp_zoom, wp_security_log. intros s3. by apply HΦ. }
  destruct outcome as [action|err], completion as [[]|err'].
  - apply wp_ret. split; [done|]. intros _. by apply Hdone.
  - apply wp_bind, Hlog. intros s3 _. apply wp_throw. split; [done|].
    intros Hn. by destruct (Hn _ _ _ eq_refl).
  - apply wp_bind, Hlog. intros s3 Hs3. apply wp_throw. split; [done|]. intros _.
    rewrite Hs3. by apply Hdone.
  - apply wp_bind, Hlog. intros s3 _. apply wp_throw. split; [done|].
    intros Hn. by destruct (Hn _ _ _ eq_refl).
Qed.

Definition settles_trigger (envelope : ScheduledTriggerEnvelope)
    (o : result OrchestratorError (option RoutedSelectorAction)) (s' : sched_fs) : Prop :=
  (∀ job id reason, o ≠ Err (ScheduledExecutionCompletion job id reason)) →
  execution_settled (te_job_id envelope) (te_execution_id envelope) s'.

Lemma wp_route_trigger inbound id root active functions now s :
  wp false (route_trigger inbound id root active functions now)
    (λ o s', o ≠ Ok None
      ∧ ∀ envelope config context,
          trigger_target decode_envelope settings inbound id = Ok envelope →
          configured from_path settings id = Ok config →
          verify_orchestrator_workspace_access canonicalize settings id = Ok context →
          settles_trigger envelope o (rt_sched s')) s.
Proof.
  apply wp_bind, wp_lift. destruct (trigger_target _ _ _ _) as [envelope|]; [|done].
  apply wp_bind, wp_lift. destruct (configured _ _ _) as [config|] eqn:Hc; [|done].
  apply wp_bind, wp_lift.
  destruct (verify_orchestrator_workspace_access _ _ _) as [context|]; [|done].
  eapply wp_mono; [apply wp_settle_trigger, wp_execute_action; by eapply configured_u32|].
  intros o s' [Hne Hsettled]. split; [done|]. by intros ??? [= <-] _ _.
Qed.

Lemma wp_route_message root id inbound now active functions hook s :
  wp false (route_message local_runtime canonicalize from_path decode_selector_result
    encode_selector_result execute_function sample next_attempt settings root id inbound now
    active functions hook) (λ o _, o ≠ Ok None) s.
Proof.
  apply wp_bind, wp_lift. destruct (configured _ _ _) as [config|] eqn:Hc; [|done].
  apply wp_bind. apply wp_any. intros [context|] s1; [|done].
  apply wp_bind. apply wp_any. intros [request|] s2; [|done].
  apply wp_bind. apply wp_any. intros [d|] s3; [|done].
  apply wp_bind. apply wp_any. intros [[]|] s4; [|done].
  apply wp_zoom, wp_execute_action. by eapply configured_u32.
Qed.

Lemma wp_route inbound now active functions hook m :
  typed_runs m →
  wp false (route inbound now active functions hook) (λ o _, o ≠ Ok None) m.
Proof.
  intros Hty. apply wp_bind, wp_lift. destruct (resolve_orchestrator_id _ _) as [id|]; [|done].
  apply wp_bind, wp_lift. destruct (map_err _ _) as [root|]; [|done].
  destruct (String.eqb _ _).
  { apply wp_zoom. eapply wp_mono; [apply wp_route_trigger|]. by intros o s' []. }
  destruct (if is_status_command inbound then None else _) as [run_id|]; [|apply wp_route_message].
  apply wp_zoom. apply wp_bind, wp_lift. destruct (configured _ _ _) as [config|] eqn:Hc; [|done].
  apply wp_bind, wp_verified; [|done]. intros _. apply wp_zoom, wp_resume_run.
  - by eapply configured_u32.
  - intros run. apply Hty.
Qed.

(** C6: Routing always comes back, and answers whoever must be answered.  For
    every message, whatever the provider, the commands, the memory service, the
    local model and the disk do: the routing never runs out of the engine's
    limits, and a message that is direct, mentions the bot, comes from the
    scheduler or continues a run is never routed to silence.  (Configurations and
    run records hold [u32]s; a result keeps its action as JSON text.) *)
Theorem routing_answers_every_message (inbound : IncomingMessage) (now : Z)
    (active : gmap (string * string) string) (functions : FunctionRegistry)
    (hook : string → nat → IO machine OrchestratorError ()) (w : world machine)
    (Hcodec : keeps_action)
    (Hruns : typed_runs (st w)) :
  let outcome := (route inbound now active functions hook w).2 in
  outcome ≠ Ok None
  ∧ (must_reply inbound = true ∨ im_channel inbound = "scheduler"
     ∨ (is_status_command inbound = false ∧ not_blank (im_workflow_run_id inbound) ≠ None) →
     ∀ reason, outcome ≠ Ok (Some (RNoResponse reason))).
Proof.
  split.
  - apply (wp_run _ _ _ w (wp_route inbound now active functions hook (st w) Hruns)). done.
  - intros Hwho reason Ho.
    by apply (route_replies inbound now active functions hook Hcodec Hwho w _ Ho reason).
Qed.

(** A scheduled trigger reports back: once a trigger is for this
    orchestrator, its target is in order and the orchestrator is configured, its
    execution is no longer active in the scheduler's stored state when routing
    ends, in success and in failure, so the job may run again; the only exception
    is that writing this completion itself failed, and then the error says so. *)
Theorem scheduled_trigger_is_settled (inbound : IncomingMessage) (id root : string)
    (active : gmap (string * string) string) (functions : FunctionRegistry) (now : Z)
    (w : world runtime) (envelope : ScheduledTriggerEnvelope) (config : OrchestratorConfig)
    (context : WorkspaceAccessContext)
    (Htrigger : trigger_target decode_envelope settings inbound id = Ok envelope)
    (Hconfig : configured from_path settings id = Ok config)
    (Haccess : verify_orchestrator_workspace_access canonicalize settings id = Ok context) :
  let '(w', outcome) := route_trigger inbound id root active functions now w in
  outcome ≠ Ok None
  ∧ ((∀ job execution reason, outcome ≠ Err (ScheduledExecutionCompletion job execution reason)) →
     execution_settled (te_job_id envelope) (te_execution_id envelope) (rt_sched (st w'))).
Proof.
  pose proof (wp_run _ _ _ w (wp_route_trigger inbound id root active functions now (st w))
    ltac:(done)) as [Hne Hs].
  destruct (route_trigger _ _ _ _ _ _ w) as [w' o]. split; [exact Hne|].
  by apply (Hs envelope config context).
Qed.

(** A trigger that cannot be routed stays active: if the payload, the target,
    the configuration or the workspace access of a scheduled trigger is refused,
    the scheduler's files are not touched, so its execution remains among the
    active ones and holds back a job that may not overlap. *)
Theorem refused_trigger_stays_active (inbound : IncomingMessage) (id root : string)
    (active : gmap (string * string) string) (functions : FunctionRegistry) (now : Z)
    (w : world runtime)
    (Hrefused : is_ok (trigger_target decode_envelope settings inbound id) = false
      ∨ is_ok (configured from_path settings id) = false
      ∨ is_ok (verify_orchestrator_workspace_access canonicalize settings id) = false) :
  let '(w', outcome) := route_trigger inbound id root active functions now w in
  is_ok outcome = false ∧ st w' = st w.
Proof.
  unfold route_scheduled_trigger. rewrite !bind_run. unfold lift.
  destruct (trigger_target _ _ _ _) as [envelope|]; [|done]. rewrite bind_run.
  destruct (configured _ _ _) as [config|]; [|done]. rewrite bind_run.
  destruct (verify_orchestrator_workspace_access _ _ _) as [context|]; [|done].
  by destruct Hrefused as [|[]].
Qed.
End routing.

(** ** Concrete runs *)
Definition demo_root_settings : Settings := {|
  s_workspaces_path := "/srv"; s_shared_workspaces := [];
  s_orchestrators := [("main", {| so_private_workspace := None; so_shared_access := [] |})];
  s_channel_profiles := [("slack", {| cp_channel := Slack; cp_orchestrator_id := "main";
    cp_identity_mention_tokens := []; cp_slack_app_user_id := None;
    cp_require_mention_in_channels := None; cp_thread_response_mode := AlwaysReply |})];
  s_heartbeat_interval := None; s_channels := [];
  s_auth_sync := {| auth_enabled := false; auth_sources := [] |};
  s_memory := MemoryConfig_default; s_local_llm := LocalLlmConfig_default |}.
Definition demo_runtime : runtime := {|
  rt_runs := {| rs_runs := ∅; rs_progress := ∅; rs_attempts := ∅; rs_log := []; rs_files := ∅ |};
  rt_sched := {| sf_dirs := ∅; sf_jobs := ∅; sf_runs := ∅;
    sf_state := Some (Parsed {| ss_last_tick_at := None; ss_recent_execution_ids := [];
      ss_active_executions := [{| ae_job_id := "job"; ae_execution_id := "e1";
                                  ae_started_at := 1 |}] |});
    sf_incoming := ∅; sf_log := [] |};
  rt_turns := ∅; rt_artifacts := ∅;
  rt_queue := {| q_incoming := Some ∅; q_processing := Some {["1.json" := QFile 1 "hello"]};
    q_outgoing := Some ∅; q_failed := None; q_requeue_counter := 0; q_log := [] |} |}.
Definition demo_machine : world machine := World (λ _, demo_runtime) (Env [] []).
Definition demo_memory : MemoryService := {|
  open_repository := λ _ _, Ok ();
  persist_transcript_observation := λ _ _ _ _ _, Ok ();
  generate_bulletin_for_message := λ _ _ _ _ _, Err "no index" |}.
(** JSON that keeps the action and, of a start, that it is the start of [w]. *)
Definition demo_encode_result (r : SelectorResult) : string :=
  match sr_action r with Some Selector.WorkflowStart => "start" | _ => "other" end.
Definition demo_decode_result (raw : string) : result string SelectorResult :=
  if String.eqb raw "start" then Ok demo_start
  else if String.eqb raw "silent" then Ok (demo_answer NoResponse) else Err "expected value".
Lemma demo_keeps_action : keeps_action demo_decode_result demo_encode_result.
Proof.
  intros r r'. unfold demo_encode_result. destruct (sr_action r) as [[]|]; try done.
  by intros [= <-].
Qed.
Definition demo_routed_config : OrchestratorConfig := {|
  oc_id := "main"; oc_selector_agent := "main"; oc_default_workflow := "w";
  oc_selection_max_retries := 1; oc_selector_timeout_seconds := 30;
  oc_agents := oc_agents demo_config;
  oc_workflows := [{| wf_id := "w"; wf_version := 1; wf_description := "d"; wf_tags := ["t"];
    wf_inputs := []; wf_limits := None;
    wf_steps := oc_workflows demo_config ≫= wf_steps |}];
  oc_workflow_orchestration := None |}.
Lemma demo_routed_u32 : u32_config demo_routed_config.
Proof.
  split.
  - intros w ->%list_elem_of_singleton. by unfold_widths.
  - intros w step ->%list_elem_of_singleton ->%list_elem_of_singleton. by unfold_widths.
Qed.
Definition demo_from_path (_ : string) : result ConfigError OrchestratorConfig :=
  Ok demo_routed_config.
Lemma demo_from_path_u32 path config : demo_from_path path = Ok config → u32_config config.
Proof. intros [= <-]. apply demo_routed_u32. Qed.
Definition no_commands (_ : string) (_ : JMap) (_ : option string) :
    IO run_store OrchestratorError Value := throw (UnknownFunction "").

(** An agent that would stay silent is asked about a mention. *)
Lemma routing_answers_every_message_witness :
  let out := (@process_queued_message_with_runner_binaries_and_hook succeeding_executor demo_memory
    None Ok demo_from_path (λ _, Err "no trigger") (λ _, "") demo_decode_result demo_encode_result
    no_commands (λ i, Ok (Z.of_nat i)) (λ _ _, silent_agent) demo_root_settings demo_mention
    1700000000 ∅ (registry_new [] []) (λ _ _, mret ()) demo_machine).2 in
  out = Ok (Some (RWorkflowStart "run-s44we8-0000" "w"))
  ∧ out ≠ Ok None ∧ ∀ reason, out ≠ Ok (Some (RNoResponse reason)).
Proof.
  split; [vm_compute; reflexivity|].
  destruct (@routing_answers_every_message succeeding_executor (demo_executor_laws _) demo_memory
    None Ok demo_from_path (λ _, Err "no trigger") (λ _, "") demo_decode_result demo_encode_result
    no_commands (λ i, Ok (Z.of_nat i)) (λ _ _, silent_agent) demo_root_settings demo_from_path_u32
    demo_mention 1700000000 ∅ (registry_new [] []) (λ _ _, mret ()) demo_machine
    demo_keeps_action ltac:(intros root id run H; vm_compute in H; discriminate H)) as [H1 H2].
  split; [exact H1|]. apply H2. by left.
Defined.

Definition demo_envelope : ScheduledTriggerEnvelope := {|
  te_job_id := "job"; te_execution_id := "e1"; te_triggered_at := 1;
  te_orchestrator_id := "main"; te_target_action := Scheduler.WorkflowStart "w" [];
  te_target_ref := None |}.
Definition demo_trigger : IncomingMessage := {|
  im_channel := "scheduler"; im_channel_profile_id := None; im_sender := "scheduler:main";
  im_sender_id := "scheduler"; im_message := "{}"; im_timestamp := 1; im_message_id := "e1";
  im_conversation_id := None; im_is_direct := true; im_is_thread_reply := false;
  im_is_mentioned := false; im_files := []; im_workflow_run_id := None;
  im_workflow_step_id := None |}.
Definition demo_access : WorkspaceAccessContext := {|
  wa_orchestrator_id := "main"; wa_private_workspace_root := "/srv/main";
  wa_shared_workspaces := [] |}.
Definition demo_start_text (_ : string) : result string SelectorResult := Ok {|
  sr_selector_id := "schedule-e1"; sr_status := Selected;
  sr_action := Some Selector.WorkflowStart; sr_selected_workflow := Some "w";
  sr_function_id := None; sr_function_args := None; sr_reason := None |}.

Lemma scheduled_trigger_is_settled_witness :
  let out := @route_scheduled_trigger succeeding_executor Ok demo_from_path
    (λ _, Ok demo_envelope) (λ _, "") demo_start_text (λ _, "") no_commands
    (λ i, Ok (Z.of_nat i)) demo_root_settings demo_trigger "main" "/srv/main" ∅
    (registry_new [] []) 1700000000 (World demo_runtime (Env [] [])) in
  out.2 = Ok (Some (RWorkflowStart "run-s44we8-0000" "w"))
  ∧ execution_settled "job" "e1" (rt_sched (st out.1)).
Proof.
  split; [vm_compute; reflexivity|].
  pose proof (@scheduled_trigger_is_settled succeeding_executor (demo_executor_laws _) Ok
    demo_from_path (λ _, Ok demo_envelope) (λ _, "") demo_start_text (λ _, "") no_commands
    (λ i, Ok (Z.of_nat i)) demo_root_settings demo_from_path_u32 demo_trigger "main" "/srv/main" ∅
    (registry_new [] []) 1700000000 (World demo_runtime (Env [] [])) demo_envelope demo_routed_config
    demo_access ltac:(vm_compute; reflexivity) ltac:(vm_compute; reflexivity)
    ltac:(vm_compute; reflexivity)) as H.
  assert ((@route_scheduled_trigger succeeding_executor Ok demo_from_path
    (λ _, Ok demo_envelope) (λ _, "") demo_start_text (λ _, "") no_commands
    (λ i, Ok (Z.of_nat i)) demo_root_settings demo_trigger "main" "/srv/main" ∅
    (registry_new [] []) 1700000000 (World demo_runtime (Env [] []))).2
    = Ok (Some (RWorkflowStart "run-s44we8-0000" "w"))) as Hok by (vm_compute; reflexivity).
  destruct (route_scheduled_trigger _ _ _ _ _ _ _ _ _ _ _ _ _ _ _ _) as [w' o].
  simpl in *. subst o. apply (proj2 H). intros. discriminate.
Defined.
