(* ===== verification/StatePaths.v ===== *)
(** * Files and log of the runtime

    [src/src/runtime/state_paths.rs], [logging.rs] and the errors of
    [src/src/shared/errors.rs]. *)
From S2P Require Import Prelude RustStr RustPath Io.

Local Open Scope string_scope.
Local Open Scope list_scope.

(** ** Paths and errors *)
Record StatePaths := { sp_root : string }.
Definition required_directories (paths : StatePaths) : list string :=
  path_join (sp_root paths) <$> ["files"; "logs"; "channels"; "daemon"; "runtime"].
Definition settings_file (paths : StatePaths) : string := path_join (sp_root paths) "config.yaml".
Definition daemon_dir (paths : StatePaths) : string := path_join (sp_root paths) "daemon".
Definition supervisor_state_path (paths : StatePaths) : string :=
  path_join (daemon_dir paths) "runtime.json".
Definition supervisor_lock_path (paths : StatePaths) : string :=
  path_join (daemon_dir paths) "supervisor.lock".
Definition stop_signal_path (paths : StatePaths) : string := path_join (daemon_dir paths) "stop".
Definition runtime_log_path (paths : StatePaths) : string :=
  path_join (sp_root paths) "logs/runtime.log".
Definition orchestrator_log_path (paths : StatePaths) : string :=
  path_join (sp_root paths) "logs/orchestrator.log".

Inductive RuntimeError :=
  | RCreateDir (path : string) (source : io_error)
  | HomeDirectoryUnavailable
  | ReadState (path : string) (source : io_error)
  | ParseState (path source : string)
  | WriteState (path : string) (source : io_error)
  | AlreadyRunning (pid : Z)
  | RNotRunning
  | ReadLock (path : string) (source : io_error)
  | WriteLock (path : string) (source : io_error)
  | Spawn (message : string)
  | StopFailedAlive (pid : Z)
  | Startup (message : string).
Definition RuntimeError_display (e : RuntimeError) : string :=
  match e with
  | RCreateDir path source =>
      "failed to create runtime path " +:+ path +:+ ": " +:+ ioe_display source
  | HomeDirectoryUnavailable => "failed to resolve home directory for runtime state root"
  | ReadState path source => "failed to read runtime state " +:+ path +:+ ": " +:+ ioe_display source
  | ParseState path source => "failed to parse runtime state " +:+ path +:+ ": " +:+ source
  | WriteState path source => "failed to write runtime state " +:+ path +:+ ": " +:+ ioe_display source
  | AlreadyRunning pid => "supervisor is already running with pid " +:+ fmt_int pid
  | RNotRunning => "no running supervisor instance"
  | ReadLock path source => "failed to read lock file " +:+ path +:+ ": " +:+ ioe_display source
  | WriteLock path source => "failed to write lock file " +:+ path +:+ ": " +:+ ioe_display source
  | Spawn message => "failed to spawn supervisor process: " +:+ message
  | StopFailedAlive pid =>
      "failed to stop supervisor process " +:+ fmt_int pid +:+ "; process is still alive"
  | Startup message => "runtime startup failed: " +:+ message
  end.

(** ** The runtime log

    An entry of the log; [append_runtime_log] lets no failure be seen. *)
Record WorkerEventLog := { el_level : string; el_event : string; el_message : string }.
Definition log_entry (entry : WorkerEventLog) (log : list WorkerEventLog) :
    list WorkerEventLog * result io_error () := (log ++ [entry], Ok ()).
Definition append_runtime_log {E} (paths : StatePaths) (level event message : string) :
    IO (list WorkerEventLog) E () :=
  _ ← read_clock;
  parent ← attempt (match path_parent (runtime_log_path paths) with
                    | Some parent => sys (create_dir_all parent)
                    | None => mret ()
                    end);
  match parent with
  | Err _ => mret ()
  | Ok _ =>
      _ ← attempt (sys (log_entry {| el_level := level; el_event := event;
                                     el_message := message |}));
      mret ()
  end.
