(* ===== verification/WorkerRegistry.v ===== *)
(** * Health of the workers

    [src/src/runtime/worker_registry.rs]: the events the workers of the daemon
    send to their supervisor, the health record they are folded into, and the
    registry of worker states. *)
From S2P Require Import Prelude RustStr Io Json StatePaths.

Local Open Scope string_scope.

Inductive WorkerEvent :=
  | EvStarted (worker_id : string) (at_ : Z)
  | EvHeartbeat (worker_id : string) (at_ : Z)
  | EvError (worker_id : string) (at_ : Z) (message : string) (fatal : bool)
  | EvStopped (worker_id : string) (at_ : Z).
Definition event_worker (e : WorkerEvent) : string :=
  match e with
  | EvStarted id _ | EvHeartbeat id _ | EvError id _ _ _ | EvStopped id _ => id
  end.

Inductive WorkerKind :=
  | KQueueProcessor | KOrchestrator | KMemory | KChannelAdapter (channel : string) | KHeartbeat.
#[export] Instance WorkerKind_eq_dec : EqDecision WorkerKind.
Proof. solve_decision. Defined.

Inductive WorkerState := WStopped | WRunning | WError.
#[export] Instance WorkerState_eq_dec : EqDecision WorkerState.
Proof. solve_decision. Defined.

Record WorkerHealth := {
  wh_state : WorkerState;
  wh_last_heartbeat : option Z;
  wh_last_error : option string;
}.
Definition WorkerHealth_default : WorkerHealth :=
  {| wh_state := WStopped; wh_last_heartbeat := None; wh_last_error := None |}.

(** [workers.entry(id).or_default()], updated in place. *)
Definition update_health (worker_id : string) (f : WorkerHealth → WorkerHealth)
    (workers : list (string * WorkerHealth)) : list (string * WorkerHealth) :=
  map_insert worker_id
    (f (from_option id WorkerHealth_default (map_get worker_id workers))) workers.

(** [apply_worker_event(&mut workers, &mut active, event)]. *)
Definition apply_worker_event (event : WorkerEvent)
    (v : list (string * WorkerHealth) * gset string) :
    list (string * WorkerHealth) * gset string * option WorkerEventLog :=
  let '(workers, active) := v in
  match event with
  | EvStarted id now =>
      (update_health id (λ entry, {| wh_state := WRunning; wh_last_heartbeat := Some now;
                                     wh_last_error := wh_last_error entry |}) workers,
       active, Some {| el_level := "info"; el_event := "worker.started"; el_message := id |})
  | EvHeartbeat id now =>
      (update_health id (λ _, {| wh_state := WRunning; wh_last_heartbeat := Some now;
                                 wh_last_error := None |}) workers,
       active, None)
  | EvError id now message fatal =>
      (update_health id (λ _, {| wh_state := WError; wh_last_heartbeat := Some now;
                                 wh_last_error := Some message |}) workers,
       active, Some {| el_level := if fatal then "error" else "warn"; el_event := "worker.error";
                       el_message := id +:+ ": " +:+ message |})
  | EvStopped id now =>
      (update_health id (λ entry, {|
         wh_state := if decide (wh_state entry = WError) then WError else WStopped;
         wh_last_heartbeat := Some now; wh_last_error := wh_last_error entry |}) workers,
       active ∖ {[ id ]},
       Some {| el_level := "info"; el_event := "worker.stopped"; el_message := id |})
  end.

(** ** [WorkerRegistry]

    A [HashMap] from kinds to states. *)
Definition WorkerRegistry : Type := list (WorkerKind * WorkerState).
Definition registry_state (worker : WorkerKind) (r : WorkerRegistry) : option WorkerState :=
  snd <$> find (λ entry, bool_decide (entry.1 = worker)) r.
Definition register (worker : WorkerKind) (r : WorkerRegistry) : WorkerRegistry :=
  match registry_state worker r with Some _ => r | None => (worker, WStopped) :: r end.
(** [if let Some(state) = workers.get_mut(worker) { *state = .. }] *)
Definition set_worker_state (state : WorkerState) (worker : WorkerKind) (r : WorkerRegistry) :
    WorkerRegistry :=
  map (λ entry, if bool_decide (entry.1 = worker) then (worker, state) else entry) r.
Definition registry_start : WorkerKind → WorkerRegistry → WorkerRegistry := set_worker_state WRunning.
Definition registry_stop : WorkerKind → WorkerRegistry → WorkerRegistry := set_worker_state WStopped.
Definition registry_fail : WorkerKind → WorkerRegistry → WorkerRegistry := set_worker_state WError.
