(* ===== verification/QueueWorker.v ===== *)
(** * The queue worker

    The first half of [src/src/runtime/queue_worker.rs]: what happens to one
    claimed message ([process_claimed_message]), the claiming of messages, and
    the worker loop with its threads as a step relation.  A thread's work is one
    step, at any moment between its start and the receipt of its completion. *)
From S2P Require Import Prelude RustStr RustPath Io Json QueueMessage QueueScheduler QueueLifecycle Recovery Config OrchestratorFile OrchestratorError WorkspaceAccess RunStore WorkflowEngine SlackTarget Scheduler Selector Transitions Conversation RunReplies Routing WorkerRegistry.
From Stdlib Require Import Ascii.

Local Open Scope string_scope.
Local Open Scope list_scope.

Definition QUEUE_MAX_CONCURRENCY : nat := 4.
Definition QUEUE_MIN_POLL_MS : Z := 100.
Definition QUEUE_MAX_POLL_MS : Z := 1000.

Record ScopedClaimedMessage := { sc_queue_paths : QueuePaths; sc_claimed : ClaimedMessage }.
Record QueueTaskCompletion := { qc_key : OrderingKey; qc_error : option string }.

Definition QueueError_display (e : QueueError) : string :=
  match e with
  | QIo path source => "queue io error at " +:+ path +:+ ": " +:+ ioe_display source
  | QParse path source => "invalid queue payload in " +:+ path +:+ ": " +:+ source
  end.

Definition queue_max_requeue_attempts (env_value : option string) : Z :=
  match env_value ≫= parse_u32 with
  | Some value => if bool_decide (0 < value)%Z then value else 3
  | None => 3
  end.

Definition collect_orchestrator_queue_paths (settings : Settings) :
    result string (list QueuePaths) :=
  for_fold (λ paths orchestrator_id,
    root ← map_err ConfigError_display (resolve_orchestrator_runtime_root settings orchestrator_id);
    Ok (paths ++ [from_state_root root])) (map_keys (s_orchestrators settings)) [].

(** ** Where a reply goes *)
Definition resolve_outbound_slack_target
    (decode_envelope : string → result string ScheduledTriggerEnvelope) (settings : Settings)
    (inbound : IncomingMessage) : result string (option SlackTargetRef) :=
  if String.eqb (im_channel inbound) "slack" then
    channel_profile_id ← ok_or "slack message missing channel_profile_id"
                           (im_channel_profile_id inbound);
    conversation_id ← ok_or "slack message missing conversation_id" (im_conversation_id inbound);
    Some <$> slack_target_from_conversation channel_profile_id conversation_id
  else if String.eqb (im_channel inbound) "scheduler" then
    envelope ← parse_trigger_envelope decode_envelope (im_message inbound);
    slack_target ← match te_target_ref envelope with
                   | Some value => parse_slack_target_ref value "targetRef"
                   | None => Ok None
                   end;
    validate_profile_mapping settings (te_orchestrator_id envelope) slack_target ;;
    Ok slack_target
  else Ok None.

Record OutboundContext := {
  oc_channel : string;
  oc_channel_profile_id : option string;
  oc_conversation_id : option string;
  oc_target_ref : option Value;
}.
Definition outbound_context (inbound : IncomingMessage) (target : option SlackTargetRef) :
    OutboundContext :=
  match target with
  | Some target =>
      {| oc_channel := "slack";
         oc_channel_profile_id := Some (st_channel_profile_id target);
         oc_conversation_id := Some
           (match st_posting_mode target with
            | ChannelPost => st_channel_id target
            | ThreadReply => st_channel_id target +:+ ":" +:+ from_option id "" (st_thread_ts target)
            end);
         oc_target_ref := Some (slack_target_ref_to_value target) |}
  | None =>
      {| oc_channel := im_channel inbound;
         oc_channel_profile_id := im_channel_profile_id inbound;
         oc_conversation_id := im_conversation_id inbound; oc_target_ref := None |}
  end.
Definition outbound_context_for_inbound
    (decode_envelope : string → result string ScheduledTriggerEnvelope) (settings : Settings)
    (inbound : IncomingMessage) : OutboundContext :=
  outbound_context inbound
    (match resolve_outbound_slack_target decode_envelope settings inbound with
     | Ok target => target
     | Err _ => None
     end).

Definition outgoing_message (inbound : IncomingMessage) (ctx : OutboundContext)
    (message agent message_id : string) (timestamp : Z) : OutgoingMessage := {|
  om_channel := oc_channel ctx; om_channel_profile_id := oc_channel_profile_id ctx;
  om_sender := im_sender inbound; om_message := message;
  om_original_message := im_message inbound; om_timestamp := timestamp;
  om_message_id := message_id; om_agent := agent;
  om_conversation_id := oc_conversation_id ctx; om_target_ref := oc_target_ref ctx;
  om_files := []; om_workflow_run_id := im_workflow_run_id inbound;
  om_workflow_step_id := im_workflow_step_id inbound |}.

(** [responses.into_iter().enumerate().map(..)], from number [index] on. *)
Fixpoint reply_messages (inbound : IncomingMessage) (ctx : OutboundContext) (now : Z)
    (index : Z) (responses : list (string * string)) : list OutgoingMessage :=
  match responses with
  | [] => []
  | (message, agent) :: responses =>
      outgoing_message inbound ctx message agent (im_message_id inbound) (i64_sat_add now index)
        :: reply_messages inbound ctx now (index + 1) responses
  end.

(** [let _ = append_outbound_turn(..)] when the message has a conversation. *)
Definition record_outbound_turn {E} (root : string) (m : OutgoingMessage) : IO runtime E () :=
  match om_channel_profile_id m, om_conversation_id m with
  | Some channel_profile_id, Some conversation_id =>
      _ ← attempt (on_turns (append_outbound_turn root channel_profile_id conversation_id
            (om_message_id m) (om_timestamp m) (om_agent m) (om_message m)
            (om_workflow_run_id m) (om_workflow_step_id m)));
      mret ()
  | _, _ => mret ()
  end.

Section worker.
Context `{StepExecutor, MemoryService}.
Context (sha256 : string → list Z).
Context (parse_incoming : string → result string IncomingMessage)
  (parse_outgoing : string → result string OutgoingMessage)
  (encode_outgoing : OutgoingMessage → string)
  (encode_dead_letter : Z → Z → string → string → IncomingMessage → string)
  (is_file : string → bool).
Context (local_runtime : option LocalModel).
Context (canonicalize : string → result io_error string).
Context (from_path : string → result ConfigError OrchestratorConfig).
Context (decode_envelope : string → result string ScheduledTriggerEnvelope).
Context (json_to_string json_to_string_pretty : Value → string).
Context (decode_selector_result : string → result string SelectorResult)
  (encode_selector_result : SelectorResult → string).
Context (catalog : list (string * FunctionSchema)).
Context (execute_function : string → JMap → option string →
           IO run_store OrchestratorError Value).
Context (sample : nat → result string Z).
Context (next_attempt : SelectorRequest → OrchestratorConfig → Z →
           world run_store → world run_store * option string).
Context (settings : Settings).
Context (max_requeue_env : option string).

Local Abbreviation enqueue_reply root paths message :=
  (at_root root (on_queue (io_map_err QueueError_display
     (enqueue_outgoing encode_outgoing is_file paths message)))).

Definition resolve_active_conversation_runs (root : string) (payload : IncomingMessage) :
    IO run_store string (gmap (string * string) string) :=
  match im_channel_profile_id payload, im_conversation_id payload with
  | Some channel_profile_id, Some conversation_id =>
      latest ← attempt (latest_run_for_conversation root channel_profile_id conversation_id false);
      mret (match latest with
            | Ok (Some run) => {[ (channel_profile_id, conversation_id) := wr_run_id run ]}
            | _ => ∅
            end)
  | _, _ => mret ∅
  end.

Definition enqueue_workflow_selection_ack (paths : QueuePaths) (inbound : IncomingMessage)
    (workflow_id : string) : IO machine string () :=
  target ← lift (resolve_outbound_slack_target decode_envelope settings inbound);
  now ← read_clock;
  let outgoing := outgoing_message inbound (outbound_context inbound target)
    ("Actioning workflow " +:+ workflow_id +:+ "...") "orchestrator"
    (im_message_id inbound +:+ "-workflow-ack") now in
  at_root (qp_root paths) (record_outbound_turn (qp_root paths) outgoing) ;;
  enqueue_reply (qp_root paths) paths outgoing ;;
  mret ().

Definition enqueue_dead_letter_failure_notification (paths : QueuePaths)
    (inbound : IncomingMessage) (failure_attempt : Z) (queue_error : string) :
    IO machine string () :=
  let root := qp_root paths in
  latest_run ← at_root root (on_runs (io_map_err error_display
    (latest_run_for_source_message_id root (im_message_id inbound))));
  attempts ← match latest_run with
             | Some run => at_root root (on_runs (step_attempts_by_time root (wr_run_id run)))
             | None => mret []
             end;
  now ← read_clock;
  enqueue_reply root paths (outgoing_message inbound
    (outbound_context_for_inbound decode_envelope settings inbound)
    (render_dead_letter_failure_message latest_run attempts failure_attempt queue_error)
    "orchestrator" (im_message_id inbound) now) ;;
  mret ().

(** The closure given to the router. *)
Definition on_workflow_selected (scoped : ScopedClaimedMessage) (workflow_id : string)
    (workflow_step_count : nat) : IO machine OrchestratorError () :=
  if (1 <? workflow_step_count)%nat then
    io_map_err ConfigErr (enqueue_workflow_selection_ack (sc_queue_paths scoped)
      (cm_payload (sc_claimed scoped)) workflow_id)
  else mret ().

Definition route_claimed (scoped : ScopedClaimedMessage) :
    IO machine OrchestratorError (option RoutedSelectorAction) :=
  let root := qp_root (sc_queue_paths scoped) in
  let inbound := cm_payload (sc_claimed scoped) in
  active ← io_map_err (λ _, SelectorValidation "")
    (at_root root (on_runs (resolve_active_conversation_runs root inbound)));
  now ← read_clock;
  process_queued_message_with_runner_binaries_and_hook local_runtime canonicalize from_path
    decode_envelope json_to_string decode_selector_result encode_selector_result
    execute_function sample next_attempt settings inbound now active (v1_defaults catalog)
    (on_workflow_selected scoped).

(** The [Err(err)] arm: the message goes back or is given up. *)
Definition settle_failure (scoped : ScopedClaimedMessage) (err : OrchestratorError) :
    IO machine string (option ()) :=
  let paths := sc_queue_paths scoped in
  let error_text := error_display err in
  let max_requeue_attempts := queue_max_requeue_attempts max_requeue_env in
  failure_result ← attempt (at_root (qp_root paths) (on_queue
    (requeue_or_dead_letter_failure sha256 encode_dead_letter paths (sc_claimed scoped)
       max_requeue_attempts error_text)));
  match failure_result with
  | Ok (Requeued requeued) =>
      throw (String.concat "" [error_text; " (requeued attempt "; fmt_int (rm_attempt requeued);
        " of max "; fmt_int max_requeue_attempts; ")"])
  | Ok (DeadLettered name attempt_no) =>
      let path := path_join (qp_failed paths) name in
      notified ← attempt (enqueue_dead_letter_failure_notification paths
        (cm_payload (sc_claimed scoped)) attempt_no error_text);
      match notified with
      | Ok _ => throw (String.concat "" [error_text; " (dead-lettered after attempt ";
                  fmt_int attempt_no; "; path="; path; ")"])
      | Err notify_err => throw (String.concat "" [error_text; " (dead-lettered after attempt ";
                  fmt_int attempt_no; "; path="; path;
                  "; additionally failed to enqueue failure notification: "; notify_err; ")"])
      end
  | Err queue_err =>
      throw (String.concat "" [error_text; " (additionally failed to handle queue failure: ";
        QueueError_display queue_err; ")"])
  end.

Fixpoint record_outbound_turns (root : string) (outgoing : list OutgoingMessage) :
    IO runtime string () :=
  match outgoing with
  | [] => mret ()
  | m :: outgoing => record_outbound_turn root m ;; record_outbound_turns root outgoing
  end.

(** What follows a routed message. *)
Definition settle_success (scoped : ScopedClaimedMessage) (action : RoutedSelectorAction) :
    IO machine string (option ()) :=
  let paths := sc_queue_paths scoped in
  let root := qp_root paths in
  let inbound := cm_payload (sc_claimed scoped) in
  match action with
  | RNoResponse _ =>
      at_root root (on_queue (io_map_err QueueError_display
        (complete_success_no_outgoing paths (sc_claimed scoped)))) ;;
      mret (Some ())
  | _ =>
      responses ← at_root root (on_runs
        (action_to_outbound_messages json_to_string json_to_string_pretty root action));
      target ← lift (resolve_outbound_slack_target decode_envelope settings inbound);
      now ← read_clock;
      let outgoing := reply_messages inbound (outbound_context inbound target) now 0 responses in
      at_root root (record_outbound_turns root outgoing) ;;
      at_root root (on_queue (io_map_err QueueError_display
        (complete_success_many encode_outgoing is_file paths (sc_claimed scoped) outgoing))) ;;
      mret (Some ())
  end.

(** [None]: the workflow engine ran out of fuel, which it never does. *)
Definition process_claimed_message (scoped : ScopedClaimedMessage) :
    IO machine string (option ()) :=
  action ← attempt (route_claimed scoped);
  match action with
  | Ok (Some action) => settle_success scoped action
  | Ok None => mret None
  | Err err => settle_failure scoped err
  end.

(** ** Claiming *)
Definition recover_processing_queue_entries_for_settings :
    IO machine string ProcessingRecoveryReport :=
  queue_sets ← lift (collect_orchestrator_queue_paths settings);
  io_for_fold (λ report paths,
    recovered ← at_root (qp_root paths) (on_queue
      (recover_queue_processing_paths sha256 parse_incoming parse_outgoing paths));
    mret {| pr_recovered := pr_recovered report ++ pr_recovered recovered;
            pr_dropped_duplicates := pr_dropped_duplicates report
              ++ pr_dropped_duplicates recovered |})
    queue_sets {| pr_recovered := []; pr_dropped_duplicates := [] |}.

(** The variables of the claiming loop. *)
Record claims := {
  cl_scheduler : PerKeyScheduler ScopedClaimedMessage;
  cl_budget : nat;
  cl_any : bool;
  cl_events : list WorkerEvent;
}.
Definition claim_one (paths : QueuePaths) (claimed : ClaimedMessage) (c : claims) : claims := {|
  cl_scheduler := enqueue (cl_scheduler c) (derive_ordering_key (cm_payload claimed))
    {| sc_queue_paths := paths; sc_claimed := claimed |};
  cl_budget := cl_budget c - 1; cl_any := true; cl_events := cl_events c |}.

(** [for queue_paths in &queue_sets] *)
Fixpoint claim_round (worker_id : string) (queue_sets : list QueuePaths) (c : claims) :
    IO machine string claims :=
  match queue_sets with
  | [] => mret c
  | paths :: queue_sets =>
      claimed ← attempt (at_root (qp_root paths) (on_queue
        (claim_oldest sha256 parse_incoming paths)));
      match claimed with
      | Ok (Some claimed) =>
          let c := claim_one paths claimed c in
          if (cl_budget c =? 0)%nat then mret c else claim_round worker_id queue_sets c
      | Ok None => claim_round worker_id queue_sets c
      | Err err =>
          now ← read_clock;
          claim_round worker_id queue_sets
            {| cl_scheduler := cl_scheduler c; cl_budget := cl_budget c; cl_any := cl_any c;
               cl_events := cl_events c
                 ++ [EvError worker_id now (QueueError_display err) false] |}
      end
  end.

(** [while claim_budget > 0]; a pass that claims nothing ends the loop, any other
    lowers the budget, so as many passes as the budget are enough. *)
Fixpoint claim_loop (fuel : nat) (worker_id : string) (queue_sets : list QueuePaths)
    (c : claims) : IO machine string claims :=
  match fuel with
  | O => mret c
  | S fuel =>
      if (cl_budget c =? 0)%nat then mret c else
      c ← claim_round worker_id queue_sets
            {| cl_scheduler := cl_scheduler c; cl_budget := cl_budget c; cl_any := false;
               cl_events := cl_events c |};
      if cl_any c then claim_loop fuel worker_id queue_sets c else mret c
  end.
Definition claim_phase (worker_id : string) (max_concurrency : nat)
    (queue_sets : list QueuePaths) (scheduler : PerKeyScheduler ScopedClaimedMessage) :
    IO machine string claims :=
  let claim_budget := max_concurrency * 4 in
  claim_loop claim_budget worker_id queue_sets
    {| cl_scheduler := scheduler; cl_budget := claim_budget; cl_any := false; cl_events := [] |}.

(** [let _ = queue::requeue_failure(..)] for every pending message. *)
Fixpoint requeue_pending (pending : list (Scheduled ScopedClaimedMessage)) :
    IO machine string () :=
  match pending with
  | [] => mret ()
  | item :: pending =>
      let paths := sc_queue_paths (value item) in
      _ ← attempt (at_root (qp_root paths) (on_queue
            (requeue_failure sha256 paths (sc_claimed (value item)))));
      requeue_pending pending
  end.

(** ** The loop

    Where the loop stands: at its top, receiving completions without waiting
    ([try_recv]) after having read [stopping], or stopped. *)
Inductive control := AtTop | Draining (stopping : bool) | LoopStopped.

Record loop_state := {
  ls_world : world machine;
  ls_stop : bool;                                       (** the shared flag *)
  ls_control : control;
  ls_scheduler : PerKeyScheduler ScopedClaimedMessage;
  ls_in_flight : nat;
  ls_backoff_ms : Z;
  ls_threads : list (Scheduled ScopedClaimedMessage);   (** started, not finished *)
  ls_channel : list QueueTaskCompletion;                (** sent, not received *)
  ls_events : list WorkerEvent;
}.

Section loop.
Context (worker_id : string) (max_concurrency : nat) (queue_sets : list QueuePaths).

(** Claim and start: the first half of an iteration that is not stopping. *)
Definition available_slots (in_flight : nat) : nat := max_concurrency - in_flight.
Definition begin_iteration (s : loop_state) (w : world machine) (c : claims) : loop_state :=
  let available := available_slots (ls_in_flight s) in
  let '(scheduler, batch) :=
    if (0 <? available)%nat then dequeue_runnable (cl_scheduler c) available
    else (cl_scheduler c, []) in
  {| ls_world := w; ls_stop := ls_stop s; ls_control := Draining false;
     ls_scheduler := scheduler; ls_in_flight := ls_in_flight s + length batch;
     ls_backoff_ms := ls_backoff_ms s; ls_threads := ls_threads s ++ batch;
     ls_channel := ls_channel s; ls_events := ls_events s ++ cl_events c |}.

(** [handle_queue_task_completion] *)
Definition completion_event (done_ : QueueTaskCompletion) (now : Z) : WorkerEvent :=
  match qc_error done_ with
  | Some message => EvError worker_id now message false
  | None => EvHeartbeat worker_id now
  end.
Definition handle_queue_task_completion (done_ : QueueTaskCompletion) (now : Z) (s : loop_state) :
    loop_state :=
  {| ls_world := ls_world s; ls_stop := ls_stop s; ls_control := ls_control s;
     ls_scheduler := complete (ls_scheduler s) (qc_key done_);
     ls_in_flight := ls_in_flight s - 1; ls_backoff_ms := ls_backoff_ms s;
     ls_threads := ls_threads s; ls_channel := ls_channel s;
     ls_events := ls_events s ++ [completion_event done_ now] |}.

Definition at_control (c : control) (s : loop_state) : loop_state :=
  {| ls_world := ls_world s; ls_stop := ls_stop s; ls_control := c;
     ls_scheduler := ls_scheduler s; ls_in_flight := ls_in_flight s;
     ls_backoff_ms := ls_backoff_ms s; ls_threads := ls_threads s;
     ls_channel := ls_channel s; ls_events := ls_events s |}.
Definition with_channel (channel : list QueueTaskCompletion) (s : loop_state) : loop_state :=
  {| ls_world := ls_world s; ls_stop := ls_stop s; ls_control := ls_control s;
     ls_scheduler := ls_scheduler s; ls_in_flight := ls_in_flight s;
     ls_backoff_ms := ls_backoff_ms s; ls_threads := ls_threads s;
     ls_channel := channel; ls_events := ls_events s |}.
Definition with_event (e : WorkerEvent) (s : loop_state) : loop_state :=
  {| ls_world := ls_world s; ls_stop := ls_stop s; ls_control := ls_control s;
     ls_scheduler := ls_scheduler s; ls_in_flight := ls_in_flight s;
     ls_backoff_ms := ls_backoff_ms s; ls_threads := ls_threads s;
     ls_channel := ls_channel s; ls_events := ls_events s ++ [e] |}.
Definition with_backoff (backoff : Z) (s : loop_state) : loop_state :=
  {| ls_world := ls_world s; ls_stop := ls_stop s; ls_control := ls_control s;
     ls_scheduler := ls_scheduler s; ls_in_flight := ls_in_flight s;
     ls_backoff_ms := backoff; ls_threads := ls_threads s;
     ls_channel := ls_channel s; ls_events := ls_events s |}.
Definition raise_stop (s : loop_state) : loop_state :=
  {| ls_world := ls_world s; ls_stop := true; ls_control := ls_control s;
     ls_scheduler := ls_scheduler s; ls_in_flight := ls_in_flight s;
     ls_backoff_ms := ls_backoff_ms s; ls_threads := ls_threads s;
     ls_channel := ls_channel s; ls_events := ls_events s |}.

(** A thread ends: its message was processed and its completion sent. *)
Definition finish_thread (before after : list (Scheduled ScopedClaimedMessage))
    (item : Scheduled ScopedClaimedMessage) (s : loop_state) : loop_state :=
  let '(w, outcome) := process_claimed_message (value item) (ls_world s) in
  {| ls_world := w; ls_stop := ls_stop s; ls_control := ls_control s;
     ls_scheduler := ls_scheduler s; ls_in_flight := ls_in_flight s;
     ls_backoff_ms := ls_backoff_ms s; ls_threads := before ++ after;
     ls_channel := ls_channel s
       ++ [{| qc_key := key item;
              qc_error := match outcome with Ok _ => None | Err e => Some e end |}];
     ls_events := ls_events s |}.

(** The last acts of a stopping loop. *)
Definition shut_down (s : loop_state) (now : Z) : loop_state :=
  let '(scheduler, drained) := drain_pending (ls_scheduler s) in
  let '(w, _) := requeue_pending drained (ls_world s) in
  {| ls_world := w; ls_stop := ls_stop s; ls_control := LoopStopped;
     ls_scheduler := scheduler; ls_in_flight := ls_in_flight s;
     ls_backoff_ms := ls_backoff_ms s; ls_threads := ls_threads s;
     ls_channel := ls_channel s; ls_events := ls_events s ++ [EvStopped worker_id now] |}.

Definition is_idle (s : loop_state) : bool :=
  (pending_len (ls_scheduler s) =? 0)%nat && (ls_in_flight s =? 0)%nat.
Definition next_backoff (backoff_ms : Z) : Z := 
  Z.min (Z.min (backoff_ms * 2) u64_max) QUEUE_MAX_POLL_MS.

(** The other parts of the program share the disk: they put messages into
    [incoming], take replies from [outgoing], write run records, but leave the
    [processing] directories to the queue worker. *)
Definition outside (m m' : machine) : Prop :=
  ∀ root, q_processing (rt_queue (m' root)) = q_processing (rt_queue (m root)).
Definition with_machine (m : machine) (s : loop_state) : loop_state :=
  {| ls_world := World m (ev (ls_world s)); ls_stop := ls_stop s; ls_control := ls_control s;
     ls_scheduler := ls_scheduler s; ls_in_flight := ls_in_flight s;
     ls_backoff_ms := ls_backoff_ms s; ls_threads := ls_threads s;
     ls_channel := ls_channel s; ls_events := ls_events s |}.

(** The clock readings of the events are arbitrary. *)
Inductive loop_step : loop_state → loop_state → Prop :=
  | step_outside s m : outside (st (ls_world s)) m → loop_step s (with_machine m s)
  | step_stop s : loop_step s (raise_stop s)
  | step_thread s before item after :
      ls_threads s = before ++ item :: after →
      loop_step s (finish_thread before after item s)
  | step_begin s w c :
      ls_control s = AtTop → ls_stop s = false →
      claim_phase worker_id max_concurrency queue_sets (ls_scheduler s) (ls_world s) = (w, Ok c) →
      loop_step s (begin_iteration s w c)
  | step_begin_stopping s :
      ls_control s = AtTop → ls_stop s = true →
      loop_step s (at_control (Draining true) s)
  | step_receive s stopping done_ rest now :
      ls_control s = Draining stopping → ls_channel s = done_ :: rest →
      loop_step s (handle_queue_task_completion done_ now (with_channel rest s))
  | step_idle s now :
      ls_control s = Draining false → ls_channel s = [] → is_idle s = true → ls_stop s = false →
      loop_step s (with_backoff (next_backoff (ls_backoff_ms s))
                     (with_event (EvHeartbeat worker_id now) (at_control AtTop s)))
  | step_idle_stop s now now' :
      ls_control s = Draining false → ls_channel s = [] → is_idle s = true → ls_stop s = true →
      loop_step s (with_event (EvStopped worker_id now')
                     (with_event (EvHeartbeat worker_id now) (at_control LoopStopped s)))
  | step_busy s :
      ls_control s = Draining false → ls_channel s = [] → is_idle s = false →
      loop_step s (with_backoff QUEUE_MIN_POLL_MS (at_control AtTop s))
  | step_shut_down s now :
      ls_control s = Draining true → ls_channel s = [] → ls_in_flight s = 0%nat →
      loop_step s (shut_down s now)
  | step_await s :
      ls_control s = Draining true → ls_channel s = [] → ls_in_flight s ≠ 0%nat →
      loop_step s (at_control AtTop s)
  | step_await_receive s done_ rest now :
      ls_control s = Draining true → ls_channel s = done_ :: rest → ls_in_flight s ≠ 0%nat →
      loop_step s (at_control AtTop (handle_queue_task_completion done_ now (with_channel rest s))).

Definition loop_start (w : world machine) : loop_state := {|
  ls_world := w; ls_stop := false; ls_control := AtTop; ls_scheduler := default;
  ls_in_flight := 0; ls_backoff_ms := QUEUE_MIN_POLL_MS; ls_threads := []; ls_channel := [];
  ls_events := [] |}.
End loop.
End worker.
