(* ===== verification/QueueWorkerGuarantees.v ===== *)
(** * What the queue worker guarantees

    The worker loop implements a ledger of messages: messages are admitted, one
    message per ordering key runs at a time and at most [max_concurrency] in all,
    and what still waits when the worker stops is given back. *)
From S2P Require Import Prelude RustStr RustPath Io Json QueueMessage QueueScheduler QueueLifecycle QueueGuarantees Config OrchestratorFile OrchestratorError RunStore WorkflowEngine EngineGuarantees Scheduler Selector SelectorGuarantees Transitions TransitionGuarantees Routing RoutingGuarantees WorkerRegistry QueueWorker.

Local Open Scope string_scope.
Local Open Scope list_scope.

(** ** The ledger *)
Section ledger.
Context {T : Type} (max : nat).

Record ledger := Ledger {
  lg_waiting : list (Scheduled T);
  lg_running : gset OrderingKey;
}.
Definition empty_ledger : ledger := Ledger [] ∅.

Inductive ledger_step : ledger → ledger → Prop :=
  | ledger_admit waiting running item :
      ledger_step (Ledger waiting running) (Ledger (waiting ++ [item]) running)
  | ledger_start earlier item later running :
      key item ∉ (key <$> earlier) → key item ∉ running → (size running < max)%nat →
      ledger_step (Ledger (earlier ++ item :: later) running)
                  (Ledger (earlier ++ later) ({[key item]} ∪ running))
  | ledger_settle waiting running k :
      k ∈ running → ledger_step (Ledger waiting running) (Ledger waiting (running ∖ {[k]}))
  | ledger_give_back waiting :
      ledger_step (Ledger waiting ∅) (Ledger [] ∅).

Lemma ledger_bounded l l' :
  rtc ledger_step l l' → (size (lg_running l) ≤ max)%nat → (size (lg_running l') ≤ max)%nat.
Proof.
  induction 1 as [|l1 l2 l3 Hstep _ IH]; intros Hl; [done|]. apply IH.
  destruct Hstep; simpl in *; [done| | |done].
  - rewrite size_union by set_solver. rewrite size_singleton. lia.
  - etrans; [|exact Hl]. apply subseteq_size. set_solver.
Qed.

Lemma ledger_admits waiting items running :
  rtc ledger_step (Ledger waiting running) (Ledger (waiting ++ items) running).
Proof.
  revert waiting. induction items as [|i items IH]; intros waiting; [by rewrite app_nil_r|].
  eapply rtc_l; [constructor|]. specialize (IH (waiting ++ [i])). by rewrite <- app_assoc in IH.
Qed.

Lemma active_size n (a0 : gset OrderingKey) (done sel : list (Scheduled T)) sk rem act :
  loop_inv n a0 done sel sk rem act → size act = size a0 + length sel.
Proof.
  intros [_ _ _ Hnd Hidle _ -> _]. rewrite size_union.
  - by rewrite size_list_to_set, length_fmap.
  - intros k Hk (i & -> & Hi)%elem_of_list_to_set%list_elem_of_fmap. by apply (Hidle i).
Qed.

(** A batch is a sequence of starts. *)
Lemma dequeue_loop_starts n a0 todo : ∀ done sel sk rem act,
  loop_inv n a0 done sel sk rem act → (size a0 + n ≤ max)%nat →
  let '(_, rem', act') := dequeue_loop n todo sel sk rem act in
  rtc ledger_step (Ledger (rem ++ todo) act) (Ledger rem' act').
Proof.
  induction todo as [|item todo IH]; intros done sel sk rem act Hinv Hmax; cbn [dequeue_loop].
  { by rewrite app_nil_r. }
  pose proof (loop_inv_step _ _ _ _ _ _ _ item Hinv) as Hstep. cbn zeta in Hstep.
  destruct (negb _ && _) eqn:Hcond; specialize (IH _ _ _ _ _ Hstep Hmax).
  2:{ rewrite <- app_assoc in IH. exact IH. }
  destruct (dequeue_loop _ _ _ _ _ _) as [[sel' rem'] act'].
  apply andb_true_iff in Hcond as [Hbusy Hlen%Nat.ltb_lt].
  apply negb_true_iff, orb_false_iff in Hbusy as [Hact%bool_decide_eq_false _].
  eapply rtc_l; [|exact IH]. constructor; [|done|].
  - intros (i & Hki & Hi)%list_elem_of_fmap.
    destruct (li_blocked _ _ _ _ _ _ _ Hinv i Hi); [by rewrite <- Hki in *|lia].
  - rewrite (active_size _ _ _ _ _ _ _ Hinv). lia.
Qed.
Lemma dequeue_starts (s : PerKeyScheduler T) n :
  (size (active_keys s) + n ≤ max)%nat →
  let '(s', _) := dequeue_runnable s n in
  rtc ledger_step (Ledger (pending s) (active_keys s)) (Ledger (pending s') (active_keys s')).
Proof.
  intros Hmax. unfold dequeue_runnable. destruct (_ || _); [done|].
  pose proof (dequeue_loop_starts n (active_keys s) (pending s) [] [] ∅ [] (active_keys s)) as H.
  destruct (dequeue_loop _ _ _ _ _ _) as [[sel rem] act]. apply H; [|done].
  split; try done; try set_solver; [simpl; lia|]. apply NoDup_nil_2.
Qed.
(** The keys of the batch are the new active keys. *)
Lemma dequeue_active (s : PerKeyScheduler T) n s' batch :
  dequeue_runnable s n = (s', batch) →
  size (active_keys s') = size (active_keys s) + length batch
  ∧ elements (active_keys s') ≡ₚ elements (active_keys s) ++ (key <$> batch).
Proof.
  intros Hd. destruct (dequeue_runnable_inv _ _ _ _ Hd) as [Hpos Hzero].
  destruct n as [|n].
  { destruct Hzero as [-> ->]; [done|]. simpl. rewrite app_nil_r. split; [lia|done]. }
  destruct Hpos as [sk Hinv]; [lia|]. split; [by eapply active_size|].
  destruct Hinv as [_ _ _ Hnd Hidle _ -> _]. rewrite elements_disj_union.
  - f_equiv. by rewrite elements_list_to_set.
  - intros k Hk (i & -> & Hi)%elem_of_list_to_set%list_elem_of_fmap. by apply (Hidle i).
Qed.
End ledger.
Arguments ledger : clear implicits.
Arguments Ledger {T} _ _.
Arguments lg_waiting {T} _.
Arguments lg_running {T} _.

(** ** Claiming *)
Section worker.
Context `{StepExecutor, MemoryService}.
Context (sha256 : string → list Z).
Context (parse_incoming : string → result string IncomingMessage)
  (encode_outgoing : OutgoingMessage → string)
  (encode_dead_letter : Z → Z → string → string → IncomingMessage → string)
  (is_file : string → bool).
Context (local_runtime : option LocalModel).
Context (canonicalize : string → result io_error string).
Context (from_path : string → result ConfigError OrchestratorConfig).
Context (decode_envelope : string → result string ScheduledTriggerEnvelope).
Context (json_to_string json_to_string_pretty : Value → string).
Context (decode_selector_result : string → result string SelectorResult)
  (encode_selector_result : SelectorResult → string).
Context (catalog : list (string * FunctionSchema)).
Context (execute_function : string → JMap → option string →
           IO run_store OrchestratorError Value).
Context (sample : nat → result string Z).
Context (next_attempt : SelectorRequest → OrchestratorConfig → Z →
           world run_store → world run_store * option string).
Context (settings : Settings).
Context (max_requeue_env : option string).
Context (worker_id : string) (max_concurrency : nat) (queue_sets : list QueuePaths).

Local Abbreviation step := (loop_step sha256 parse_incoming encode_outgoing encode_dead_letter
  is_file local_runtime canonicalize from_path decode_envelope json_to_string
  json_to_string_pretty decode_selector_result encode_selector_result catalog execute_function
  sample next_attempt settings max_requeue_env worker_id max_concurrency queue_sets).

(** [c'] is [c] with [n] more messages at the end of the queue, each under its key. *)
Definition claimed_more (n : nat) (c c' : claims) : Prop :=
  ∃ items : list (Scheduled ScopedClaimedMessage),
    pending (cl_scheduler c') = pending (cl_scheduler c) ++ items
    ∧ active_keys (cl_scheduler c') = active_keys (cl_scheduler c)
    ∧ length items = n
    ∧ Forall (λ i, key i = derive_ordering_key (cm_payload (sc_claimed (value i)))
                   ∧ sc_queue_paths (value i) ∈ queue_sets) items.
Lemma claimed_more_refl c : claimed_more 0 c c.
Proof. exists []. by rewrite app_nil_r. Qed.
Lemma claimed_more_trans m n c1 c2 c3 :
  claimed_more m c1 c2 → claimed_more n c2 c3 → claimed_more (m + n) c1 c3.
Proof.
  intros (i1 & Hp1 & Ha1 & Hl1 & Hf1) (i2 & Hp2 & Ha2 & Hl2 & Hf2). exists (i1 ++ i2).
  split; [by rewrite Hp2, Hp1, app_assoc|]. split; [congruence|].
  split; [by rewrite length_app, Hl1, Hl2|by apply Forall_app].
Qed.
Lemma claim_one_more paths claimed c :
  paths ∈ queue_sets → claimed_more 1 c (claim_one paths claimed c).
Proof.
  intros Hp. eexists [_]. split; [reflexivity|]. split; [done|]. split; [done|].
  apply Forall_singleton. by split.
Qed.

Lemma wp_claim_oldest root paths s
    (Φ : result string (result QueueError (option ClaimedMessage)) → machine → Prop) :
  (∀ r s', Φ (Ok r) s') →
  wp false (attempt (at_root root (on_queue (claim_oldest sha256 parse_incoming paths)))) Φ s.
Proof.
  intros HΦ e He. unfold attempt.
  destruct (at_root root _ (World s e)) as [w r]. split; [done|apply HΦ].
Qed.

Lemma wp_claim_round qs c s :
  (∀ paths, paths ∈ qs → paths ∈ queue_sets) → (0 < cl_budget c)%nat →
  wp false (claim_round sha256 parse_incoming worker_id qs c)
    (λ r _, ∃ c' n, r = Ok c' ∧ claimed_more n c c' ∧ cl_budget c = n + cl_budget c'
                    ∧ (cl_any c' = true → cl_any c = true ∨ 0 < n)%nat) s.
Proof.
  revert c s. induction qs as [|paths qs IH]; intros c s Hqs Hb; cbn [claim_round].
  { apply wp_ret. exists c, 0. split; [done|]. split; [apply claimed_more_refl|]. auto. }
  apply wp_bind, wp_claim_oldest. intros [[claimed|]|err] s1.
  - pose proof (claim_one_more paths claimed c (Hqs paths ltac:(left))) as H1.
    destruct (Nat.eqb_spec (cl_budget (claim_one paths claimed c)) 0) as [Hz|Hz];
      simpl in Hz.
    + apply wp_ret. eexists _, 1. split; [done|]. split; [done|]. simpl. split; [lia|auto].
    + eapply wp_mono; [apply IH; [set_solver|simpl; lia]|].
      intros r s' (c' & n & -> & Hc & Hbud & Hany). exists c', (1 + n). split; [done|].
      split; [by eapply claimed_more_trans|]. simpl in Hbud. split; [lia|]. intros _. right. lia.
  - apply IH; [set_solver|done].
  - apply wp_bind, wp_clock. intros t. eapply wp_mono; [apply IH; [set_solver|done]|].
    intros r s' (c' & n & -> & Hc & Hbud & Hany). by exists c', n.
Qed.

Lemma wp_claim_loop fuel c s :
  wp false (claim_loop sha256 parse_incoming fuel worker_id queue_sets c)
    (λ r _, ∃ c' n, r = Ok c' ∧ claimed_more n c c' ∧ cl_budget c = n + cl_budget c') s.
Proof.
  revert c s. induction fuel as [|fuel IH]; intros c s; cbn [claim_loop].
  { apply wp_ret. exists c, 0. split; [done|]. by split; [apply claimed_more_refl|]. }
  destruct (Nat.eqb_spec (cl_budget c) 0) as [Hz|Hz].
  { apply wp_ret. exists c, 0. split; [done|]. by split; [apply claimed_more_refl|]. }
  apply wp_bind. eapply wp_mono; [apply wp_claim_round; [done|simpl; lia]|].
  intros r s1 (c1 & n1 & -> & Hc1 & Hb1 & _). simpl in Hb1.
  destruct (cl_any c1); [|by apply wp_ret; exists c1, n1].
  eapply wp_mono; [apply IH|]. intros r s2 (c2 & n2 & -> & Hc2 & Hb2).
  exists c2, (n1 + n2). split; [done|]. split; [|lia].
  eapply claimed_more_trans; [exact Hc1|exact Hc2].
Qed.

Lemma claim_phase_spec scheduler w w' c :
  claim_phase sha256 parse_incoming worker_id max_concurrency queue_sets scheduler w = (w', Ok c) →
  ∃ items, pending (cl_scheduler c) = pending scheduler ++ items
    ∧ active_keys (cl_scheduler c) = active_keys scheduler
    ∧ (length items ≤ 4 * max_concurrency)%nat
    ∧ Forall (λ i, key i = derive_ordering_key (cm_payload (sc_claimed (value i)))
                   ∧ sc_queue_paths (value i) ∈ queue_sets) items.
Proof.
  intros Hrun. unfold claim_phase in Hrun.
  match type of Hrun with claim_loop _ _ ?f _ _ ?c0 _ = _ =>
    pose proof (wp_run _ _ _ w (wp_claim_loop f c0 (st w)) ltac:(done)) as Hc end.
  rewrite Hrun in Hc. destruct Hc as (c' & n & [= <-] & (items & Hp & Ha & Hl & Hf) & Hb).
  exists items. simpl in *. split; [done|]. split; [done|]. split; [lia|done].
Qed.

(** ** The loop implements the ledger *)
Record represents (s : loop_state) (l : ledger ScopedClaimedMessage) : Prop := {
  rp_waiting : lg_waiting l = pending (ls_scheduler s);
  rp_running : lg_running l = active_keys (ls_scheduler s);
  rp_in_flight : ls_in_flight s = size (active_keys (ls_scheduler s));
  rp_tasks : (key <$> ls_threads s) ++ (qc_key <$> ls_channel s)
             ≡ₚ elements (active_keys (ls_scheduler s));
  rp_stopped : ls_control s = LoopStopped →
    pending (ls_scheduler s) = [] ∧ active_keys (ls_scheduler s) = ∅;
}.

(** What only moves control, events, backoff, the flag or the world keeps the ledger. *)
Lemma represents_same s s' l :
  ls_scheduler s' = ls_scheduler s → ls_in_flight s' = ls_in_flight s →
  (key <$> ls_threads s') ++ (qc_key <$> ls_channel s')
    ≡ₚ (key <$> ls_threads s) ++ (qc_key <$> ls_channel s) →
  (ls_control s' = LoopStopped → ls_control s = LoopStopped
   ∨ (pending (ls_scheduler s) = [] ∧ active_keys (ls_scheduler s) = ∅)) →
  represents s l → represents s' l.
Proof.
  intros Hs Hf Ht Hc []. split; rewrite ?Hs, ?Hf, ?Ht; try done.
  intros [?|?]%Hc; auto.
Qed.

Lemma represents_received s l done_ rest now c :
  represents s l → ls_control s ≠ LoopStopped → c ≠ LoopStopped → ls_channel s = done_ :: rest →
  ∃ l', ledger_step max_concurrency l l'
    ∧ represents (at_control c (handle_queue_task_completion worker_id done_ now
                                  (with_channel rest s))) l'.
Proof.
  intros [Hw Hr Hf Ht Hst] Hns Hc Hch. destruct l as [waiting running]. simpl in *. subst.
  rewrite Hch in Ht. simpl in Ht.
  assert (qc_key done_ ∈ active_keys (ls_scheduler s)) as Hk.
  { apply elem_of_elements. rewrite <- Ht. set_solver. }
  assert (elements (active_keys (ls_scheduler s))
          ≡ₚ qc_key done_ :: elements (active_keys (ls_scheduler s) ∖ {[qc_key done_]})) as He.
  { rewrite <- elements_union_singleton by set_solver. f_equiv.
    rewrite <- union_difference_singleton_L; done. }
  eexists. split; [by apply ledger_settle|]. split; simpl; try done.
  - rewrite size_difference by set_solver. rewrite size_singleton, Hf. done.
  - rewrite He in Ht. rewrite <- Permutation_middle in Ht. by apply Permutation_cons_inv in Ht.
Qed.

Lemma loop_simulates s s' l :
  represents s l → (size (lg_running l) ≤ max_concurrency)%nat → step s s' →
  ∃ l', rtc (ledger_step max_concurrency) l l' ∧ represents s' l'.
Proof.
  intros Hrep Hmax Hstep.
  assert (∀ s0, represents s0 l →
    ∃ l', rtc (ledger_step max_concurrency) l l' ∧ represents s0 l') as Hstay by eauto using rtc_refl.
  destruct Hstep as [s m Hout|s|s before item after Hth|s w c Hc Hstop Hclaim|s Hc Hstop
    |s b done_ rest now Hc Hch|s now Hc Hch Hidle Hstop|s now now' Hc Hch Hidle Hstop
    |s Hc Hch Hidle|s now Hc Hch Hf|s Hc Hch Hf|s done_ rest now Hc Hch Hf].
  - apply Hstay. eapply represents_same; try exact Hrep; simpl; auto.
  - apply Hstay. eapply represents_same; try exact Hrep; simpl; auto.
  - apply Hstay. unfold finish_thread.
    destruct (process_claimed_message _ _ _ _ _ _ _ _ _ _ _ _ _ _ _ _ _ _ _ _) as [w outcome].
    eapply represents_same; try exact Hrep; simpl; auto. rewrite Hth, !fmap_app. simpl.
    solve_Permutation.
  - unfold begin_iteration, available_slots.
    apply claim_phase_spec in Hclaim as (items & Hp & Ha & _ & _).
    destruct Hrep as [Hw Hr Hf Ht Hst], l as [waiting running]. simpl in *. subst.
    set (batch := if (0 <? _)%nat then _ else _).
    assert (batch = dequeue_runnable (cl_scheduler c) (max_concurrency - ls_in_flight s)) as Hb.
    { unfold batch. destruct (Nat.ltb_spec 0 (max_concurrency - ls_in_flight s)); [done|].
      replace (max_concurrency - ls_in_flight s) with 0 by lia. done. }
    rewrite Hb. clear batch Hb.
    pose proof (dequeue_starts max_concurrency (cl_scheduler c)
      (max_concurrency - ls_in_flight s)) as Hstarts.
    destruct (dequeue_runnable _ _) as [sched batch] eqn:Hd.
    apply dequeue_active in Hd as [Hsize Helems].
    exists (Ledger (pending sched) (active_keys sched)). split.
    + etrans; [apply (ledger_admits _ _ items)|]. rewrite <- Hp, <- Ha. apply Hstarts.
      rewrite Ha. lia.
    + split; simpl; try done.
      * rewrite Hsize, Ha. lia.
      * rewrite Helems, Ha, <- Ht, fmap_app. solve_Permutation.
  - apply Hstay. eapply represents_same; try exact Hrep; simpl; auto. done.
  - destruct (represents_received s l done_ rest now (Draining b)) as (l' & Hl & Hr');
      [done|by rewrite Hc|done|done|].
    exists l'. split; [by apply rtc_once|].
    eapply represents_same; try exact Hr'; simpl; auto. by rewrite Hc.
  - apply Hstay. eapply represents_same; try exact Hrep; simpl; auto. done.
  - apply Hstay. eapply represents_same; try exact Hrep; simpl; auto. intros _. right.
    apply andb_true_iff in Hidle as [Hp%Nat.eqb_eq Hz%Nat.eqb_eq].
    apply nil_length_inv in Hp. split; [done|]. rewrite (rp_in_flight _ _ Hrep) in Hz.
    by apply size_empty_inv, leibniz_equiv in Hz.
  - apply Hstay. eapply represents_same; try exact Hrep; simpl; auto. done.
  - unfold shut_down. simpl. destruct (requeue_pending _ _ _) as [w ?].
    destruct Hrep as [Hw Hr Hfl Ht Hst], l as [waiting running]. simpl in *. subst.
    rewrite Hf in Hfl. symmetry in Hfl. apply size_empty_inv, leibniz_equiv in Hfl.
    exists (Ledger [] ∅). rewrite Hfl in *. split; [apply rtc_once, ledger_give_back|].
    split; simpl; rewrite ?Hfl; done.
  - apply Hstay. eapply represents_same; try exact Hrep; simpl; auto. done.
  - destruct (represents_received s l done_ rest now AtTop) as (l' & Hl & Hr');
      [done|by rewrite Hc|done|done|].
    exists l'. split; [by apply rtc_once|done].
Qed.

Lemma loop_represents w s :
  rtc step (loop_start w) s →
  ∃ l, rtc (ledger_step max_concurrency) empty_ledger l ∧ represents s l.
Proof.
  intros Hrun. assert (represents (loop_start w) empty_ledger) as Hinit.
  { split; try done. }
  assert (∀ s1 s2 l, rtc step s1 s2 → represents s1 l →
    rtc (ledger_step max_concurrency) empty_ledger l →
    ∃ l', rtc (ledger_step max_concurrency) empty_ledger l' ∧ represents s2 l') as Hind.
  { intros s1 s2 l Hsteps. revert l. induction Hsteps as [s1|s1 s2 s3 Hstep _ IH];
      intros l Hrep Hl; [by exists l|].
    destruct (loop_simulates s1 s2 l Hrep) as (l' & Hl' & Hrep'); [|done|].
    { apply (ledger_bounded _ _ _ Hl), Nat.le_0_l. }
    apply (IH l'); [done|]. by etrans. }
  by apply (Hind _ _ _ Hrun Hinit).
Qed.


(** C7: At most [max_concurrency] messages are processed at a time and never two
    of one ordering key, at every moment of every run of the worker; and when the
    loop has stopped, no thread is left, no completion is unread and no claimed
    message still waits. *)
Theorem worker_runs_one_message_per_key (w : world machine) (s : loop_state)
    (Hrun : rtc step (loop_start w) s) :
  (length (ls_threads s) ≤ max_concurrency)%nat
  ∧ NoDup (key <$> ls_threads s)
  ∧ (ls_control s = LoopStopped →
     ls_threads s = [] ∧ ls_channel s = [] ∧ pending (ls_scheduler s) = []).
Proof.
  destruct (loop_represents w s Hrun) as (l & Hl & [Hw Hr Hf Ht Hst]).
  assert (size (lg_running l) ≤ max_concurrency)%nat as Hmax.
  { apply (ledger_bounded _ _ _ Hl), Nat.le_0_l. }
  assert (length ((key <$> ls_threads s) ++ (qc_key <$> ls_channel s))
          = size (lg_running l)) as Hlen by (by rewrite Ht, Hr).
  rewrite length_app, !length_fmap in Hlen. split; [lia|]. split.
  - pose proof (NoDup_elements (active_keys (ls_scheduler s))) as Hnd. rewrite <- Ht in Hnd.
    by apply NoDup_app in Hnd as [? _].
  - intros [Hp He]%Hst. rewrite Hr, He, size_empty in Hlen.
    split; [apply nil_length_inv; lia|]. split; [apply nil_length_inv; lia|done].
Qed.

Definition polls_in_bounds (s : loop_state) : Prop :=
  (QUEUE_MIN_POLL_MS ≤ ls_backoff_ms s ≤ QUEUE_MAX_POLL_MS)%Z.
Lemma next_backoff_in_bounds b :
  (QUEUE_MIN_POLL_MS ≤ b ≤ QUEUE_MAX_POLL_MS)%Z →
  (QUEUE_MIN_POLL_MS ≤ next_backoff b ≤ QUEUE_MAX_POLL_MS)%Z.
Proof.
  unfold next_backoff, QUEUE_MIN_POLL_MS, QUEUE_MAX_POLL_MS. unfold_widths. lia.
Qed.
Lemma step_polls_in_bounds s s' : step s s' → polls_in_bounds s → polls_in_bounds s'.
Proof.
  unfold polls_in_bounds. intros Hstep Hb. destruct Hstep; simpl; try exact Hb.
  - unfold finish_thread.
    by destruct (process_claimed_message _ _ _ _ _ _ _ _ _ _ _ _ _ _ _ _ _ _ _ _).
  - unfold begin_iteration. by destruct (if (0 <? _)%nat then _ else _).
  - by apply next_backoff_in_bounds.
  - done.
  - unfold shut_down. simpl. by destruct (requeue_pending _ _ _).
Qed.

(** One claiming iteration. *)
Lemma begin_iteration_spec s w c l :
  represents s l → (size (lg_running l) ≤ max_concurrency)%nat → (0 < max_concurrency)%nat →
  claim_phase sha256 parse_incoming worker_id max_concurrency queue_sets (ls_scheduler s)
    (ls_world s) = (w, Ok c) →
  let s' := begin_iteration max_concurrency s w c in
  (∃ claimed, pending (ls_scheduler s) ++ claimed
       ≡ₚ drop (length (ls_threads s)) (ls_threads s') ++ pending (ls_scheduler s')
     ∧ (length claimed ≤ 4 * max_concurrency)%nat)
  ∧ (pending (ls_scheduler s') ≠ [] → (0 < ls_in_flight s')%nat).
Proof.
  intros Hrep Hmax Hpos Hclaim.
  apply claim_phase_spec in Hclaim as (items & Hp & Ha & Hlen & _). cbn zeta.
  unfold begin_iteration, available_slots.
  set (batch := if (0 <? _)%nat then _ else _).
  assert (batch = dequeue_runnable (cl_scheduler c) (max_concurrency - ls_in_flight s)) as ->.
  { unfold batch. destruct (Nat.ltb_spec 0 (max_concurrency - ls_in_flight s)); [done|].
    by replace (max_concurrency - ls_in_flight s) with 0 by lia. }
  destruct (dequeue_runnable _ _) as [sched started] eqn:Hd. simpl. rewrite drop_app_length.
  destruct (dequeue_runnable_inv _ _ _ _ Hd) as [Hsome Hnone].
  apply dequeue_active in Hd as [Hsize _].
  split; [exists items; split; [|done]; rewrite <- Hp|].
  - destruct (max_concurrency - ls_in_flight s) as [|n].
    + by destruct Hnone as [-> ->].
    + destruct Hsome as [sk [Hperm _ _ _ _ _ _ _]]; [lia|done].
  - intros Hwait. destruct (ls_in_flight s) as [|n] eqn:Hf; [|lia].
    destruct Hsome as [sk Hinv]; [lia|].
    destruct (pending sched) as [|i rest]; [done|].
    destruct (li_blocked _ _ _ _ _ _ _ Hinv i ltac:(left)) as [Hact|]; [|lia].
    assert (size (active_keys sched) ≠ 0) as Hz.
    { intros Hz%size_empty_inv. set_solver. }
    rewrite Ha, <- (rp_in_flight _ _ Hrep), Hf in Hsize. lia.
Qed.

(** No stall and no flood: an iteration of a running worker claims at most
    four times [max_concurrency] messages, loses none of those claimed before, and
    if a message still waits after it, then some message is being processed (with
    at least one slot); and the poll interval always stays between
    [QUEUE_MIN_POLL_MS] and [QUEUE_MAX_POLL_MS]. *)
Theorem worker_iteration_makes_progress (w : world machine) (s s' : loop_state)
    (Hrun : rtc step (loop_start w) s) (Hstep : step s s') (Hslots : (0 < max_concurrency)%nat) :
  (QUEUE_MIN_POLL_MS ≤ ls_backoff_ms s' ≤ QUEUE_MAX_POLL_MS)%Z
  ∧ (ls_control s = AtTop → ls_control s' = Draining false →
     (∃ claimed, pending (ls_scheduler s) ++ claimed
         ≡ₚ drop (length (ls_threads s)) (ls_threads s') ++ pending (ls_scheduler s')
       ∧ (length claimed ≤ 4 * max_concurrency)%nat)
     ∧ (pending (ls_scheduler s') ≠ [] → (0 < ls_in_flight s')%nat)).
Proof.
  split.
  { apply (step_polls_in_bounds s s' Hstep).
    refine (rtc_ind_r polls_in_bounds (loop_start w) _ _ s Hrun); [done|].
    intros ????. by eapply step_polls_in_bounds. }
  destruct (loop_represents w s Hrun) as (l & Hl & Hrep). intros Htop Hdrain.
  assert (size (lg_running l) ≤ max_concurrency)%nat as Hmax
    by apply (ledger_bounded _ _ _ Hl), Nat.le_0_l.
  destruct Hstep; simpl in *; try congruence.
  - revert Hdrain. unfold finish_thread.
    destruct (process_claimed_message _ _ _ _ _ _ _ _ _ _ _ _ _ _ _ _ _ _ _ _). simpl. congruence.
  - by eapply begin_iteration_spec.
Qed.
End worker.

(** ** A worker that claims and starts a message *)
Definition demo_waiting : world machine := World (λ _, set_queue
  {| q_incoming := Some {["a.json" := QFile 1 "first"; "b.json" := QFile 2 "second"]};
     q_processing := Some ∅; q_outgoing := Some ∅; q_failed := None; q_requeue_counter := 0;
     q_log := [] |} demo_runtime) (Env [] []).
Definition demo_queue_sets : list QueuePaths := [from_state_root "/srv/main"].
Definition demo_claim : world machine * result string claims :=
  claim_phase demo_sha demo_parse "queue" 2 demo_queue_sets default demo_waiting.
Definition demo_claims : claims :=
  match demo_claim.2 with
  | Ok c => c
  | Err _ => {| cl_scheduler := default; cl_budget := 0; cl_any := false; cl_events := [] |}
  end.
Definition demo_begun : loop_state :=
  begin_iteration 2 (loop_start demo_waiting) demo_claim.1 demo_claims.
Definition demo_step : loop_state → loop_state → Prop :=
  @loop_step succeeding_executor demo_memory demo_sha demo_parse om_message_id demo_dead_letter
    (λ _, false) None Ok demo_from_path (λ _, Err "no trigger") (λ _, "{}") (λ _, "{}")
    demo_decode_result demo_encode_result [] no_commands (λ i, Ok (Z.of_nat i))
    (λ _ _, silent_agent) demo_root_settings None "queue" 2 demo_queue_sets.
Lemma demo_begins : demo_step (loop_start demo_waiting) demo_begun.
Proof. apply step_begin; [done|done|]. vm_compute. reflexivity. Qed.

Lemma worker_runs_one_message_per_key_witness :
  (length (ls_threads demo_begun) ≤ 2)%nat ∧ NoDup (key <$> ls_threads demo_begun).
Proof.
  destruct (@worker_runs_one_message_per_key succeeding_executor demo_memory demo_sha demo_parse
    om_message_id demo_dead_letter (λ _, false) None Ok demo_from_path (λ _, Err "no trigger")
    (λ _, "{}") (λ _, "{}") demo_decode_result demo_encode_result [] no_commands
    (λ i, Ok (Z.of_nat i)) (λ _ _, silent_agent) demo_root_settings None "queue" 2
    demo_queue_sets demo_waiting demo_begun (rtc_once _ _ demo_begins)) as (H1 & H2 & _).
  exact (conj H1 H2).
Defined.
Lemma worker_iteration_makes_progress_witness :
  pending (ls_scheduler demo_begun) ≠ [] ∧ (0 < ls_in_flight demo_begun)%nat.
Proof.
  assert (pending (ls_scheduler demo_begun) ≠ []) as Hw by (vm_compute; discriminate).
  split; [exact Hw|].
  destruct (@worker_iteration_makes_progress succeeding_executor demo_memory demo_sha demo_parse
    om_message_id demo_dead_letter (λ _, false) None Ok demo_from_path (λ _, Err "no trigger")
    (λ _, "{}") (λ _, "{}") demo_decode_result demo_encode_result [] no_commands
    (λ i, Ok (Z.of_nat i)) (λ _ _, silent_agent) demo_root_settings None "queue" 2
    demo_queue_sets demo_waiting (loop_start demo_waiting) demo_begun (rtc_refl _ _) demo_begins
    ltac:(lia)) as [_ H].
  exact (proj2 (H eq_refl ltac:(vm_compute; reflexivity)) Hw).
Defined.
