(* ===== verification/MessageCustody.v ===== *)
(** * What becomes of a claimed message

    [process_claimed_message] never loses a message: it is answered, or silently
    completed when nobody expects an answer, or it is back in the queue, in the
    dead letters or still in [processing]. *)
From S2P Require Import Prelude RustStr RustPath Io Json QueueMessage QueueScheduler FileTags QueueLifecycle QueueGuarantees Config OrchestratorFile OrchestratorError RunStore WorkflowEngine EngineGuarantees Scheduler Selector SelectorGuarantees Transitions TransitionGuarantees Conversation RunReplies Routing RoutingGuarantees WorkerRegistry QueueWorker.

Local Open Scope string_scope.
Local Open Scope list_scope.

(** ** Replies *)
Section replies.
Context (json_to_string json_to_string_pretty : Value → string).

Lemma lifecycle_messages_nonempty {E} root run_id :
  returns (λ l, l ≠ []) (workflow_lifecycle_messages json_to_string root run_id (E := E)).
Proof.
  apply returns_seq. intros [|a attempts]; [by apply returns_ret|].
  apply returns_seq. intros final. apply returns_ret. by destruct (omap _ _).
Qed.
(** Every routed action but silence has a reply. *)
Lemma outbound_messages_nonempty {E} root action :
  (∀ reason, action ≠ RNoResponse reason) →
  returns (λ l, l ≠ []) (action_to_outbound_messages json_to_string json_to_string_pretty root
    action (E := E)).
Proof.
  intros Hne. destruct action as [id wid|id [p|] msg|v|reason].
  - apply lifecycle_messages_nonempty.
  - by apply returns_ret.
  - by apply returns_ret.
  - by apply returns_ret.
  - by destruct (Hne reason).
Qed.

Lemma reply_messages_id inbound ctx now index responses :
  Forall (λ m, om_message_id m = im_message_id inbound)
    (reply_messages inbound ctx now index responses).
Proof.
  revert index. induction responses as [|[message agent] responses IH]; intros index;
    simpl; constructor; auto.
Qed.
Lemma reply_messages_nonempty inbound ctx now index responses :
  responses ≠ [] → reply_messages inbound ctx now index responses ≠ [].
Proof. by destruct responses as [|[] ?]. Qed.
End replies.

Lemma queue_max_requeue_attempts_u32 env_value : in_u32 (queue_max_requeue_attempts env_value).
Proof.
  unfold queue_max_requeue_attempts. destruct env_value as [raw|]; simpl; [|by unfold_widths].
  destruct (parse_u32 raw) as [v|] eqn:Ev; [|by unfold_widths].
  apply parse_unsigned_range in Ev. destruct (bool_decide_reflect (0 < v)%Z); [done|by unfold_widths].
Qed.

(** ** The queues of a machine *)
Lemma wp_at_queue {E A} h root (m : IO queue_fs E A) (Φ : result E A → machine → Prop) s :
  wp h m (λ r q, Φ r (set_runtime root (set_queue q (s root)) s)) (rt_queue (s root)) →
  wp h (at_root root (on_queue m)) Φ s.
Proof. intros H. by apply wp_zoom, wp_zoom. Qed.
Lemma set_queue_queue root q (s : machine) root' :
  rt_queue (set_runtime root (set_queue q (s root)) s root')
  = if decide (root' = root) then q else rt_queue (s root').
Proof. unfold set_runtime. by case_decide. Qed.

Lemma queue_only {E A} root (m : IO queue_fs E A) :
  evolves queue_grows m → evolves queues_grow (at_root root (on_queue m)).
Proof.
  intros Hm. apply (evolves_zoom _ (λ r r', queue_grows (rt_queue r) (rt_queue r'))).
  - by apply (evolves_zoom _ queue_grows).
  - intros s r Hr root'. unfold set_runtime. case_decide as Hroot; [|reflexivity].
    by rewrite Hroot.
Qed.
Lemma queue_of_runtime {E A} root (m : IO runtime E A) (Φ : result E A → machine → Prop) s :
  evolves same_queue m → (∀ r s', (∀ root', rt_queue (s' root') = rt_queue (s root')) → Φ r s') →
  wp false (at_root root m) Φ s.
Proof.
  intros Hm HΦ. apply wp_zoom, (wp_evolves _ same_queue); [done|]. apply wp_any.
  intros r t Ht. apply HΦ. intros root'. unfold set_runtime. case_decide as Hroot; [|done].
  by rewrite Ht, Hroot.
Qed.

Definition same_counter (q q' : queue_fs) : Prop := q_requeue_counter q' = q_requeue_counter q.
#[export] Instance same_counter_preorder : PreOrder same_counter.
Proof. split; [done|]. unfold same_counter. intros q1 q2 q3 H1 H2. congruence. Qed.
Lemma write_outgoing_counter encode_outgoing is_file paths item start :
  evolves same_counter (write_outgoing_message encode_outgoing is_file paths item start).
Proof.
  unfold write_outgoing_message. destruct (normalize_outgoing_message is_file item) as [m omitted].
  apply evolves_bind; [apply _| |intros ?; cbv beta].
  { case_decide; [apply evolves_ret; apply _|by apply evolves_modify]. }
  apply evolves_bind; [apply _|apply evolves_get; apply _|intros q].
  generalize (S (outgoing_count q)). intros fuel. revert start.
  induction fuel as [|fuel IH]; intros start; cbn [write_outgoing_loop];
    [apply evolves_ret; apply _|].
  apply evolves_bind; [apply _|apply evolves_get; apply _|intros s].
  case_match; [apply IH|]. apply evolves_bind; [apply _|apply evolves_clock; apply _|intros now].
  apply evolves_bind; [apply _| |intros ?; apply evolves_ret; apply _].
  apply evolves_map_err, evolves_sys; [apply _|]. intros q0. unfold fs_write. by case_match.
Qed.

Lemma enqueue_outgoing_adds encode_outgoing is_file paths item :
  evolves queue_grows (enqueue_outgoing encode_outgoing is_file paths item).
Proof.
  apply evolves_bind; [apply _| |].
  - apply evolves_map_err, evolves_sys; [apply _|].
    intros s. unfold fs_create_dir_all. destruct (get_dir Outgoing s) eqn:Ed; simpl;
      [reflexivity|]. split; [|done]. apply same_files_adds. intros d n.
    destruct (decide (d = Outgoing)) as [->|Hd]; [|by apply file_at_set_dir_other].
    rewrite file_at_set_dir_same. unfold file_at. rewrite Ed. simpl. by rewrite lookup_empty.
  - intros ? w. pose proof (write_message_spec encode_outgoing is_file paths item 0 w ltac:(lia))
      as Hw. pose proof (write_outgoing_counter encode_outgoing is_file paths item 0 w) as Hc.
    destruct (write_outgoing_message _ _ _ _ _ w) as [w' [[name|]|e]]; simpl in *;
      (split; [|exact Hc]).
    + by eapply wrote_new_adds.
    + done.
    + by apply same_files_adds.
Qed.

Section custody.
Context `{StepExecutorLaws, MemoryService}.
Context (sha256 : string → list Z).
Context (encode_outgoing : OutgoingMessage → string)
  (encode_dead_letter : Z → Z → string → string → IncomingMessage → string)
  (is_file : string → bool).
Context (local_runtime : option LocalModel).
Context (canonicalize : string → result io_error string).
Context (from_path : string → result ConfigError OrchestratorConfig).
Context (decode_envelope : string → result string ScheduledTriggerEnvelope).
Context (json_to_string json_to_string_pretty : Value → string).
Context (decode_selector_result : string → result string SelectorResult)
  (encode_selector_result : SelectorResult → string).
Context (catalog : list (string * FunctionSchema)).
Context (execute_function : string → JMap → option string →
           IO run_store OrchestratorError Value).
Context (sample : nat → result string Z).
Context (next_attempt : SelectorRequest → OrchestratorConfig → Z →
           world run_store → world run_store * option string).
Context (settings : Settings).
Context (max_requeue_env : option string).
Hypothesis config_u32 : ∀ path config, from_path path = Ok config → u32_config config.
Hypothesis codec : keeps_action decode_selector_result encode_selector_result.

Local Abbreviation route_claimed := (route_claimed encode_outgoing is_file local_runtime
  canonicalize from_path decode_envelope json_to_string decode_selector_result
  encode_selector_result catalog execute_function sample next_attempt settings).
Local Abbreviation process := (process_claimed_message sha256 encode_outgoing encode_dead_letter
  is_file local_runtime canonicalize from_path decode_envelope json_to_string
  json_to_string_pretty decode_selector_result encode_selector_result catalog execute_function
  sample next_attempt settings max_requeue_env).

(** Who gets an answer. *)
Definition expects_answer (inbound : IncomingMessage) : Prop :=
  must_reply inbound = true ∨ im_channel inbound = "scheduler"
  ∨ (is_status_command inbound = false ∧ not_blank (im_workflow_run_id inbound) ≠ None).

(** *** Routing the message *)
Lemma record_outbound_turn_queue {E} root m :
  evolves same_queue (record_outbound_turn root m : IO runtime E ()).
Proof. unfold record_outbound_turn. evolve_steps. Qed.
Lemma record_outbound_turns_queue root outgoing :
  evolves same_queue (record_outbound_turns root outgoing).
Proof.
  pose proof (@record_outbound_turn_queue string). induction outgoing; simpl; evolve_steps.
Qed.
Lemma enqueue_reply_grows {E} f root paths m :
  evolves queues_grow (at_root root (on_queue (io_map_err f
    (enqueue_outgoing encode_outgoing is_file paths m))) : IO machine E _).
Proof. apply queue_only, evolves_map_err, enqueue_outgoing_adds. Qed.

Lemma on_workflow_selected_grows scoped workflow_id n :
  evolves queues_grow (on_workflow_selected encode_outgoing is_file decode_envelope settings scoped
    workflow_id n).
Proof.
  pose proof (@record_outbound_turn_queue string).
  unfold on_workflow_selected, enqueue_workflow_selection_ack. evolve_steps.
  apply enqueue_reply_grows.
Qed.

Lemma latest_loop_reads keep paths latest :
  evolves eq (latest_loop keep paths latest).
Proof.
  revert latest. induction paths as [|p paths IH]; intros latest; cbn [latest_loop];
    [apply evolves_ret; apply _|].
  case_match; [apply IH|]. apply evolves_bind; [apply _| |].
  - apply evolves_bind; [apply _|apply evolves_map_err, evolves_sys; [apply _|done]|].
    intros [a|e]; [apply evolves_ret|apply evolves_throw]; apply _.
  - intros run. case_match; apply IH.
Qed.
Lemma latest_run_reads root keep : evolves eq (latest_run root keep).
Proof.
  apply evolves_bind; [apply _|apply evolves_attempt, evolves_sys; [apply _|done]|].
  intros [entries|source]; [apply latest_loop_reads|].
  case_match; [apply evolves_ret|apply evolves_throw]; apply _.
Qed.
Definition same_runs (m m' : machine) : Prop := ∀ root, rt_runs (m' root) = rt_runs (m root).
Lemma active_runs_reads root inbound :
  evolves same_runs (at_root root (on_runs (resolve_active_conversation_runs root inbound))).
Proof.
  apply (evolves_zoom _ (λ r r', rt_runs r' = rt_runs r)).
  - apply (evolves_zoom _ eq); [|done]. unfold resolve_active_conversation_runs.
    case_match; [|apply evolves_ret; apply _]. case_match; [|apply evolves_ret; apply _].
    apply evolves_bind; [apply _|apply evolves_attempt, latest_run_reads|].
    intros ?. apply evolves_ret; apply _.
  - intros m r Hr root'. unfold set_runtime. case_decide as Hroot; [|done]. by rewrite Hr, Hroot.
Qed.
Lemma typed_runs_same m m' : same_runs m m' → typed_runs m → typed_runs m'.
Proof. intros Hs Hty root id run Hr. rewrite Hs in *. by apply Hty. Qed.

(** What routing a claimed message can come to. *)
Definition routed (scoped : ScopedClaimedMessage) (m : machine)
    (r : result OrchestratorError (option RoutedSelectorAction)) (m' : machine) : Prop :=
  queues_grow m m' ∧ r ≠ Ok None
  ∧ (expects_answer (cm_payload (sc_claimed scoped)) → ∀ reason, r ≠ Ok (Some (RNoResponse reason))).
Lemma wp_route_claimed scoped m :
  typed_runs m → wp false (route_claimed scoped) (routed scoped m) m.
Proof.
  intros Hty. unfold QueueWorker.route_claimed. apply wp_bind, wp_map_err.
  apply (wp_evolves _ queues_grow).
  { apply runtime_keeps_queue, on_runs_queue. }
  apply (wp_evolves _ same_runs); [apply active_runs_reads|].
  apply wp_any. intros active m1 Hruns Hgrow.
  destruct active as [active|e]; simpl; [|by split].
  apply wp_bind, wp_clock. intros now.
  eapply wp_evolves; [apply route_queues_grow; intros; apply on_workflow_selected_grows|].
  apply (wp_mono _ _ (λ o m2, o ≠ Ok None ∧ (expects_answer (cm_payload (sc_claimed scoped)) →
    ∀ reason, o ≠ Ok (Some (RNoResponse reason))))).
  2:{ intros o m2 [Hne Hans] Hgrow2. split; [|done]. by etrans. }
  intros e He.
  pose proof (wp_route local_runtime canonicalize from_path decode_envelope json_to_string
    decode_selector_result encode_selector_result execute_function sample next_attempt settings
    config_u32 (cm_payload (sc_claimed scoped)) now active (v1_defaults catalog)
    (on_workflow_selected encode_outgoing is_file decode_envelope settings scoped) m1
    ltac:(by eapply typed_runs_same) e He) as Hwp.
  pose proof (λ Hwho, route_replies local_runtime canonicalize from_path decode_envelope
    json_to_string decode_selector_result encode_selector_result execute_function sample
    next_attempt settings (cm_payload (sc_claimed scoped)) now active (v1_defaults catalog)
    (on_workflow_selected encode_outgoing is_file decode_envelope settings scoped) codec Hwho
    (World m1 e)) as Hrep.
  destruct (process_queued_message_with_runner_binaries_and_hook _ _ _ _ _ _ _ _ _ _ _ _ _ _ _ _ _)
    as [w' o]. simpl in *. split; [done|]. split; [by apply Hwp|].
  intros Hwho reason Ho. by apply (Hrep Hwho _ Ho reason).
Qed.

(** *** Where the message is afterwards *)
Section one_message.
Context (scoped : ScopedClaimedMessage) (k : Z).
Local Abbreviation root := (qp_root (sc_queue_paths scoped)).
Local Abbreviation name := (cm_file_name (sc_claimed scoped)).
Local Abbreviation inbound := (cm_payload (sc_claimed scoped)).
Local Abbreviation max_attempts := (Z.max (queue_max_requeue_attempts max_requeue_env) 1).
Hypothesis sha_bytes : ∀ s, Forall (λ b, 0 ≤ b < 256)%Z (sha256 s).
Hypothesis name_attempts : attempts sha256 k name.

Definition still_processing (m m' : machine) : Prop :=
  file_at Processing name (rt_queue (m' root)) = file_at Processing name (rt_queue (m root)).
Definition requeued (m m' : machine) : Prop :=
  ∃ n, attempts sha256 (k + 1) n ∧ (k + 1 < max_attempts)%Z
    ∧ file_at Incoming n (rt_queue (m' root)) = file_at Processing name (rt_queue (m root)).
Definition dead_lettered (m' : machine) : Prop :=
  ∃ n failed_at attempt_no error, (max_attempts ≤ attempt_no)%Z
    ∧ qf_content <$> file_at QueueLifecycle.Failed n (rt_queue (m' root))
      = Some (encode_dead_letter failed_at attempt_no error
          (processing_path (sc_queue_paths scoped) (sc_claimed scoped)) inbound).
Definition answered (m m' : machine) : Prop :=
  ∃ n reply, om_message_id reply = im_message_id inbound
    ∧ file_at Outgoing n (rt_queue (m root)) = None
    ∧ qf_content <$> file_at Outgoing n (rt_queue (m' root))
      = Some (encoded encode_outgoing is_file reply).
(** The other claimed messages, of this queue and of all others. *)
Definition others_kept (m m' : machine) : Prop :=
  ∀ root' n, (root', n) ≠ (root, name) →
    file_at Processing n (rt_queue (m' root')) = file_at Processing n (rt_queue (m root')).
Definition custody (m : machine) (r : result string (option ())) (m' : machine) : Prop :=
  r ≠ Ok None ∧ others_kept m m'
  ∧ match r with
    | Ok _ => file_at Processing name (rt_queue (m' root)) = None
              ∧ (expects_answer inbound → answered m m')
    | Err _ => still_processing m m' ∨ requeued m m' ∨ dead_lettered m'
    end.

Lemma grow_processing m m' root' n : queues_grow m m' →
  file_at Processing n (rt_queue (m' root')) = file_at Processing n (rt_queue (m root')).
Proof. intros Hg. by destruct (Hg root') as [[Hs _] _]; apply Hs. Qed.
Lemma others_kept_trans m1 m2 m3 : others_kept m1 m2 → others_kept m2 m3 → others_kept m1 m3.
Proof. intros H12 H23 root' n Hn. rewrite H23 by done. by apply H12. Qed.
Lemma others_kept_grow m m' : queues_grow m m' → others_kept m m'.
Proof. intros Hg root' n _. by apply grow_processing. Qed.
(** What happened before only added outgoing files. *)
Lemma custody_earlier m m1 r m' : queues_grow m m1 → custody m1 r m' → custody m r m'.
Proof.
  intros Hg (Hne & Hoth & Hr). split; [done|].
  split; [by eapply others_kept_trans; [apply others_kept_grow|]|].
  destruct r as [o|e].
  - destruct Hr as [Hgone Hans]. split; [done|]. intros Hex.
    destruct (Hans Hex) as (n & reply & Hid & Hnew & Hfile). exists n, reply. split; [done|].
    split; [|done]. destruct (file_at Outgoing n (rt_queue (m root))) as [f|] eqn:Ef; [|done].
    destruct (Hg root) as [[_ Hadd] _]. apply Hadd in Ef. congruence.
  - destruct Hr as [Hs|[(n & Ha & Hk & Hf)|Hd]].
    + left. unfold still_processing in *. rewrite Hs. by apply grow_processing.
    + right; left. exists n. split; [done|]. split; [done|]. rewrite Hf. by apply grow_processing.
    + by right; right.
Qed.
Lemma custody_err_later m e m1 e' m' :
  custody m (Err e) m1 → queues_grow m1 m' → custody m (Err e') m'.
Proof.
  intros (_ & Hoth & Hr) Hg. split; [done|].
  split; [eapply others_kept_trans; [done|by apply others_kept_grow]|].
  destruct (Hg root) as [[Hsame _] _].
  destruct Hr as [Hs|[(n & Ha & Hk & Hf)|(n & t & a & err & Ha & Hf)]].
  - left. unfold still_processing in *. by rewrite Hsame, Hs.
  - right; left. exists n. split; [done|]. split; [done|]. by rewrite Hsame.
  - right; right. exists n, t, a, err. split; [done|]. by rewrite Hsame.
Qed.

(** A queue operation that leaves the other claimed files alone. *)
Lemma others_kept_queue m q :
  (∀ n, n ≠ name → file_at Processing n q = file_at Processing n (rt_queue (m root))) →
  others_kept m (set_runtime root (set_queue q (m root)) m).
Proof.
  intros Hq root' n Hn. rewrite set_queue_queue. case_decide as Hroot; [|done].
  subst root'. apply Hq. congruence.
Qed.
Lemma queue_at_root m q : rt_queue (set_runtime root (set_queue q (m root)) m root) = q.
Proof. rewrite set_queue_queue. by case_decide. Qed.

Lemma wp_notify attempt_no text m (Φ : result string () → machine → Prop) :
  (∀ r m', queues_grow m m' → Φ r m') →
  wp false (enqueue_dead_letter_failure_notification encode_outgoing is_file decode_envelope
    settings (sc_queue_paths scoped) inbound attempt_no text) Φ m.
Proof.
  intros HΦ. apply (wp_evolves _ queues_grow); [|by apply wp_any].
  unfold enqueue_dead_letter_failure_notification. evolve_steps. apply enqueue_reply_grows.
Qed.

Lemma wp_settle_failure err m :
  (0 ≤ q_requeue_counter (rt_queue (m root)))%Z →
  wp false (settle_failure sha256 encode_outgoing encode_dead_letter is_file decode_envelope
    settings max_requeue_env scoped err) (custody m) m.
Proof.
  intros Hcounter. unfold settle_failure. apply wp_bind, wp_attempt, wp_at_queue.
  intros e He. pose proof (requeue_or_dead_letter_run sha256 encode_dead_letter
    (sc_queue_paths scoped) (sc_claimed scoped) k (queue_max_requeue_attempts max_requeue_env)
    (error_display err) (World (rt_queue (m root)) e) sha_bytes Hcounter
    (queue_max_requeue_attempts_u32 _) name_attempts) as Hrun.
  destruct (requeue_or_dead_letter_failure _ _ _ _ _ _ _) as [[q e'] r]. simpl in Hrun |- *.
  split; [done|]. destruct Hrun as [Hothers Hrun]. set (m1 := set_runtime _ _ _).
  assert (rt_queue (m1 root) = q) as Hq by apply queue_at_root.
  assert (others_kept m m1) as Hoth by by apply others_kept_queue.
  destruct r as [[requeued_|n a]|queue_err].
  - apply wp_throw. split; [done|]. split; [done|]. right; left.
    destruct Hrun as (Hlt & _ & Hatt & Hfile & _). exists (rm_name requeued_).
    split; [done|]. split; [done|]. by rewrite Hq.
  - assert (custody m (Err "") m1) as Hc.
    { split; [done|]. split; [done|]. right; right. destruct Hrun as (Hle & _ & _ & t & Hfile).
      exists n, t, a, (error_display err). split; [done|]. by rewrite Hq. }
    apply wp_bind, wp_attempt, wp_notify. intros [[]|ne] m2 Hg;
      apply wp_throw; by eapply custody_err_later.
  - apply wp_throw. split; [done|]. split; [done|]. left. unfold still_processing. by rewrite Hq.
Qed.

Lemma wp_complete m ctx now responses (Φ : result string (option ()) → machine → Prop) :
  (∀ r m', custody m r m' → Φ r m') → responses ≠ [] →
  wp false (at_root root (on_queue (io_map_err QueueError_display
      (complete_success_many encode_outgoing is_file (sc_queue_paths scoped) (sc_claimed scoped)
         (reply_messages inbound ctx now 0 responses)))) ;; mret (Some ())) Φ m.
Proof.
  intros HΦ Hne. apply wp_bind, wp_at_queue, wp_map_err. intros e He.
  set (outgoing := reply_messages _ _ _ _ _).
  pose proof (complete_many_run encode_outgoing is_file (sc_queue_paths scoped) (sc_claimed scoped)
    outgoing (World (rt_queue (m root)) e)) as Hrun.
  destruct (complete_success_many _ _ _ _ _ _) as [[q e'] r]. simpl in Hrun |- *.
  split; [done|]. destruct Hrun as (_ & Hframe & Hrun).
  assert (others_kept m (set_runtime root (set_queue q (m root)) m)) as Hoth.
  { apply others_kept_queue. intros n Hn. apply Hframe; congruence. }
  destruct r as [names|err]; simpl.
  - apply wp_ret, HΦ. split; [done|]. split; [done|]. rewrite queue_at_root.
    destruct Hrun as (Hout & Hgone & Hall & _). split; [done|]. intros _.
    destruct outgoing as [|reply rest] eqn:Eo; [done|].
    apply Forall2_cons_inv_l in Hall as (nm & nms & (n & _ & Hnew & Hfile) & _ & _).
    exists n, reply. rewrite queue_at_root. split; [|done].
    pose proof (reply_messages_id inbound ctx now 0 responses) as Hids.
    fold outgoing in Hids. rewrite Eo in Hids. by apply Forall_cons in Hids as [? _].
  - apply HΦ. split; [done|]. split; [done|]. left. unfold still_processing.
    by rewrite queue_at_root.
Qed.

Lemma custody_untouched m e m' :
  (∀ root', rt_queue (m' root') = rt_queue (m root')) → custody m (Err e) m'.
Proof.
  intros Hs. split; [done|]. split; [intros root' n _; by rewrite Hs|].
  left. unfold still_processing. by rewrite Hs.
Qed.
Lemma same_queues_grow m m' :
  (∀ root', rt_queue (m' root') = rt_queue (m root')) → queues_grow m m'.
Proof. intros Hs root'. by rewrite Hs. Qed.

Lemma wp_settle_reply action m :
  (∀ reason, action ≠ RNoResponse reason) →
  wp false (responses ← at_root root (on_runs
        (action_to_outbound_messages json_to_string json_to_string_pretty root action));
      target ← lift (resolve_outbound_slack_target decode_envelope settings inbound);
      now ← read_clock;
      let outgoing := reply_messages inbound (outbound_context inbound target) now 0 responses in
      at_root root (record_outbound_turns root outgoing) ;;
      at_root root (on_queue (io_map_err QueueError_display
        (complete_success_many encode_outgoing is_file (sc_queue_paths scoped) (sc_claimed scoped)
           outgoing))) ;;
      mret (Some ())) (custody m) m.
Proof.
  intros Haction. apply wp_bind. eapply wp_returns.
  { apply returns_zoom, returns_zoom, outbound_messages_nonempty, Haction. }
  apply queue_of_runtime; [apply on_runs_queue|]. intros responses m1 Hm1 Hne.
  destruct responses as [responses|e]; [|by apply custody_untouched].
  apply wp_bind, wp_lift. destruct (resolve_outbound_slack_target _ _ _) as [target|e];
    [|by apply custody_untouched].
  apply wp_bind, wp_clock. intros now.
  apply wp_bind, queue_of_runtime; [apply record_outbound_turns_queue|]. intros turns m2 Hm2.
  assert (∀ root', rt_queue (m2 root') = rt_queue (m root')) as Hsame
    by (intros root'; by rewrite Hm2).
  destruct turns as [[]|e]; [|by apply custody_untouched].
  apply wp_complete; [|by apply Hne]. intros r m3 Hc.
  eapply custody_earlier; [by apply same_queues_grow|done].
Qed.

Lemma wp_settle_success action m :
  (expects_answer inbound → ∀ reason, action ≠ RNoResponse reason) →
  wp false (settle_success encode_outgoing is_file decode_envelope json_to_string
    json_to_string_pretty settings scoped action) (custody m) m.
Proof.
  intros Haction. destruct action as [id wid|id p msg|v|reason].
  1-3: by apply wp_settle_reply.
  cbn [settle_success]. apply wp_bind, wp_at_queue, wp_map_err. intros e He.
  unfold complete_success_no_outgoing.
  pose proof (remove_processing_run (sc_queue_paths scoped) name (World (rt_queue (m root)) e))
    as Hrun.
  destruct (io_map_err _ _ _) as [[q e'] r]. simpl in Hrun |- *. split; [done|].
  destruct r as [u|err]; simpl.
  - destruct Hrun as [Hgone Hframe]. apply wp_ret. split; [done|]. split.
    + apply others_kept_queue. intros n Hn. apply Hframe. congruence.
    + rewrite queue_at_root. split; [done|]. intros Hex. by destruct (Haction Hex reason).
  - subst q. apply custody_untouched. intros root'. rewrite set_queue_queue.
    by case_decide as Hroot; [rewrite Hroot|].
Qed.

Lemma wp_process m :
  typed_runs m → (0 ≤ q_requeue_counter (rt_queue (m root)))%Z →
  wp false (process scoped) (custody m) m.
Proof.
  intros Hty Hcounter. apply wp_bind, wp_attempt.
  eapply wp_mono; [by apply wp_route_claimed|]. intros r m1 (Hgrow & Hne & Hans).
  destruct r as [[action|]|err]; [|done|].
  - eapply wp_mono; [apply wp_settle_success|].
    + intros Hex reason ->. by apply (Hans Hex reason).
    + intros r m2 Hc. by eapply custody_earlier.
  - eapply wp_mono; [apply wp_settle_failure|].
    + destruct (Hgrow root) as [_ ->]. done.
    + intros r m2 Hc. by eapply custody_earlier.
Qed.

(** C5: A claimed message is never lost and whoever expects an answer gets one.
    Whatever the provider answers and whatever I/O errors occur, processing comes
    back and leaves every other claimed message of every queue alone.  On success
    the claimed file is gone, and a message that is direct, mentions the bot,
    comes from the scheduler or continues a run has a new reply with its message
    id in [outgoing].  On an error the message is back in [incoming] under a name
    that counts one more attempt (while attempts are left), or in the dead
    letters with its payload, or still in [processing], from where the next start
    recovers it. *)
Theorem process_claimed_message_custody (w : world machine)
    (Hruns : typed_runs (st w)) (Hcounter : (0 ≤ q_requeue_counter (rt_queue (st w root)))%Z) :
  let '(w', outcome) := process scoped w in
  outcome ≠ Ok None
  ∧ others_kept (st w) (st w')
  ∧ match outcome with
    | Ok _ => file_at Processing name (rt_queue (st w' root)) = None
              ∧ (expects_answer inbound → answered (st w) (st w'))
    | Err _ => still_processing (st w) (st w') ∨ requeued (st w) (st w') ∨ dead_lettered (st w')
    end.
Proof.
  pose proof (wp_run _ _ _ w (wp_process (st w) Hruns Hcounter) ltac:(done)) as Hc.
  by destruct (process scoped w).
Qed.
End one_message.
End custody.

(** ** A mention is answered *)
Definition demo_local_mention : IncomingMessage := {|
  im_channel := "local"; im_channel_profile_id := Some "slack"; im_sender := "dana";
  im_sender_id := "U1"; im_message := "hello"; im_timestamp := 1; im_message_id := "1";
  im_conversation_id := None; im_is_direct := false; im_is_thread_reply := false;
  im_is_mentioned := true; im_files := []; im_workflow_run_id := None;
  im_workflow_step_id := None |}.
Definition demo_scoped : ScopedClaimedMessage := {|
  sc_queue_paths := from_state_root "/srv/main";
  sc_claimed := {| cm_file_name := "1.json"; cm_payload := demo_local_mention |} |}.
Definition demo_process (w : world machine) : world machine * result string (option ()) :=
  @process_claimed_message succeeding_executor demo_memory demo_sha om_message_id demo_dead_letter
    (λ _, false) None Ok demo_from_path (λ _, Err "no trigger") (λ _, "{}") (λ _, "{}")
    demo_decode_result demo_encode_result [] no_commands (λ i, Ok (Z.of_nat i))
    (λ _ _, silent_agent) demo_root_settings None demo_scoped w.
Lemma demo_typed_runs : typed_runs (st demo_machine).
Proof. intros root id run H. vm_compute in H. discriminate H. Qed.
Lemma process_claimed_message_custody_witness :
  (demo_process demo_machine).2 = Ok (Some ())
  ∧ file_at Processing "1.json" (rt_queue (st demo_machine "/srv/main")) = Some (QFile 1 "hello")
  ∧ file_at Processing "1.json" (rt_queue (st (demo_process demo_machine).1 "/srv/main")) = None.
Proof.
  split; [vm_compute; reflexivity|]. split; [reflexivity|].
  pose proof (@process_claimed_message_custody succeeding_executor (demo_executor_laws _)
    demo_memory demo_sha om_message_id demo_dead_letter
    (λ _, false) None Ok demo_from_path (λ _, Err "no trigger") (λ _, "{}") (λ _, "{}")
    demo_decode_result demo_encode_result [] no_commands (λ i, Ok (Z.of_nat i))
    (λ _ _, silent_agent) demo_root_settings None demo_from_path_u32 demo_keeps_action
    demo_scoped 0 demo_sha_bytes (attempts_new demo_sha "1.json" ltac:(vm_compute; reflexivity))
    demo_machine demo_typed_runs ltac:(simpl; lia)) as H.
  assert ((demo_process demo_machine).2 = Ok (Some ())) as Hok by (vm_compute; reflexivity).
  change (@process_claimed_message _ _ _ _ _ _ _ _ _ _ _ _ _ _ _ _ _ _ _ _ _ demo_machine)
    with (demo_process demo_machine) in H.
  destruct (demo_process demo_machine) as [w' o]. simpl in Hok. subst o.
  exact (proj1 (proj2 (proj2 H))).
Defined.

(** A mention in a conversation that is no Slack conversation is executed, but no
    reply can be addressed: the message stays claimed. *)
Definition demo_unaddressed : ScopedClaimedMessage := {|
  sc_queue_paths := from_state_root "/srv/main";
  sc_claimed := {| cm_file_name := "1.json"; cm_payload := demo_mention |} |}.
Example executed_but_unanswered :
  let out := @process_claimed_message succeeding_executor demo_memory demo_sha om_message_id
    demo_dead_letter (λ _, false) None Ok demo_from_path (λ _, Err "no trigger") (λ _, "{}")
    (λ _, "{}") demo_decode_result demo_encode_result [] no_commands (λ i, Ok (Z.of_nat i))
    (λ _ _, silent_agent) demo_root_settings None demo_unaddressed demo_machine in
  out.2 = Err "slack message missing conversation_id"
  ∧ size (rs_runs (rt_runs (st out.1 "/srv/main"))) = 1
  ∧ file_at Processing "1.json" (rt_queue (st out.1 "/srv/main")) = Some (QFile 1 "hello")
  ∧ q_outgoing (rt_queue (st out.1 "/srv/main")) = Some ∅.
Proof. vm_compute. repeat split. Qed.
