(* ===== verification/Daemon.v ===== *)
(** * Who runs the daemon

    [src/src/runtime/ownership_lock.rs], the state file of [supervisor.rs] and the
    start, stop and status commands of [src/src/app/command_handlers/daemon.rs]:
    the lock file, the recorded state and the process table by which commands
    decide whether a daemon runs.  Processes end and start at any time: every
    question whether one is alive is answered by the next of a list of process
    tables. *)
From S2P Require Import Prelude RustStr RustPath Io Json Config SlackChannel SlackSync StatePaths WorkerRegistry.

Local Open Scope string_scope.
Local Open Scope list_scope.

Record SupervisorState := {
  su_running : bool;
  su_pid : option Z;
  su_started_at : option Z;
  su_stopped_at : option Z;
  su_workers : list (string * WorkerHealth);
  su_last_error : option string;
  su_slack_profiles : list SlackProfileCredentialHealth;
}.
Definition SupervisorState_default : SupervisorState :=
  {| su_running := false; su_pid := None; su_started_at := None; su_stopped_at := None;
     su_workers := []; su_last_error := None; su_slack_profiles := [] |}.
(** [state.running = false; state.pid = None; state.stopped_at = Some(now);] *)
Definition stopped_state (now : Z) (s : SupervisorState) : SupervisorState :=
  {| su_running := false; su_pid := None; su_started_at := su_started_at s;
     su_stopped_at := Some now; su_workers := su_workers s; su_last_error := su_last_error s;
     su_slack_profiles := su_slack_profiles s |}.

Inductive OwnershipState := OwnNotRunning | OwnRunning (pid : Z) | OwnStale.
#[export] Instance OwnershipState_eq_dec : EqDecision OwnershipState.
Proof. solve_decision. Defined.
Record StopResult := { sr_pid : Z; sr_forced : bool }.

(** ** The machine *)
Record daemon_host := DaemonHost {
  dh_disk : disk;
  dh_alive : gset Z;                       (** the processes that can be signalled *)
  dh_future : list (gset Z);               (** the process tables of the next probes *)
  dh_next_pid : Z;
  dh_signals : list (Z * string);          (** the signals sent so far *)
  dh_log : list WorkerEventLog;            (** the runtime log *)
}.
Definition set_disk (d : disk) (s : daemon_host) : daemon_host :=
  DaemonHost d (dh_alive s) (dh_future s) (dh_next_pid s) (dh_signals s) (dh_log s).
Definition on_files {E A} : IO disk E A → IO daemon_host E A := zoom dh_disk set_disk.
Definition next_moment (s : daemon_host) : daemon_host :=
  match dh_future s with
  | [] => s
  | table :: future =>
      DaemonHost (dh_disk s) table future (dh_next_pid s) (dh_signals s) (dh_log s)
  end.
(** [kill -0 pid]. *)
Definition probe_process (pid : Z) (s : daemon_host) : daemon_host * result io_error bool :=
  let s := next_moment s in (s, Ok (bool_decide (pid ∈ dh_alive s))).
Definition record_signal (pid : Z) (signal : string) (s : daemon_host) :
    daemon_host * result io_error () :=
  (DaemonHost (dh_disk s) (dh_alive s) (dh_future s) (dh_next_pid s)
     (dh_signals s ++ [(pid, signal)]) (dh_log s), Ok ()).
(** A new process, with a number no living process has. *)
Definition spawn_process (s : daemon_host) : daemon_host * result io_error Z :=
  let pid := dh_next_pid s in
  (DaemonHost (dh_disk s) ({[ pid ]} ∪ dh_alive s) (dh_future s) (pid + 1)%Z (dh_signals s)
     (dh_log s), Ok pid).
Definition on_log {E A} : IO (list WorkerEventLog) E A → IO daemon_host E A :=
  zoom dh_log (λ log s, DaemonHost (dh_disk s) (dh_alive s) (dh_future s) (dh_next_pid s)
                          (dh_signals s) log).

Definition is_process_alive {E} (pid : Z) : IO daemon_host E bool :=
  if (pid =? 0)%Z then mret false else
  status ← attempt (sys (probe_process pid));
  mret (match status with Ok alive => alive | Err _ => false end).
Definition send_signal {E} (pid : Z) (signal : string) : IO daemon_host E () :=
  _ ← attempt (sys (record_signal pid signal)); mret ().

Section ownership.
Context (decode_state : string → result string SupervisorState)
  (encode_state : SupervisorState → string).
(** [std::process::id()] and the state root of this process. *)
Context (process_id : Z) (paths : StatePaths).

(** [atomic_write_file] of [shared/fs_atomic.rs]. *)
Definition atomic_write_file (path content : string) : IO disk io_error () :=
  match path_parent path with
  | None => throw (IoError OtherKind "path has no parent")
  | Some parent =>
      nanos ← read_clock;
      let tmp_name := String.concat "" ["."; from_option id "state" (file_name path); ".tmp-";
                        fmt_int process_id; "-"; fmt_int nanos] in
      let tmp_path := path_join parent tmp_name in
      sys (disk_create_new tmp_path) ;;
      sys (disk_write tmp_path content) ;;
      sys sync_all ;;
      sys (disk_rename tmp_path path) ;;
      sys sync_all
  end.

Definition load_supervisor_state : IO daemon_host RuntimeError SupervisorState :=
  let path := supervisor_state_path paths in
  exists_ ← on_files (path_exists (disk_exists path));
  if negb exists_ then mret SupervisorState_default else
  raw ← on_files (io_map_err (ReadState path) (sys (disk_read path)));
  lift (map_err (ParseState path) (decode_state raw)).
Definition save_supervisor_state (state : SupervisorState) : IO daemon_host RuntimeError () :=
  let path := supervisor_state_path paths in
  match path_parent path with
  | Some parent => on_files (io_map_err (RCreateDir parent) (sys (create_dir_all parent)))
  | None => mret ()
  end ;;
  on_files (io_map_err (WriteState path) (atomic_write_file path (encode_state state))).

(** ** [ownership_lock.rs] *)
Definition read_lock_pid : IO daemon_host RuntimeError (option Z) :=
  let path := supervisor_lock_path paths in
  exists_ ← on_files (path_exists (disk_exists path));
  if negb exists_ then mret None else
  raw ← on_files (io_map_err (ReadLock path) (sys (disk_read path)));
  mret (parse_u32 (trim raw)).

Definition supervisor_ownership_state : IO daemon_host RuntimeError OwnershipState :=
  state ← load_supervisor_state;
  recorded ← match su_pid state with
             | Some pid =>
                 if su_running state
                 then alive ← is_process_alive pid; mret (if (alive : bool) then Some pid else None)
                 else mret None
             | None => mret None
             end;
  match recorded with
  | Some pid => mret (OwnRunning pid)
  | None =>
      lock_pid ← read_lock_pid;
      match lock_pid with
      | Some pid =>
          alive ← is_process_alive pid;
          mret (if (alive : bool) then OwnRunning pid else OwnStale)
      | None =>
          mret (if su_running state || bool_decide (su_pid state ≠ None)
                then OwnStale else OwnNotRunning)
      end
  end.

(** [if path.exists() { let _ = fs::remove_file(path); }] *)
Definition remove_if_exists (path : string) : IO daemon_host RuntimeError () :=
  exists_ ← on_files (path_exists (disk_exists path));
  if (exists_ : bool) then _ ← attempt (on_files (sys (disk_remove path))); mret () else mret ().
Definition cleanup_stale_supervisor : IO daemon_host RuntimeError () :=
  remove_if_exists (supervisor_lock_path paths) ;;
  remove_if_exists (stop_signal_path paths) ;;
  state ← load_supervisor_state;
  now ← read_clock;
  save_supervisor_state (stopped_state now state).

Definition reserve_start_lock : IO daemon_host RuntimeError () :=
  let path := supervisor_lock_path paths in
  match path_parent path with
  | Some parent => on_files (io_map_err (RCreateDir parent) (sys (create_dir_all parent)))
  | None => mret ()
  end ;;
  on_files (io_map_err (WriteLock path)
    (sys (disk_create_new path) ;; sys (disk_write path (fmt_int process_id)))).
Definition write_supervisor_lock_pid (pid : Z) : IO daemon_host RuntimeError () :=
  let path := supervisor_lock_path paths in
  on_files (io_map_err (WriteLock path) (atomic_write_file path (fmt_int pid))).
Definition clear_start_lock : IO daemon_host RuntimeError () :=
  _ ← attempt (on_files (sys (disk_remove (supervisor_lock_path paths)))); mret ().
Definition spawn_supervisor_process : IO daemon_host RuntimeError Z :=
  io_map_err (λ e, Spawn (ioe_display e)) (sys spawn_process).
Definition signal_stop : IO daemon_host RuntimeError () :=
  let path := stop_signal_path paths in
  on_files (io_map_err (WriteState path) (sys (disk_write path "stop"))).

(** [while is_process_alive(pid) && start.elapsed() < timeout { sleep }]: the
    time allows for [polls] rounds. *)
Fixpoint wait_for_exit (polls : nat) (pid : Z) : IO daemon_host RuntimeError () :=
  alive ← is_process_alive pid;
  match polls with
  | O => mret ()
  | S polls => if (alive : bool) then wait_for_exit polls pid else mret ()
  end.
(** [if is_process_alive(pid) { send_signal; wait }] *)
Definition signal_and_wait (signal : string) (polls : nat) (pid : Z) :
    IO daemon_host RuntimeError () :=
  send_signal pid signal ;; wait_for_exit polls pid.

Definition stop_process (polls term_polls kill_polls : nat) (pid : Z) :
    IO daemon_host RuntimeError StopResult :=
  wait_for_exit polls pid ;;
  alive ← is_process_alive pid;
  (if (alive : bool) then signal_and_wait "-TERM" term_polls pid else mret ()) ;;
  forced ← is_process_alive pid;
  (if (forced : bool)
   then on_log (append_runtime_log paths "warn" "supervisor.stop.force_kill" ("pid=" +:+ fmt_int pid)) ;;
        signal_and_wait "-KILL" kill_polls pid
   else mret ()) ;;
  alive ← is_process_alive pid;
  if (alive : bool)
  then on_log (append_runtime_log paths "error" "supervisor.stop.failed"
         ("pid=" +:+ fmt_int pid +:+ " remained alive after TERM/KILL")) ;;
       throw (StopFailedAlive pid)
  else cleanup_stale_supervisor ;; mret {| sr_pid := pid; sr_forced := forced |}.
Definition stop_active_supervisor (polls term_polls kill_polls : nat) :
    IO daemon_host RuntimeError StopResult :=
  ownership ← supervisor_ownership_state;
  match ownership with
  | OwnStale => cleanup_stale_supervisor ;; throw RNotRunning
  | OwnNotRunning => throw RNotRunning
  | OwnRunning pid =>
      signal_stop ;;
      on_log (append_runtime_log paths "info" "supervisor.stop.requested" ("pid=" +:+ fmt_int pid)) ;;
      stop_process polls term_polls kill_polls pid
  end.
End ownership.

(** ** Commands: [daemon.rs] *)
Inductive StartMode := Foreground | Detach.
Definition parse_start_mode (args : list string) : result string StartMode :=
  match args with
  | [] => Ok Foreground
  | [arg] => if String.eqb arg "--detach" then Ok Detach else Err "usage: start [--detach]"
  | _ => Err "usage: start [--detach]"
  end.

Section commands.
Context (decode_state : string → result string SupervisorState)
  (encode_state : SupervisorState → string).
Context (process_id : Z) (paths : StatePaths).
Local Abbreviation ownership := (supervisor_ownership_state decode_state paths).
Local Abbreviation cleanup := (cleanup_stale_supervisor decode_state encode_state process_id paths).

(** The end of [prepare_start]: no other daemon runs. *)
Definition claim_start : IO daemon_host string () :=
  state ← io_map_err RuntimeError_display ownership;
  match state with
  | OwnRunning pid => throw ("supervisor already running (pid=" +:+ fmt_int pid +:+ ")")
  | OwnStale => io_map_err RuntimeError_display cleanup
  | OwnNotRunning => mret ()
  end.
(** [cmd_start_detached] after [prepare_start]. *)
Definition spawn_and_lock : IO daemon_host RuntimeError Z :=
  pid ← spawn_supervisor_process;
  write_supervisor_lock_pid process_id paths pid ;;
  mret pid.
Definition start_detached : IO daemon_host string Z :=
  io_map_err RuntimeError_display (reserve_start_lock process_id paths) ;;
  spawned ← attempt spawn_and_lock;
  match spawned with
  | Ok pid =>
      on_log (append_runtime_log paths "info" "supervisor.start.requested" ("pid=" +:+ fmt_int pid)) ;;
      mret pid
  | Err err =>
      io_map_err RuntimeError_display (clear_start_lock paths) ;;
      throw (RuntimeError_display err)
  end.

(** [cmd_stop] after [ensure_runtime_root]. *)
Definition stop_report (polls term_polls kill_polls : nat) : IO daemon_host string string :=
  stopped ← attempt (stop_active_supervisor decode_state encode_state process_id paths
                       polls term_polls kill_polls);
  match stopped with
  | Ok result =>
      mret (String.concat "" ["stopped
pid="; fmt_int (sr_pid result); "
forced="; if sr_forced result then "true" else "false"])
  | Err RNotRunning => mret "stopped
running=false"
  | Err err => throw (RuntimeError_display err)
  end.

(** [cmd_status]: the reported ownership and state. *)
Definition running_state (pid now : Z) (s : SupervisorState) : SupervisorState :=
  {| su_running := true; su_pid := Some pid;
     su_started_at := match su_started_at s with Some t => Some t | None => Some now end;
     su_stopped_at := None; su_workers := su_workers s; su_last_error := su_last_error s;
     su_slack_profiles := su_slack_profiles s |}.
Definition reconcile_status : IO daemon_host RuntimeError (string * SupervisorState) :=
  state ← load_supervisor_state decode_state paths;
  owner ← ownership;
  match owner with
  | OwnRunning pid =>
      if negb (su_running state) || bool_decide (su_pid state ≠ Some pid) then
        now ← (if decide (su_started_at state = None) then read_clock else mret 0%Z);
        let state := running_state pid now state in
        save_supervisor_state encode_state process_id paths state ;;
        mret ("running", state)
      else mret ("running", state)
  | OwnStale =>
      cleanup ;;
      state ← load_supervisor_state decode_state paths;
      mret ("stale", state)
  | OwnNotRunning =>
      if su_running state || bool_decide (su_pid state ≠ None) then
        cleanup ;;
        state ← load_supervisor_state decode_state paths;
        mret ("not_running", state)
      else mret ("not_running", state)
  end.
End commands.

(** *** The health of a Slack profile *)
Definition classify_slack_profile_health (worker : option WorkerHealth)
    (runtime_running credentials_ok : bool) (credential_reason : option string)
    (slack_enabled : bool) : string * string :=
  if negb slack_enabled then ("disabled", "slack channel disabled in settings") else
  if negb credentials_ok then
    ("auth_missing", from_option id "missing or invalid slack credentials" credential_reason) else
  if negb runtime_running then ("not_running", "supervisor is not running") else
  match worker with
  | Some worker =>
      match wh_state worker with
      | WRunning => ("running", "worker heartbeat is healthy")
      | WError =>
          let reason := from_option id "slack worker reported an error" (wh_last_error worker) in
          if contains "missing required env var" reason
             || contains "profile-scoped credentials" reason
          then ("auth_missing", reason) else ("api_failure", reason)
      | WStopped =>
          ("api_failure", "slack worker is enabled but not reporting running health")
      end
  | None => ("api_failure", "slack worker is enabled but not reporting running health")
  end.
Definition option_or_else {A} (o p : option A) : option A := match o with Some a => Some a | None => p end.
Definition slack_worker (state : SupervisorState) : option WorkerHealth :=
  option_or_else (map_get "channel:slack-socket" (su_workers state))
    (option_or_else (map_get "channel:slack-backfill" (su_workers state))
       (map_get "channel:slack" (su_workers state))).
(** [collect::<BTreeMap<_, _>>()]: of two records of a profile the last counts. *)
Definition credential_record (profile_id : string) (items : list SlackProfileCredentialHealth) :
    option SlackProfileCredentialHealth :=
  find (λ item, String.eqb (ph_profile_id item) profile_id) (reverse items).
Definition slack_profile_status_lines (settings : Settings) (state : SupervisorState) :
    list string :=
  profile ← map_keys (slack_profiles settings);
  let health := credential_record profile (su_slack_profiles state) in
  let '(status, reason) := classify_slack_profile_health (slack_worker state) (su_running state)
    (from_option ph_ok true health) (health ≫= ph_reason) (slack_channel_enabled settings) in
  ["slack_profile:" +:+ profile +:+ ".health=" +:+ status;
   "slack_profile:" +:+ profile +:+ ".reason=" +:+ reason].
