(* ===== verification/DaemonGuarantees.v ===== *)
(** * What the start and stop commands guarantee

    Stopping: whom the signals reach, and what success and failure mean; the lock
    file that no command reads and no command removes; and what the lock does not
    exclude: two daemons after a crash. *)
From S2P Require Import Prelude RustStr RustPath Io Json Config SlackChannel SlackSync SlackIngest SlackIngestGuarantees StatePaths WorkerRegistry Daemon.

Local Open Scope string_scope.
Local Open Scope list_scope.

(** ** Paths *)
Lemma state_not_lock paths : supervisor_state_path paths ≠ supervisor_lock_path paths.
Proof.
  unfold supervisor_state_path, supervisor_lock_path.
  destruct (path_join_ends (daemon_dir paths) "runtime.json") as [p ->].
  destruct (path_join_ends (daemon_dir paths) "supervisor.lock") as [q ->].
  intros Heq%(f_equal String.rev). by rewrite !str_rev_app in Heq.
Qed.
Lemma stop_not_lock paths : stop_signal_path paths ≠ supervisor_lock_path paths.
Proof.
  unfold stop_signal_path, supervisor_lock_path.
  destruct (path_join_ends (daemon_dir paths) "stop") as [p ->].
  destruct (path_join_ends (daemon_dir paths) "supervisor.lock") as [q ->].
  intros Heq%(f_equal String.rev). by rewrite !str_rev_app in Heq.
Qed.
Lemma stop_not_state paths : stop_signal_path paths ≠ supervisor_state_path paths.
Proof.
  unfold stop_signal_path, supervisor_state_path.
  destruct (path_join_ends (daemon_dir paths) "stop") as [p ->].
  destruct (path_join_ends (daemon_dir paths) "runtime.json") as [q ->].
  intros Heq%(f_equal String.rev). by rewrite !str_rev_app in Heq.
Qed.

Section daemon.
Context (decode_state : string → result string SupervisorState)
  (encode_state : SupervisorState → string) (process_id : Z) (paths : StatePaths).
Local Abbreviation state_file := (supervisor_state_path paths).
Local Abbreviation lock_file := (supervisor_lock_path paths).
Local Abbreviation stop_file := (stop_signal_path paths).
Local Abbreviation ownership := (supervisor_ownership_state decode_state paths).
Local Abbreviation cleanup := (cleanup_stale_supervisor decode_state encode_state process_id paths).
Local Abbreviation stop := (stop_active_supervisor decode_state encode_state process_id paths).

(** Who is recorded as the daemon. *)
Definition recorded_pid (pid : Z) (d : disk) : Prop :=
  (∃ raw state, d !! state_file = Some raw ∧ decode_state raw = Ok state
     ∧ su_running state = true ∧ su_pid state = Some pid)
  ∨ ∃ raw, d !! lock_file = Some raw ∧ parse_u32 (trim raw) = Some pid.

(** ** The parts *)
(** Neither the files nor the signals sent change. *)
Definition watches (s s' : daemon_host) : Prop :=
  dh_disk s' = dh_disk s ∧ dh_signals s' = dh_signals s.
#[local] Instance watches_preorder : PreOrder watches.
Proof. split; [by intros s; split|]. intros a b c [] []. split; congruence. Qed.

Lemma wp_alive {E} pid (Φ : result E bool → daemon_host → Prop) s :
  (∀ b s', watches s s' → (b = true → pid ∈ dh_alive s' ∧ pid ≠ 0%Z) → (b = false → pid = 0%Z ∨ pid ∉ dh_alive s') →
     Φ (Ok b) s') →
  wp true (is_process_alive pid) Φ s.
Proof.
  intros HΦ. unfold is_process_alive. destruct (Z.eqb_spec pid 0) as [->|Hne].
  { apply wp_ret, HΦ; [reflexivity|done|by left]. }
  apply wp_bind, wp_attempt, wp_sys; [done|]. unfold probe_process. cbn [fst snd].
  apply wp_ret, HΦ.
  - unfold next_moment. by destruct (dh_future s).
  - by intros Hin%bool_decide_eq_true.
  - intros ?%bool_decide_eq_false. by right.
Qed.
Lemma wp_wait polls pid (Φ : result RuntimeError () → daemon_host → Prop) s :
  (∀ s', watches s s' → Φ (Ok ()) s') → wp true (wait_for_exit polls pid) Φ s.
Proof.
  revert s. induction polls as [|polls IH]; intros s HΦ; simpl; apply wp_bind, wp_alive;
    intros b s' Hw _ _.
  - by apply wp_ret, HΦ.
  - destruct b; [|by apply wp_ret, HΦ]. apply IH. intros s'' Hw'. apply HΦ. by etrans.
Qed.
Lemma wp_on_log {E} level event message (Φ : result E () → daemon_host → Prop) s :
  (∀ s', watches s s' → dh_alive s' = dh_alive s → Φ (Ok ()) s') →
  wp true (on_log (append_runtime_log paths level event message)) Φ s.
Proof.
  intros HΦ. unfold on_log, append_runtime_log. apply wp_zoom, wp_bind, wp_clock. intros now.
  apply wp_bind, wp_attempt. destruct (path_parent _); [apply wp_sys; [done|]|apply wp_ret].
  all: apply wp_bind, wp_attempt, wp_sys; [done|]; by apply wp_ret, HΦ.
Qed.
Lemma wp_signal signal polls pid (Φ : result RuntimeError () → daemon_host → Prop) s :
  (∀ s', dh_disk s' = dh_disk s → dh_signals s' = dh_signals s ++ [(pid, signal)] → Φ (Ok ()) s') →
  wp true (signal_and_wait signal polls pid) Φ s.
Proof.
  intros HΦ. unfold signal_and_wait, send_signal. apply wp_bind, wp_bind, wp_attempt, wp_sys; [done|].
  apply wp_ret. apply wp_wait. intros s' [Hd Hs]. by apply HΦ.
Qed.

Lemma wp_exists path (Φ : result RuntimeError bool → daemon_host → Prop) s :
  Φ (Ok (disk_is_file path (dh_disk s))) s →
  wp true (on_files (path_exists (disk_exists path))) Φ s.
Proof.
  intros HΦ. unfold on_files. apply wp_zoom, wp_fmap, wp_attempt, wp_sys; [done|].
  unfold disk_exists. cbn [fst snd]. destruct s. by destruct (disk_is_file _ _).
Qed.
(** What [load_supervisor_state] reads. *)
Definition state_in (d : disk) : result RuntimeError SupervisorState :=
  match d !! state_file with
  | None => Ok SupervisorState_default
  | Some raw => map_err (ParseState state_file) (decode_state raw)
  end.
Lemma wp_load_supervisor (Φ : result RuntimeError SupervisorState → daemon_host → Prop) s :
  Φ (state_in (dh_disk s)) s → wp true (load_supervisor_state decode_state paths) Φ s.
Proof.
  intros HΦ. unfold load_supervisor_state. apply wp_bind, wp_exists. unfold state_in, disk_is_file in *.
  case_bool_decide as Hex; simpl.
  - destruct Hex as [raw Hraw]. rewrite Hraw in HΦ. apply wp_bind, wp_zoom, wp_map_err, wp_sys; [done|].
    unfold disk_read. cbn [fst snd]. rewrite Hraw. simpl. destruct s. by apply wp_lift.
  - apply eq_None_not_Some in Hex. rewrite Hex in HΦ. by apply wp_ret.
Qed.
Lemma wp_read_lock (Φ : result RuntimeError (option Z) → daemon_host → Prop) s :
  Φ (Ok (dh_disk s !! lock_file ≫= λ raw, parse_u32 (trim raw))) s →
  wp true (read_lock_pid paths) Φ s.
Proof.
  intros HΦ. unfold read_lock_pid. apply wp_bind, wp_exists. unfold disk_is_file.
  case_bool_decide as Hex; simpl.
  - destruct Hex as [raw Hraw]. rewrite Hraw in HΦ. apply wp_bind, wp_zoom, wp_map_err, wp_sys; [done|].
    unfold disk_read. cbn [fst snd]. rewrite Hraw. simpl. destruct s. by apply wp_ret.
  - apply eq_None_not_Some in Hex. rewrite Hex in HΦ. by apply wp_ret.
Qed.

(** *** Changing files *)
Lemma disk_rename_fresh (d : disk) tmp path content :
  d !! tmp = None →
  disk_rename tmp path (<[tmp := content]> (<[tmp := ""]> d)) = (<[path := content]> d, Ok ()).
Proof.
  intros Hfresh. unfold disk_rename, disk in *. rewrite insert_insert_eq, lookup_insert_eq.
  by rewrite delete_insert_id.
Qed.
Lemma wp_remove path (Φ : result RuntimeError () → daemon_host → Prop) s :
  Φ (Ok ()) (set_disk (delete path (dh_disk s)) s) → wp true (remove_if_exists path) Φ s.
Proof.
  intros HΦ. unfold remove_if_exists. apply wp_bind, wp_exists. unfold disk_is_file.
  case_bool_decide as Hex; simpl.
  - apply wp_bind, wp_attempt, wp_zoom, wp_sys; [done|]. unfold disk_remove.
    destruct Hex as [raw Hraw]. rewrite Hraw. by apply wp_ret.
  - apply wp_ret. apply eq_None_not_Some in Hex. assert (Hd : delete path (dh_disk s) = dh_disk s) by by apply delete_id.
    rewrite Hd in HΦ. by destruct s.
Qed.
(** A file is replaced whole or not at all. *)
Lemma wp_atomic_write path content (Φ : result io_error () → disk → Prop) d :
  (∀ r, match r with
        | Ok _ => Φ r (<[path := content]> d)
        | Err _ => Φ r d
        end) →
  wp true (atomic_write_file process_id path content) Φ d.
Proof.
  intros HΦ. unfold atomic_write_file. destruct (path_parent path) as [parent|].
  2: { apply wp_throw, (HΦ (Err _)). }
  apply wp_bind, wp_clock. intros now. set (tmp := path_join parent _). cbv zeta.
  apply wp_bind, wp_sys; [done|]. unfold disk_create_new, disk_is_file. case_bool_decide as Hex; cbn [fst snd].
  { apply (HΦ (Err _)). }
  apply eq_None_not_Some in Hex.
  apply wp_bind, wp_sys; [done|]. unfold disk_write. cbn [fst snd].
  apply wp_bind, wp_sys; [done|]. apply wp_bind, wp_sys; [done|].
  unfold sync_all. cbn [fst snd]. rewrite disk_rename_fresh by done. cbn [fst snd].
  apply wp_sys; [done|]. apply (HΦ (Ok ())).
Qed.
Lemma wp_save state (Φ : result RuntimeError () → daemon_host → Prop) s :
  Φ (Ok ()) (set_disk (<[state_file := encode_state state]> (dh_disk s)) s) →
  (∀ source, Φ (Err (WriteState state_file source)) s) →
  wp true (save_supervisor_state encode_state process_id paths state) Φ s.
Proof.
  intros Hok Herr. unfold save_supervisor_state. cbv zeta. apply wp_bind.
  assert (Hwrite : wp true (on_files (io_map_err (WriteState state_file)
            (atomic_write_file process_id state_file (encode_state state)))) Φ s).
  { apply wp_zoom, wp_map_err, wp_atomic_write. intros [[]|e]; [done|].
    destruct s. apply Herr. }
  destruct (path_parent state_file) as [parent|]; [|by apply wp_ret].
  apply wp_zoom, wp_map_err, wp_sys; [done|]. cbn [create_dir_all fst snd map_err]. by destruct s.
Qed.

(** The files after cleaning up. *)
Definition cleaned (d d' : disk) : Prop :=
  d' !! lock_file = None ∧ d' !! stop_file = None ∧
  ∃ state now, state_in d = Ok state
    ∧ d' = <[state_file := encode_state (stopped_state now state)]>
             (delete stop_file (delete lock_file d)).
Lemma wp_cleanup (Φ : result RuntimeError () → daemon_host → Prop) s :
  (∀ d, cleaned (dh_disk s) d → Φ (Ok ()) (set_disk d s)) →
  (∀ e, (∃ source, state_in (dh_disk s) = Err source ∧ e = source)
        ∨ (∃ source, e = WriteState state_file source) →
     Φ (Err e) (set_disk (delete stop_file (delete lock_file (dh_disk s))) s)) →
  wp true cleanup Φ s.
Proof.
  intros Hok Herr. unfold cleanup_stale_supervisor.
  apply wp_bind, wp_remove. apply wp_bind, wp_remove. apply wp_bind, wp_load_supervisor.
  assert (Hst : state_in (delete stop_file (delete lock_file (dh_disk s))) = state_in (dh_disk s)).
  { pose proof (state_not_lock paths). pose proof (stop_not_state paths). unfold state_in, disk.
    by rewrite !lookup_delete_ne by auto. }
  cbn [set_disk dh_disk]. rewrite Hst. destruct (state_in (dh_disk s)) as [state|e] eqn:He.
  2: { apply Herr. left. eauto. }
  apply wp_bind, wp_clock. intros now. apply wp_save; cbn [set_disk dh_disk].
  - apply Hok. unfold cleaned, disk. pose proof (state_not_lock paths). pose proof (stop_not_state paths).
    rewrite !lookup_insert_ne by auto. rewrite lookup_delete_ne by apply stop_not_lock.
    rewrite !lookup_delete_eq. eauto 10.
  - intros source. apply Herr. right. eauto.
Qed.

Lemma wp_ownership (Φ : result RuntimeError OwnershipState → daemon_host → Prop) s :
  (∀ source, state_in (dh_disk s) = Err source → Φ (Err source) s) →
  (∀ state o s', watches s s' → state_in (dh_disk s) = Ok state →
     match o with
     | OwnRunning pid => recorded_pid pid (dh_disk s) ∧ pid ≠ 0%Z
     | OwnStale => True
     | OwnNotRunning =>
         su_running state = false ∧ su_pid state = None
         ∧ (dh_disk s !! lock_file ≫= λ raw, parse_u32 (trim raw)) = None
     end → Φ (Ok o) s') →
  wp true ownership Φ s.
Proof.
  intros Herr Hok. unfold supervisor_ownership_state. apply wp_bind, wp_load_supervisor.
  destruct (state_in (dh_disk s)) as [state|e] eqn:Hst; [|by apply Herr].
  assert (Hlock : ∀ s1, watches s s1 →
    wp true (lock_pid ← read_lock_pid paths;
      match lock_pid with
      | Some pid => alive ← is_process_alive pid;
                    mret (if (alive : bool) then OwnRunning pid else OwnStale)
      | None => mret (if su_running state || bool_decide (su_pid state ≠ None)
                      then OwnStale else OwnNotRunning)
      end) Φ s1).
  { intros s1 Hs1. apply wp_bind, wp_read_lock. rewrite (proj1 Hs1).
    destruct (dh_disk s !! lock_file ≫= _) as [pid|] eqn:Hpid.
    - apply wp_bind, wp_alive. intros b s2 Hs2 Hb Hb'. apply wp_ret.
      apply (Hok state); [by etrans|done|]. destruct b; [|done]. split.
      + right. destruct (dh_disk s !! lock_file) as [raw|]; [|done]. eauto.
      + by apply Hb.
    - apply wp_ret. apply (Hok state); [done..|]. destruct (su_running state); [done|]. simpl.
      case_bool_decide as Hn; [done|]. destruct (su_pid state); [by destruct Hn|done]. }
  apply wp_bind. destruct (su_pid state) as [pid|] eqn:Hpid; [|by apply wp_ret, Hlock].
  destruct (su_running state) eqn:Hrun; [|by apply wp_ret, Hlock].
  apply wp_bind, wp_alive. intros b s1 Hs1 Hb Hb'. apply wp_ret. destruct b; [|by apply Hlock].
  apply wp_ret. apply (Hok state); [done..|]. split; [|by apply Hb].
  left. unfold state_in in Hst. destruct (dh_disk s !! state_file) as [raw|]; [|by injection Hst as <-].
  exists raw, state. by destruct (decode_state raw); simplify_eq/=.
Qed.

(** *** Stopping a process *)
Definition sent (term kill : bool) (pid : Z) : list (Z * string) :=
  (if term then [(pid, "-TERM")] else []) ++ (if kill then [(pid, "-KILL")] else []).

Lemma wp_maybe_signal (alive : bool) signal polls pid (Φ : result RuntimeError () → daemon_host → Prop) s :
  (∀ s', dh_disk s' = dh_disk s →
     dh_signals s' = dh_signals s ++ (if alive then [(pid, signal)] else []) → Φ (Ok ()) s') →
  wp true (if alive then signal_and_wait signal polls pid else mret ()) Φ s.
Proof.
  intros HΦ. destruct alive; [by apply wp_signal|]. apply wp_ret, HΦ; [done|]. by rewrite app_nil_r.
Qed.
Lemma wp_stop_process polls term_polls kill_polls pid
    (Φ : result RuntimeError StopResult → daemon_host → Prop) s :
  pid ≠ 0%Z →
  (∀ term kill s', dh_signals s' = dh_signals s ++ sent term kill pid →
     (pid ∈ dh_alive s' → dh_disk s' = dh_disk s → Φ (Err (StopFailedAlive pid)) s')
     ∧ (pid ∉ dh_alive s' → cleaned (dh_disk s) (dh_disk s') →
          Φ (Ok {| sr_pid := pid; sr_forced := kill |}) s')
     ∧ (∀ e, pid ∉ dh_alive s' →
          dh_disk s' = delete stop_file (delete lock_file (dh_disk s)) →
          state_in (dh_disk s) = Err e ∨ (∃ source, e = WriteState state_file source) →
          Φ (Err e) s')) →
  wp true (stop_process decode_state encode_state process_id paths polls term_polls kill_polls pid) Φ s.
Proof.
  intros Hne HΦ. unfold stop_process.
  apply wp_bind, wp_wait. intros s1 [Hd1 Hg1]. apply wp_bind, wp_alive.
  intros term s2 [Hd2 Hg2] _ _. apply wp_bind, wp_maybe_signal. intros s3 Hd3 Hg3.
  apply wp_bind, wp_alive. intros kill s4 [Hd4 Hg4] _ _. apply wp_bind.
  assert (Hrest : ∀ s5, dh_disk s5 = dh_disk s → dh_signals s5 = dh_signals s ++ sent term kill pid →
    wp true (alive ← is_process_alive pid;
       if (alive : bool)
       then on_log (append_runtime_log paths "error" "supervisor.stop.failed"
              ("pid=" +:+ fmt_int pid +:+ " remained alive after TERM/KILL")) ;;
            throw (StopFailedAlive pid)
       else cleanup ;; mret {| sr_pid := pid; sr_forced := kill |}) Φ s5).
  { intros s5 Hd5 Hg5. apply wp_bind, wp_alive. intros alive s6 [Hd6 Hg6] Hin Hout. destruct alive.
    - apply wp_bind, wp_on_log. intros s7 [Hd7 Hg7] Ha7. apply wp_throw.
      destruct (HΦ term kill s7) as (Halive & _); [congruence|]. apply Halive; [|congruence].
      rewrite Ha7. by apply Hin.
    - destruct Hout as [?|Hout]; [done|done|]. rewrite <- Hd5, <- Hd6 in HΦ. apply wp_bind, wp_cleanup.
      + intros d Hc. apply wp_ret. destruct (HΦ term kill (set_disk d s6)) as (_ & Hgone & _);
          [simpl; congruence|]. by apply Hgone.
      + intros e He. destruct (HΦ term kill (set_disk (delete stop_file (delete lock_file (dh_disk s6))) s6))
          as (_ & _ & Hunsaved); [simpl; congruence|]. apply Hunsaved; [done..|].
        destruct He as [(source & -> & ->)|He]; [by left|by right]. }
  unfold sent in Hrest. destruct kill.
  - apply wp_bind, wp_on_log. intros s5 [Hd5 Hg5] _. apply wp_signal. intros s6 Hd6 Hg6.
    apply Hrest; [congruence|]. rewrite Hg6, Hg5, Hg4, Hg3, Hg2, Hg1. by rewrite app_assoc.
  - apply wp_ret, Hrest; [congruence|]. rewrite Hg4, Hg3, Hg2, Hg1. by rewrite app_nil_r.
Qed.

(** ** Stopping the daemon *)
(** What a stop command that reports [r] has done to the machine. *)
Definition stopped_as (s : daemon_host) (r : result RuntimeError StopResult) (s' : daemon_host) : Prop :=
  match r with
  | Ok result =>
      recorded_pid (sr_pid result) (dh_disk s) ∧ sr_pid result ∉ dh_alive s'
      ∧ (∃ term, dh_signals s' = dh_signals s ++ sent term (sr_forced result) (sr_pid result))
      ∧ dh_disk s' !! lock_file = None ∧ dh_disk s' !! stop_file = None
      ∧ ∃ state now, state_in (dh_disk s) = Ok state
          ∧ dh_disk s' !! state_file = Some (encode_state (stopped_state now state))
  | Err (StopFailedAlive pid) =>
      recorded_pid pid (dh_disk s) ∧ pid ∈ dh_alive s'
      ∧ (∃ term kill, dh_signals s' = dh_signals s ++ sent term kill pid)
      ∧ dh_disk s' = <[stop_file := "stop"]> (dh_disk s)
  | Err RNotRunning =>
      dh_signals s' = dh_signals s ∧ (dh_disk s' = dh_disk s ∨ cleaned (dh_disk s) (dh_disk s'))
  | Err (ParseState path _) =>
      path = state_file ∧ dh_signals s' = dh_signals s ∧ dh_disk s' = dh_disk s
  | Err (WriteState path _) =>
      path = state_file ∧ dh_disk s' !! lock_file = None ∧ dh_disk s' !! stop_file = None
      ∧ ∃ term kill pid, dh_signals s' = dh_signals s ++ sent term kill pid
          ∧ (term || kill = true → recorded_pid pid (dh_disk s) ∧ pid ∉ dh_alive s')
  | Err _ => False
  end.
Lemma cleaned_after_request d d' :
  cleaned (<[stop_file := "stop"]> d) d' →
  d' !! lock_file = None ∧ d' !! stop_file = None ∧
  ∃ state now, state_in d = Ok state ∧ d' !! state_file = Some (encode_state (stopped_state now state)).
Proof.
  intros (Hl & Hs & state & now & Hst & ->). split_and!; [done..|]. exists state, now. split.
  - revert Hst. unfold state_in, disk. by rewrite lookup_insert_ne by apply stop_not_state.
  - apply disk_lookup_insert.
Qed.
Lemma state_in_request d : state_in (<[stop_file := "stop"]> d) = state_in d.
Proof. unfold state_in, disk. by rewrite lookup_insert_ne by apply stop_not_state. Qed.
Lemma removed_both (d : disk) :
  delete stop_file (delete lock_file d) !! lock_file = None
  ∧ delete stop_file (delete lock_file d) !! stop_file = None.
Proof.
  unfold disk in *. rewrite lookup_delete_eq, lookup_delete_ne by apply stop_not_lock.
  by rewrite lookup_delete_eq.
Qed.

(** C28: when the file system works, [stop_active_supervisor] signals no process but
    the one recorded in the state or lock file, at most TERM and then KILL; it
    succeeds only when that process is gone, with the lock and the stop request
    removed, the state stopped and the kill reported; when the process outlives
    both signals the lock and the recorded state stay; and when it reports that
    nothing runs, it has signalled nobody. *)
Theorem stop_stops_the_daemon polls term_polls kill_polls w :
  faults (ev w) = [] →
  stopped_as (st w) (stop polls term_polls kill_polls w).2 (st (stop polls term_polls kill_polls w).1).
Proof.
  intros Hcalm. enough (H : wp true (stop polls term_polls kill_polls) (stopped_as (st w)) (st w)).
  { apply (wp_run _ _ _ w H (λ _, Hcalm)). }
  generalize (st w) as s. clear w Hcalm. intros s. unfold stop_active_supervisor. apply wp_bind, wp_ownership.
  { unfold state_in. intros source Hs. destruct (dh_disk s !! state_file); [|done].
    destruct (decode_state _); simplify_eq/=. done. }
  intros state o s1 [Hd1 Hg1] Hst Ho. destruct o as [|pid|].
  - apply wp_throw. simpl. auto.
  - destruct Ho as [Hrec Hne]. apply wp_bind, wp_zoom, wp_map_err, wp_sys; [done|].
    cbn [disk_write fst snd map_err]. apply wp_bind, wp_on_log. intros s2 [Hd2 Hg2] _.
    apply wp_stop_process; [done|]. intros term kill s3 Hg3.
    simpl in Hd2, Hg2. rewrite Hd2, Hd1. rewrite Hg2, Hg1 in Hg3. split_and!.
    + intros Ha Hd. simpl. eauto 10.
    + intros Ha Hc. simpl. apply cleaned_after_request in Hc. naive_solver.
    + intros e Ha Hd He. rewrite state_in_request, Hst in He. destruct He as [?|[source ->]]; [done|].
      simpl. rewrite Hd. split; [done|]. split_and!; [apply removed_both..|]. exists term, kill, pid. auto.
  - apply wp_bind, wp_cleanup; rewrite Hd1.
    + intros d Hc. apply wp_throw. simpl. auto.
    + intros e [(source & Hs & _)|[source ->]]; [congruence|]. simpl.
      split; [done|]. split_and!; [apply removed_both..|]. exists false, false, 0%Z.
      by rewrite app_nil_r.
Qed.

(** ** A lock nobody reads *)
Local Abbreviation start := (claim_start decode_state encode_state process_id paths ;;
                             start_detached process_id paths).
Lemma wp_ownership_unread (Φ : result RuntimeError OwnershipState → daemon_host → Prop) s state raw :
  state_in (dh_disk s) = Ok state → su_running state = false → su_pid state = None →
  dh_disk s !! lock_file = Some raw → parse_u32 (trim raw) = None →
  Φ (Ok OwnNotRunning) s → wp true ownership Φ s.
Proof.
  intros Hst Hrun Hpid Hlock Hraw HΦ. unfold supervisor_ownership_state. apply wp_bind, wp_load_supervisor.
  rewrite Hst. cbv beta iota. rewrite Hpid. apply wp_bind, wp_ret, wp_bind, wp_read_lock. rewrite Hlock. simpl.
  rewrite Hraw, Hrun. by apply wp_ret.
Qed.
(** a lock file that holds no process number, as a start leaves it when it
    creates the file and cannot write it, counts as no daemon: while the recorded
    state is stopped every detached start fails on the existing file and spawns
    nothing, a stop reports that nothing runs, and neither removes it, so the
    daemon cannot be started again. *)
Theorem unread_lock_blocks_every_start s state raw polls term_polls kill_polls :
  state_in (dh_disk s) = Ok state → su_running state = false → su_pid state = None →
  dh_disk s !! lock_file = Some raw → parse_u32 (trim raw) = None →
  wp true start (λ r s', s' = s ∧
    r = Err ("failed to write lock file " +:+ lock_file +:+ ": File exists (os error 17)")) s
  ∧ wp true (stop polls term_polls kill_polls) (λ r s', s' = s ∧ r = Err RNotRunning) s.
Proof.
  intros Hst Hrun Hpid Hlock Hraw. split.
  - unfold claim_start. apply wp_bind, wp_bind, wp_map_err.
    eapply wp_ownership_unread; [done..|]. apply wp_ret. unfold start_detached, reserve_start_lock.
    apply wp_bind, wp_map_err, wp_bind.
    assert (Hreserve : ∀ Φ : result RuntimeError () → daemon_host → Prop,
      Φ (Err (WriteLock lock_file already_exists)) s →
      wp true (on_files (io_map_err (WriteLock lock_file)
        (sys (disk_create_new lock_file) ;; sys (disk_write lock_file (fmt_int process_id))))) Φ s).
    { intros Φ HΦ. apply wp_zoom, wp_map_err, wp_bind, wp_sys; [done|].
      unfold disk_create_new, disk_is_file. rewrite bool_decide_eq_true_2 by eauto. by destruct s. }
    destruct (path_parent lock_file) as [parent|]; [|by apply wp_ret, Hreserve].
    apply wp_zoom, wp_map_err, wp_sys; [done|]. cbn [create_dir_all fst snd map_err].
    replace (set_disk (dh_disk s) s) with s by by destruct s. by apply Hreserve.
  - unfold stop_active_supervisor. apply wp_bind. eapply wp_ownership_unread; [done..|].
    by apply wp_throw.
Qed.
End daemon.

(** ** A machine *)
Definition demo_daemon_paths : StatePaths := {| sp_root := "/home/u/.direclaw" |}.
Definition demo_up : SupervisorState :=
  {| su_running := true; su_pid := Some 7; su_started_at := Some 1; su_stopped_at := None;
     su_workers := []; su_last_error := None; su_slack_profiles := [] |}%Z.
Definition demo_decode_state (raw : string) : result string SupervisorState :=
  if String.eqb raw "up" then Ok demo_up
  else if String.eqb raw "down" then Ok SupervisorState_default else Err "expected value".
Definition demo_encode_state (state : SupervisorState) : string :=
  if su_running state then "up" else "down".
(** The state file says that process 7 runs; [tables] are the next process tables. *)
Definition demo_machine (state lock : string) (tables : list (gset Z)) : world daemon_host :=
  World (DaemonHost {[ supervisor_state_path demo_daemon_paths := state;
                       supervisor_lock_path demo_daemon_paths := lock ]} ∅ tables 100 [] [])
    (Env [] []).
Local Abbreviation demo_stop := (stop_active_supervisor demo_decode_state demo_encode_state 50
                                   demo_daemon_paths 1 1 1).
Local Abbreviation demo_start := (claim_start demo_decode_state demo_encode_state 50
    demo_daemon_paths ;; start_detached 50 demo_daemon_paths).

Lemma stop_stops_the_daemon_witness :
  let w := demo_machine "up" "7" [{[7]}; {[7]}; {[7]}; {[7]}; {[7]}; ∅]%Z in
  (demo_stop w).2 = Ok {| sr_pid := 7; sr_forced := false |}
  ∧ dh_signals (st (demo_stop w).1) = [(7%Z, "-TERM")]
  ∧ stopped_as demo_decode_state demo_encode_state demo_daemon_paths (st w) (demo_stop w).2
      (st (demo_stop w).1).
Proof.
  split; [by vm_compute|]. split; [by vm_compute|].
  assert (Hcalm : faults (ev (demo_machine "up" "7" [{[7]}; {[7]}; {[7]}; {[7]}; {[7]}; ∅]%Z)) = []) by done.
  pose proof (stop_stops_the_daemon demo_decode_state demo_encode_state 50 demo_daemon_paths 1 1 1
    _ Hcalm) as H. exact H.
Defined.
Lemma unread_lock_blocks_every_start_witness :
  wp true demo_start (λ r s', s' = st (demo_machine "down" "" []) ∧
    r = Err ("failed to write lock file " +:+ supervisor_lock_path demo_daemon_paths
             +:+ ": File exists (os error 17)")) (st (demo_machine "down" "" []))
  ∧ wp true demo_stop (λ r s', s' = st (demo_machine "down" "" []) ∧ r = Err RNotRunning)
      (st (demo_machine "down" "" [])).
Proof.
  assert (Hstate : state_in demo_decode_state demo_daemon_paths (dh_disk (st (demo_machine "down" "" [])))
                   = Ok SupervisorState_default) by by vm_compute.
  assert (Hlock : dh_disk (st (demo_machine "down" "" [])) !! supervisor_lock_path demo_daemon_paths
                  = Some "") by by vm_compute.
  assert (Hraw : parse_u32 (trim "") = None) by by vm_compute.
  pose proof (unread_lock_blocks_every_start demo_decode_state demo_encode_state 50 demo_daemon_paths
    _ _ _ 1 1 1 Hstate eq_refl eq_refl Hlock Hraw) as H. exact H.
Defined.

(** After a crash (process 7 recorded, gone) two start commands can both succeed:
    A sees the stale lock; B sees it too, cleans up, locks and spawns process 100; A
    then removes B's lock as the stale one and spawns process 101. *)
Example two_daemons_after_a_crash :
  let '(w1, a) := supervisor_ownership_state demo_decode_state demo_daemon_paths
                    (demo_machine "up" "7" []) in
  let '(w2, b) := demo_start w1 in
  let '(w3, a') := (io_map_err RuntimeError_display
                      (cleanup_stale_supervisor demo_decode_state demo_encode_state 51 demo_daemon_paths) ;;
                    start_detached 51 demo_daemon_paths) w2 in
  a = Ok OwnStale ∧ b = Ok 100%Z ∧ a' = Ok 101%Z
  ∧ bool_decide (100%Z ∈ dh_alive (st w3)) = true ∧ bool_decide (101%Z ∈ dh_alive (st w3)) = true.
Proof. by vm_compute. Qed.
