(* ===== verification/Heartbeat.v ===== *)
(** * Heartbeats

    [src/src/runtime/heartbeat_worker.rs]: for every agent with a heartbeat prompt
    the worker puts a message into the queue of its orchestrator and looks for an
    answer. *)
From S2P Require Import Prelude RustStr RustPath Io Json QueueMessage QueueLifecycle Config OrchestratorFile StatePaths.
From Stdlib Require Import Ascii.

Local Open Scope string_scope.
Local Open Scope list_scope.

(** Seconds; [None]: no heartbeat worker. *)
Definition configured_heartbeat_interval (settings : Settings) : option Z :=
  let seconds := from_option id 3600%Z (s_heartbeat_interval settings) in
  if (seconds =? 0)%Z then None else Some seconds.

Definition heartbeat_prompt_path (orchestrator_root agent_id : string) : string :=
  path_join (path_join orchestrator_root "heartbeat") (agent_id +:+ ".md").
Definition resolve_heartbeat_prompt (orchestrator_root agent_id : string) :
    IO disk string (option string) :=
  let prompt_path := heartbeat_prompt_path orchestrator_root agent_id in
  body ← attempt (sys (disk_read prompt_path));
  match body with
  | Ok body => mret (Some (trim body))
  | Err err =>
      match ioe_kind err with
      | NotFound => mret None
      | _ => throw ("failed to read " +:+ prompt_path +:+ ": " +:+ ioe_display err)
      end
  end.

Definition heartbeat_char (ch : ascii) : bool :=
  is_ascii_alphanumeric ch || Ascii.eqb ch "-" || Ascii.eqb ch "_".
(** [sanitize_component] of this file. *)
Definition heartbeat_component (raw : string) : string := map_chars_else heartbeat_char "_" raw.

Definition build_heartbeat_incoming_message (orchestrator_id agent_id prompt : string)
    (tick_at : Z) : result string IncomingMessage :=
  reject_if (is_empty (trim orchestrator_id)) "heartbeat orchestrator id must be non-empty" ;;
  reject_if (is_empty (trim agent_id)) "heartbeat agent id must be non-empty" ;;
  let safe_orchestrator_id := heartbeat_component orchestrator_id in
  let safe_agent_id := heartbeat_component agent_id in
  let correlation := String.concat ":" ["hb"; safe_orchestrator_id; safe_agent_id; fmt_int tick_at] in
  Ok {| im_channel := "heartbeat";
        im_channel_profile_id := None;
        im_sender := "heartbeat:" +:+ orchestrator_id;
        im_sender_id := "heartbeat-" +:+ safe_agent_id;
        im_message := prompt;
        im_timestamp := tick_at;
        im_message_id := String.concat "-" ["heartbeat"; safe_orchestrator_id; safe_agent_id;
                           fmt_int tick_at];
        im_conversation_id := Some correlation;
        im_is_direct := false;
        im_is_thread_reply := false;
        im_is_mentioned := false;
        im_files := [];
        im_workflow_run_id := Some correlation;
        im_workflow_step_id := Some "heartbeat_worker_check" |}.

Definition snippet (text : string) (max_chars : nat) : string :=
  chars_take max_chars text +:+ (if (max_chars <? chars_count text)%nat then "..." else "").

(** The queues by runtime root, the other files by path, the runtime log. *)
Record heartbeat_host := HeartbeatHost {
  hh_queues : string → queue_fs;
  hh_disk : disk;
  hh_log : list WorkerEventLog;
}.
Definition on_hb_queue {E A} (root : string) : IO queue_fs E A → IO heartbeat_host E A :=
  zoom (λ s, hh_queues s root)
    (λ q s, HeartbeatHost (λ other, if decide (other = root) then q else hh_queues s other)
              (hh_disk s) (hh_log s)).
Definition on_hb_disk {E A} : IO disk E A → IO heartbeat_host E A :=
  zoom hh_disk (λ d s, HeartbeatHost (hh_queues s) d (hh_log s)).
Definition on_hb_log {E A} : IO (list WorkerEventLog) E A → IO heartbeat_host E A :=
  zoom hh_log (λ log s, HeartbeatHost (hh_queues s) (hh_disk s) log).

Section heartbeat.
Context (decode_outgoing : string → result string OutgoingMessage)
  (encode_incoming : IncomingMessage → string)
  (from_path : string → result ConfigError OrchestratorConfig)
  (env_var : string → option string).
Context (settings : Settings) (paths : StatePaths).

(** The first answer in the order of the file names; files that cannot be read
    or parsed are passed over. *)
Fixpoint first_response (heartbeat_message_id correlation_id : string) (names : list string) :
    IO queue_fs string (option string) :=
  match names with
  | [] => mret None
  | name :: names =>
      raw ← attempt (sys (fs_read_to_string Outgoing name));
      match result_ok raw ≫= (λ raw, result_ok (decode_outgoing raw)) with
      | Some payload =>
          if String.eqb (om_channel payload) "heartbeat"
             && String.eqb (om_message_id payload) heartbeat_message_id
             && bool_decide (om_conversation_id payload = Some correlation_id)
          then mret (Some (snippet (om_message payload) 200))
          else first_response heartbeat_message_id correlation_id names
      | None => first_response heartbeat_message_id correlation_id names
      end
  end.
Definition match_heartbeat_responses (queue : QueuePaths)
    (heartbeat_message_id correlation_id : string) : IO queue_fs string (option string) :=
  outgoing ← io_map_err (λ err, String.concat "" ["failed to read "; qp_outgoing queue; ": ";
                                  ioe_display err]) sorted_outgoing_paths;
  first_response heartbeat_message_id correlation_id outgoing.

Definition heartbeat_tick_timestamp {S E} : IO S E Z :=
  match env_var "DIRECLAW_HEARTBEAT_TICK_AT" ≫= parse_i64 with
  | Some value => if (0 <? value)%Z then mret value else read_clock
  | None => read_clock
  end.
Definition heartbeat_tick_fails : bool :=
  match env_var "DIRECLAW_FAIL_HEARTBEAT_TICK" with
  | Some value => String.eqb value "1" || eq_ignore_ascii_case value "true"
  | None => false
  end.

(** The answer to a message that was just written is looked for at once. *)
Definition log_response (queue : QueuePaths) (orchestrator_id agent_id : string)
    (message : IncomingMessage) (failures : list string) :
    IO heartbeat_host string (list string) :=
  let correlation := from_option id "" (im_conversation_id message) in
  response ← attempt (on_hb_queue (qp_root queue)
    (match_heartbeat_responses queue (im_message_id message) correlation));
  match response with
  | Ok (Some response) =>
      on_hb_log (append_runtime_log paths "info" "heartbeat.response.matched"
        (String.concat "" ["orchestrator="; orchestrator_id; " agent="; agent_id; " message_id=";
           im_message_id message; " snippet="; response])) ;;
      mret failures
  | Ok None =>
      on_hb_log (append_runtime_log paths "info" "heartbeat.response.missing"
        (String.concat "" ["orchestrator="; orchestrator_id; " agent="; agent_id; " message_id=";
           im_message_id message])) ;;
      mret failures
  | Err err => mret (failures ++ [err])
  end.
Definition write_heartbeat (queue : QueuePaths) (message : IncomingMessage) :
    IO heartbeat_host string () :=
  let name := im_message_id message +:+ ".json" in
  let queue_path := path_join (qp_incoming queue) name in
  now ← read_clock;
  on_hb_queue (qp_root queue)
    (io_map_err (λ err, String.concat "" ["failed to write "; queue_path; ": "; ioe_display err])
       (sys (fs_write Incoming name (encode_incoming message) now))).

(** One agent; the loop goes on with the failures so far. *)
Definition tick_agent (tick_at : Z) (orchestrator_id private_workspace : string)
    (queue : QueuePaths) (failures : list string) (agent_id : string) :
    IO heartbeat_host string (list string) :=
  prompt ← attempt (on_hb_disk (resolve_heartbeat_prompt private_workspace agent_id));
  match prompt with
  | Err err => mret (failures ++ [err])
  | Ok None =>
      on_hb_log (append_runtime_log paths "info" "heartbeat.prompt.missing"
        (String.concat "" ["orchestrator="; orchestrator_id; " agent="; agent_id; " path=";
           heartbeat_prompt_path private_workspace agent_id])) ;;
      mret failures
  | Ok (Some prompt) =>
      match build_heartbeat_incoming_message orchestrator_id agent_id prompt tick_at with
      | Err err => mret (failures ++ [err])
      | Ok message =>
          written ← attempt (write_heartbeat queue message);
          match written with
          | Err err => mret (failures ++ [err])
          | Ok _ => log_response queue orchestrator_id agent_id message failures
          end
      end
  end.

(** One orchestrator: the early [continue]s are its errors. *)
Definition orchestrator_setup (orchestrator_id : string) :
    IO heartbeat_host string (OrchestratorConfig * QueuePaths * string) :=
  orchestrator ← lift (map_err (λ err, String.concat "" ["orchestrator `"; orchestrator_id;
    "` heartbeat setup failed: "; ConfigError_display err])
    (load_orchestrator_config from_path settings orchestrator_id));
  runtime_root ← lift (map_err (λ err, String.concat "" ["orchestrator `"; orchestrator_id;
    "` runtime root resolution failed: "; ConfigError_display err])
    (resolve_private_workspace settings orchestrator_id));
  let queue := from_state_root runtime_root in
  on_hb_queue runtime_root (io_map_err (λ err, String.concat "" ["failed to create ";
    qp_incoming queue; ": "; ioe_display err]) (sys (fs_create_dir_all Incoming))) ;;
  on_hb_queue runtime_root (io_map_err (λ err, String.concat "" ["failed to create ";
    qp_outgoing queue; ": "; ioe_display err]) (sys (fs_create_dir_all Outgoing))) ;;
  private_workspace ← lift (map_err (λ err, String.concat ""
    ["failed to resolve private workspace for `"; orchestrator_id; "`: ";
     ConfigError_display err]) (resolve_private_workspace settings orchestrator_id));
  mret (orchestrator, queue, private_workspace).
Definition tick_orchestrator (tick_at : Z) (failures : list string) (orchestrator_id : string) :
    IO heartbeat_host string (list string) :=
  setup ← attempt (orchestrator_setup orchestrator_id);
  match setup with
  | Err err => mret (failures ++ [err])
  | Ok (orchestrator, queue, private_workspace) =>
      io_for_fold (tick_agent tick_at orchestrator_id private_workspace queue)
        (map_keys (oc_agents orchestrator)) failures
  end.

Definition tick_heartbeat_worker : IO heartbeat_host string () :=
  if heartbeat_tick_fails then throw "fault injection requested for heartbeat tick" else
  tick_at ← heartbeat_tick_timestamp;
  failures ← io_for_fold (tick_orchestrator tick_at) (map_keys (s_orchestrators settings)) [];
  match failures with
  | [] => mret ()
  | _ => throw (join "; " failures)
  end.
End heartbeat.
