(* ===== verification/HeartbeatGuarantees.v ===== *)
(** * What heartbeats guarantee

    Every agent with a heartbeat prompt gets its message, whatever goes wrong for
    the others; and what becomes of these messages: they name a workflow run that
    does not exist, so routing answers them without running anything. *)
From S2P Require Import Prelude RustStr RustPath Io Json QueueMessage QueueLifecycle TypedFields Config OrchestratorFile OrchestratorError WorkspaceAccess RunStore WorkflowEngine EngineGuarantees SlackTarget Scheduler SchedulerGuarantees Selector SelectorGuarantees Transitions TransitionGuarantees Conversation Routing RoutingGuarantees StatePaths Heartbeat.
From Stdlib Require Import Ascii.

Local Open Scope string_scope.
Local Open Scope list_scope.

(** ** The message *)
Lemma ident_not_blank s : is_ident s = true → is_empty (trim s) = false.
Proof. intros Hs. rewrite is_ident_trim by done. by destruct s. Qed.
Lemma trim_start_rev_last x a : solid a = true → trim_start_rev (x +:+ String a "") ≠ "".
Proof.
  intros Ha. destruct (solid_not_ws a Ha) as (H1 & H2 & H3).
  induction x as [[|b x] IH] using string_len_ind;
    [cbn [String.append]; by rewrite trim_start_rev_solid|].
  cbn [String.append trim_start_rev]. destruct (ws1 b); [apply IH; simpl; lia|].
  destruct x as [|c x]; cbn [String.append]; [by rewrite (proj1 (H2 b))|].
  destruct (ws2 c b); [apply IH; simpl; lia|].
  destruct x as [|d x]; cbn [String.append]; [by rewrite (proj1 (H3 c b))|].
  destruct (ws3 d c b); [apply IH; simpl; lia|done].
Qed.
Lemma solid_not_blank a s : solid a = true → not_blank (Some (String a s)) = Some (String a s).
Proof.
  intros Ha. unfold not_blank, trim. rewrite trim_start_solid by done. unfold trim_end.
  assert (String.rev (String a s) = String.rev s +:+ String a "") as ->
    by apply (str_rev_app (String a "") s).
  destruct (trim_start_rev _) as [|z t] eqn:Ht; [by apply trim_start_rev_last in Ht|].
  destruct (String.rev (String z t)) eqn:Hr; [|done].
  apply (f_equal String.rev) in Hr. by rewrite str_rev_involutive in Hr.
Qed.
Lemma heartbeat_message_facts o a prompt t message :
  build_heartbeat_incoming_message o a prompt t = Ok message →
  im_channel message = "heartbeat"
  ∧ not_blank (im_workflow_run_id message) = im_workflow_run_id message.
Proof.
  unfold build_heartbeat_incoming_message. intros [_ [_ [= <-]]%seq_Ok]%seq_Ok.
  split; [done|]. by apply solid_not_blank.
Qed.
Lemma build_heartbeat_ok o a prompt t : is_ident o = true → is_ident a = true →
  ∃ message, build_heartbeat_incoming_message o a prompt t = Ok message.
Proof.
  intros Ho Ha. unfold build_heartbeat_incoming_message.
  rewrite !ident_not_blank by done. by eexists.
Qed.

Lemma loaded_idents from_path settings o c a :
  load_orchestrator_config from_path settings o = Ok c → a ∈ map_keys (oc_agents c) →
  is_ident o = true ∧ is_ident a = true.
Proof.
  unfold load_orchestrator_config. intros [_ Hl]%seq_Ok (kv & -> & Hkv)%list_elem_of_fmap.
  apply bind_Ok in Hl as (ws & _ & Hl). apply bind_Ok in Hl as (c' & _ & Hl).
  apply seq_Ok in Hl as [Hv [= ->]]. unfold OrchestratorConfig_validate in Hv.
  apply bind_Ok in Hv as (o' & Ho & Hv). apply map_err_Ok, parse_id_Ok in Ho as [_ Ho].
  do 5 apply seq_Ok in Hv as [_ Hv]. apply seq_Ok in Hv as [Ha _]. split; [done|].
  rewrite for_each_Ok, Forall_forall in Ha. specialize (Ha _ Hkv). destruct kv as [a agent].
  apply bind_Ok in Ha as (a' & Ha & _). by apply map_err_Ok, parse_id_Ok in Ha as [_ Ha].
Qed.

(** ** Every agent gets its message *)
Section tick.
Context (decode_outgoing : string → result string OutgoingMessage)
  (encode_incoming : IncomingMessage → string)
  (from_path : string → result ConfigError OrchestratorConfig)
  (env_var : string → option string) (settings : Settings) (paths : StatePaths).

(** [root] has a heartbeat file for this message id. *)
Definition heartbeat_queued (root id : string) (s : heartbeat_host) : Prop :=
  ∃ now message, file_at Incoming (id +:+ ".json") (hh_queues s root)
    = Some (QFile now (encode_incoming message)) ∧ im_message_id message = id.
Definition has_incoming (root : string) (s : heartbeat_host) : Prop :=
  is_Some (q_incoming (hh_queues s root)).
Definition hb_keeps (s s' : heartbeat_host) : Prop :=
  hh_disk s' = hh_disk s
  ∧ ∀ root, (has_incoming root s → has_incoming root s')
      ∧ ∀ id, heartbeat_queued root id s → heartbeat_queued root id s'.
#[local] Instance hb_keeps_preorder : PreOrder hb_keeps.
Proof.
  split; [by intros s; split|]. intros a b c [Hd1 H1] [Hd2 H2]. split; [congruence|].
  intros root. destruct (H1 root), (H2 root). split; auto.
Qed.

Lemma keeps_log {E A} (m : IO (list WorkerEventLog) E A) : evolves hb_keeps (on_hb_log m).
Proof. by apply evolves_zoom_any. Qed.
Lemma keeps_disk {E A} (m : IO disk E A) : evolves eq m → evolves hb_keeps (on_hb_disk m).
Proof. intros Hm. apply (evolves_zoom _ eq); [done|]. by intros [] d <-. Qed.
(** On one queue. *)
Definition queue_keeps (q q' : queue_fs) : Prop :=
  (is_Some (q_incoming q) → is_Some (q_incoming q'))
  ∧ ∀ id now message, im_message_id message = id →
      file_at Incoming (id +:+ ".json") q = Some (QFile now (encode_incoming message)) →
      ∃ now' message', im_message_id message' = id
        ∧ file_at Incoming (id +:+ ".json") q' = Some (QFile now' (encode_incoming message')).
#[local] Instance queue_keeps_preorder : PreOrder queue_keeps.
Proof.
  split; [intros q; split; eauto|]. intros a b c [Hi1 H1] [Hi2 H2]. split; [auto|].
  intros id now m Hm Hf. destruct (H1 id now m Hm Hf) as (now' & m' & Hm' & Hf').
  by apply (H2 id now' m').
Qed.
Lemma keeps_on_queue {E A} root (m : IO queue_fs E A) :
  evolves queue_keeps m → evolves hb_keeps (on_hb_queue root m).
Proof.
  intros Hm. apply (evolves_zoom _ queue_keeps); [done|]. intros s q [Hi Hq]. split; [done|].
  intros root'. unfold has_incoming, heartbeat_queued. simpl. case_decide as Hr; [|by split].
  subst root'. split; [done|]. intros id (now & m' & Hf & Hm').
  destruct (Hq id now m' Hm' Hf) as (now' & m'' & ? & ?). eauto.
Qed.
Lemma keeps_read_queue {E A} root (m : IO queue_fs E A) :
  evolves eq m → evolves hb_keeps (on_hb_queue root m).
Proof.
  intros Hm. apply keeps_on_queue. intros w. rewrite <- (Hm w). reflexivity.
Qed.

Lemma write_keeps message now : evolves queue_keeps
  (sys (fs_write Incoming (im_message_id message +:+ ".json") (encode_incoming message) now)).
Proof.
  apply evolves_sys; [apply _|]. intros q. unfold fs_write. cbn [get_dir].
  destruct (q_incoming q) as [files|] eqn:Hq; [|reflexivity]. split; [by eexists|].
  intros id now' m Hm Hf. cbn [fst]. unfold file_at in *. cbn [get_dir set_dir] in *.
  rewrite Hq in Hf. simpl in *.
  destruct (decide (id = im_message_id message)) as [->|Hne].
  - exists now, message. by rewrite lookup_insert_eq.
  - exists now', m. rewrite lookup_insert_ne; [done|]. intros Heq. apply Hne.
    by apply str_app_inv_r in Heq.
Qed.
Lemma create_keeps d : evolves queue_keeps (sys (fs_create_dir_all d)).
Proof.
  apply evolves_sys; [apply _|]. intros q. unfold fs_create_dir_all.
  destruct (get_dir d q) eqn:Hd; [reflexivity|]. cbn [fst].
  destruct d; (split; [done || by eexists|]); intros id now m Hm Hf.
  { unfold file_at in Hf. by rewrite Hd in Hf. }
  all: by exists now, m.
Qed.

Lemma sorted_outgoing_reads : evolves eq sorted_outgoing_paths.
Proof. unfold sorted_outgoing_paths. evolve_steps. apply evolves_sys; [apply _|done]. Qed.
Lemma match_reads queue id correlation :
  evolves eq (match_heartbeat_responses decode_outgoing queue id correlation).
Proof.
  pose proof sorted_outgoing_reads. unfold match_heartbeat_responses. evolve_steps.
  induction (_ : list string) as [|name names IH]; simpl; evolve_steps. apply evolves_sys; [apply _|done].
Qed.
Lemma prompt_reads ws a : evolves eq (resolve_heartbeat_prompt ws a).
Proof. unfold resolve_heartbeat_prompt. evolve_steps. apply evolves_sys; [apply _|done]. Qed.
#[local] Hint Resolve keeps_log keeps_disk keeps_on_queue keeps_read_queue write_keeps create_keeps
  match_reads prompt_reads : direclaw.

Local Abbreviation agent := (tick_agent decode_outgoing encode_incoming paths).
Local Abbreviation orchestrator := (tick_orchestrator decode_outgoing encode_incoming from_path
  settings paths).
Lemma log_response_keeps queue o a message failures :
  evolves hb_keeps (log_response decode_outgoing paths queue o a message failures).
Proof. unfold log_response. evolve_steps. Qed.
Lemma write_heartbeat_keeps queue message : evolves hb_keeps (write_heartbeat encode_incoming queue message).
Proof. unfold write_heartbeat. evolve_steps. Qed.
#[local] Hint Resolve log_response_keeps write_heartbeat_keeps : direclaw.
Lemma agent_keeps t o ws queue failures a : evolves hb_keeps (agent t o ws queue failures a).
Proof. unfold tick_agent. evolve_steps. Qed.
Lemma setup_keeps o : evolves hb_keeps (orchestrator_setup from_path settings o).
Proof. unfold orchestrator_setup. evolve_steps. Qed.
#[local] Hint Resolve agent_keeps setup_keeps : direclaw.
Lemma orchestrator_keeps t failures o : evolves hb_keeps (orchestrator t failures o).
Proof. unfold tick_orchestrator. evolve_steps. apply evolves_for_fold; [apply _|]. auto with direclaw. Qed.

Lemma wp_hb_log {E} level event message (Φ : result E () → heartbeat_host → Prop) s :
  (∀ s', Φ (Ok ()) s') → wp true (on_hb_log (append_runtime_log paths level event message)) Φ s.
Proof.
  intros HΦ. unfold on_hb_log, append_runtime_log. apply wp_zoom, wp_bind, wp_clock. intros now.
  apply wp_bind, wp_attempt. destruct (path_parent _); [apply wp_sys; [done|]|apply wp_ret].
  all: apply wp_bind, wp_attempt, wp_sys; [done|]; by apply wp_ret.
Qed.
Lemma wp_log_response queue o a message failures s :
  wp true (log_response decode_outgoing paths queue o a message failures)
    (λ r _, is_ok r = true) s.
Proof.
  unfold log_response. apply wp_bind, wp_attempt, wp_calm.
  { unfold on_hb_queue, match_heartbeat_responses, sorted_outgoing_paths. calm_steps.
    induction (_ : list string) as [|name names IH]; simpl; calm_steps. }
  intros [[response|]|err] s'.
  - apply wp_bind, wp_hb_log. intros s''. by apply wp_ret.
  - apply wp_bind, wp_hb_log. intros s''. by apply wp_ret.
  - by apply wp_ret.
Qed.

Lemma wp_write_heartbeat queue message s : has_incoming (qp_root queue) s →
  wp true (write_heartbeat encode_incoming queue message)
    (λ r s', is_ok r = true ∧ heartbeat_queued (qp_root queue) (im_message_id message) s') s.
Proof.
  intros Hin. unfold write_heartbeat. apply wp_bind, wp_clock. intros now.
  unfold on_hb_queue. apply wp_zoom, wp_map_err, wp_sys; [done|].
  unfold fs_write. cbn [get_dir]. unfold has_incoming in Hin.
  destruct Hin as [files Hf]. rewrite Hf. split; [done|]. exists now, message. split; [|done].
  simpl. rewrite decide_True by done. unfold file_at. simpl. apply lookup_insert_eq.
Qed.
(** What one agent gets. *)
Definition agent_served (t : Z) (o root : string) (ws : string) (d : disk) (s : heartbeat_host)
    (a : string) : Prop :=
  ∀ body message, d !! heartbeat_prompt_path ws a = Some body →
    build_heartbeat_incoming_message o a (trim body) t = Ok message →
    heartbeat_queued root (im_message_id message) s.
Lemma agent_served_later t o root ws d s s' a :
  hb_keeps s s' → agent_served t o root ws d s a → agent_served t o root ws d s' a.
Proof. intros [_ Hk] H body message Hb Hm. destruct (Hk root) as [_ Hk']. eauto. Qed.
Lemma wp_tick_agent t o ws queue failures a s : has_incoming (qp_root queue) s →
  wp true (agent t o ws queue failures a)
    (λ r s', is_ok r = true ∧ agent_served t o (qp_root queue) ws (hh_disk s) s' a) s.
Proof.
  intros Hin. unfold tick_agent. apply wp_bind, wp_attempt, wp_zoom. unfold resolve_heartbeat_prompt.
  apply wp_bind, wp_attempt, wp_sys; [done|]. unfold disk_read, agent_served. cbn [fst snd].
  destruct (hh_disk s !! heartbeat_prompt_path ws a) as [body|]; apply wp_ret.
  2: { apply wp_bind, wp_hb_log. intros s'. by apply wp_ret. }
  destruct (build_heartbeat_incoming_message o a (trim body) t) as [message|e] eqn:Hm.
  - apply wp_bind, wp_attempt. eapply wp_mono; [by apply wp_write_heartbeat|].
    intros [[]|e] s1 [Hok Hq]; [|done].
    apply (wp_evolves _ hb_keeps); [apply log_response_keeps|].
    eapply wp_mono; [apply wp_log_response|]. intros r s2 Hr [_ Hk]. split; [done|].
    intros body' message' [= <-] [= <-]%(eq_trans (eq_sym Hm)). by apply Hk.
  - apply wp_ret. split; [done|]. intros body' message' [= <-] Hm'. congruence.
Qed.

Lemma wp_create d root e' s : wp true
  (on_hb_queue root (io_map_err e' (sys (fs_create_dir_all d))) : IO _ string ())
  (λ r s', is_ok r = true ∧ (d = Incoming → has_incoming root s')) s.
Proof.
  unfold on_hb_queue. apply wp_zoom, wp_map_err, wp_sys; [done|]. unfold fs_create_dir_all.
  destruct (get_dir d _) eqn:Hd; (split; [done|]); intros ->; unfold has_incoming; simpl;
    rewrite decide_True by done; [|by eexists]. by eexists.
Qed.
Lemma wp_setup o c root s : load_orchestrator_config from_path settings o = Ok c →
  resolve_private_workspace settings o = Ok root →
  wp true (orchestrator_setup from_path settings o)
    (λ r s', r = Ok (c, from_state_root root, root) ∧ has_incoming root s') s.
Proof.
  intros Hc Hr. unfold orchestrator_setup. rewrite Hc, Hr. simpl.
  apply wp_bind, wp_lift. simpl. apply wp_bind, wp_lift. simpl. apply wp_bind.
  eapply wp_mono; [apply wp_create|]. intros [[]|e] s1 [Hok Hin]; [|done].
  specialize (Hin eq_refl). apply wp_bind.
  apply (wp_evolves _ hb_keeps); [by auto with direclaw|].
  eapply wp_mono; [apply wp_create|]. intros [[]|e] s2 [Hok2 _] [_ Hk]; [|done].
  apply wp_bind, wp_lift. simpl. apply wp_ret. split; [done|]. by apply Hk.
Qed.
Lemma wp_tick_agents t o ws queue agents failures s : has_incoming (qp_root queue) s →
  wp true (io_for_fold (agent t o ws queue) agents failures)
    (λ r s', is_ok r = true ∧ ∀ a, a ∈ agents →
       agent_served t o (qp_root queue) ws (hh_disk s) s' a) s.
Proof.
  intros Hin. apply (wp_for_fold _ (λ _ rest s', hb_keeps s s' ∧ ∀ a, a ∈ agents →
    a ∈ rest ∨ agent_served t o (qp_root queue) ws (hh_disk s) s' a)).
  - split; [reflexivity|]. auto.
  - intros fs a rest s1 [Hk Hall]. apply (wp_evolves _ hb_keeps); [apply agent_keeps|].
    eapply wp_mono; [apply wp_tick_agent; by apply Hk|]. intros [fs'|e] s2 [Hok Hs] Hk2; [|done].
    split; [by etrans|]. intros b Hb. destruct Hk as [Hd _]. rewrite Hd in Hs.
    destruct (Hall b Hb) as [[->|]%elem_of_cons|]; [by right|by left|].
    right. by eapply agent_served_later.
  - intros fs s1 [_ Hall]. split; [done|]. intros a Ha. by destruct (Hall a Ha) as [?%elem_of_nil|].
Qed.
(** What the agents of one orchestrator get. *)
Definition orchestrator_served (t : Z) (d : disk) (s : heartbeat_host) (o : string) : Prop :=
  ∀ c root, load_orchestrator_config from_path settings o = Ok c →
    resolve_private_workspace settings o = Ok root →
    ∀ a, a ∈ map_keys (oc_agents c) → agent_served t o root root d s a.
Lemma wp_tick_orchestrator t failures o s :
  wp true (orchestrator t failures o)
    (λ r s', is_ok r = true ∧ orchestrator_served t (hh_disk s) s' o) s.
Proof.
  unfold tick_orchestrator.
  destruct (load_orchestrator_config from_path settings o) as [c|e] eqn:Hc.
  - assert (∃ root, resolve_private_workspace settings o = Ok root) as [root Hr].
    { revert Hc. unfold load_orchestrator_config.
      destruct (reject_if _ _) as [[]|]; [|done]. simpl.
      destruct (resolve_private_workspace settings o) as [root|]; [by exists root|done]. }
    apply wp_bind, wp_attempt. apply (wp_evolves _ hb_keeps); [apply setup_keeps|].
    eapply wp_mono; [by eapply wp_setup|]. intros r s1 [-> Hin] [Hd _].
    eapply wp_mono; [by apply (wp_tick_agents t o root (from_state_root root))|].
    intros r s2 [Hok Hs]. split; [done|]. intros c' root' [= <-]%(eq_trans (eq_sym Hc))
      [= <-]%(eq_trans (eq_sym Hr)) a Ha. rewrite Hd in Hs. by apply Hs.
  - unfold orchestrator_setup. rewrite Hc. apply wp_bind, wp_attempt, wp_bind, wp_lift. simpl.
    apply wp_ret. split; [done|]. intros c' root Hc'. congruence.
Qed.

(** Every agent gets its heartbeat.  On a working disk one tick puts, for
    every agent of every orchestrator that can be loaded and has a heartbeat
    prompt, a message with the prompt and the same time stamp for all into the
    queue of its orchestrator, whatever failed for other agents and orchestrators. *)
Theorem every_agent_gets_its_heartbeat (w : world heartbeat_host)
    (Hcalm : faults (ev w) = []) (Hrun : heartbeat_tick_fails env_var = false) :
  ∃ tick_at, ∀ o c root a body,
    o ∈ map_keys (s_orchestrators settings) →
    load_orchestrator_config from_path settings o = Ok c →
    resolve_private_workspace settings o = Ok root →
    a ∈ map_keys (oc_agents c) →
    hh_disk (st w) !! heartbeat_prompt_path root a = Some body →
    ∃ message, build_heartbeat_incoming_message o a (trim body) tick_at = Ok message
      ∧ heartbeat_queued root (im_message_id message)
          (st (tick_heartbeat_worker decode_outgoing encode_incoming from_path env_var settings paths w).1).
Proof.
  set (s0 := st w).
  assert (wp true (tick_heartbeat_worker decode_outgoing encode_incoming from_path env_var settings paths)
    (λ _ s, ∃ t, ∀ o, o ∈ map_keys (s_orchestrators settings) →
       orchestrator_served t (hh_disk s0) s o) s0) as Hwp.
  { unfold tick_heartbeat_worker. rewrite Hrun. apply wp_bind.
    apply (wp_mono _ _ (λ r s, is_ok r = true ∧ s = s0)).
    { unfold heartbeat_tick_timestamp. destruct (env_var _ ≫= parse_i64); [|by apply wp_clock].
      destruct (0 <? _)%Z; [by apply wp_ret|by apply wp_clock]. }
    intros [t|e] s [Hok ->]; [|done]. apply wp_bind.
    apply (wp_for_fold _ (λ _ rest s, hb_keeps s0 s ∧ ∀ o, o ∈ map_keys (s_orchestrators settings) →
      o ∈ rest ∨ orchestrator_served t (hh_disk s0) s o)).
    - split; [reflexivity|]. auto.
    - intros fs o rest s1 [Hk Hall]. apply (wp_evolves _ hb_keeps); [apply orchestrator_keeps|].
      eapply wp_mono; [apply wp_tick_orchestrator|]. intros [fs'|e] s2 [Hok1 Hs] Hk2; [|done].
      split; [by etrans|]. intros o' Ho'. destruct Hk as [Hd _]. rewrite Hd in Hs.
      destruct (Hall o' Ho') as [[->|]%elem_of_cons|H]; [by right|by left|].
      right. intros c root Hc Hr a Ha. by eapply agent_served_later; [|eapply H].
    - intros fs s1 [_ Hall].
      assert (∃ t, ∀ o, o ∈ map_keys (s_orchestrators settings) →
        orchestrator_served t (hh_disk s0) s1 o) as Hdone.
      { exists t. intros o Ho. by destruct (Hall o Ho) as [?%elem_of_nil|]. }
      destruct fs; [by apply wp_ret|by apply wp_throw]. }
  pose proof (wp_run _ _ _ w Hwp (λ _, Hcalm)) as [t Ht]. exists t.
  intros o c root a body Ho Hc Hr Ha Hb. destruct (loaded_idents _ _ _ _ _ Hc Ha) as [Hio Hia].
  destruct (build_heartbeat_ok o a (trim body) t Hio Hia) as [message Hm].
  exists message. split; [done|]. by eapply Ht.
Qed.
End tick.

(** ** What becomes of a heartbeat *)
Section answer.
Context `{StepExecutorLaws, MemoryService}.
Context (local_runtime : option LocalModel) (canonicalize : string → result io_error string)
  (from_path : string → result ConfigError OrchestratorConfig)
  (decode_envelope : string → result string ScheduledTriggerEnvelope)
  (json_to_string : Value → string)
  (decode_selector_result : string → result string SelectorResult)
  (encode_selector_result : SelectorResult → string)
  (execute_function : string → JMap → option string → IO run_store OrchestratorError Value)
  (sample : nat → result string Z)
  (next_attempt : SelectorRequest → OrchestratorConfig → Z →
     world run_store → world run_store * option string)
  (settings : Settings).
Local Abbreviation route := (process_queued_message_with_runner_binaries_and_hook local_runtime
  canonicalize from_path decode_envelope json_to_string decode_selector_result
  encode_selector_result execute_function sample next_attempt settings).

Definition run_not_found (run_id : string) : option RoutedSelectorAction :=
  Some (RWorkflowStatus (Some run_id) None ("workflow run `" +:+ run_id +:+ "` was not found")).
(** No run, progress or attempt record changes. *)
Definition runs_unchanged (s s' : run_store) : Prop :=
  rs_runs s' = rs_runs s ∧ rs_progress s' = rs_progress s ∧ rs_attempts s' = rs_attempts s.

Lemma wp_resume_missing root config id now s :
  rs_runs s !! run_metadata_path root id = None →
  wp false (resume_run root config id now)
    (λ r s', s' = s ∧ ∀ answer, r = Ok answer → answer = run_not_found id) s.
Proof.
  intros Hnone. unfold resume_run, or_not_found at 1. apply wp_bind, wp_attempt.
  unfold WorkflowEngine.resume, load_run, read_json. apply wp_bind, wp_bind, wp_map_err, wp_sys.
  - intros _ e. simpl. case_decide; [apply wp_ret|apply wp_throw]; (split; [done|]).
    + by intros answer [= <-].
    + done.
  - unfold read_file. cbn [fst snd]. rewrite Hnone. simpl. apply wp_ret. split; [done|].
    by intros answer [= <-].
Qed.
Lemma wp_verified_runs root o inbound s :
  wp false (verified canonicalize settings root o inbound)
    (λ _ s', runs_unchanged (rt_runs s) (rt_runs s')
       ∧ ∀ path, rs_runs (rt_runs s') !! path = rs_runs (rt_runs s) !! path) s.
Proof.
  unfold verified. destruct (verify_orchestrator_workspace_access _ _ _); [by apply wp_ret|].
  apply wp_bind, wp_zoom. unfold append_security_log. apply wp_bind, wp_attempt, wp_bind.
  apply wp_sys; [intros _ ?; by apply wp_ret, wp_throw|]. simpl.
  apply wp_sys; [intros _ ?; by apply wp_ret, wp_throw|]. simpl. by apply wp_ret, wp_throw.
Qed.
Lemma resolve_heartbeat_orchestrator o a prompt t message root :
  build_heartbeat_incoming_message o a prompt t = Ok message →
  resolve_private_workspace settings o = Ok root →
  resolve_orchestrator_id settings message = Ok o.
Proof.
  unfold build_heartbeat_incoming_message. intros [_ [_ [= <-]]%seq_Ok]%seq_Ok Hr.
  unfold resolve_private_workspace in Hr. apply bind_Ok in Hr as (o' & Ho & Hr).
  apply map_err_Ok, parse_id_Ok in Ho as [_ Ho]. apply bind_Ok in Hr as (cfg & Hget & _).
  apply ok_or_Ok in Hget. unfold resolve_orchestrator_id, sender_orchestrator.
  simpl. rewrite is_ident_trim by done. destruct (is_empty o) eqn:He.
  { by destruct o. }
  unfold map_contains_key. by rewrite Hget.
Qed.

(** Heartbeats are never executed.  A heartbeat names the run
    [hb:orchestrator:agent:time], which is no run of the store; routing the
    message, whatever the provider, the memory service and the disk do, fails or
    answers that the run was not found, and no run, progress or attempt record
    changes: the prompt reaches no agent (unless it is one of the status words). *)
Theorem heartbeats_are_never_executed (o a prompt root run_id : string) (t now : Z)
    (message : IncomingMessage) (active : gmap (string * string) string)
    (functions : FunctionRegistry) (hook : string → nat → IO machine OrchestratorError ())
    (w : world machine)
    (Hbuild : build_heartbeat_incoming_message o a prompt t = Ok message)
    (Hroot : resolve_private_workspace settings o = Ok root)
    (Hprompt : is_status_command message = false)
    (Hid : im_workflow_run_id message = Some run_id)
    (Hrun : rs_runs (rt_runs (st w root)) !! run_metadata_path root run_id = None) :
  let '(w', outcome) := route message now active functions hook w in
  runs_unchanged (rt_runs (st w root)) (rt_runs (st w' root))
  ∧ ∀ answer, outcome = Ok answer → answer = run_not_found run_id.
Proof.
  assert (wp false (route message now active functions hook)
    (λ r m, runs_unchanged (rt_runs (st w root)) (rt_runs (m root))
       ∧ ∀ answer, r = Ok answer → answer = run_not_found run_id) (st w)) as Hwp.
  { unfold process_queued_message_with_runner_binaries_and_hook.
    apply wp_bind, wp_lift. rewrite (resolve_heartbeat_orchestrator o a prompt t message root) by done.
    apply wp_bind, wp_lift. unfold resolve_orchestrator_runtime_root. rewrite Hroot. simpl.
    destruct (heartbeat_message_facts _ _ _ _ _ Hbuild) as [Hchannel Hblank].
    rewrite Hchannel, Hprompt, Hblank, Hid. simpl. apply wp_zoom. unfold route_resume. apply wp_bind, wp_lift.
    destruct (configured _ _ _) as [config|e]; [|simpl; unfold set_runtime; by rewrite decide_True].
    apply wp_bind. eapply wp_mono; [apply wp_verified_runs|]. unfold set_runtime.
    intros [ctx|e] s [Hsame Hpath]; [|by rewrite decide_True].
    apply wp_zoom. eapply wp_mono; [apply wp_resume_missing; by rewrite Hpath|].
    intros r s' [-> Hr]. rewrite decide_True by done. by split. }
  pose proof (wp_run _ _ _ w Hwp ltac:(done)) as Hend.
  by destruct (route message now active functions hook w).
Qed.
End answer.

(** ** One orchestrator with one agent *)
Definition demo_heartbeat : result string IncomingMessage :=
  build_heartbeat_incoming_message "main" "main" "check the build" 1700000000.
Definition demo_heartbeat_message : IncomingMessage :=
  match demo_heartbeat with Ok message => message | Err _ => demo_mention end.
Definition demo_heartbeat_queue : queue_fs :=
  {| q_incoming := None; q_processing := None; q_outgoing := None; q_failed := None;
     q_requeue_counter := 0; q_log := [] |}.
Definition demo_heartbeat_world : world heartbeat_host :=
  World (HeartbeatHost (λ _, demo_heartbeat_queue)
           {[ "/srv/main/heartbeat/main.md" := "check the build" ]} [])
    (Env [] [1700000000%Z]).
Definition demo_heartbeat_tick : world heartbeat_host * result string () :=
  tick_heartbeat_worker (λ _, Err "expected value") im_message_id demo_from_path (λ _, None)
    demo_root_settings {| sp_root := "/state" |} demo_heartbeat_world.
Example demo_heartbeat_written :
  heartbeat_queued im_message_id "/srv/main" "heartbeat-main-main-1700000000"
    (st demo_heartbeat_tick.1).
Proof. exists 0%Z, demo_heartbeat_message. split; vm_compute; reflexivity. Qed.
Lemma every_agent_gets_its_heartbeat_witness :
  ∃ tick_at message,
    build_heartbeat_incoming_message "main" "main" (trim "check the build") tick_at = Ok message
    ∧ heartbeat_queued im_message_id "/srv/main" (im_message_id message) (st demo_heartbeat_tick.1).
Proof.
  assert (faults (ev demo_heartbeat_world) = []) as Hcalm by reflexivity.
  assert (heartbeat_tick_fails (λ _, None) = false) as Hrun by reflexivity.
  pose proof (every_agent_gets_its_heartbeat (λ _, Err "expected value") im_message_id
    demo_from_path (λ _, None) demo_root_settings {| sp_root := "/state" |}
    demo_heartbeat_world Hcalm Hrun) as [t Ht].
  assert ("main" ∈ map_keys (s_orchestrators demo_root_settings)) as Ho by (by left).
  assert (load_orchestrator_config demo_from_path demo_root_settings "main" = Ok demo_routed_config)
    as Hc by (vm_compute; reflexivity).
  assert (resolve_private_workspace demo_root_settings "main" = Ok "/srv/main") as Hr
    by (vm_compute; reflexivity).
  assert ("main" ∈ map_keys (oc_agents demo_routed_config)) as Ha by (by left).
  assert (hh_disk (st demo_heartbeat_world) !! heartbeat_prompt_path "/srv/main" "main"
          = Some "check the build") as Hb by (vm_compute; reflexivity).
  exists t. exact (Ht "main" demo_routed_config "/srv/main" "main" "check the build" Ho Hc Hr Ha Hb).
Defined.
Definition demo_heartbeat_routed : world machine * result OrchestratorError (option RoutedSelectorAction) :=
  @process_queued_message_with_runner_binaries_and_hook succeeding_executor demo_memory
    None Ok demo_from_path (λ _, Err "no trigger") (λ _, "") demo_decode_result demo_encode_result
    no_commands (λ i, Ok (Z.of_nat i)) (λ _ _, silent_agent) demo_root_settings
    demo_heartbeat_message 1700000001 ∅ (registry_new [] []) (λ _ _, mret ()) demo_machine.
Lemma heartbeats_are_never_executed_witness :
  demo_heartbeat_routed.2 = Ok (run_not_found "hb:main:main:1700000000")
  ∧ runs_unchanged (rt_runs (st demo_machine "/srv/main"))
      (rt_runs (st demo_heartbeat_routed.1 "/srv/main")).
Proof.
  split; [vm_compute; reflexivity|].
  assert (build_heartbeat_incoming_message "main" "main" "check the build" 1700000000
          = Ok demo_heartbeat_message) as Hbuild by (vm_compute; reflexivity).
  assert (resolve_private_workspace demo_root_settings "main" = Ok "/srv/main") as Hr
    by (vm_compute; reflexivity).
  assert (is_status_command demo_heartbeat_message = false) as Hp by (vm_compute; reflexivity).
  assert (im_workflow_run_id demo_heartbeat_message = Some "hb:main:main:1700000000") as Hid
    by (vm_compute; reflexivity).
  assert (rs_runs (rt_runs (st demo_machine "/srv/main"))
            !! run_metadata_path "/srv/main" "hb:main:main:1700000000" = None) as Hrun
    by (vm_compute; reflexivity).
  pose proof (@heartbeats_are_never_executed succeeding_executor demo_memory
    None Ok demo_from_path (λ _, Err "no trigger") (λ _, "") demo_decode_result demo_encode_result
    no_commands (λ i, Ok (Z.of_nat i)) (λ _ _, silent_agent) demo_root_settings
    "main" "main" "check the build" "/srv/main" "hb:main:main:1700000000" 1700000000 1700000001
    demo_heartbeat_message ∅ (registry_new [] []) (λ _ _, mret ()) demo_machine
    Hbuild Hr Hp Hid Hrun) as H.
  fold demo_heartbeat_routed in H. destruct demo_heartbeat_routed as [w' outcome].
  exact (proj1 H).
Defined.
