(* ===== verification/Supervisor.v ===== *)
(** * The supervisor and its workers

    [src/src/runtime/channel_worker.rs] (which workers run, and how each behaves
    towards the supervisor) and [run_supervisor] of
    [src/src/runtime/supervisor.rs].  The workers are threads: they share the stop
    flag and send events into one channel, which the supervisor receives in order.
    The system is a step relation on all of them; what a worker does between two
    events is the subject of other files, here only whether it succeeds. *)
From S2P Require Import Prelude RustStr RustPath Io Json Config SlackChannel SlackSync StatePaths WorkerRegistry Daemon Heartbeat.

Local Open Scope string_scope.
Local Open Scope list_scope.

Inductive WorkerRuntime :=
  | RtQueueProcessor | RtOrchestratorDispatcher | RtMemory | RtScheduler | RtSlackSocket
  | RtSlackBackfill | RtHeartbeat.
#[export] Instance WorkerRuntime_eq_dec : EqDecision WorkerRuntime.
Proof. solve_decision. Defined.
(** The interval in milliseconds. *)
Record WorkerSpec := { ws_id : string; ws_runtime : WorkerRuntime; ws_interval : Z }.

(** ** Which workers run *)
Definition millis_of_secs (secs : Z) : Z := (secs * 1000)%Z.
Definition backfill_spec (config : ChannelConfig) : WorkerSpec :=
  {| ws_id := "channel:slack-backfill"; ws_runtime := RtSlackBackfill;
     ws_interval := millis_of_secs (Z.max (cc_history_backfill_interval_seconds config) 1) |}.
Definition socket_spec : WorkerSpec :=
  {| ws_id := "channel:slack-socket"; ws_runtime := RtSlackSocket; ws_interval := 2000 |}.
Definition channel_specs (channel : string * ChannelConfig) : list WorkerSpec :=
  let '(channel, config) := channel in
  if negb (cc_enabled config) then [] else
  if String.eqb channel "slack" then
    match cc_inbound_mode config with
    | Socket => [socket_spec]
    | Poll => [backfill_spec config]
    | Hybrid =>
        socket_spec :: (if cc_history_backfill_enabled config then [backfill_spec config] else [])
    end
  else [].
Definition build_worker_specs (settings : Settings) : list WorkerSpec :=
  [{| ws_id := "queue_processor"; ws_runtime := RtQueueProcessor; ws_interval := 250 |};
   {| ws_id := "orchestrator_dispatcher"; ws_runtime := RtOrchestratorDispatcher;
      ws_interval := millis_of_secs 1 |}]
  ++ (if mem_enabled (s_memory settings)
      then [{| ws_id := "memory_worker"; ws_runtime := RtMemory;
               ws_interval := millis_of_secs (mem_worker_interval_seconds (s_memory settings)) |}]
      else [])
  ++ [{| ws_id := "scheduler"; ws_runtime := RtScheduler; ws_interval := millis_of_secs 60 |}]
  ++ (match configured_heartbeat_interval settings with
      | Some interval =>
          [{| ws_id := "heartbeat"; ws_runtime := RtHeartbeat; ws_interval := millis_of_secs interval |}]
      | None => []
      end)
  ++ (channel ← s_channels settings; channel_specs channel).

(** ** A worker *)
(** [tick_slack_socket_worker] and [tick_slack_backfill_worker]: a rate limit is
    waited out ([rate_limit_sleep_duration]), no error. *)
Definition tick_slack_worker {A} (synced : result SlackError A) : result string () :=
  match synced with
  | Ok _ => Ok ()
  | Err (RateLimited _ _) => Ok ()
  | Err e => Err (SlackError_display e)
  end.
Definition rate_limit_sleep_duration (cap_ms : option string) (retry_after_secs : Z) : Z :=
  let requested := millis_of_secs retry_after_secs in
  match cap_ms ≫= parse_u64 with
  | Some cap_ms => Z.min requested cap_ms
  | None => requested
  end.
(** The tick of a worker that is not a Slack worker, [other], and of one that is. *)
Definition worker_tick {A} (runtime : WorkerRuntime) (other : result string ())
    (synced : result SlackError A) : result string () :=
  match runtime with
  | RtQueueProcessor | RtOrchestratorDispatcher => Ok ()
  | RtMemory | RtScheduler | RtHeartbeat => other
  | RtSlackSocket | RtSlackBackfill => tick_slack_worker synced
  end.
(** [sleep_with_stop]: steps of at most 25 ms, the flag read before each and at
    the end; [stop i] is its [i]-th reading. *)
Fixpoint sleep_steps (fuel : nat) (stop : nat → bool) (i : nat) (remaining : Z) : bool :=
  match fuel with
  | O => negb (stop i)
  | S fuel =>
      if (0 <? remaining)%Z
      then if stop i then false else sleep_steps fuel stop (S i) (Z.max 0 (remaining - Z.min remaining 25))
      else negb (stop i)
  end.
Definition sleep_with_stop (stop : nat → bool) (total : Z) : bool :=
  sleep_steps (Z.to_nat total) stop 0 total.

(** The checks before a worker serves: the first failure. *)
Definition startup_error (runtime : WorkerRuntime) (memory_paths : result string ())
    (credentials : result SlackError ()) (should_fail : bool) : option string :=
  match runtime, memory_paths, credentials with
  | RtMemory, Err err, _ => Some err
  | (RtSlackSocket | RtSlackBackfill), _, Err err => Some (SlackError_display err)
  | _, _, _ => if should_fail then Some "fault injection requested" else None
  end.

(** Where a worker stands. *)
Inductive worker_at :=
  | Launching                  (** the thread is spawned *)
  | Starting                   (** [Started] was sent *)
  | Failing                    (** a fatal error was sent *)
  | QueueStarting              (** before the loop of [queue_worker.rs] *)
  | QueueLooping
  | SocketServing              (** in [run_socket_runtime_until_stop], or about to enter it *)
  | SocketPausing              (** after an error, in [sleep_with_stop] *)
  | SocketClosing              (** about to join the heartbeat thread *)
  | AtLoop                     (** at the top of the loop *)
  | Ticking
  | Sleeping
  | Leaving                    (** about to send [Stopped] *)
  | Ended.
#[export] Instance worker_at_eq_dec : EqDecision worker_at.
Proof. solve_decision. Defined.
Definition in_socket_loop (p : worker_at) : Prop :=
  p = SocketServing ∨ p = SocketPausing ∨ p = SocketClosing.
Definition serving_at (runtime : WorkerRuntime) : worker_at :=
  match runtime with
  | RtQueueProcessor => QueueStarting
  | RtSlackSocket => SocketServing
  | _ => AtLoop
  end.
Definition tick_event (worker_id : string) (now : Z) (tick : result string ()) : WorkerEvent :=
  match tick with
  | Ok _ => EvHeartbeat worker_id now
  | Err message => EvError worker_id now message false
  end.

(** [run_worker], with the loop of the queue processor
    ([QueueWorker.loop_step] for what it does) and
    [run_slack_socket_worker_until_stop] with its heartbeat thread.
    [worker_step spec should_fail stop p e stop' p']: reading the flag as [stop],
    the worker goes on to [p'], sends [e] if any, and leaves the flag at [stop']. *)
Inductive worker_step (spec : WorkerSpec) (should_fail : bool)
    (credentials : result SlackError ()) :
    bool → worker_at → option WorkerEvent → bool → worker_at → Prop :=
  | ws_launch stop now :
      worker_step spec should_fail credentials stop Launching
        (Some (EvStarted (ws_id spec) now)) stop Starting
  | ws_refuse stop now memory_paths message :
      startup_error (ws_runtime spec) memory_paths credentials should_fail = Some message →
      worker_step spec should_fail credentials stop Starting
        (Some (EvError (ws_id spec) now message true)) stop Failing
  | ws_fail stop now :
      worker_step spec should_fail credentials stop Failing
        (Some (EvStopped (ws_id spec) now)) stop Ended
  | ws_serve stop memory_paths :
      startup_error (ws_runtime spec) memory_paths credentials should_fail = None →
      worker_step spec should_fail credentials stop Starting None stop (serving_at (ws_runtime spec))
  (* the queue processor *)
  | ws_queue_refuse stop now message :
      worker_step spec should_fail credentials stop QueueStarting
        (Some (EvError (ws_id spec) now message false)) stop Ended
  | ws_queue_recovered stop :
      worker_step spec should_fail credentials stop QueueStarting None stop QueueLooping
  | ws_queue_unrecovered stop now message :
      worker_step spec should_fail credentials stop QueueStarting
        (Some (EvError (ws_id spec) now message false)) stop QueueLooping
  | ws_queue_event stop now outcome :
      worker_step spec should_fail credentials stop QueueLooping
        (Some (tick_event (ws_id spec) now outcome)) stop QueueLooping
  | ws_queue_leave :
      worker_step spec should_fail credentials true QueueLooping None true Leaving
  (* the socket worker *)
  | ws_socket_beat stop now p :
      in_socket_loop p →
      worker_step spec should_fail credentials stop p (Some (EvHeartbeat (ws_id spec) now)) stop p
  | ws_socket_raise stop :
      worker_step spec should_fail credentials stop SocketServing None true SocketServing
  | ws_socket_error stop now message :
      worker_step spec should_fail credentials stop SocketServing
        (Some (EvError (ws_id spec) now message false)) stop SocketPausing
  | ws_socket_again :
      worker_step spec should_fail credentials false SocketPausing None false SocketServing
  | ws_socket_paused :
      worker_step spec should_fail credentials true SocketPausing None true SocketClosing
  | ws_socket_done :
      worker_step spec should_fail credentials true SocketServing None true SocketClosing
  | ws_socket_close stop :
      worker_step spec should_fail credentials stop SocketClosing None stop Leaving
  (* the loop of the others *)
  | ws_enter :
      worker_step spec should_fail credentials false AtLoop None false Ticking
  | ws_tick stop now (other : result string ()) (synced : result SlackError ()) :
      worker_step spec should_fail credentials stop Ticking
        (Some (tick_event (ws_id spec) now (worker_tick (ws_runtime spec) other synced))) stop Sleeping
  | ws_awake :
      worker_step spec should_fail credentials false Sleeping None false AtLoop
  | ws_loop_leave :
      worker_step spec should_fail credentials true AtLoop None true Leaving
  | ws_sleep_leave :
      worker_step spec should_fail credentials true Sleeping None true Leaving
  | ws_leave stop now :
      worker_step spec should_fail credentials stop Leaving
        (Some (EvStopped (ws_id spec) now)) stop Ended.

(** ** The supervisor *)
Inductive supervisor_at :=
  | AtPoll                    (** about to look for the stop file *)
  | AtReceive                 (** in the first [recv_timeout] *)
  | AtDrain                   (** stopping, before the deadline *)
  | AtJoin                    (** about to join the threads *)
  | AtExit (saved : bool).    (** returned, having saved the final state or not *)
Record supervisor := {
  sv_at : supervisor_at;
  sv_state : SupervisorState;
  sv_active : gset string;
  sv_stop : bool;                               (** the flag all threads share *)
  sv_stop_file : bool;
  sv_channel : list WorkerEvent;
  sv_workers : list (WorkerSpec * worker_at);
  sv_disk : SupervisorState;                    (** the state file *)
  sv_log : list WorkerEventLog;
}.
Definition set_workers (workers : list (string * WorkerHealth)) (s : SupervisorState) :
    SupervisorState :=
  {| su_running := su_running s; su_pid := su_pid s; su_started_at := su_started_at s;
     su_stopped_at := su_stopped_at s; su_workers := workers; su_last_error := su_last_error s;
     su_slack_profiles := su_slack_profiles s |}.
Definition set_last_error (message : string) (s : SupervisorState) : SupervisorState :=
  {| su_running := su_running s; su_pid := su_pid s; su_started_at := su_started_at s;
     su_stopped_at := su_stopped_at s; su_workers := su_workers s; su_last_error := Some message;
     su_slack_profiles := su_slack_profiles s |}.

(** The state before the workers start. *)
Definition started_state (pid now : Z) (profiles : list SlackProfileCredentialHealth)
    (specs : list WorkerSpec) : SupervisorState :=
  {| su_running := true; su_pid := Some pid; su_started_at := Some now; su_stopped_at := None;
     su_workers := foldl (λ workers spec, map_insert (ws_id spec) WorkerHealth_default workers) [] specs;
     su_last_error := None; su_slack_profiles := profiles |}.
Definition supervisor_start (pid now : Z) (profiles : list SlackProfileCredentialHealth)
    (specs : list WorkerSpec) : supervisor :=
  let state := started_state pid now profiles specs in
  {| sv_at := AtPoll; sv_state := state; sv_active := list_to_set (ws_id <$> specs);
     sv_stop := false; sv_stop_file := false; sv_channel := [];
     sv_workers := (λ spec, (spec, Launching)) <$> specs; sv_disk := state;
     sv_log := [{| el_level := "info"; el_event := "supervisor.started";
       el_message := String.concat "" ["pid="; fmt_int pid; " workers=";
                       fmt_int (Z.of_nat (length specs))] |}] |}.

(** [handle_worker_event]: [saved] tells whether the save succeeded. *)
Definition handle_worker_event (saved : bool) (event : WorkerEvent) (s : supervisor) : supervisor :=
  let '(workers, active, entry) :=
    apply_worker_event event (su_workers (sv_state s), sv_active s) in
  let state := set_workers workers (sv_state s) in
  {| sv_at := sv_at s; sv_state := state; sv_active := active; sv_stop := sv_stop s;
     sv_stop_file := sv_stop_file s; sv_channel := sv_channel s; sv_workers := sv_workers s;
     sv_disk := if saved then state else sv_disk s;
     sv_log := sv_log s ++ match entry with Some entry => [entry] | None => [] end |}.

(** The end of the waiting: workers still active are flagged. *)
Definition timeout_health (health : WorkerHealth) : WorkerHealth :=
  {| wh_state := WError; wh_last_heartbeat := wh_last_heartbeat health;
     wh_last_error := Some "shutdown timeout" |}.
Definition flag_timeouts (active : gset string) (workers : list (string * WorkerHealth)) :
    list (string * WorkerHealth) :=
  map (λ entry, if bool_decide (entry.1 ∈ active) then (entry.1, timeout_health entry.2) else entry)
    workers.
(** The set is a [BTreeSet]: [names] are its elements in order. *)
Definition end_waiting (names : list string) (s : supervisor) : supervisor :=
  let message := "shutdown timeout waiting for workers: " +:+ String.concat "," names in
  {| sv_at := AtJoin;
     sv_state := set_last_error message
       (set_workers (flag_timeouts (sv_active s) (su_workers (sv_state s))) (sv_state s));
     sv_active := sv_active s; sv_stop := sv_stop s; sv_stop_file := sv_stop_file s;
     sv_channel := sv_channel s; sv_workers := sv_workers s; sv_disk := sv_disk s;
     sv_log := sv_log s ++ [{| el_level := "warn"; el_event := "supervisor.shutdown.timeout";
                               el_message := message |}] |}.

Definition sv_goto (at_ : supervisor_at) (s : supervisor) : supervisor :=
  {| sv_at := at_; sv_state := sv_state s; sv_active := sv_active s; sv_stop := sv_stop s;
     sv_stop_file := sv_stop_file s; sv_channel := sv_channel s; sv_workers := sv_workers s;
     sv_disk := sv_disk s; sv_log := sv_log s |}.
Definition sv_set_channel (channel : list WorkerEvent) (s : supervisor) : supervisor :=
  {| sv_at := sv_at s; sv_state := sv_state s; sv_active := sv_active s; sv_stop := sv_stop s;
     sv_stop_file := sv_stop_file s; sv_channel := channel; sv_workers := sv_workers s;
     sv_disk := sv_disk s; sv_log := sv_log s |}.
(** What a step of a worker does to the system. *)
Definition worker_did (e : option WorkerEvent) (stop : bool)
    (workers : list (WorkerSpec * worker_at)) (s : supervisor) : supervisor :=
  {| sv_at := sv_at s; sv_state := sv_state s; sv_active := sv_active s; sv_stop := stop;
     sv_stop_file := sv_stop_file s;
     sv_channel := sv_channel s ++ match e with Some e => [e] | None => [] end;
     sv_workers := workers; sv_disk := sv_disk s; sv_log := sv_log s |}.
Definition request_stop (s : supervisor) : supervisor :=
  {| sv_at := sv_at s; sv_state := sv_state s; sv_active := sv_active s; sv_stop := sv_stop s;
     sv_stop_file := true; sv_channel := sv_channel s; sv_workers := sv_workers s;
     sv_disk := sv_disk s; sv_log := sv_log s |}.
(** [if paths.stop_signal_path().exists() { stop.store(true); log }] *)
Definition poll_stop_file (s : supervisor) : supervisor :=
  if sv_stop_file s then
    {| sv_at := AtReceive; sv_state := sv_state s; sv_active := sv_active s; sv_stop := true;
       sv_stop_file := true; sv_channel := sv_channel s; sv_workers := sv_workers s;
       sv_disk := sv_disk s;
       sv_log := sv_log s ++ [{| el_level := "info"; el_event := "supervisor.stop.signal";
                                 el_message := "stop file detected" |}] |}
  else sv_goto AtReceive s.
(** All workers' senders are dropped. *)
Definition all_ended (s : supervisor) : Prop := ∀ w, w ∈ sv_workers s → w.2 = Ended.
(** The end of [run_supervisor]; with a failing save it returns before the rest. *)
Definition finish (saved : bool) (now : Z) (s : supervisor) : supervisor :=
  let state := stopped_state now (sv_state s) in
  {| sv_at := AtExit saved; sv_state := state; sv_active := sv_active s; sv_stop := sv_stop s;
     sv_stop_file := if saved then false else sv_stop_file s; sv_channel := sv_channel s;
     sv_workers := sv_workers s; sv_disk := if saved then state else sv_disk s;
     sv_log := sv_log s ++ (if saved
       then [{| el_level := "info"; el_event := "supervisor.stopped";
                el_message := "runtime stopped cleanly" |}] else []) |}.

Section supervisor.
(** [DIRECLAW_FAIL_WORKER] and the credentials at startup. *)
Context (fail_worker : option string) (credentials : result SlackError ()).

Inductive supervisor_step : supervisor → supervisor → Prop :=
  | sv_worker s before spec p after e stop p' :
      sv_workers s = before ++ (spec, p) :: after →
      worker_step spec (bool_decide (fail_worker = Some (ws_id spec))) credentials
        (sv_stop s) p e stop p' →
      supervisor_step s (worker_did e stop (before ++ (spec, p') :: after) s)
  | sv_request s : supervisor_step s (request_stop s)
  | sv_poll s :
      sv_at s = AtPoll → sv_stop s = false → supervisor_step s (poll_stop_file s)
  | sv_poll_stopped s :
      sv_at s = AtPoll → sv_stop s = true → supervisor_step s (sv_goto AtDrain s)
  | sv_receive s event rest saved :
      sv_at s = AtReceive → sv_channel s = event :: rest →
      supervisor_step s (sv_goto AtPoll (handle_worker_event saved event (sv_set_channel rest s)))
  | sv_timeout s :
      sv_at s = AtReceive → sv_channel s = [] → supervisor_step s (sv_goto AtPoll s)
  | sv_disconnected s :
      sv_at s = AtReceive → sv_channel s = [] → all_ended s →
      supervisor_step s (sv_goto AtDrain s)
  | sv_drain s event rest saved :
      sv_at s = AtDrain → sv_active s ≠ ∅ → sv_channel s = event :: rest →
      supervisor_step s (handle_worker_event saved event (sv_set_channel rest s))
  | sv_drained s :
      sv_at s = AtDrain → sv_active s = ∅ → supervisor_step s (sv_goto AtJoin s)
  | sv_give_up s names :                      (* the deadline, or no sender left *)
      sv_at s = AtDrain → sv_active s ≠ ∅ → list_to_set names = sv_active s →
      supervisor_step s (end_waiting names s)
  | sv_finish s saved now :
      sv_at s = AtJoin → all_ended s → supervisor_step s (finish saved now s).
End supervisor.

(** ** The socket runtime

    [run_socket_runtime_until_stop] of [src/src/channels/slack/mod.rs], called again
    and again by [run_slack_socket_worker_until_stop]: the profiles whose socket
    threads run for the current call, and those of earlier calls whose threads
    still run. *)
Inductive runtime_at := RtOutside | RtServing | RtReturned (outcome : result SlackError ()).
Record socket_runtime := {
  rs_at : runtime_at;
  rs_stop : bool;
  rs_own : list string;
  rs_left : list string;
}.
(** Threads end when they see the flag, so a call that raised it joins its own. *)
Inductive runtime_step (profiles : list string) : socket_runtime → socket_runtime → Prop :=
  | rs_open left :
      runtime_step profiles {| rs_at := RtOutside; rs_stop := false; rs_own := []; rs_left := left |}
        {| rs_at := RtServing; rs_stop := false; rs_own := profiles; rs_left := left |}
  | rs_refused left spawned rest err :           (* before all threads are spawned *)
      profiles = spawned ++ rest →
      runtime_step profiles {| rs_at := RtOutside; rs_stop := false; rs_own := []; rs_left := left |}
        {| rs_at := RtReturned (Err err); rs_stop := false; rs_own := []; rs_left := left ++ spawned |}
  | rs_outbound_error stop own left err :      (* [process_outbound(..)?] *)
      runtime_step profiles {| rs_at := RtServing; rs_stop := stop; rs_own := own; rs_left := left |}
        {| rs_at := RtReturned (Err err); rs_stop := stop; rs_own := []; rs_left := left ++ own |}
  | rs_socket_error stop before profile after left err :
      runtime_step profiles
        {| rs_at := RtServing; rs_stop := stop; rs_own := before ++ profile :: after; rs_left := left |}
        {| rs_at := RtReturned (Err err); rs_stop := true; rs_own := []; rs_left := left |}
  | rs_left_ends s before profile after :      (* an earlier call's thread fails, unheard *)
      rs_left s = before ++ profile :: after →
      runtime_step profiles s
        {| rs_at := rs_at s; rs_stop := rs_stop s; rs_own := rs_own s; rs_left := before ++ after |}
  | rs_stopped own left :
      runtime_step profiles {| rs_at := RtServing; rs_stop := true; rs_own := own; rs_left := left |}
        {| rs_at := RtReturned (Ok ()); rs_stop := true; rs_own := []; rs_left := left |}
  | rs_again err left :                        (* [sleep_with_stop(..)], then [continue] *)
      runtime_step profiles
        {| rs_at := RtReturned (Err err); rs_stop := false; rs_own := []; rs_left := left |}
        {| rs_at := RtOutside; rs_stop := false; rs_own := []; rs_left := left |}
  | rs_raise s :                               (* a stop of the daemon *)
      runtime_step profiles s
        {| rs_at := rs_at s; rs_stop := true; rs_own := rs_own s; rs_left := rs_left s |}.
Definition runtime_start : socket_runtime :=
  {| rs_at := RtOutside; rs_stop := false; rs_own := []; rs_left := [] |}.
