(* ===== verification/SupervisorGuarantees.v ===== *)
(** * What the supervisor guarantees

    However the supervisor and its workers interleave: what the record of the
    workers says when the daemon has stopped, that a refused worker stays reported,
    and that a stop can always be completed; and what one failing socket and one
    undeliverable answer do. *)
From S2P Require Import Prelude RustStr RustPath Io Json Config SlackChannel SlackSync StatePaths WorkerRegistry Daemon Heartbeat Supervisor.

Local Open Scope string_scope.
Local Open Scope list_scope.

(** ** Identifiers of workers *)
Lemma channel_specs_ids channel spec :
  spec ∈ channel_specs channel →
  channel.1 = "slack" ∧ (ws_id spec = "channel:slack-socket" ∨ ws_id spec = "channel:slack-backfill").
Proof.
  destruct channel as [name config]. unfold channel_specs. intros Hspec.
  destruct (cc_enabled config); simpl in Hspec; [|by apply elem_of_nil in Hspec].
  destruct (String.eqb_spec name "slack") as [->|]; [|by apply elem_of_nil in Hspec].
  split; [done|]. destruct (cc_inbound_mode config), (cc_history_backfill_enabled config);
    repeat (apply elem_of_cons in Hspec as [->|Hspec]; [by auto|]); by apply elem_of_nil in Hspec.
Qed.
Lemma channel_specs_NoDup channel : NoDup (ws_id <$> channel_specs channel).
Proof.
  destruct channel as [name config]. unfold channel_specs.
  destruct (cc_enabled config); [|constructor]. destruct (String.eqb name "slack"); [|constructor].
  destruct (cc_inbound_mode config), (cc_history_backfill_enabled config);
    by apply (bool_decide_unpack _).
Qed.
Lemma channels_specs_NoDup (channels : list (string * ChannelConfig)) :
  NoDup (map_keys channels) → NoDup (ws_id <$> (channels ≫= channel_specs)).
Proof.
  unfold map_keys. induction channels as [|channel channels IH]; simpl; [constructor|].
  intros [Hnew Hnd]%NoDup_cons. rewrite fmap_app. apply NoDup_app. split_and!.
  - apply channel_specs_NoDup.
  - intros i Hi Hi'. apply list_elem_of_fmap in Hi as (spec & -> & Hspec).
    apply list_elem_of_fmap in Hi' as (spec' & _ & Hspec').
    apply list_elem_of_bind in Hspec' as (channel' & Hspec' & Hin).
    apply channel_specs_ids in Hspec as [Hn _], Hspec' as [Hn' _].
    apply Hnew. rewrite Hn, <- Hn'. by apply list_elem_of_fmap_2.
  - by apply IH.
Qed.
Lemma worker_ids_NoDup settings :
  map_sorted (s_channels settings) → NoDup (ws_id <$> build_worker_specs settings).
Proof.
  intros Hs%map_sorted_NoDup. unfold build_worker_specs. rewrite !fmap_app.
  set (channels := ws_id <$> (_ ≫= _)). assert (Hch : NoDup channels) by by apply channels_specs_NoDup.
  assert (Hnames : ∀ i, i ∈ channels → i = "channel:slack-socket" ∨ i = "channel:slack-backfill").
  { intros i (spec & -> & Hspec)%list_elem_of_fmap. apply list_elem_of_bind in Hspec as (c & Hspec & _).
    by apply channel_specs_ids in Hspec as [_ ?]. }
  rewrite !app_assoc. apply NoDup_app. split_and!; [|intros i Hi Hc%Hnames|done].
  all: destruct (mem_enabled (s_memory settings)), (configured_heartbeat_interval settings); simpl in *.
  1-4: by apply (bool_decide_unpack _).
  all: destruct Hc as [-> | ->]; revert Hi; by apply (bool_decide_unpack _).
Qed.

(** ** Steps of a worker *)
Section workers.
Context (spec : WorkerSpec) (should_fail : bool) (credentials : result SlackError ()).
Local Abbreviation step := (worker_step spec should_fail credentials).

Definition is_stopped (e : WorkerEvent) : bool :=
  match e with EvStopped _ _ => true | _ => false end.
Lemma worker_step_event stop p e stop' p' :
  step stop p e stop' p' →
  p ≠ Ended ∧ (stop = true → stop' = true)
  ∧ ∀ event, e = Some event →
      event_worker event = ws_id spec ∧ (is_stopped event = true → p' = Ended).
Proof.
  intros Hs. split_and!.
  - inversion Hs; try done. match goal with H : in_socket_loop _ |- _ => destruct H as [-> | [-> | ->]] end; done.
  - inversion Hs; congruence.
  - intros event ->. inversion Hs; subst; try done.
    all: match goal with |- context [tick_event _ _ ?r] => destruct r end; done.
Qed.
(** A worker that reads the flag as raised can come to its end. *)
Definition stopping_move (p p' : worker_at) : Prop := ∃ e, step true p e true p'.
Lemma worker_can_end p : rtc stopping_move p Ended.
Proof.
  assert (Hleave : rtc stopping_move Leaving Ended).
  { apply rtc_once. eexists. by apply (ws_leave _ _ _ _ 0). }
  assert (Hvia : ∀ q q', stopping_move q q' → rtc stopping_move q' Ended → rtc stopping_move q Ended)
    by eauto using rtc_l.
  assert (Hclosing : rtc stopping_move SocketClosing Ended).
  { eapply Hvia; [|exact Hleave]. eexists. constructor. }
  assert (Hsleep : rtc stopping_move Sleeping Ended).
  { eapply Hvia; [|exact Hleave]. eexists. constructor. }
  assert (Hserve : ∀ q, serving_at (ws_runtime spec) = q → rtc stopping_move q Ended).
  { intros q <-. destruct (ws_runtime spec); simpl.
    1: eapply Hvia; [eexists; apply ws_queue_recovered|].
    all: eapply Hvia; [eexists; constructor|assumption]. }
  assert (Hstart : rtc stopping_move Starting Ended).
  { destruct (startup_error (ws_runtime spec) (Ok ()) credentials should_fail) as [message|] eqn:Hs.
    - eapply Hvia; [eexists; by apply (ws_refuse _ _ _ _ 0 (Ok ()))|].
      eapply Hvia; [eexists; by apply (ws_fail _ _ _ _ 0)|]. done.
    - eapply Hvia; [eexists; by apply (ws_serve _ _ _ _ (Ok ()))|]. by apply Hserve. }
  destruct p; try done.
  - eapply Hvia; [eexists; by apply (ws_launch _ _ _ _ 0)|done].
  - eapply Hvia; [eexists; by apply (ws_fail _ _ _ _ 0)|done].
  - eapply Hvia; [eexists; apply ws_queue_recovered|]. eapply Hvia; [eexists; constructor|done].
  - eapply Hvia; [eexists; constructor|done].
  - eapply Hvia; [eexists; apply ws_socket_done|done].
  - eapply Hvia; [eexists; apply ws_socket_paused|done].
  - eapply Hvia; [eexists; constructor|done].
  - eapply Hvia; [eexists; by apply (ws_tick _ _ _ _ 0 (Ok ()) (Ok ()))|done].
Qed.
End workers.

(** ** The record of the workers *)
Section supervised.
Context (fail_worker : option string) (credentials : result SlackError ())
  (specs : list WorkerSpec).
Hypothesis unique_ids : NoDup (ws_id <$> specs).
Local Abbreviation step := (supervisor_step fail_worker credentials).

Definition events_of (worker_id : string) (s : supervisor) : list WorkerEvent :=
  filter (λ e, event_worker e = worker_id) (sv_channel s).
Definition record_of (worker_id : string) (s : supervisor) : option WorkerHealth :=
  map_get worker_id (su_workers (sv_state s)).
Definition quiet (worker_id : string) (s : supervisor) : Prop :=
  ∀ health, record_of worker_id s = Some health → wh_state health ≠ WRunning.
(** Nothing follows [Stopped]; and whoever is no longer waited for has ended, been
    heard to the end and is not recorded as running. *)
Definition worker_ok (s : supervisor) (worker : WorkerSpec * worker_at) : Prop :=
  let '(spec, p) := worker in
  (∀ before e after, events_of (ws_id spec) s = before ++ e :: after → is_stopped e = true →
     after = [] ∧ p = Ended)
  ∧ (ws_id spec ∉ sv_active s → p = Ended ∧ events_of (ws_id spec) s = [] ∧ quiet (ws_id spec) s).
Definition supervised (s : supervisor) : Prop :=
  (fst <$> sv_workers s) = specs
  ∧ (∀ e, e ∈ sv_channel s → event_worker e ∈ ws_id <$> specs)
  ∧ (∀ worker_id, is_Some (record_of worker_id s) ↔ worker_id ∈ ws_id <$> specs)
  ∧ (∀ worker, worker ∈ sv_workers s → worker_ok s worker)
  ∧ match sv_at s with
    | AtPoll | AtReceive => True
    | AtDrain => sv_stop s = true ∨ all_ended s
    | AtJoin => (sv_stop s = true ∨ all_ended s) ∧ ∀ worker_id, quiet worker_id s
    | AtExit saved => (sv_stop s = true ∨ all_ended s) ∧ (∀ worker_id, quiet worker_id s) ∧ all_ended s
        ∧ su_running (sv_state s) = false ∧ su_pid (sv_state s) = None
        ∧ (saved = true → sv_disk s = sv_state s)
    end.

Lemma spec_of_id worker_id s :
  (fst <$> sv_workers s) = specs → worker_id ∈ ws_id <$> specs →
  ∃ spec p, (spec, p) ∈ sv_workers s ∧ ws_id spec = worker_id.
Proof.
  intros <- (spec & -> & Hspec)%list_elem_of_fmap.
  apply list_elem_of_fmap in Hspec as ([spec' p] & -> & Hin). eauto.
Qed.
Lemma quiet_of_active s worker_id :
  supervised s → worker_id ∉ sv_active s → quiet worker_id s.
Proof.
  intros (Hspecs & _ & Hrecs & Hok & _) Hout health Hh.
  destruct (spec_of_id worker_id s) as (spec & p & Hin & <-); [done|apply Hrecs; eauto|].
  destruct (Hok _ Hin) as [_ Hq]. by apply Hq.
Qed.

Lemma start_records (l : list WorkerSpec) worker_id :
  is_Some (map_get worker_id
    (foldl (λ workers spec, map_insert (ws_id spec) WorkerHealth_default workers) [] l))
  ↔ worker_id ∈ ws_id <$> l.
Proof.
  induction l as [|spec l IH] using rev_ind; [rewrite elem_of_nil; simpl; by split; [intros []|]|].
  rewrite foldl_snoc, fmap_app, elem_of_app. destruct (decide (worker_id = ws_id spec)) as [->|Hne].
  - rewrite map_get_insert_eq. split; [|by eexists]. right. by constructor.
  - rewrite map_get_insert_ne by done. rewrite IH. simpl. rewrite list_elem_of_singleton. naive_solver.
Qed.
Lemma supervised_start pid now profiles : supervised (supervisor_start pid now profiles specs).
Proof.
  unfold supervised, supervisor_start, record_of; simpl. split_and!.
  - rewrite <- list_fmap_compose. apply list_fmap_id.
  - by intros e ?%elem_of_nil.
  - intros worker_id. apply start_records.
  - intros [spec p] (spec' & [= -> ->] & Hin)%list_elem_of_fmap. split.
    + by intros [|??].
    + intros []. simpl. apply elem_of_list_to_set. by apply list_elem_of_fmap_2.
  - done.
Qed.

(** Two workers of the list with one identifier are the same entry. *)
Lemma other_worker before spec p after w :
  fst <$> (before ++ (spec, p : worker_at) :: after) = specs → w ∈ before ++ after → ws_id w.1 ≠ ws_id spec.
Proof.
  intros Heq Hin Hid. rewrite <- Heq in unique_ids. rewrite <- list_fmap_compose, fmap_app, fmap_cons in unique_ids.
  simpl in unique_ids. apply NoDup_app in unique_ids as (_ & Hdis & [Hna _]%NoDup_cons).
  apply elem_of_app in Hin as [Hin|Hin]; apply (list_elem_of_fmap_2 (ws_id ∘ fst)) in Hin; simpl in Hin.
  - apply (Hdis _ Hin). rewrite Hid. left.
  - rewrite Hid in Hin. done.
Qed.
Lemma supervised_worker s before spec p after e stop p' :
  supervised s → sv_workers s = before ++ (spec, p) :: after →
  worker_step spec (bool_decide (fail_worker = Some (ws_id spec))) credentials (sv_stop s) p e stop p' →
  supervised (worker_did e stop (before ++ (spec, p') :: after) s).
Proof.
  intros (Hspecs & Hch & Hrecs & Hok & Hat) Hw (Hrun & Hstop & Hev)%worker_step_event.
  assert (Hbusy : ¬ all_ended s).
  { intros Hend. apply Hrun. apply (Hend (spec, p)). rewrite Hw. apply elem_of_app. right. left. }
  assert (Hflag : sv_stop s = true ∨ all_ended s →
    sv_stop (worker_did e stop (before ++ (spec, p') :: after) s) = true
    ∨ all_ended (worker_did e stop (before ++ (spec, p') :: after) s)).
  { intros [Hs|?]; [left; by apply Hstop|done]. }
  rewrite Hw in Hspecs, Hok. split; [|split; [|split; [|split]]]; [| |done| |].
  4: { simpl in *. destruct (sv_at s); naive_solver. }
  all: simpl.
  - rewrite <- Hspecs. by rewrite !fmap_app.
  - intros event [Hin|Hin]%elem_of_app; [by apply Hch|]. destruct e as [e|]; [|by apply elem_of_nil in Hin].
    apply list_elem_of_singleton in Hin as ->. destruct (Hev e eq_refl) as [-> _].
    apply list_elem_of_fmap_2. rewrite <- Hspecs. rewrite fmap_app. apply elem_of_app. right. left.
  - assert (Hout : ∀ w', w' ∈ before ++ after →
      worker_ok (worker_did e stop (before ++ (spec, p') :: after) s) w').
    { intros [spec' q] Hin. pose proof (other_worker _ _ _ _ _ Hspecs Hin) as Hne. simpl in Hne.
      assert (Hold : worker_ok s (spec', q)).
      { apply Hok. apply elem_of_app in Hin as [?|?]; apply elem_of_app; [by left|right; by right]. }
      assert (Hsame : events_of (ws_id spec') (worker_did e stop (before ++ (spec, p') :: after) s)
                      = events_of (ws_id spec') s).
      { unfold events_of. simpl. rewrite filter_app. destruct e as [e|]; [|by rewrite app_nil_r].
        destruct (Hev e eq_refl) as [He _]. rewrite filter_cons_False by congruence. by rewrite app_nil_r. }
      unfold worker_ok. by rewrite Hsame. }
    intros w' Hin. rewrite elem_of_app in Hin. destruct Hin as [Hin|Hin].
    { apply Hout. apply elem_of_app. by left. }
    apply elem_of_cons in Hin as [->|Hin]; [|apply Hout; apply elem_of_app; by right].
    destruct (Hok (spec, p)) as [Hlast Hq]; [apply elem_of_app; right; left|].
    assert (Hact : ws_id spec ∈ sv_active s).
    { destruct (decide (ws_id spec ∈ sv_active s)) as [|Hn]; [done|]. by destruct (Hq Hn). }
    split; [|done]. unfold events_of in *. simpl. rewrite filter_app. intros pre event post Heq Hst.
    assert (Hnone : event ∉ filter (λ e, event_worker e = ws_id spec) (sv_channel s)).
    { intros (l1 & l2 & Hl)%list_elem_of_split. by destruct (Hlast _ _ _ Hl Hst). }
    destruct e as [e|]; [|rewrite app_nil_r in Heq; rewrite Heq in Hnone; set_solver].
    destruct (Hev e eq_refl) as [He Hend]. rewrite filter_cons_True in Heq by done.
    change (filter _ []) with (@nil WorkerEvent) in Heq.
    destruct post as [|e2 post _] using rev_ind.
    + apply app_inj_tail in Heq as [_ ->]. split; [done|]. by apply Hend.
    + exfalso. rewrite app_comm_cons, app_assoc in Heq. apply app_inj_tail in Heq as [Heq _].
      rewrite Heq in Hnone. set_solver.
Qed.

(** *** Receiving an event *)
Lemma record_after saved event s worker_id :
  record_of worker_id (handle_worker_event saved event s)
  = if decide (worker_id = event_worker event)
    then record_of worker_id (handle_worker_event true event s) else record_of worker_id s.
Proof.
  unfold record_of, handle_worker_event. case_decide as Hid; [by destruct event|].
  destruct event; simpl in *; unfold update_health; by apply map_get_insert_ne.
Qed.
Lemma record_known saved event s worker_id :
  is_Some (record_of worker_id (handle_worker_event saved event s))
  ↔ worker_id = event_worker event ∨ is_Some (record_of worker_id s).
Proof.
  rewrite record_after. case_decide as Hid; [|naive_solver]. subst. split; [by left|]. intros _.
  unfold record_of, handle_worker_event. destruct event; simpl; unfold update_health;
    rewrite map_get_insert_eq; by eexists.
Qed.
Lemma active_after saved event s :
  sv_active (handle_worker_event saved event s)
  = if is_stopped event then sv_active s ∖ {[ event_worker event ]} else sv_active s.
Proof. by destruct event. Qed.
Lemma stopped_is_quiet saved event s :
  is_stopped event = true → quiet (event_worker event) (handle_worker_event saved event s).
Proof.
  intros Hs health. unfold quiet, record_of, handle_worker_event. destruct event; try done. simpl.
  unfold update_health. rewrite map_get_insert_eq. intros [= <-]. simpl. by case_decide.
Qed.

Lemma worker_ok_received s event rest saved spec p :
  supervised s → sv_channel s = event :: rest → (spec, p) ∈ sv_workers s →
  worker_ok (handle_worker_event saved event (sv_set_channel rest s)) (spec, p).
Proof.
  intros Hsup Hch Hin. pose proof Hsup as (_ & _ & _ & Hok & _). destruct (Hok _ Hin) as [Hlast Hq].
  set (s' := handle_worker_event saved event (sv_set_channel rest s)).
  assert (Hev : events_of (ws_id spec) s
                = if decide (event_worker event = ws_id spec) then event :: events_of (ws_id spec) s'
                  else events_of (ws_id spec) s').
  { unfold events_of. rewrite Hch, filter_cons. unfold s', handle_worker_event. by destruct event. }
  split.
  - intros pre e post Heq Hs. destruct (decide (event_worker event = ws_id spec)).
    + apply (Hlast (event :: pre) e post); [|done]. by rewrite Hev, Heq.
    + apply (Hlast pre e post); [|done]. by rewrite Hev.
  - unfold s'. rewrite active_after. fold s'. change (sv_active (sv_set_channel rest s)) with (sv_active s).
    destruct (decide (event_worker event = ws_id spec)) as [Hid|Hid].
    + destruct (is_stopped event) eqn:Hs.
      * intros _. destruct (Hlast [] event (events_of (ws_id spec) s')) as [-> ->]; [done..|].
        split_and!; [done..|]. rewrite <- Hid. by apply stopped_is_quiet.
      * intros Hout. destruct (Hq Hout) as (_ & Hnil & _). by rewrite Hev in Hnil.
    + intros Hout. assert (Hn : ws_id spec ∉ sv_active s) by (destruct (is_stopped event); set_solver).
      destruct (Hq Hn) as (-> & Hnil & Hquiet). rewrite Hev in Hnil. split_and!; [done..|].
      intros health. unfold s'. rewrite record_after, decide_False by congruence. apply Hquiet.
Qed.
Lemma supervised_receive s event rest saved next :
  supervised s → sv_channel s = event :: rest →
  next = AtPoll ∨ (next = AtDrain ∧ sv_at s = AtDrain) →
  supervised (sv_goto next (handle_worker_event saved event (sv_set_channel rest s))).
Proof.
  intros Hsup Hch Hnext. pose proof Hsup as (Hspecs & Hids & Hrecs & Hok & Hat).
  set (s' := handle_worker_event saved event (sv_set_channel rest s)).
  assert (Hs' : sv_workers s' = sv_workers s ∧ sv_channel s' = rest ∧ sv_stop s' = sv_stop s).
  { unfold s', handle_worker_event. by destruct event. }
  destruct Hs' as (Hw & Hc & Hf). unfold supervised. simpl. split_and!.
  - by rewrite Hw.
  - rewrite Hc. intros e He. apply Hids. rewrite Hch. by right.
  - intros worker_id. change (record_of worker_id (sv_goto next s')) with (record_of worker_id s').
    unfold s'. rewrite record_known. change (record_of worker_id (sv_set_channel rest s)) with (record_of worker_id s).
    rewrite Hrecs. split; [intros [->|?]|by right]; [|done]. apply Hids. rewrite Hch. left.
  - rewrite Hw. intros [spec p] Hin. by apply (worker_ok_received s event rest saved).
  - destruct Hnext as [->|[-> Hd]]; [done|]. rewrite Hd in Hat. unfold all_ended. simpl. by rewrite Hf, Hw.
Qed.

(** *** The end *)
Lemma flag_timeouts_get active workers worker_id :
  map_get worker_id (flag_timeouts active workers)
  = (if bool_decide (worker_id ∈ active) then timeout_health else id) <$> map_get worker_id workers.
Proof.
  unfold flag_timeouts. induction workers as [|[k health] workers IH]; [done|]. simpl.
  destruct (decide (worker_id = k)) as [->|Hne].
  - by destruct (bool_decide (k ∈ active)); simpl; rewrite decide_True.
  - by destruct (bool_decide (k ∈ active)); simpl; rewrite !decide_False.
Qed.
Lemma supervised_give_up s names :
  supervised s → sv_at s = AtDrain → supervised (end_waiting names s).
Proof.
  intros Hsup Hdrain. pose proof Hsup as (Hspecs & Hids & Hrecs & Hok & Hat). rewrite Hdrain in Hat.
  assert (Hrec : ∀ worker_id, record_of worker_id (end_waiting names s)
     = (if bool_decide (worker_id ∈ sv_active s) then timeout_health else id) <$> record_of worker_id s).
  { intros worker_id. apply flag_timeouts_get. }
  assert (Hquiet : ∀ worker_id, quiet worker_id (end_waiting names s)).
  { intros worker_id health. rewrite Hrec. case_bool_decide as Hact.
    - by intros (h & _ & ->)%fmap_Some.
    - rewrite option_fmap_id. by apply quiet_of_active. }
  unfold supervised. split_and!; [done..| | |done].
  - intros worker_id. by rewrite Hrec, fmap_is_Some.
  - intros [spec p] Hin. destruct (Hok _ Hin) as [Hlast Hq]. split; [done|].
    intros Hout. destruct (Hq Hout) as (? & ? & _). split_and!; [done..|]. apply Hquiet.
Qed.
Lemma supervised_step s s' : supervised s → step s s' → supervised s'.
Proof.
  intros Hsup Hstep. pose proof Hsup as (Hspecs & Hids & Hrecs & Hok & Hat). inversion Hstep; subst.
  1: by eapply supervised_worker.
  all: repeat match goal with H : sv_at _ = _ |- _ => rewrite H in Hat end.
  - done.
  - unfold poll_stop_file. by destruct (sv_stop_file s).
  - split_and!; try done. by left.
  - eapply supervised_receive; [done..|by left].
  - done.
  - split_and!; try done. by right.
  - replace (handle_worker_event _ _ _) with
      (sv_goto AtDrain (handle_worker_event saved event (sv_set_channel rest s))).
    + eapply supervised_receive; [done..|by right].
    + unfold handle_worker_event, sv_goto, sv_set_channel. destruct s; simpl in *; subst.
      destruct event; reflexivity.
  - split_and!; try done. split; [exact Hat|]. intros worker_id. apply (quiet_of_active s); [done|]. set_solver.
  - by apply supervised_give_up.
  - destruct Hat. destruct saved; by split_and!.
Qed.
Lemma supervised_reachable pid now profiles s :
  rtc step (supervisor_start pid now profiles specs) s → supervised s.
Proof.
  intros Hrun. remember (supervisor_start pid now profiles specs) as s0 eqn:Hs0.
  assert (H0 : supervised s0) by (subst; apply supervised_start). clear Hs0.
  induction Hrun as [|s0 s1 s2 Hstep _ IH]; [done|]. apply IH. by eapply supervised_step.
Qed.

(** C26: when the supervisor has returned, however it and its workers interleaved:
    every worker's thread has ended, and either the stop flag was raised or all
    workers had ended by themselves; the state it leaves, which is the saved one
    unless the save failed, names no process, has a record for exactly the workers
    of the configuration and reports none of them as running. *)
Theorem stopped_daemon_reports_no_running_worker pid now profiles s saved
    (Hrun : rtc step (supervisor_start pid now profiles specs) s) (Hexit : sv_at s = AtExit saved) :
  all_ended s ∧ (sv_stop s = true ∨ all_ended s)
  ∧ su_running (sv_state s) = false ∧ su_pid (sv_state s) = None
  ∧ (∀ worker_id, is_Some (record_of worker_id s) ↔ worker_id ∈ ws_id <$> specs)
  ∧ (∀ worker_id health, record_of worker_id s = Some health → wh_state health ≠ WRunning)
  ∧ (saved = true → sv_disk s = sv_state s).
Proof.
  apply supervised_reachable in Hrun as (_ & _ & Hrecs & _ & Hat). rewrite Hexit in Hat.
  destruct Hat as (Hwhy & Hquiet & Hend & Hr & Hp & Hdisk). split_and!; try done.
Qed.

(** ** A worker that is refused *)
(** What an event makes of a record. *)
Definition health_after (health : WorkerHealth) (event : WorkerEvent) : WorkerHealth :=
  match event with
  | EvStarted _ now => {| wh_state := WRunning; wh_last_heartbeat := Some now;
                          wh_last_error := wh_last_error health |}
  | EvHeartbeat _ now => {| wh_state := WRunning; wh_last_heartbeat := Some now;
                            wh_last_error := None |}
  | EvError _ now message _ => {| wh_state := WError; wh_last_heartbeat := Some now;
                                  wh_last_error := Some message |}
  | EvStopped _ now =>
      {| wh_state := if decide (wh_state health = WError) then WError else WStopped;
         wh_last_heartbeat := Some now; wh_last_error := wh_last_error health |}
  end.
Lemma record_updated saved event s :
  record_of (event_worker event) (handle_worker_event saved event s)
  = Some (health_after (from_option id WorkerHealth_default (record_of (event_worker event) s)) event).
Proof.
  unfold record_of, handle_worker_event. destruct event; simpl; unfold update_health;
    by rewrite map_get_insert_eq.
Qed.
(** The record when all events on the way are received. *)
Definition due_health (worker_id : string) (s : supervisor) : WorkerHealth :=
  foldl health_after (from_option id WorkerHealth_default (record_of worker_id s)) (events_of worker_id s).
Lemma due_received saved event rest s worker_id :
  sv_channel s = event :: rest →
  due_health worker_id (handle_worker_event saved event (sv_set_channel rest s)) = due_health worker_id s.
Proof.
  intros Hch. unfold due_health.
  assert (He : events_of worker_id (handle_worker_event saved event (sv_set_channel rest s))
               = filter (λ e, event_worker e = worker_id) rest).
  { unfold events_of, handle_worker_event. by destruct event. }
  rewrite He. unfold events_of. rewrite Hch, filter_cons. case_decide as Hid.
  - rewrite <- Hid. by rewrite record_updated.
  - rewrite record_after, decide_False by congruence. done.
Qed.

Definition reported (message : string) (health : WorkerHealth) : Prop :=
  wh_state health = WError ∧ wh_last_error health = Some message.
Section refused.
Context (spec : WorkerSpec) (message : string).
Hypothesis in_specs : spec ∈ specs.
Hypothesis refused : ∀ memory_paths,
  startup_error (ws_runtime spec) memory_paths credentials
    (bool_decide (fail_worker = Some (ws_id spec))) = Some message.

Definition refused_at (s : supervisor) (p : worker_at) : Prop :=
  (p = Launching ∨ p = Starting ∨ p = Failing ∨ p = Ended)
  ∧ match sv_at s with
    | AtPoll | AtReceive | AtDrain =>
        p = Failing ∨ p = Ended → reported message (due_health (ws_id spec) s)
    | AtJoin | AtExit _ =>
        ∀ health, record_of (ws_id spec) s = Some health →
          reported message health ∨ reported "shutdown timeout" health
    end.
Definition stays_refused (s : supervisor) : Prop :=
  ∀ p, (spec, p) ∈ sv_workers s → refused_at s p.

Lemma due_sent e stop workers s :
  due_health (ws_id spec) (worker_did e stop workers s)
  = match e with
    | Some event =>
        if decide (event_worker event = ws_id spec)
        then health_after (due_health (ws_id spec) s) event else due_health (ws_id spec) s
    | None => due_health (ws_id spec) s
    end.
Proof.
  unfold due_health, events_of. simpl. rewrite filter_app. destruct e as [event|]; [|by rewrite app_nil_r].
  rewrite filter_cons. destruct (decide (event_worker event = ws_id spec)) as [Hid|Hid].
  - rewrite foldl_app. reflexivity.
  - by rewrite app_nil_r.
Qed.
Lemma refused_worker_step stop p e stop' p' :
  worker_step spec (bool_decide (fail_worker = Some (ws_id spec))) credentials stop p e stop' p' →
  p = Launching ∨ p = Starting ∨ p = Failing ∨ p = Ended →
  (p = Launching ∧ p' = Starting)
  ∨ (p = Starting ∧ p' = Failing ∧ ∃ now, e = Some (EvError (ws_id spec) now message true))
  ∨ (p = Failing ∧ p' = Ended ∧ ∃ now, e = Some (EvStopped (ws_id spec) now)).
Proof.
  intros Hstep Hp. destruct Hp as [-> | [-> | [-> | ->]]]; inversion Hstep; subst.
  all: try match goal with H : in_socket_loop _ |- _ => by destruct H as [?|[?|?]] end.
  all: try match goal with H : startup_error _ ?m _ _ = _ |- _ => rewrite (refused m) in H; simplify_eq end.
  - by left.
  - right; left. eauto.
  - right; right. eauto.
Qed.
Lemma refused_did s before spec' p after e stop p' :
  supervised s → stays_refused s → sv_workers s = before ++ (spec', p) :: after →
  worker_step spec' (bool_decide (fail_worker = Some (ws_id spec'))) credentials (sv_stop s) p e stop p' →
  stays_refused (worker_did e stop (before ++ (spec', p') :: after) s).
Proof.
  intros (Hspecs & _) Href Hw Hstep q Hq. rewrite Hw in Hspecs. simpl in Hq.
  rewrite elem_of_app, elem_of_cons in Hq.
  assert (Hcases : (spec, q) ∈ before ++ after ∨ (spec, q) = (spec', p'))
    by (rewrite elem_of_app; naive_solver).
  destruct Hcases as [Hold|Hsame]; [|injection Hsame as <- <-].
  - pose proof (other_worker _ _ _ _ _ Hspecs Hold) as Hne. simpl in Hne.
    destruct (Href q) as [Hp Hrec].
    { rewrite Hw. apply elem_of_app in Hold as [?|?]; apply elem_of_app; [by left|right; by right]. }
    split; [done|]. simpl. rewrite due_sent.
    assert (Hdue : match e with
       | Some event => if decide (event_worker event = ws_id spec)
                       then health_after (due_health (ws_id spec) s) event else due_health (ws_id spec) s
       | None => due_health (ws_id spec) s
       end = due_health (ws_id spec) s).
    { destruct e as [event|]; [|done]. destruct (worker_step_event _ _ _ _ _ _ _ _ Hstep) as (_ & _ & He).
      rewrite decide_False; [done|]. destruct (He event eq_refl) as [-> _]. congruence. }
    by rewrite Hdue.
  - destruct (Href p) as [Hp Hrec]; [rewrite Hw; apply elem_of_app; right; left|].
    apply refused_worker_step in Hstep; [|done]. split; [naive_solver|]. simpl. rewrite due_sent.
    destruct Hstep as [(Hpe & Hqe)|[(Hpe & Hqe & now & ->)|(Hpe & Hqe & now & ->)]]; rewrite Hpe, ?Hqe in *.
    + destruct (sv_at s); naive_solver.
    + rewrite decide_True by done. by destruct (sv_at s).
    + rewrite decide_True by done. destruct (sv_at s); try done.
      all: intros _; destruct Hrec as [Hs Hm]; [by left|]; split; [|done]; simpl; by rewrite decide_True.
Qed.
Lemma refused_frame s s' :
  stays_refused s → sv_workers s' = sv_workers s →
  (∀ p, (spec, p) ∈ sv_workers s → refused_at s p → refused_at s' p) → stays_refused s'.
Proof. intros Href Hw Hp p. rewrite Hw. eauto. Qed.
(** The supervisor goes on without touching records and events. *)
Definition waiting_at (a : supervisor_at) : Prop := a = AtPoll ∨ a = AtReceive ∨ a = AtDrain.
Lemma refused_waiting s s' :
  stays_refused s → waiting_at (sv_at s) → waiting_at (sv_at s') → sv_workers s' = sv_workers s →
  due_health (ws_id spec) s' = due_health (ws_id spec) s → stays_refused s'.
Proof.
  intros Href Hs Hs' Hw Hdue p. rewrite Hw. intros [Hp Hrec]%Href. split; [done|]. rewrite Hdue.
  destruct Hs as [Hs|[Hs|Hs]]; rewrite Hs in Hrec; destruct Hs' as [-> |[-> | ->]]; done.
Qed.
Lemma refused_drained s p :
  worker_ok s (spec, p) → refused_at s p → sv_at s = AtDrain → ws_id spec ∉ sv_active s →
  ∀ health, record_of (ws_id spec) s = Some health → reported message health.
Proof.
  intros [_ Hq] [_ Hrec] Hat Hout health Hh. destruct (Hq Hout) as (-> & Hnil & _).
  rewrite Hat in Hrec. specialize (Hrec (or_intror eq_refl)). revert Hrec.
  unfold due_health. by rewrite Hnil, Hh.
Qed.
Lemma refused_received s event rest saved next :
  stays_refused s → sv_channel s = event :: rest → waiting_at (sv_at s) → waiting_at next →
  stays_refused (sv_goto next (handle_worker_event saved event (sv_set_channel rest s))).
Proof.
  intros Href Hch Hs Hn. apply (refused_waiting s); [done..| |].
  - unfold handle_worker_event. by destruct event.
  - by apply (due_received saved event rest s).
Qed.
Lemma refused_ends s s' :
  stays_refused s → sv_at s' = AtJoin ∨ (∃ saved, sv_at s' = AtExit saved) → sv_workers s' = sv_workers s →
  (∀ p health, refused_at s p → (spec, p) ∈ sv_workers s → record_of (ws_id spec) s' = Some health →
     reported message health ∨ reported "shutdown timeout" health) →
  stays_refused s'.
Proof.
  intros Href Hs' Hw Hrec p. rewrite Hw. intros Hin. pose proof (Href p Hin) as Hold. split; [apply Hold|].
  destruct Hs' as [->|[saved ->]]; eauto.
Qed.
Lemma refused_step s s' : supervised s → stays_refused s → step s s' → stays_refused s'.
Proof.
  intros Hsup Href Hstep. pose proof Hsup as (_ & _ & _ & Hok & _).
  assert (Hwait : ∀ a, a = AtPoll ∨ a = AtReceive ∨ a = AtDrain → waiting_at a) by done.
  inversion Hstep; subst.
  - by eapply refused_did.
  - done.
  - unfold poll_stop_file. destruct (sv_stop_file s); apply (refused_waiting s); try done; apply Hwait; simpl; auto.
  - apply (refused_waiting s); try done; apply Hwait; simpl; auto.
  - apply refused_received; try done; apply Hwait; simpl; auto.
  - apply (refused_waiting s); try done; apply Hwait; simpl; auto.
  - apply (refused_waiting s); try done; apply Hwait; simpl; auto.
  - replace (handle_worker_event _ _ _) with
      (sv_goto AtDrain (handle_worker_event saved event (sv_set_channel rest s))).
    + apply refused_received; try done; apply Hwait; simpl; auto.
    + unfold handle_worker_event, sv_goto, sv_set_channel. destruct s; simpl in *; subst.
      destruct event; reflexivity.
  - apply (refused_ends s); [done|by left|done|]. intros p health Hp Hin Hh. left.
    eapply (refused_drained s p); [by apply Hok|done..| |exact Hh]. set_solver.
  - apply (refused_ends s); [done|by left|done|]. intros p health Hp Hin.
    change (record_of (ws_id spec) (end_waiting names s)) with
      (map_get (ws_id spec) (flag_timeouts (sv_active s) (su_workers (sv_state s)))).
    rewrite flag_timeouts_get. destruct (decide (ws_id spec ∈ sv_active s)) as [Hact|Hact];
      [rewrite (bool_decide_eq_true_2 (_ ∈ _)) by done|rewrite (bool_decide_eq_false_2 (_ ∈ _)) by done].
    + intros (h & _ & ->)%fmap_Some. right. by split.
    + rewrite option_fmap_id. intros Hh. left. by eapply (refused_drained s p); [apply Hok|..].
  - apply (refused_ends s); [done|right; by eexists|by destruct saved|]. intros p health [_ Hrec] _.
    rewrite H in Hrec. intros Hh. apply Hrec. by destruct saved.
Qed.
End refused.


(** ** A stop completes *)
Local Abbreviation steps := (rtc step).
(** Every worker comes to its end; the supervisor waits meanwhile. *)
Lemma workers_can_end after before s :
  sv_stop s = true → sv_workers s = before ++ after → (∀ w, w ∈ before → w.2 = Ended) →
  ∃ s', steps s s' ∧ all_ended s' ∧ sv_at s' = sv_at s.
Proof.
  revert before s. induction after as [|[spec p] after IH]; intros before s Hstop Hw Hbefore.
  { exists s. split; [done|]. split; [|done]. intros w. rewrite Hw, app_nil_r. apply Hbefore. }
  assert (Hone : ∀ p, rtc (stopping_move spec (bool_decide (fail_worker = Some (ws_id spec))) credentials) p Ended →
    ∀ s, sv_stop s = true → sv_workers s = before ++ (spec, p) :: after →
    ∃ s', steps s s' ∧ sv_workers s' = before ++ (spec, Ended) :: after ∧ sv_stop s' = true ∧ sv_at s' = sv_at s).
  { clear. intros p Hend. remember Ended as q eqn:Hq.
    induction Hend as [p|p p1 p2 [e Hmove] _ IH]; intros s Hstop Hw; subst.
    { by exists s. }
    destruct (IH eq_refl (worker_did e true (before ++ (spec, p1) :: after) s)) as (s' & Hs' & ? & ? & ?);
      [done..|]. exists s'. split_and!; try done. eapply rtc_l; [|exact Hs'].
    eapply sv_worker; [exact Hw|]. by rewrite Hstop. }
  destruct (Hone p (worker_can_end _ _ _ p) s) as (s1 & Hs1 & Hw1 & Hstop1 & Hat1); [done..|].
  destruct (IH (before ++ [(spec, Ended)]) s1) as (s2 & Hs2 & Hend & Hat2); [done| | |].
  - by rewrite <- app_assoc.
  - intros w [Hin|Hin]%elem_of_app; [by apply Hbefore|]. by apply list_elem_of_singleton in Hin as ->.
  - exists s2. split_and!; [by etrans|done|congruence].
Qed.
Lemma join_finishes s :
  sv_at s = AtJoin → sv_stop s = true ∨ all_ended s → ∃ s', steps s s' ∧ sv_at s' = AtExit true.
Proof.
  intros Hat Hend. assert (Hall : ∃ s1, steps s s1 ∧ all_ended s1 ∧ sv_at s1 = AtJoin).
  { destruct Hend as [Hstop|]; [|by exists s].
    destruct (workers_can_end (sv_workers s) [] s) as (s1 & ? & ? & ?);
      [done..|by intros w ?%elem_of_nil|]. exists s1. split_and!; [done..|congruence]. }
  destruct Hall as (s1 & Hs1 & Hend1 & Hat1). exists (finish true 0 s1). split; [|done].
  etrans; [exact Hs1|]. by apply rtc_once, sv_finish.
Qed.
Lemma drain_finishes s :
  sv_at s = AtDrain → sv_stop s = true ∨ all_ended s → ∃ s', steps s s' ∧ sv_at s' = AtExit true.
Proof.
  intros Hat Hend. destruct (decide (sv_active s = ∅)) as [Hact|Hact].
  - destruct (join_finishes (sv_goto AtJoin s)) as (s' & Hs' & Hexit); [done..|]. exists s'. split; [|done].
    eapply rtc_l; [by apply sv_drained|done].
  - destruct (join_finishes (end_waiting (elements (sv_active s)) s)) as (s' & Hs' & Hexit); [done..|].
    exists s'. split; [|done]. eapply rtc_l; [|exact Hs']. apply sv_give_up; [done..|].
    apply list_to_set_elements_L.
Qed.
(** Back from receiving. *)
Lemma receive_returns s :
  sv_at s = AtReceive →
  ∃ s', step s s' ∧ sv_at s' = AtPoll ∧ sv_stop s' = sv_stop s ∧ sv_stop_file s' = sv_stop_file s.
Proof.
  intros Hat. destruct (sv_channel s) as [|event rest] eqn:Hch.
  - eexists. split; [by apply sv_timeout|done].
  - eexists. split; [by apply (sv_receive _ _ _ event rest true)|]. simpl. split; [done|].
    unfold handle_worker_event. by destruct event.
Qed.
Lemma poll_finishes s :
  sv_at s = AtPoll → sv_stop s = true ∨ sv_stop_file s = true → ∃ s', steps s s' ∧ sv_at s' = AtExit true.
Proof.
  assert (Hstopping : ∀ s, sv_at s = AtPoll → sv_stop s = true → ∃ s', steps s s' ∧ sv_at s' = AtExit true).
  { clear s. intros s Hat Hstop.
    destruct (drain_finishes (sv_goto AtDrain s)) as (s' & Hs' & Hexit); [done|by left|]. exists s'.
    split; [|done]. eapply rtc_l; [by apply sv_poll_stopped|done]. }
  intros Hat Hwanted. destruct (sv_stop s) eqn:Hstop; [by apply Hstopping|].
  destruct Hwanted as [?|Hfile]; [done|].
  assert (Hs : sv_at (poll_stop_file s) = AtReceive ∧ sv_stop (poll_stop_file s) = true)
    by (unfold poll_stop_file; by rewrite Hfile).
  destruct Hs as [Hat1 Hstop1]. destruct (receive_returns _ Hat1) as (s2 & Hs2 & Hat2 & Hstop2 & _).
  destruct (Hstopping s2) as (s3 & Hs3 & Hexit); [done|congruence|]. exists s3. split; [|done].
  eapply rtc_l; [by apply sv_poll|]. by eapply rtc_l.
Qed.
(** once a stop was requested or the flag raised, whatever has happened before and
    wherever the supervisor and the workers stand, the daemon can come to its end
    with its final state saved: no order of events leads into a deadlock. *)
Theorem stop_can_always_complete pid now profiles s
    (Hrun : rtc step (supervisor_start pid now profiles specs) s)
    (Hwanted : sv_stop s = true ∨ sv_stop_file s = true)
    (Hrunning : ∀ saved, sv_at s ≠ AtExit saved) :
  ∃ s', rtc step s s' ∧ sv_at s' = AtExit true.
Proof.
  apply supervised_reachable in Hrun as (_ & _ & _ & _ & Hat).
  destruct (sv_at s) as [| | | |saved] eqn:Hs.
  - by apply poll_finishes.
  - destruct (receive_returns _ Hs) as (s1 & Hs1 & Hat1 & Hstop & Hfile).
    destruct (poll_finishes s1) as (s' & Hs' & Hexit); [done|by rewrite Hstop, Hfile|].
    exists s'. split; [by eapply rtc_l|done].
  - by apply drain_finishes.
  - apply join_finishes; [done|apply Hat].
  - by destruct (Hrunning saved).
Qed.
End supervised.

(** ** A daemon with two workers *)
Definition demo_dispatcher : WorkerSpec :=
  {| ws_id := "orchestrator_dispatcher"; ws_runtime := RtOrchestratorDispatcher; ws_interval := 1000 |}.
Definition demo_workers : list WorkerSpec := [demo_dispatcher; socket_spec].
Lemma demo_unique : NoDup (ws_id <$> demo_workers).
Proof. by apply (bool_decide_unpack _). Qed.
Definition demo_refusal : result SlackError () := Err (MissingEnvVar "SLACK_BOT_TOKEN").
Local Abbreviation demo_supervisor := (supervisor_start 7 0 [] demo_workers).
Local Abbreviation demo_step := (supervisor_step None (Ok ())).

Lemma stopped_daemon_reports_no_running_worker_witness :
  ∃ s, rtc demo_step demo_supervisor s ∧ sv_at s = AtExit true
    ∧ (∀ worker_id health, record_of worker_id s = Some health → wh_state health ≠ WRunning).
Proof.
  destruct (poll_finishes None (Ok ()) (request_stop demo_supervisor)) as (s & Hs & Hexit); [done|by right|].
  assert (Hrun : rtc demo_step demo_supervisor s) by (eapply rtc_l; [apply sv_request|exact Hs]).
  pose proof (stopped_daemon_reports_no_running_worker None (Ok ()) demo_workers demo_unique 7 0 [] s true
    Hrun Hexit) as (_ & _ & _ & _ & _ & H & _). exists s. split; [exact Hrun|]. split; [exact Hexit|exact H].
Defined.
Lemma stop_can_always_complete_witness :
  ∃ s', rtc demo_step (request_stop demo_supervisor) s' ∧ sv_at s' = AtExit true.
Proof.
  assert (Hrun : rtc demo_step demo_supervisor (request_stop demo_supervisor)) by apply rtc_once, sv_request.
  assert (Hwanted : sv_stop (request_stop demo_supervisor) = true
                    ∨ sv_stop_file (request_stop demo_supervisor) = true) by by right.
  assert (Hrunning : ∀ saved, sv_at (request_stop demo_supervisor) ≠ AtExit saved) by done.
  pose proof (stop_can_always_complete None (Ok ()) demo_workers demo_unique 7 0 [] _ Hrun Hwanted Hrunning)
    as H. exact H.
Defined.

(** One fatal error of one socket raises the flag of the whole daemon, which then
    stops without anybody having asked for it. *)
Example socket_error_stops_the_daemon :
  ∃ s, rtc demo_step demo_supervisor s ∧ sv_stop_file s = false ∧ sv_stop s = true.
Proof.
  set (at_ p stop e := λ s, worker_did e stop [(demo_dispatcher, Launching); (socket_spec, p)] s).
  exists (at_ SocketServing true None (at_ SocketServing false None
    (at_ Starting false (Some (EvStarted "channel:slack-socket" 1)) demo_supervisor))).
  split; [|by split]. assert (Hmove : ∀ s p e stop p',
    sv_workers s = [(demo_dispatcher, Launching); (socket_spec, p)] →
    worker_step socket_spec false (Ok ()) (sv_stop s) p e stop p' → demo_step s (at_ p' stop e s)).
  { intros s p e stop p' Hw Hstep. by apply (sv_worker _ _ s [(demo_dispatcher, Launching)] _ p []). }
  eapply rtc_l; [eapply (Hmove _ Launching); [done|apply (ws_launch socket_spec)]|].
  eapply rtc_l; [eapply (Hmove _ Starting); [done|by apply (ws_serve socket_spec _ _ _ (Ok ()))]|].
  apply rtc_once. eapply (Hmove _ SocketServing); [done|apply ws_socket_raise].
Qed.

(** ** Sockets of earlier calls

    As long as an answer cannot be delivered, every call of the socket runtime
    leaves its threads behind and the worker starts the next: without bound, while
    the daemon runs. *)
Lemma undelivered_answer_multiplies_sockets profiles n err :
  ∃ left, rtc (runtime_step profiles) runtime_start
      {| rs_at := RtReturned (Err err); rs_stop := false; rs_own := []; rs_left := left |}
    ∧ length left = (S n * length profiles)%nat.
Proof.
  assert (Hopen : ∀ left, rtc (runtime_step profiles)
    {| rs_at := RtOutside; rs_stop := false; rs_own := []; rs_left := left |}
    {| rs_at := RtReturned (Err err); rs_stop := false; rs_own := []; rs_left := left ++ profiles |}).
  { intros left. eapply rtc_l; [apply rs_open|]. apply rtc_once, rs_outbound_error. }
  induction n as [|n (left & Hrun & Hlen)]; [exists profiles; split; [apply (Hopen [])|lia]|].
  exists (left ++ profiles). split; [|rewrite length_app; lia].
  etrans; [exact Hrun|]. eapply rtc_l; [apply rs_again|apply Hopen].
Qed.
