(* ===== verification/CommandCatalog.v ===== *)
(** * The functions a command can name

    [src/src/app/command_catalog.rs] with [src/src/app/cli.rs], and
    [FunctionRegistry::v1_catalog] of [function_registry.rs]: the table of functions
    the selector and the command line share.  The one long constant of the source is
    cut into the groups its entries form. *)
From S2P Require Import Prelude RustStr Json Selector.
From Stdlib Require Import Ascii.

Local Open Scope string_scope.
Local Open Scope list_scope.

Record FunctionArgDef := {
  ad_name : string; ad_type : FunctionArgType; ad_required : bool; ad_description : string }.
Record FunctionDef := {
  fd_function_id : string;
  fd_description : string;
  fd_args : list FunctionArgDef;
  fd_read_only : bool;
}.

Definition DAEMON_SEND_ARGS : list FunctionArgDef :=
  [{| ad_name := "channelProfileId"; ad_type := TString; ad_required := true;
        ad_description := "Target channel profile id" |};
   {| ad_name := "message"; ad_type := TString; ad_required := true;
        ad_description := "Message content" |}].
Definition PROVIDER_SET_ARGS : list FunctionArgDef :=
  [{| ad_name := "provider"; ad_type := TString; ad_required := true;
        ad_description := "Provider id: anthropic or openai" |};
   {| ad_name := "model"; ad_type := TString; ad_required := false;
        ad_description := "Optional model identifier" |}].
Definition MODEL_SET_ARGS : list FunctionArgDef :=
  [{| ad_name := "model"; ad_type := TString; ad_required := true;
        ad_description := "Model identifier" |}].
Definition ORCHESTRATOR_ID_ARG : FunctionArgDef :=
  {| ad_name := "orchestratorId"; ad_type := TString; ad_required := true;
       ad_description := "Target orchestrator id" |}.
Definition AGENT_ID_ARG : FunctionArgDef :=
  {| ad_name := "agentId"; ad_type := TString; ad_required := true;
       ad_description := "Agent id" |}.
Definition WORKFLOW_ID_ARG : FunctionArgDef :=
  {| ad_name := "workflowId"; ad_type := TString; ad_required := true;
       ad_description := "Workflow id" |}.
Definition RUN_ID_ARG : FunctionArgDef :=
  {| ad_name := "runId"; ad_type := TString; ad_required := true;
       ad_description := "Workflow run id" |}.
Definition PROFILE_ID_ARG : FunctionArgDef :=
  {| ad_name := "channelProfileId"; ad_type := TString; ad_required := true;
       ad_description := "Channel profile id" |}.
Definition JOB_ID_ARG : FunctionArgDef :=
  {| ad_name := "jobId"; ad_type := TString; ad_required := true;
       ad_description := "Scheduler job id" |}.
Definition AGENT_ORCHESTRATOR_ARGS : list FunctionArgDef :=
  [ORCHESTRATOR_ID_ARG;
   AGENT_ID_ARG].
Definition WORKFLOW_ORCHESTRATOR_ARGS : list FunctionArgDef :=
  [ORCHESTRATOR_ID_ARG;
   WORKFLOW_ID_ARG].
Definition daemon_functions : list FunctionDef :=
  [{| fd_function_id := "daemon.start";
      fd_description := "Start runtime workers";
      fd_args := [];
      fd_read_only := false |};
   {| fd_function_id := "daemon.stop";
      fd_description := "Stop runtime workers";
      fd_args := [];
      fd_read_only := false |};
   {| fd_function_id := "daemon.restart";
      fd_description := "Restart runtime workers";
      fd_args := [];
      fd_read_only := false |};
   {| fd_function_id := "daemon.status";
      fd_description := "Read runtime status and worker health";
      fd_args := [];
      fd_read_only := true |};
   {| fd_function_id := "daemon.logs";
      fd_description := "Read recent runtime logs";
      fd_args := [];
      fd_read_only := true |};
   {| fd_function_id := "daemon.setup";
      fd_description := "Create default config and state root";
      fd_args := [];
      fd_read_only := false |};
   {| fd_function_id := "daemon.send";
      fd_description := "Send message to channel profile";
      fd_args := DAEMON_SEND_ARGS;
      fd_read_only := false |};
   {| fd_function_id := "daemon.chat";
      fd_description := "Start local chat REPL for a local channel profile";
      fd_args := [{| ad_name := "channelProfileId"; ad_type := TString; ad_required := true;
                       ad_description := "Local channel profile id" |}];
      fd_read_only := false |}].
Definition settings_functions : list FunctionDef :=
  [{| fd_function_id := "channels.reset";
      fd_description := "Reset channel state directories";
      fd_args := [];
      fd_read_only := false |};
   {| fd_function_id := "channels.slack_sync";
      fd_description := "Run one Slack sync pass";
      fd_args := [];
      fd_read_only := false |};
   {| fd_function_id := "channels.slack_socket_status";
      fd_description := "Read Slack socket connection health";
      fd_args := [];
      fd_read_only := true |};
   {| fd_function_id := "channels.slack_socket_reconnect";
      fd_description := "Request Slack socket reconnect";
      fd_args := [];
      fd_read_only := false |};
   {| fd_function_id := "channels.slack_backfill_run";
      fd_description := "Run one Slack history backfill pass";
      fd_args := [];
      fd_read_only := false |};
   {| fd_function_id := "provider.show";
      fd_description := "Show current provider/model preferences";
      fd_args := [];
      fd_read_only := true |};
   {| fd_function_id := "provider.set";
      fd_description := "Set provider preference and optional model";
      fd_args := PROVIDER_SET_ARGS;
      fd_read_only := false |};
   {| fd_function_id := "model.show";
      fd_description := "Show current model preference";
      fd_args := [];
      fd_read_only := true |};
   {| fd_function_id := "model.set";
      fd_description := "Set model preference";
      fd_args := MODEL_SET_ARGS;
      fd_read_only := false |};
   {| fd_function_id := "agent.list";
      fd_description := "List orchestrator agent ids";
      fd_args := [ORCHESTRATOR_ID_ARG];
      fd_read_only := true |};
   {| fd_function_id := "agent.add";
      fd_description := "Add orchestrator-local agent";
      fd_args := AGENT_ORCHESTRATOR_ARGS;
      fd_read_only := false |};
   {| fd_function_id := "agent.show";
      fd_description := "Show orchestrator-local agent";
      fd_args := AGENT_ORCHESTRATOR_ARGS;
      fd_read_only := true |};
   {| fd_function_id := "agent.remove";
      fd_description := "Remove orchestrator-local agent";
      fd_args := AGENT_ORCHESTRATOR_ARGS;
      fd_read_only := false |};
   {| fd_function_id := "agent.reset";
      fd_description := "Reset orchestrator-local agent defaults";
      fd_args := AGENT_ORCHESTRATOR_ARGS;
      fd_read_only := false |}].
Definition orchestrator_functions : list FunctionDef :=
  [{| fd_function_id := "orchestrator.list";
      fd_description := "List orchestrator ids";
      fd_args := [];
      fd_read_only := true |};
   {| fd_function_id := "orchestrator.add";
      fd_description := "Add orchestrator and bootstrap config";
      fd_args := [{| ad_name := "orchestratorId"; ad_type := TString; ad_required := true;
                       ad_description := "Orchestrator id" |}];
      fd_read_only := false |};
   {| fd_function_id := "orchestrator.show";
      fd_description := "Show one orchestrator configuration summary";
      fd_args := [ORCHESTRATOR_ID_ARG];
      fd_read_only := true |};
   {| fd_function_id := "orchestrator.remove";
      fd_description := "Remove orchestrator from settings";
      fd_args := [ORCHESTRATOR_ID_ARG];
      fd_read_only := false |};
   {| fd_function_id := "orchestrator.set_private_workspace";
      fd_description := "Set orchestrator private workspace path";
      fd_args := [ORCHESTRATOR_ID_ARG;
                  {| ad_name := "path"; ad_type := TString; ad_required := true;
                       ad_description := "Absolute private workspace path" |}];
      fd_read_only := false |};
   {| fd_function_id := "orchestrator.grant_shared_access";
      fd_description := "Grant shared workspace key to orchestrator";
      fd_args := [ORCHESTRATOR_ID_ARG;
                  {| ad_name := "sharedKey"; ad_type := TString; ad_required := true;
                       ad_description := "Shared workspace key" |}];
      fd_read_only := false |};
   {| fd_function_id := "orchestrator.revoke_shared_access";
      fd_description := "Revoke shared workspace key from orchestrator";
      fd_args := [ORCHESTRATOR_ID_ARG;
                  {| ad_name := "sharedKey"; ad_type := TString; ad_required := true;
                       ad_description := "Shared workspace key" |}];
      fd_read_only := false |};
   {| fd_function_id := "orchestrator.set_selector_agent";
      fd_description := "Set orchestrator selector agent id";
      fd_args := [ORCHESTRATOR_ID_ARG;
                  {| ad_name := "agentId"; ad_type := TString; ad_required := true;
                       ad_description := "Selector agent id" |}];
      fd_read_only := false |};
   {| fd_function_id := "orchestrator.set_default_workflow";
      fd_description := "Set orchestrator default workflow id";
      fd_args := WORKFLOW_ORCHESTRATOR_ARGS;
      fd_read_only := false |};
   {| fd_function_id := "orchestrator.set_selection_max_retries";
      fd_description := "Set selector retry limit";
      fd_args := [ORCHESTRATOR_ID_ARG;
                  {| ad_name := "count"; ad_type := TInteger; ad_required := true;
                       ad_description := "Retry count >= 1" |}];
      fd_read_only := false |}].
Definition workflow_functions : list FunctionDef :=
  [{| fd_function_id := "workflow.list";
      fd_description := "List workflows for an orchestrator";
      fd_args := [ORCHESTRATOR_ID_ARG];
      fd_read_only := true |};
   {| fd_function_id := "workflow.show";
      fd_description := "Show one workflow definition";
      fd_args := [ORCHESTRATOR_ID_ARG;
                  {| ad_name := "workflowId"; ad_type := TString; ad_required := true;
                       ad_description := "Workflow id in orchestrator scope" |}];
      fd_read_only := true |};
   {| fd_function_id := "workflow.add";
      fd_description := "Add workflow to orchestrator config";
      fd_args := WORKFLOW_ORCHESTRATOR_ARGS;
      fd_read_only := false |};
   {| fd_function_id := "workflow.remove";
      fd_description := "Remove workflow from orchestrator config";
      fd_args := WORKFLOW_ORCHESTRATOR_ARGS;
      fd_read_only := false |};
   {| fd_function_id := "workflow.run";
      fd_description := "Start a workflow run";
      fd_args := [ORCHESTRATOR_ID_ARG;
                  WORKFLOW_ID_ARG;
                  {| ad_name := "inputs"; ad_type := TObject; ad_required := false;
                       ad_description := "Optional key/value workflow inputs" |}];
      fd_read_only := false |};
   {| fd_function_id := "workflow.status";
      fd_description := "Read workflow run status summary";
      fd_args := [RUN_ID_ARG];
      fd_read_only := true |};
   {| fd_function_id := "workflow.progress";
      fd_description := "Read full workflow progress payload";
      fd_args := [RUN_ID_ARG];
      fd_read_only := true |};
   {| fd_function_id := "workflow.cancel";
      fd_description := "Cancel a workflow run";
      fd_args := [RUN_ID_ARG];
      fd_read_only := false |}].
Definition profile_functions : list FunctionDef :=
  [{| fd_function_id := "channel_profile.list";
      fd_description := "List configured channel profile ids";
      fd_args := [];
      fd_read_only := true |};
   {| fd_function_id := "channel_profile.add";
      fd_description := "Add channel profile mapping";
      fd_args := [PROFILE_ID_ARG;
                  {| ad_name := "channel"; ad_type := TString; ad_required := true;
                       ad_description := "Channel backend id" |};
                  ORCHESTRATOR_ID_ARG;
                  {| ad_name := "slackAppUserId"; ad_type := TString; ad_required := false;
                       ad_description := "Profile mention identity for channels that require provider-scoped user ids" |};
                  {| ad_name := "requireMentionInChannels"; ad_type := TBoolean; ad_required := false;
                       ad_description := "Mention-gating policy for non-direct channel messages" |};
                  {| ad_name := "threadResponseMode"; ad_type := TString; ad_required := false;
                       ad_description := "Opportunistic reply policy: always_reply|selective_reply" |}];
      fd_read_only := false |};
   {| fd_function_id := "channel_profile.show";
      fd_description := "Show one channel profile mapping";
      fd_args := [PROFILE_ID_ARG];
      fd_read_only := true |};
   {| fd_function_id := "channel_profile.remove";
      fd_description := "Remove channel profile mapping";
      fd_args := [PROFILE_ID_ARG];
      fd_read_only := false |};
   {| fd_function_id := "channel_profile.set_orchestrator";
      fd_description := "Update channel profile orchestrator mapping";
      fd_args := [PROFILE_ID_ARG;
                  {| ad_name := "orchestratorId"; ad_type := TString; ad_required := true;
                       ad_description := "Mapped orchestrator id" |}];
      fd_read_only := false |}].
Definition schedule_functions : list FunctionDef :=
  [{| fd_function_id := "schedule.create";
      fd_description := "Create scheduled automation job";
      fd_args := [ORCHESTRATOR_ID_ARG;
                  {| ad_name := "scheduleType"; ad_type := TString; ad_required := true;
                       ad_description := "Schedule type: once|interval|cron" |};
                  {| ad_name := "schedule"; ad_type := TObject; ad_required := true;
                       ad_description := "Schedule config object" |};
                  {| ad_name := "targetAction"; ad_type := TObject; ad_required := true;
                       ad_description := "Target action object" |};
                  {| ad_name := "targetRef"; ad_type := TObject; ad_required := false;
                       ad_description := "Optional channel target descriptor (channel/channelProfile/postingMode/thread)" |};
                  {| ad_name := "misfirePolicy"; ad_type := TString; ad_required := false;
                       ad_description := "Misfire policy: fire_once_on_recovery|skip_missed" |};
                  {| ad_name := "allowOverlap"; ad_type := TBoolean; ad_required := false;
                       ad_description := "Allow overlapping triggers" |};
                  {| ad_name := "createdBy"; ad_type := TObject; ad_required := false;
                       ad_description := "Optional creator metadata" |}];
      fd_read_only := false |};
   {| fd_function_id := "schedule.list";
      fd_description := "List scheduler jobs for an orchestrator";
      fd_args := [ORCHESTRATOR_ID_ARG];
      fd_read_only := true |};
   {| fd_function_id := "schedule.show";
      fd_description := "Show one scheduler job";
      fd_args := [JOB_ID_ARG];
      fd_read_only := true |};
   {| fd_function_id := "schedule.update";
      fd_description := "Update a scheduler job";
      fd_args := [JOB_ID_ARG;
                  {| ad_name := "patch"; ad_type := TObject; ad_required := true;
                       ad_description := "Scheduler update patch object" |}];
      fd_read_only := false |};
   {| fd_function_id := "schedule.pause";
      fd_description := "Pause a scheduler job";
      fd_args := [JOB_ID_ARG];
      fd_read_only := false |};
   {| fd_function_id := "schedule.resume";
      fd_description := "Resume a scheduler job";
      fd_args := [JOB_ID_ARG];
      fd_read_only := false |};
   {| fd_function_id := "schedule.delete";
      fd_description := "Delete a scheduler job";
      fd_args := [JOB_ID_ARG];
      fd_read_only := false |};
   {| fd_function_id := "schedule.run_now";
      fd_description := "Trigger a scheduler job immediately";
      fd_args := [JOB_ID_ARG];
      fd_read_only := false |}].
Definition other_functions : list FunctionDef :=
  [{| fd_function_id := "update.check";
      fd_description := "Check for updates";
      fd_args := [];
      fd_read_only := true |};
   {| fd_function_id := "update.apply";
      fd_description := "Apply update (unsupported in this build)";
      fd_args := [];
      fd_read_only := false |};
   {| fd_function_id := "daemon.attach";
      fd_description := "Attach to supervisor or return workflow summary";
      fd_args := [];
      fd_read_only := true |};
   {| fd_function_id := "daemon.doctor";
      fd_description := "Run local environment and config checks";
      fd_args := [];
      fd_read_only := true |};
   {| fd_function_id := "auth.sync";
      fd_description := "Sync provider auth from configured sources";
      fd_args := [];
      fd_read_only := false |}].
Definition V1_FUNCTIONS : list FunctionDef :=
  daemon_functions ++ settings_functions ++ orchestrator_functions ++ workflow_functions
  ++ profile_functions ++ schedule_functions ++ other_functions.

Definition function_def (function_id : string) : option FunctionDef :=
  List.find (λ def, String.eqb (fd_function_id def) function_id) V1_FUNCTIONS.

(** ** Registry form *)
Definition arg_schema (arg : FunctionArgDef) : string * FunctionArgSchema :=
  (ad_name arg, {| fa_type := ad_type arg; fa_required := ad_required arg;
                   fa_description := ad_description arg |}).
Definition function_schema (def : FunctionDef) : string * FunctionSchema :=
  (fd_function_id def,
   {| fs_function_id := fd_function_id def; fs_description := fd_description def;
      fs_args := map_from_iter (arg_schema <$> fd_args def); fs_read_only := fd_read_only def |}).
Definition v1_catalog : list (string * FunctionSchema) :=
  map_from_iter (function_schema <$> V1_FUNCTIONS).

(** ** Words of the command line *)
Definition dashes (s : string) : string := replace "_" "-" s.
Definition slack_words (action_raw : string) : option (list string) :=
  if String.eqb action_raw "slack_sync" then Some ["slack"; "sync"]
  else if String.eqb action_raw "slack_socket_status" then Some ["slack"; "socket"; "status"]
  else if String.eqb action_raw "slack_socket_reconnect" then Some ["slack"; "socket"; "reconnect"]
  else if String.eqb action_raw "slack_backfill_run" then Some ["slack"; "backfill"; "run"]
  else None.
Definition canonical_cli_tokens (function_id : string) : option (list string) :=
  '(scope_raw, action_raw) ← split_once "." function_id;
  if is_empty scope_raw || is_empty action_raw then None else
  if String.eqb scope_raw "daemon" then Some [dashes action_raw] else
  let scope := dashes scope_raw in
  if String.eqb scope_raw "channels" then
    Some (scope :: from_option id [dashes action_raw] (slack_words action_raw))
  else Some [scope; dashes action_raw].

Definition normalize_cli_args (args : list string) : list string :=
  match args with
  | [] => args
  | head :: rest =>
      match split_once "." head with
      | None => args
      | Some (scope_raw, action_raw) =>
          if is_empty scope_raw || is_empty action_raw then args else
          let scope := dashes scope_raw in
          (if String.eqb scope "daemon" then [dashes action_raw]
           else if String.eqb scope "channels" then
             scope :: from_option id [dashes action_raw] (slack_words action_raw)
           else [scope; dashes action_raw]) ++ rest
      end
  end.
