(* ===== verification/CommandDispatch.v ===== *)
(** * Carrying out a function

    [src/src/app/command_dispatch.rs]: a function call becomes a command line or an
    internal function, which works on the run store of its context and on the job
    stores of the orchestrators.  The state is the [machine] of [Routing], the runtime
    of every root; encoders of JSON values are parameters. *)
From S2P Require Import Prelude RustStr RustPath Io Json Config OrchestratorFile OrchestratorError RunStore WorkflowEngine SlackTarget Cron Scheduler ScheduleParsing Selector Transitions Routing CommandCatalog.
From Stdlib Require Import Ascii.

Local Open Scope string_scope.
Local Open Scope list_scope.

Inductive InternalFunction :=
  | WorkflowList (orchestrator_id : string)
  | WorkflowShow (orchestrator_id workflow_id : string)
  | WorkflowStatusOf (run_id : string)
  | WorkflowProgress (run_id : string)
  | WorkflowCancel (run_id : string)
  | OrchestratorList
  | OrchestratorShow (orchestrator_id : string)
  | ChannelProfileList
  | ChannelProfileShow (channel_profile_id : string)
  | ScheduleCreate (orchestrator_id : string) (schedule : ScheduleConfig)
      (target_action : TargetAction) (target_ref : option Value) (misfire_policy : MisfirePolicy)
      (allow_overlap : bool) (created_by : JMap)
  | ScheduleList (orchestrator_id : string)
  | ScheduleShow (job_id : string)
  | ScheduleUpdate (job_id : string) (patch : JobPatch)
  | SchedulePause (job_id : string)
  | ScheduleResume (job_id : string)
  | ScheduleDelete (job_id : string)
  | ScheduleRunNow (job_id : string).
Inductive FunctionExecutionPlan :=
  | CliArgs (args : list string)
  | Internal (command : InternalFunction).

(** ** Arguments *)
Definition missing_arg (arg : string) : string :=
  String.concat "" ["missing required function argument `"; arg; "`"].
Definition required_string_arg (args : JMap) (arg : string) : result string string :=
  match map_get arg args with
  | Some (VString v) => if is_empty (trim v) then Err (missing_arg arg) else Ok v
  | Some _ => Err (String.concat "" ["argument `"; arg; "` must be a string"])
  | None => Err (missing_arg arg)
  end.
Definition optional_string_arg (args : JMap) (arg : string) : result string (option string) :=
  match map_get arg args with
  | Some (VString v) => if is_empty (trim v) then Err (missing_arg arg) else Ok (Some v)
  | Some _ => Err (String.concat "" ["argument `"; arg; "` must be a string"])
  | None => Ok None
  end.
Definition required_u32_arg (args : JMap) (arg : string) : result string Z :=
  match map_get arg args with
  | Some value =>
      match as_u64 value with
      | Some v => if decide (v ≤ u32_max)%Z then Ok v
                  else Err (String.concat "" ["argument `"; arg; "` is too large"])
      | None =>
          match as_i64 value with
          | Some v => if decide (0 ≤ v ≤ u32_max)%Z then Ok v
                      else Err (String.concat "" ["argument `"; arg; "` must be >= 0"])
          | None => Err (String.concat "" ["argument `"; arg; "` must be an integer"])
          end
      end
  | None => Err (missing_arg arg)
  end.
Definition optional_bool_arg (args : JMap) (arg : string) : result string (option bool) :=
  match map_get arg args with
  | Some (VBool v) => Ok (Some v)
  | Some _ => Err (String.concat "" ["argument `"; arg; "` must be a boolean"])
  | None => Ok None
  end.
Definition optional_object_arg (args : JMap) (arg : string) : option JMap :=
  map_get arg args ≫= as_object.
Definition required_object_arg (args : JMap) (arg : string) : result string JMap :=
  ok_or (String.concat "" ["argument `"; arg; "` must be an object"]) (map_get arg args ≫= as_object).

(** ** Planning *)
Section planning.
Context (value_to_string : Value → string).

(** A command line of fixed words, followed by required string arguments. *)
Definition words (command : list string) (arg_names : list string) (args : JMap) :
    result string FunctionExecutionPlan :=
  values ← for_fold (λ values arg, v ← required_string_arg args arg; Ok (values ++ [v]))
             arg_names [];
  Ok (CliArgs (command ++ values)).
(** An internal function of one required string argument. *)
Definition internal1 (f : string → InternalFunction) (arg : string) (args : JMap) :
    result string FunctionExecutionPlan :=
  v ← required_string_arg args arg; Ok (Internal (f v)).
Definition flag (name : string) (value : option string) : list string :=
  match value with Some value => [name; value] | None => [] end.

Definition plan_daemon : list (string * (JMap → result string FunctionExecutionPlan)) :=
  [("daemon.start", words ["start"; "--detach"] []);
   ("daemon.stop", words ["stop"] []);
   ("daemon.restart", words ["restart"; "--detach"] []);
   ("daemon.status", words ["status"] []);
   ("daemon.logs", words ["logs"] []);
   ("daemon.setup", words ["setup"] []);
   ("daemon.send", words ["send"] ["channelProfileId"; "message"]);
   ("channels.reset", words ["channels"; "reset"] []);
   ("channels.slack_sync", words ["channels"; "slack"; "sync"] []);
   ("provider.show", words ["provider"] []);
   ("provider.set", λ args,
      provider ← required_string_arg args "provider";
      model ← optional_string_arg args "model";
      Ok (CliArgs (["provider"; provider] ++ flag "--model" model)));
   ("model.show", words ["model"] []);
   ("model.set", words ["model"] ["model"])].
Definition plan_agents : list (string * (JMap → result string FunctionExecutionPlan)) :=
  [("agent.list", words ["agent"; "list"] ["orchestratorId"]);
   ("agent.add", words ["agent"; "add"] ["orchestratorId"; "agentId"]);
   ("agent.show", words ["agent"; "show"] ["orchestratorId"; "agentId"]);
   ("agent.remove", words ["agent"; "remove"] ["orchestratorId"; "agentId"]);
   ("agent.reset", words ["agent"; "reset"] ["orchestratorId"; "agentId"]);
   ("orchestrator.add", words ["orchestrator"; "add"] ["orchestratorId"])].
(** One [--input key=value] for each input, text as it is, other values as JSON. *)
Definition input_words (inputs : option JMap) : list string :=
  match inputs with
  | Some inputs =>
      inputs ≫= λ '(key, value),
        ["--input"; String.concat "" [key; "=";
           match as_str value with Some v => v | None => value_to_string value end]]
  | None => []
  end.
Definition plan_workflows : list (string * (JMap → result string FunctionExecutionPlan)) :=
  [("workflow.list", internal1 WorkflowList "orchestratorId");
   ("workflow.show", λ args,
      orchestrator_id ← required_string_arg args "orchestratorId";
      workflow_id ← required_string_arg args "workflowId";
      Ok (Internal (WorkflowShow orchestrator_id workflow_id)));
   ("workflow.add", words ["workflow"; "add"] ["orchestratorId"; "workflowId"]);
   ("workflow.remove", words ["workflow"; "remove"] ["orchestratorId"; "workflowId"]);
   ("workflow.run", λ args,
      orchestrator_id ← required_string_arg args "orchestratorId";
      workflow_id ← required_string_arg args "workflowId";
      Ok (CliArgs (["workflow"; "run"; orchestrator_id; workflow_id]
                   ++ input_words (optional_object_arg args "inputs"))));
   ("workflow.status", internal1 WorkflowStatusOf "runId");
   ("workflow.progress", internal1 WorkflowProgress "runId");
   ("workflow.cancel", internal1 WorkflowCancel "runId")].
Definition plan_orchestrators : list (string * (JMap → result string FunctionExecutionPlan)) :=
  [("orchestrator.list", λ _, Ok (Internal OrchestratorList));
   ("orchestrator.show", internal1 OrchestratorShow "orchestratorId");
   ("orchestrator.remove", words ["orchestrator"; "remove"] ["orchestratorId"]);
   ("orchestrator.set_private_workspace",
      words ["orchestrator"; "set-private-workspace"] ["orchestratorId"; "path"]);
   ("orchestrator.grant_shared_access",
      words ["orchestrator"; "grant-shared-access"] ["orchestratorId"; "sharedKey"]);
   ("orchestrator.revoke_shared_access",
      words ["orchestrator"; "revoke-shared-access"] ["orchestratorId"; "sharedKey"]);
   ("orchestrator.set_selector_agent",
      words ["orchestrator"; "set-selector-agent"] ["orchestratorId"; "agentId"]);
   ("orchestrator.set_default_workflow",
      words ["orchestrator"; "set-default-workflow"] ["orchestratorId"; "workflowId"]);
   ("orchestrator.set_selection_max_retries", λ args,
      orchestrator_id ← required_string_arg args "orchestratorId";
      count ← required_u32_arg args "count";
      Ok (CliArgs ["orchestrator"; "set-selection-max-retries"; orchestrator_id; fmt_int count]))].
Definition plan_profiles : list (string * (JMap → result string FunctionExecutionPlan)) :=
  [("channel_profile.list", λ _, Ok (Internal ChannelProfileList));
   ("channel_profile.show", internal1 ChannelProfileShow "channelProfileId");
   ("channel_profile.add", λ args,
      profile_id ← required_string_arg args "channelProfileId";
      channel ← required_string_arg args "channel";
      orchestrator_id ← required_string_arg args "orchestratorId";
      user_id ← optional_string_arg args "slackAppUserId";
      require_mention ← optional_bool_arg args "requireMentionInChannels";
      thread_response_mode ← optional_string_arg args "threadResponseMode";
      Ok (CliArgs (["channel-profile"; "add"; profile_id; channel; orchestrator_id]
        ++ flag "--slack-app-user-id" user_id
        ++ flag "--require-mention-in-channels" (bool_word <$> require_mention)
        ++ flag "--thread-response-mode" thread_response_mode)));
   ("channel_profile.remove", words ["channel-profile"; "remove"] ["channelProfileId"]);
   ("channel_profile.set_orchestrator",
      words ["channel-profile"; "set-orchestrator"] ["channelProfileId"; "orchestratorId"])].
Definition plan_schedule_create (args : JMap) : result string FunctionExecutionPlan :=
  orchestrator_id ← required_string_arg args "orchestratorId";
  schedule_type ← required_string_arg args "scheduleType";
  schedule_obj ← required_object_arg args "schedule";
  target_action_obj ← required_object_arg args "targetAction";
  schedule ← parse_schedule_config schedule_type schedule_obj;
  target_action ← parse_target_action_config target_action_obj;
  let target_ref := VObject <$> optional_object_arg args "targetRef" in
  misfire_policy ← (raw ← optional_string_arg args "misfirePolicy"; parse_misfire_policy_arg raw);
  allow_overlap ← optional_bool_arg args "allowOverlap";
  let created_by := from_option id [] (optional_object_arg args "createdBy") in
  Ok (Internal (ScheduleCreate orchestrator_id schedule target_action target_ref misfire_policy
        (from_option id false allow_overlap) created_by)).
Definition plan_schedules : list (string * (JMap → result string FunctionExecutionPlan)) :=
  [("schedule.create", plan_schedule_create);
   ("schedule.list", internal1 ScheduleList "orchestratorId");
   ("schedule.show", internal1 ScheduleShow "jobId");
   ("schedule.update", λ args,
      job_id ← required_string_arg args "jobId";
      patch_obj ← required_object_arg args "patch";
      patch ← parse_job_patch patch_obj;
      Ok (Internal (ScheduleUpdate job_id patch)));
   ("schedule.pause", internal1 SchedulePause "jobId");
   ("schedule.resume", internal1 ScheduleResume "jobId");
   ("schedule.delete", internal1 ScheduleDelete "jobId");
   ("schedule.run_now", internal1 ScheduleRunNow "jobId")].
Definition plan_others : list (string * (JMap → result string FunctionExecutionPlan)) :=
  [("update.check", words ["update"; "check"] []);
   ("update.apply", words ["update"; "apply"] []);
   ("daemon.attach", words ["attach"] []);
   ("daemon.doctor", words ["doctor"] []);
   ("auth.sync", words ["auth"; "sync"] [])].
(** The arms of the [match] of [plan_function_invocation]. *)
Definition plan_arms : list (string * (JMap → result string FunctionExecutionPlan)) :=
  plan_daemon ++ plan_agents ++ plan_workflows ++ plan_orchestrators ++ plan_profiles
  ++ plan_schedules ++ plan_others.
Definition plan_function_invocation (function_id : string) (args : JMap) :
    result string FunctionExecutionPlan :=
  match map_get function_id plan_arms with
  | Some plan => plan args
  | None => Err (String.concat "" ["unknown function id `"; function_id; "`"])
  end.
End planning.

(** ** Execution *)
Record FunctionExecutionContext := {
  fx_run_store : option string;
  fx_settings : option Settings;
  fx_orchestrator_id : option string;
}.

Definition remap_missing_run_error (run_id : string) (err : OrchestratorError) : OrchestratorError :=
  from_option id err (missing_run_for_io run_id err).
Definition require {S A} (reason : string) (o : option A) : IO S OrchestratorError A :=
  lift (ok_or (SelectorValidation reason) o).
(** [.map_err(OrchestratorError::SelectorValidation)] *)
Definition selector_err {S A} (m : IO S string A) : IO S OrchestratorError A :=
  io_map_err SelectorValidation m.
Definition json_err {S A} (r : result string A) : IO S OrchestratorError A :=
  lift (map_err SelectorJson r).
Definition orchestrator_root (settings : Settings) (orchestrator_id : string) :
    IO machine OrchestratorError string :=
  lift (map_err (λ err, SelectorValidation (ConfigError_display err))
          (resolve_orchestrator_runtime_root settings orchestrator_id)).
Definition object (fields : list (string * Value)) : Value := VObject (map_from_iter fields).

Section execution.
Context (valid_tz : string → bool) (local_time : string → Z → option civil).
Context (from_path : string → result ConfigError OrchestratorConfig).
Context (json_to_string : Value → string).
(** [serde_json::to_value] of the stored types *)
Context (workflow_to_value : WorkflowConfig → result string Value)
  (progress_to_value : ProgressSnapshot → result string Value)
  (job_to_json : ScheduledJob → result string Value).

Definition on_store {A} (root : string) (m : IO run_store OrchestratorError A) :
    IO machine OrchestratorError A := at_root root (on_runs m).
Definition on_jobs {E A} (root : string) (m : IO sched_fs E A) : IO machine E A :=
  at_root root (on_sched m).

Definition job_to_value (job : ScheduledJob) : IO machine OrchestratorError Value :=
  json_err (job_to_json job).
Definition unknown_job {S A} (job_id : string) : IO S OrchestratorError A :=
  throw (SelectorValidation (String.concat "" ["unknown scheduler job `"; job_id; "`"])).
(** [store.load(job_id).is_ok()] *)
Definition has_job (root job_id : string) : IO machine OrchestratorError bool :=
  loaded ← Io.attempt (on_jobs root (Scheduler.load root job_id));
  mret (is_ok loaded).
Fixpoint first_store (settings : Settings) (job_id : string) (orchestrator_ids : list string) :
    IO machine OrchestratorError (string * string) :=
  match orchestrator_ids with
  | [] => unknown_job job_id
  | orchestrator_id :: orchestrator_ids =>
      root ← orchestrator_root settings orchestrator_id;
      found ← has_job root job_id;
      if (found : bool) then mret (root, orchestrator_id)
      else first_store settings job_id orchestrator_ids
  end.
(** The root of the store, and its orchestrator. *)
Definition job_store_for_job_id (settings : Settings) (job_id : string)
    (orchestrator_scope : option string) : IO machine OrchestratorError (string * string) :=
  match orchestrator_scope with
  | Some orchestrator_id =>
      root ← orchestrator_root settings orchestrator_id;
      found ← has_job root job_id;
      if (found : bool) then mret (root, orchestrator_id) else unknown_job job_id
  | None => first_store settings job_id (map_keys (s_orchestrators settings))
  end.

Definition audit_payload (event job_id : string) (execution_id : option string) (now : Z) : Value :=
  object ([("event", VString event); ("jobId", VString job_id); ("timestamp", value_of_i64 now)]
    ++ match execution_id with
       | Some execution_id => [("executionId", VString execution_id)]
       | None => []
       end).
Definition append_scheduler_audit_event (root event job_id : string) (execution_id : option string)
    (now : Z) : IO machine OrchestratorError () :=
  on_store root (append_security_log root (json_to_string (audit_payload event job_id execution_id now))).

(** An operation on one job: found in its store, changed, logged, returned. *)
Definition job_command (context : FunctionExecutionContext) (name event job_id : string)
    (operation : Settings → string → string → IO machine OrchestratorError ScheduledJob) :
    IO machine OrchestratorError Value :=
  settings ← require (name +:+ " requires settings context") (fx_settings context);
  store ← job_store_for_job_id settings job_id (fx_orchestrator_id context);
  job ← operation settings store.1 store.2;
  root ← orchestrator_root settings store.2;
  logged_at ← read_clock;
  append_scheduler_audit_event root event (sj_job_id job) None logged_at ;;
  job_to_value job.

Definition show_workflows (context : FunctionExecutionContext) (orchestrator_id : string) :
    IO machine OrchestratorError Value :=
  settings ← require "workflow.list requires settings context" (fx_settings context);
  orchestrator ← lift (map_err from_config_error
                         (load_orchestrator_config from_path settings orchestrator_id));
  mret (object [("orchestratorId", VString orchestrator_id);
                ("workflows", VArray ((λ w, VString (wf_id w)) <$> oc_workflows orchestrator))]).
Definition show_workflow (context : FunctionExecutionContext) (orchestrator_id workflow_id : string) :
    IO machine OrchestratorError Value :=
  settings ← require "workflow.show requires settings context" (fx_settings context);
  orchestrator ← lift (map_err from_config_error
                         (load_orchestrator_config from_path settings orchestrator_id));
  workflow ← require (String.concat "" ["workflow `"; workflow_id; "` not found in orchestrator `";
                                        orchestrator_id; "`"])
    (List.find (λ w, String.eqb (wf_id w) workflow_id) (oc_workflows orchestrator));
  value ← json_err (workflow_to_value workflow);
  mret (object [("orchestratorId", VString orchestrator_id); ("workflowId", VString workflow_id);
                ("workflow", value)]).
Definition run_progress (context : FunctionExecutionContext) (run_id : string) :
    IO machine OrchestratorError Value :=
  root ← require "workflow.status/progress requires workflow run store" (fx_run_store context);
  progress ← io_map_err (remap_missing_run_error run_id) (on_store root (load_progress root run_id));
  value ← json_err (progress_to_value progress);
  mret (object [("runId", VString run_id); ("progress", value)]).
Definition cancel_run (context : FunctionExecutionContext) (run_id : string) :
    IO machine OrchestratorError Value :=
  root ← require "workflow.cancel requires workflow run store" (fx_run_store context);
  run ← io_map_err (remap_missing_run_error run_id) (on_store root (load_run root run_id));
  run ← (if is_terminal (wr_state run) then mret run
         else on_store root (with_run run (
           RunStore.transition_state root Canceled (i64_sat_add (wr_updated_at run) 1)
             "canceled by command" false "none" ;;
           get_run)));
  mret (object [("runId", VString run_id); ("state", VString (RunState_display (wr_state run)))]).

Definition list_orchestrators (context : FunctionExecutionContext) :
    IO machine OrchestratorError Value :=
  settings ← require "orchestrator.list requires settings context" (fx_settings context);
  mret (object [("orchestrators", VArray (VString <$> map_keys (s_orchestrators settings)))]).
Definition show_orchestrator (context : FunctionExecutionContext) (orchestrator_id : string) :
    IO machine OrchestratorError Value :=
  settings ← require "orchestrator.show requires settings context" (fx_settings context);
  entry ← require (String.concat "" ["unknown orchestrator `"; orchestrator_id; "`"])
    (map_get orchestrator_id (s_orchestrators settings));
  private_workspace ← lift (map_err from_config_error
                              (resolve_private_workspace settings orchestrator_id));
  mret (object [("orchestratorId", VString orchestrator_id);
                ("privateWorkspace", VString private_workspace);
                ("sharedAccess", VArray (VString <$> so_shared_access entry))]).
Definition list_channel_profiles (context : FunctionExecutionContext) :
    IO machine OrchestratorError Value :=
  settings ← require "channel_profile.list requires settings context" (fx_settings context);
  mret (object [("channelProfiles", VArray (VString <$> map_keys (s_channel_profiles settings)))]).
Definition show_channel_profile (context : FunctionExecutionContext) (channel_profile_id : string) :
    IO machine OrchestratorError Value :=
  settings ← require "channel_profile.show requires settings context" (fx_settings context);
  profile ← require (String.concat "" ["unknown channel profile `"; channel_profile_id; "`"])
    (map_get channel_profile_id (s_channel_profiles settings));
  mret (object [("channelProfileId", VString channel_profile_id);
    ("channel", VString (ChannelKind_as_str (cp_channel profile)));
    ("orchestratorId", VString (cp_orchestrator_id profile));
    ("slackAppUserId", from_option VString VNull (cp_slack_app_user_id profile));
    ("requireMentionInChannels", from_option VBool VNull (cp_require_mention_in_channels profile))]).

Definition create_job (context : FunctionExecutionContext) (orchestrator_id : string)
    (schedule : ScheduleConfig) (target_action : TargetAction) (target_ref : option Value)
    (misfire_policy : MisfirePolicy) (allow_overlap : bool) (created_by : JMap) :
    IO machine OrchestratorError Value :=
  settings ← require "schedule.create requires settings context" (fx_settings context);
  target ← selector_err (lift (normalize_slack_target_ref_value target_ref "targetRef"));
  selector_err (lift (validate_profile_mapping settings orchestrator_id target.2)) ;;
  root ← orchestrator_root settings orchestrator_id;
  now ← read_clock;
  created ← selector_err (on_jobs root (Scheduler.create root valid_tz local_time {|
    nj_orchestrator_id := orchestrator_id; nj_created_by := created_by; nj_schedule := schedule;
    nj_target_action := target_action; nj_target_ref := target.1;
    nj_misfire_policy := misfire_policy; nj_allow_overlap := allow_overlap |} now));
  logged_at ← read_clock;
  append_scheduler_audit_event root "scheduler.job.created" (sj_job_id created) None logged_at ;;
  job_to_value created.
Definition list_jobs (context : FunctionExecutionContext) (orchestrator_id : string) :
    IO machine OrchestratorError Value :=
  settings ← require "schedule.list requires settings context" (fx_settings context);
  root ← orchestrator_root settings orchestrator_id;
  jobs ← selector_err (on_jobs root (list_for_orchestrator root orchestrator_id));
  values ← json_err (for_fold (λ values job, value ← job_to_json job; Ok (values ++ [value])) jobs []);
  mret (object [("orchestratorId", VString orchestrator_id); ("jobs", VArray values)]).
(** The patch is normalised and checked against the profile before the update. *)
Definition update_job (job_id : string) (patch : JobPatch) (settings : Settings)
    (root orchestrator_id : string) : IO machine OrchestratorError ScheduledJob :=
  normalized ← selector_err (lift (normalize_patch_slack_target_ref patch "patch.targetRef"));
  selector_err (lift (validate_profile_mapping settings orchestrator_id normalized.2)) ;;
  now ← read_clock;
  selector_err (on_jobs root (update root valid_tz local_time job_id normalized.1 now)).
(** [store.operation(&job_id, now_secs())] *)
Definition stored_job (operation : string → string → Z → IO sched_fs string ScheduledJob)
    (job_id : string) (_ : Settings) (root _ : string) :
    IO machine OrchestratorError ScheduledJob :=
  now ← read_clock;
  selector_err (on_jobs root (operation root job_id now)).

Definition execute_internal_function (command : InternalFunction)
    (context : FunctionExecutionContext) : IO machine OrchestratorError Value :=
  match command with
  | WorkflowList orchestrator_id => show_workflows context orchestrator_id
  | WorkflowShow orchestrator_id workflow_id => show_workflow context orchestrator_id workflow_id
  | WorkflowStatusOf run_id | WorkflowProgress run_id => run_progress context run_id
  | WorkflowCancel run_id => cancel_run context run_id
  | OrchestratorList => list_orchestrators context
  | OrchestratorShow orchestrator_id => show_orchestrator context orchestrator_id
  | ChannelProfileList => list_channel_profiles context
  | ChannelProfileShow channel_profile_id => show_channel_profile context channel_profile_id
  | ScheduleCreate orchestrator_id schedule target_action target_ref misfire_policy allow_overlap
      created_by =>
      create_job context orchestrator_id schedule target_action target_ref misfire_policy
        allow_overlap created_by
  | ScheduleList orchestrator_id => list_jobs context orchestrator_id
  | ScheduleShow job_id => job_command context "schedule.show" "scheduler.job.shown" job_id
      (λ _ root _, selector_err (on_jobs root (Scheduler.load root job_id)))
  | ScheduleUpdate job_id patch => job_command context "schedule.update" "scheduler.job.updated"
      job_id (update_job job_id patch)
  | SchedulePause job_id => job_command context "schedule.pause" "scheduler.job.paused" job_id
      (stored_job pause job_id)
  | ScheduleResume job_id => job_command context "schedule.resume" "scheduler.job.resumed" job_id
      (stored_job resume job_id)
  | ScheduleDelete job_id => job_command context "schedule.delete" "scheduler.job.deleted" job_id
      (stored_job delete_job job_id)
  | ScheduleRunNow job_id => job_command context "schedule.run_now" "scheduler.job.run_now" job_id
      (stored_job run_now job_id)
  end.

(** [cli_executor] works on all of the machine. *)
Definition execute_cli_plan (cli_executor : list string → IO machine string string)
    (cli_args : list string) : IO machine OrchestratorError Value :=
  output ← selector_err (cli_executor cli_args);
  mret (object [("command", VString (join " " cli_args)); ("output", VString output)]).
Definition execute_function_invocation_with_executor (function_id : string) (args : JMap)
    (context : FunctionExecutionContext) (cli_executor : list string → IO machine string string) :
    IO machine OrchestratorError Value :=
  plan ← lift (map_err SelectorValidation (plan_function_invocation json_to_string function_id args));
  match plan with
  | CliArgs cli_args => execute_cli_plan cli_executor cli_args
  | Internal command => execute_internal_function command context
  end.
End execution.
