(* ===== verification/CommandGuarantees.v ===== *)
(** * What a function call guarantees

    Theorems about [CommandCatalog] and [CommandDispatch]: calls the registry lets
    through are planned, unless a value is refused; what a planned function can
    change, and where. *)
From S2P Require Import Prelude RustStr RustPath Io Json QueueMessage QueueLifecycle Config OrchestratorFile OrchestratorError RunStore WorkflowEngine EngineGuarantees SlackTarget Cron Scheduler ScheduleParsing Selector Transitions Routing CommandCatalog CommandDispatch.
From Stdlib Require Import Ascii.

Local Open Scope string_scope.
Local Open Scope list_scope.

(** ** Accepted calls are planned *)
Definition accepted (function_id : string) (args : JMap) : Prop :=
  ∃ schema, map_get function_id v1_catalog = Some schema
    ∧ registry_validate_args {| fc_function_id := function_id; fc_args := args |} schema = Ok ().
Lemma accepted_intro function_id args :
  (schema ← ok_or (UnknownFunction function_id) (map_get function_id v1_catalog);
   registry_validate_args {| fc_function_id := function_id; fc_args := args |} schema) = Ok () →
  accepted function_id args.
Proof. intros (schema & Hs%ok_or_Ok & Hv)%bind_Ok. by exists schema. Qed.
Definition declares (function_id arg : string) : option (FunctionArgType * bool) :=
  schema ← map_get function_id v1_catalog;
  arg ← map_get arg (fs_args schema); Some (fa_type arg, fa_required arg).

Lemma accepted_arg function_id args arg ty required :
  accepted function_id args → declares function_id arg = Some (ty, required) →
  match map_get arg args with
  | Some value => arg_type_matches ty value = true
  | None => required = false
  end.
Proof.
  intros (schema & Hs & Hv) Hd. unfold declares in Hd. rewrite Hs in Hd. simpl in Hd.
  destruct (map_get arg (fs_args schema)) as [[ty' r' d]|] eqn:Harg; [|done].
  injection Hd as <- <-. unfold registry_validate_args in Hv.
  apply seq_Ok in Hv as [_ Hv]. rewrite for_each_Ok, Forall_forall in Hv.
  apply map_get_elem in Harg. specialize (Hv _ Harg). simpl in Hv.
  destruct (map_get arg args) as [value|]; apply reject_if_Ok in Hv; [|done].
  by destruct (arg_type_matches ty' value).
Qed.

(** What a call that has the right arguments can still be refused for. *)
Inductive refused_value (function_id : string) (args : JMap) : string → Prop :=
  | blank_text arg v : map_get arg args = Some (VString v) → is_empty (trim v) = true →
      refused_value function_id args (missing_arg arg)
  | count_out_of_range v e : function_id = "orchestrator.set_selection_max_retries" →
      map_get "count" args = Some (VNumber v) →
      (∀ n, v = NPosInt n → (u32_max < n)%Z) →
      refused_value function_id args e
  | unknown_schedule schedule_type schedule e : function_id = "schedule.create" →
      map_get "scheduleType" args = Some (VString schedule_type) →
      map_get "schedule" args = Some (VObject schedule) →
      parse_schedule_config schedule_type schedule = Err e → refused_value function_id args e
  | unknown_action action e : function_id = "schedule.create" →
      map_get "targetAction" args = Some (VObject action) →
      parse_target_action_config action = Err e → refused_value function_id args e
  | unknown_policy policy e : function_id = "schedule.create" →
      map_get "misfirePolicy" args = Some (VString policy) →
      parse_misfire_policy_arg (Some policy) = Err e → refused_value function_id args e
  | unknown_patch patch e : function_id = "schedule.update" →
      map_get "patch" args = Some (VObject patch) →
      parse_job_patch patch = Err e → refused_value function_id args e.

Section planned.
Context (function_id : string) (args : JMap) (Hacc : accepted function_id args).

Lemma required_string arg : declares function_id arg = Some (TString, true) →
  match required_string_arg args arg with
  | Ok v => map_get arg args = Some (VString v)
  | Err e => refused_value function_id args e
  end.
Proof.
  intros Hd. pose proof (accepted_arg _ _ _ _ _ Hacc Hd) as H. unfold required_string_arg.
  destruct (map_get arg args) as [[]|] eqn:Hg; try done. simpl.
  destruct (is_empty (trim s)) eqn:Hb; [|done]. by eapply blank_text.
Qed.
Lemma optional_string arg : declares function_id arg = Some (TString, false) →
  match optional_string_arg args arg with
  | Ok (Some v) => map_get arg args = Some (VString v)
  | Ok None => True
  | Err e => refused_value function_id args e
  end.
Proof.
  intros Hd. pose proof (accepted_arg _ _ _ _ _ Hacc Hd) as H. unfold optional_string_arg.
  destruct (map_get arg args) as [[]|] eqn:Hg; try done. simpl.
  destruct (is_empty (trim s)) eqn:Hb; [|done]. by eapply blank_text.
Qed.
Lemma required_object arg : declares function_id arg = Some (TObject, true) →
  ∃ v, required_object_arg args arg = Ok v ∧ map_get arg args = Some (VObject v).
Proof.
  intros Hd. pose proof (accepted_arg _ _ _ _ _ Hacc Hd) as H. unfold required_object_arg.
  destruct (map_get arg args) as [[]|] eqn:Hg; try done. by eexists.
Qed.
Lemma optional_bool arg : declares function_id arg = Some (TBoolean, false) →
  ∃ v, optional_bool_arg args arg = Ok v.
Proof.
  intros Hd. pose proof (accepted_arg _ _ _ _ _ Hacc Hd) as H. unfold optional_bool_arg.
  destruct (map_get arg args) as [[]|] eqn:Hg; try done; by eexists.
Qed.

Definition planned (r : result string FunctionExecutionPlan) : Prop :=
  match r with Ok _ => True | Err e => refused_value function_id args e end.
Lemma planned_string {A} arg (f : string → result string A) (P : result string A → Prop) :
  declares function_id arg = Some (TString, true) →
  (∀ e, refused_value function_id args e → P (Err e)) →
  (∀ v, map_get arg args = Some (VString v) → P (f v)) →
  P (v ← required_string_arg args arg; f v).
Proof.
  intros Hd He Hf. pose proof (required_string arg Hd) as H.
  destruct (required_string_arg args arg) as [v|e]; simpl; auto.
Qed.
Lemma planned_optional arg (f : option string → result string FunctionExecutionPlan) :
  declares function_id arg = Some (TString, false) →
  (∀ v, match v with Some v => map_get arg args = Some (VString v) | None => True end →
    planned (f v)) →
  planned (v ← optional_string_arg args arg; f v).
Proof.
  intros Hd Hf. pose proof (optional_string arg Hd) as H.
  destruct (optional_string_arg args arg) as [v|e]; simpl; auto.
Qed.
Lemma planned_bool arg (f : option bool → result string FunctionExecutionPlan) :
  declares function_id arg = Some (TBoolean, false) → (∀ v, planned (f v)) →
  planned (v ← optional_bool_arg args arg; f v).
Proof. intros Hd Hf. destruct (optional_bool arg Hd) as [v ->]. apply Hf. Qed.
Lemma planned_object arg (f : JMap → result string FunctionExecutionPlan) :
  declares function_id arg = Some (TObject, true) →
  (∀ v, map_get arg args = Some (VObject v) → planned (f v)) →
  planned (v ← required_object_arg args arg; f v).
Proof. intros Hd Hf. destruct (required_object arg Hd) as (v & -> & Hv). by apply Hf. Qed.
(** A value that is parsed further. *)
Lemma planned_parse {A} (r : result string A) (f : A → result string FunctionExecutionPlan) :
  (∀ e, r = Err e → refused_value function_id args e) → (∀ a, planned (f a)) →
  planned (a ← r; f a).
Proof. intros He Hf. destruct r as [a|e]; simpl; auto. Qed.
Lemma planned_count (f : Z → result string FunctionExecutionPlan) :
  function_id = "orchestrator.set_selection_max_retries" →
  (∀ n, planned (f n)) → planned (n ← required_u32_arg args "count"; f n).
Proof.
  intros Hid Hf.
  assert (declares function_id "count" = Some (TInteger, true)) as Hd by (by rewrite Hid).
  pose proof (accepted_arg _ _ _ _ _ Hacc Hd) as H. unfold required_u32_arg.
  destruct (map_get "count" args) as [v|] eqn:Hg; [|done].
  destruct v as [| |n| | |]; try done. destruct n as [n|n|]; try done; simpl.
  - destruct (decide (n ≤ u32_max)%Z) as [|Hgt]; [apply Hf|].
    eapply count_out_of_range; [done..|]. intros ? [= <-]. lia.
  - destruct (decide _); [apply Hf|]. by eapply count_out_of_range.
Qed.
Lemma planned_words command arg_names :
  Forall (λ arg, declares function_id arg = Some (TString, true)) arg_names →
  planned (words command arg_names args).
Proof.
  intros Hd. unfold words. cut (∀ values, planned (values ← for_fold (λ values arg,
      v ← required_string_arg args arg; Ok (values ++ [v])) arg_names values;
    Ok (CliArgs (command ++ values)))); [intros H; apply H|].
  induction Hd as [|arg arg_names Harg _ IH]; intros values; [done|]. simpl.
  pose proof (required_string arg Harg) as H.
  destruct (required_string_arg args arg) as [v|e]; simpl; [apply IH|done].
Qed.
Lemma planned_internal1 f arg :
  declares function_id arg = Some (TString, true) → planned (internal1 f arg args).
Proof. intros Hd. unfold internal1. by apply (planned_string arg _ planned). Qed.
End planned.

(** The catalog entries no arm plans. *)
Definition unplanned : list string :=
  ["channels.slack_backfill_run"; "channels.slack_socket_reconnect";
   "channels.slack_socket_status"; "daemon.chat"].
Lemma catalog_arms value_to_string :
  filter (λ id, map_get id (plan_arms value_to_string) = None) (map_keys v1_catalog) = unplanned.
Proof. vm_compute. reflexivity. Qed.

Ltac plan_step Hacc :=
  match goal with
  | |- planned _ _ (words _ _ _) => apply (planned_words _ _ Hacc); repeat (apply Forall_cons; split; [by vm_compute|]); by apply Forall_nil
  | |- planned _ _ (internal1 _ _ _) => apply (planned_internal1 _ _ Hacc); by vm_compute
  | |- planned _ _ (mbind _ (required_string_arg _ _)) =>
      apply (planned_string _ _ Hacc _ _ (planned _ _)); [by vm_compute|by intros|intros ? ?]
  end.
Lemma schedule_create_planned args :
  accepted "schedule.create" args → planned "schedule.create" args (plan_schedule_create args).
Proof.
  intros Hacc. unfold plan_schedule_create. do 2 plan_step Hacc.
  do 2 (apply (planned_object _ _ Hacc); [by vm_compute|intros ? ?]).
  apply planned_parse; [intros e He; by eapply unknown_schedule|intros schedule].
  apply planned_parse; [intros e He; by eapply unknown_action|intros target_action].
  apply planned_parse.
  { intros e He. pose proof (optional_string _ _ Hacc "misfirePolicy" eq_refl) as Hp.
    destruct (optional_string_arg args "misfirePolicy") as [[policy|]|e']; simpl in He; [|done|].
    - by eapply unknown_policy.
    - by injection He as <-. }
  intros policy. by apply (planned_bool _ _ Hacc).
Qed.
Lemma arms_planned value_to_string :
  Forall (λ arm, ∀ args, accepted arm.1 args → planned arm.1 args (arm.2 args))
    (plan_arms value_to_string).
Proof.
  unfold plan_arms. rewrite !Forall_app. split_and!;
    repeat (apply Forall_cons; split; [intros args Hacc; cbn [fst snd] in *; repeat plan_step Hacc; try done|]);
    try apply Forall_nil; try done.
  - apply (planned_optional _ _ Hacc); [by vm_compute|done].
  - by apply planned_count.
  - apply (planned_optional _ _ Hacc); [by vm_compute|intros ? _].
    apply (planned_bool _ _ Hacc); [by vm_compute|intros ?].
    by apply (planned_optional _ _ Hacc); [by vm_compute|].
  - by apply schedule_create_planned.
  - apply (planned_object _ _ Hacc); [by vm_compute|intros patch Hpatch].
    apply planned_parse; [intros e He; by eapply unknown_patch|done].
Qed.

(** C35: A function call the registry accepts is planned, and fails only for a value
    that the declared types can not exclude: a blank text, a count that is no u32, or
    the contents of a schedule, an action, a policy or a patch.  The four functions no
    arm plans are the exception: the catalog offers them and every call of them
    fails. *)
Theorem accepted_calls_are_planned (value_to_string : Value → string) function_id args
    (Hacc : accepted function_id args) :
  match plan_function_invocation value_to_string function_id args with
  | Ok _ => function_id ∉ unplanned
  | Err e => function_id ∈ unplanned ∨ refused_value function_id args e
  end.
Proof.
  unfold plan_function_invocation.
  destruct (map_get function_id (plan_arms value_to_string)) as [plan|] eqn:Hp.
  - assert (function_id ∉ unplanned) as Hout.
    { rewrite <- (catalog_arms value_to_string), list_elem_of_filter. rewrite Hp. by intros [??]. }
    pose proof (arms_planned value_to_string) as Hall. rewrite Forall_forall in Hall.
    apply map_get_elem in Hp. specialize (Hall _ Hp args Hacc). simpl in Hall.
    destruct (plan args); [done|by right].
  - left. rewrite <- (catalog_arms value_to_string), list_elem_of_filter. split; [done|].
    destruct Hacc as (schema & Hs & _). apply map_get_keys. by exists schema.
Qed.
Lemma accepted_calls_are_planned_witness :
  accepted "workflow.cancel" [("runId", VString "run-1")]
  ∧ plan_function_invocation (λ _, "") "workflow.cancel" [("runId", VString "run-1")]
    = Ok (Internal (WorkflowCancel "run-1"))
  ∧ "workflow.cancel" ∉ unplanned.
Proof.
  assert (accepted "workflow.cancel" [("runId", VString "run-1")]) as Hacc.
  { apply accepted_intro. vm_compute. reflexivity. }
  split; [exact Hacc|]. split; [vm_compute; reflexivity|].
  exact (accepted_calls_are_planned (λ _, "") "workflow.cancel" [("runId", VString "run-1")] Hacc).
Defined.
(** The registry offers the four functions to the selector. *)
Example offered_functions_that_always_fail (value_to_string : Value → string) :
  Forall (λ id, is_Some (map_get id v1_catalog)
    ∧ ∀ args, plan_function_invocation value_to_string id args
              = Err (String.concat "" ["unknown function id `"; id; "`"])) unplanned.
Proof.
  repeat (apply Forall_cons; split; [split; [by eexists; vm_compute|by vm_compute]|]).
  by apply Forall_nil.
Qed.

(** ** What a function can change *)
(** The root an internal function works at, and what it may change there. *)
Definition job_root (context : FunctionExecutionContext) (root : string) : Prop :=
  ∃ settings orchestrator_id, fx_settings context = Some settings
    ∧ resolve_orchestrator_runtime_root settings orchestrator_id = Ok root
    ∧ match fx_orchestrator_id context with
      | Some scope => orchestrator_id = scope
      | None => orchestrator_id ∈ map_keys (s_orchestrators settings)
      end.
Definition works_at (context : FunctionExecutionContext) (command : InternalFunction)
    (root : string) : Prop :=
  match command with
  | WorkflowCancel _ => fx_run_store context = Some root
  | ScheduleCreate orchestrator_id _ _ _ _ _ _ => ∃ settings, fx_settings context = Some settings
      ∧ resolve_orchestrator_runtime_root settings orchestrator_id = Ok root
  | ScheduleShow _ | ScheduleUpdate _ _ | SchedulePause _ | ScheduleResume _ | ScheduleDelete _
  | ScheduleRunNow _ => job_root context root
  | _ => False
  end.
Definition writes_runs (command : InternalFunction) : bool :=
  match command with WorkflowCancel _ => true | _ => false end.
Definition writes_jobs (command : InternalFunction) : bool :=
  match command with
  | ScheduleCreate _ _ _ _ _ _ _ | ScheduleUpdate _ _ | SchedulePause _ | ScheduleResume _
  | ScheduleDelete _ | ScheduleRunNow _ => true
  | _ => false
  end.

(** Same files, but for the logs and what is allowed. *)
Definition runs_kept (may_write : bool) (s s' : run_store) : Prop :=
  rs_attempts s' = rs_attempts s ∧ rs_files s' = rs_files s
  ∧ (may_write = false → rs_runs s' = rs_runs s ∧ rs_progress s' = rs_progress s).
Definition jobs_kept (may_write : bool) (s s' : sched_fs) : Prop :=
  sf_runs s' = sf_runs s ∧ sf_state s' = sf_state s ∧ sf_incoming s' = sf_incoming s
  ∧ (may_write = false → sf_jobs s' = sf_jobs s).
Definition confined (roots : string → Prop) (runs jobs : bool) (m m' : machine) : Prop :=
  ∀ root, (¬ roots root → m' root = m root)
    ∧ rt_queue (m' root) = rt_queue (m root) ∧ rt_turns (m' root) = rt_turns (m root)
    ∧ rt_artifacts (m' root) = rt_artifacts (m root)
    ∧ runs_kept runs (rt_runs (m root)) (rt_runs (m' root))
    ∧ jobs_kept jobs (rt_sched (m root)) (rt_sched (m' root)).
#[local] Instance runs_kept_preorder b : PreOrder (runs_kept b).
Proof. split; [intros s; by split_and!|]. unfold runs_kept. intros s1 s2 s3. intuition congruence. Qed.
#[local] Instance jobs_kept_preorder b : PreOrder (jobs_kept b).
Proof. split; [intros s; by split_and!|]. unfold jobs_kept. intros s1 s2 s3. intuition congruence. Qed.
#[local] Instance confined_preorder roots runs jobs : PreOrder (confined roots runs jobs).
Proof.
  split; [intros m root; by split_and!|].
  intros m1 m2 m3 H12 H23 root. destruct (H12 root) as (? & ? & ? & ? & ? & ?).
  destruct (H23 root) as (? & ? & ? & ? & ? & ?). split_and!; try congruence; [|by etrans..].
  intros Hn. etrans; auto.
Qed.

(** A result is known when the rest is run. *)
Lemma evolves_bind_lift {S E A B} (R : S → S → Prop) `{!PreOrder R} (r : result E A)
    (f : A → IO S E B) : (∀ a, r = Ok a → evolves R (f a)) → evolves R (lift r ≫= f).
Proof. intros Hf w. unfold lift, mbind, IO_bind. destruct r as [a|e]; [by apply Hf|]. simpl. reflexivity. Qed.
Lemma evolves_bind_known {S E A B} (R : S → S → Prop) `{!PreOrder R} (P : A → Prop) (m : IO S E A)
    (f : A → IO S E B) :
  evolves R m → returns P m → (∀ a, P a → evolves R (f a)) → evolves R (m ≫= f).
Proof.
  intros Hm HP Hf w. specialize (Hm w). specialize (HP w). unfold mbind, IO_bind.
  destruct (m w) as [w' [a|e]]; simpl in *; [|done]. etrans; [exact Hm|]. apply Hf. by apply HP.
Qed.

Section confined.
Context (valid_tz : string → bool) (local_time : string → Z → option civil).
Context (from_path : string → result ConfigError OrchestratorConfig).
Context (json_to_string : Value → string).
Context (workflow_to_value : WorkflowConfig → result string Value)
  (progress_to_value : ProgressSnapshot → result string Value)
  (job_to_json : ScheduledJob → result string Value).
Local Abbreviation execute := (execute_internal_function valid_tz local_time from_path
  json_to_string workflow_to_value progress_to_value job_to_json).

Section at_roots.
Context (roots : string → Prop) (runs jobs : bool).
Local Abbreviation R := (confined roots runs jobs).

Lemma on_store_confined {A} root (m : IO run_store OrchestratorError A) :
  roots root → evolves (runs_kept runs) m → evolves R (on_store root m).
Proof.
  intros Hroot Hm. unfold on_store, at_root.
  apply (evolves_zoom _ (λ r r', runs_kept runs (rt_runs r) (rt_runs r') ∧ rt_sched r' = rt_sched r
    ∧ rt_turns r' = rt_turns r ∧ rt_artifacts r' = rt_artifacts r ∧ rt_queue r' = rt_queue r)).
  - by apply (evolves_zoom _ (runs_kept runs)).
  - intros m1 r (Hr & Hs & Ht & Ha & Hq) root'. unfold set_runtime. case_decide as He.
    + subst root'. rewrite Hs. by split_and!.
    + by split_and!.
Qed.
Lemma on_jobs_confined {E A} root (m : IO sched_fs E A) :
  roots root → evolves (jobs_kept jobs) m → evolves R (on_jobs root m).
Proof.
  intros Hroot Hm. unfold on_jobs, at_root.
  apply (evolves_zoom _ (λ r r', jobs_kept jobs (rt_sched r) (rt_sched r') ∧ rt_runs r' = rt_runs r
    ∧ rt_turns r' = rt_turns r ∧ rt_artifacts r' = rt_artifacts r ∧ rt_queue r' = rt_queue r)).
  - by apply (evolves_zoom _ (jobs_kept jobs)).
  - intros m1 r (Hr & Hs & Ht & Ha & Hq) root'. unfold set_runtime. case_decide as He.
    + subst root'. rewrite Hs. by split_and!.
    + by split_and!.
Qed.
(** Reading changes nothing, wherever it happens. *)
Lemma on_store_reads {A} root (m : IO run_store OrchestratorError A) :
  evolves eq m → evolves R (on_store root m).
Proof.
  intros Hm. unfold on_store, at_root. apply (evolves_zoom _ eq).
  - apply (evolves_zoom _ eq); [done|]. by intros [] ? <-.
  - intros m1 r <- root'. unfold set_runtime. case_decide as He; [subst root'|]; by split_and!.
Qed.
Lemma on_jobs_reads {E A} root (m : IO sched_fs E A) :
  evolves eq m → evolves R (on_jobs root m).
Proof.
  intros Hm. unfold on_jobs, at_root. apply (evolves_zoom _ eq).
  - apply (evolves_zoom _ eq); [done|]. by intros [] ? <-.
  - intros m1 r <- root'. unfold set_runtime. case_decide as He; [subst root'|]; by split_and!.
Qed.
End at_roots.

(** Operations of the stores. *)
Local Ltac store_steps :=
  evolve_steps; try (apply evolves_get; apply _); try (apply evolves_modify; [apply _|intros ?; done]);
  try (apply evolves_sys; [apply _|intros ?; first [done|by split_and!]]).
Lemma read_json_reads {A} (files : run_store → gmap string (stored A)) path :
  evolves eq (read_json files path).
Proof. unfold read_json. store_steps. Qed.
Lemma job_load_reads root job_id : evolves eq (Scheduler.load root job_id).
Proof. unfold Scheduler.load, read_job, parse_stored. store_steps. Qed.
Lemma list_jobs_reads root orchestrator_id : evolves eq (list_for_orchestrator root orchestrator_id).
Proof.
  unfold list_for_orchestrator, list_all. store_steps.
  apply evolves_for_fold; [apply _|]. intros js path. unfold read_job, parse_stored. store_steps.
Qed.
Lemma security_log_keeps b root line : evolves (runs_kept b) (append_security_log root line).
Proof. unfold append_security_log. store_steps. Qed.
Lemma persist_job_keeps root job : evolves (jobs_kept true) (persist_job root job).
Proof. unfold persist_job. store_steps. Qed.
Hint Resolve persist_job_keeps : direclaw.
Lemma reads_keep_jobs {E A} b (m : IO sched_fs E A) : evolves eq m → evolves (jobs_kept b) m.
Proof. intros Hm w. rewrite (Hm w). reflexivity. Qed.
Lemma load_keeps root job_id : evolves (jobs_kept true) (Scheduler.load root job_id).
Proof. apply reads_keep_jobs, job_load_reads. Qed.
Hint Resolve load_keeps : direclaw.
Lemma update_keeps root job_id patch now :
  evolves (jobs_kept true) (update root valid_tz local_time job_id patch now).
Proof. unfold update. store_steps. Qed.
Lemma transition_keeps root job_id to now :
  evolves (jobs_kept true) (Scheduler.transition_state root job_id to now).
Proof. unfold Scheduler.transition_state. store_steps. Qed.
Lemma run_now_keeps root job_id now : evolves (jobs_kept true) (run_now root job_id now).
Proof. unfold run_now. store_steps. Qed.
Lemma job_create_keeps root job now :
  evolves (jobs_kept true) (Scheduler.create root valid_tz local_time job now).
Proof. unfold Scheduler.create. store_steps. Qed.
Lemma cancel_keeps root run now summary pending next :
  evolves (runs_kept true) (with_run run (
    RunStore.transition_state root Canceled now summary pending next ;; get_run)).
Proof.
  unfold with_run. apply (evolves_zoom _ (λ rs rs', runs_kept true rs.1 rs'.1)); [|done].
  assert (PreOrder (λ rs rs' : run_st, runs_kept true rs.1 rs'.1)) as Hpre.
  { split; [intros rs; reflexivity|]. intros r1 r2 r3 H1 H2. by etrans. }
  assert (∀ A (m : IO run_store OrchestratorError A), evolves (runs_kept true) m →
    evolves (λ rs rs' : run_st, runs_kept true rs.1 rs'.1) (with_store m)) as Hstore.
  { intros A m Hm. by apply (evolves_zoom _ (runs_kept true)). }
  assert (∀ path put, (∀ s, runs_kept true s (put s).1) →
    evolves (runs_kept true) (write_json path put)) as Hwrite.
  { intros path put Hput. unfold write_json. store_steps; by apply evolves_sys; [apply _|]. }
  apply evolves_bind; [done| |intros _ w; reflexivity].
  unfold RunStore.transition_state. apply evolves_bind; [done|intros w; reflexivity|intros r].
  destruct (negb _); [by apply evolves_throw|].
  apply evolves_bind; [done|by apply evolves_modify|intros _].
  apply evolves_bind; [done| |intros _]; apply Hstore, Hwrite; intros s; by split_and!.
Qed.

(** The store of a job is at a root the function works at. *)
Section at_context.
Context (context : FunctionExecutionContext).

Lemma runtime_root_returns settings orchestrator_id :
  returns (λ root, resolve_orchestrator_runtime_root settings orchestrator_id = Ok root)
    (orchestrator_root settings orchestrator_id).
Proof. apply returns_lift. by intros root H%map_err_Ok. Qed.
Lemma job_store_returns settings job_id :
  fx_settings context = Some settings →
  returns (λ store, job_root context store.1
      ∧ resolve_orchestrator_runtime_root settings store.2 = Ok store.1)
    (job_store_for_job_id settings job_id (fx_orchestrator_id context)).
Proof.
  intros Hs. unfold job_store_for_job_id. destruct (fx_orchestrator_id context) as [scope|] eqn:Hscope.
  - eapply returns_bind; [apply runtime_root_returns|]. intros root Hroot.
    apply returns_seq. intros [|]; [|apply returns_throw]. apply returns_ret. split; [|done].
    exists settings, scope. by rewrite Hscope.
  - assert (∀ ids, ids ⊆ map_keys (s_orchestrators settings) →
      returns (λ store, job_root context store.1
        ∧ resolve_orchestrator_runtime_root settings store.2 = Ok store.1)
        (first_store settings job_id ids)) as H; [|by apply H].
    induction ids as [|id ids IH]; intros Hids; [apply returns_throw|]. simpl.
    eapply returns_bind; [apply runtime_root_returns|]. intros root Hroot.
    apply returns_seq. intros [|]; [|apply IH; set_solver]. apply returns_ret. split; [|done].
    exists settings, id. rewrite Hscope. split_and!; [done..|set_solver].
Qed.
End at_context.

Section commands.
Context (context : FunctionExecutionContext) (runs jobs : bool).
Local Abbreviation R roots := (confined roots runs jobs).

Lemma has_job_confined roots root job_id : evolves (R roots) (has_job root job_id).
Proof.
  unfold has_job. apply evolves_bind; [apply _| |intros; apply evolves_ret, _].
  apply evolves_attempt, on_jobs_reads, job_load_reads.
Qed.
Lemma job_store_confined roots settings job_id scope :
  evolves (R roots) (job_store_for_job_id settings job_id scope).
Proof.
  assert (∀ ids, evolves (R roots) (first_store settings job_id ids)) as Hfirst.
  { induction ids as [|id ids IH]; [apply evolves_throw, _|]. simpl.
    apply evolves_bind; [apply _|apply evolves_lift, _|intros root].
    apply evolves_bind; [apply _|apply has_job_confined|intros [|]]; [apply evolves_ret, _|apply IH]. }
  unfold job_store_for_job_id. destruct scope as [scope|]; [|apply Hfirst].
  apply evolves_bind; [apply _|apply evolves_lift, _|intros root].
  apply evolves_bind; [apply _|apply has_job_confined|intros [|]];
    [apply evolves_ret, _|apply evolves_throw, _].
Qed.
Lemma audit_confined (roots : string → Prop) root event job_id execution_id now :
  roots root → evolves (R roots) (append_scheduler_audit_event json_to_string root event job_id
                                    execution_id now).
Proof. intros Hroot. apply on_store_confined; [done|]. apply security_log_keeps. Qed.
Lemma value_confined roots job : evolves (R roots) (job_to_value job_to_json job).
Proof. apply evolves_lift, _. Qed.

Lemma job_command_confined name event job_id operation :
  (∀ settings root orchestrator_id, job_root context root →
    evolves (R (job_root context)) (operation settings root orchestrator_id)) →
  evolves (R (job_root context))
    (job_command json_to_string job_to_json context name event job_id operation).
Proof.
  intros Hop. unfold job_command, require.
  apply evolves_bind_lift; [apply _|intros settings Hs%ok_or_Ok].
  eapply evolves_bind_known; [apply _|apply job_store_confined|by apply job_store_returns|].
  intros [root o] [Hroot Hres]. simpl in *.
  apply evolves_bind; [apply _|by apply Hop|intros job].
  apply evolves_bind_lift; [apply _|intros root' Hroot'%map_err_Ok].
  assert (root' = root) as -> by congruence.
  apply evolves_bind; [apply _|apply evolves_clock, _|intros now].
  apply evolves_bind; [apply _|by apply audit_confined|intros _]. apply value_confined.
Qed.
Lemma stored_confined (operation : string → string → Z → IO sched_fs string ScheduledJob) job_id
    settings root orchestrator_id :
  job_root context root → (∀ now, evolves (jobs_kept jobs) (operation root job_id now)) →
  evolves (R (job_root context)) (stored_job operation job_id settings root orchestrator_id).
Proof.
  intros Hroot Hop. unfold stored_job.
  apply evolves_bind; [apply _|apply evolves_clock, _|intros now].
  apply evolves_map_err. by apply on_jobs_confined.
Qed.
End commands.

Lemma execute_confined context command :
  evolves (confined (works_at context command) (writes_runs command) (writes_jobs command))
    (execute command context).
Proof.
  destruct command; cbn [works_at writes_runs writes_jobs execute_internal_function].
  - unfold show_workflows, require. evolve_steps.
  - unfold show_workflow, require, json_err. evolve_steps.
  - unfold run_progress, require, json_err. apply evolves_bind; [apply _|apply evolves_lift, _|intros root].
    apply evolves_bind; [apply _|apply evolves_map_err, on_store_reads, read_json_reads|].
    intros progress. evolve_steps.
  - unfold run_progress, require, json_err. apply evolves_bind; [apply _|apply evolves_lift, _|intros root].
    apply evolves_bind; [apply _|apply evolves_map_err, on_store_reads, read_json_reads|].
    intros progress. evolve_steps.
  - unfold cancel_run, require. apply evolves_bind_lift; [apply _|intros root Hroot%ok_or_Ok].
    apply evolves_bind; [apply _|apply evolves_map_err, on_store_reads, read_json_reads|intros run].
    apply evolves_bind; [apply _| |intros; apply evolves_ret, _].
    destruct (is_terminal _); [apply evolves_ret, _|]. apply on_store_confined; [done|apply cancel_keeps].
  - unfold list_orchestrators, require. evolve_steps.
  - unfold show_orchestrator, require. evolve_steps.
  - unfold list_channel_profiles, require. evolve_steps.
  - unfold show_channel_profile, require. evolve_steps.
  - unfold create_job, require, selector_err.
    apply evolves_bind_lift; [apply _|intros settings Hs%ok_or_Ok].
    apply evolves_bind; [apply _|apply evolves_map_err, evolves_lift, _|intros target].
    apply evolves_bind; [apply _|apply evolves_map_err, evolves_lift, _|intros _].
    apply evolves_bind_lift; [apply _|intros root Hroot%map_err_Ok].
    assert (∃ settings, fx_settings context = Some settings
      ∧ resolve_orchestrator_runtime_root settings orchestrator_id = Ok root) as Hat by eauto.
    apply evolves_bind; [apply _|apply evolves_clock, _|intros now].
    apply evolves_bind; [apply _| |intros job].
    { apply evolves_map_err, on_jobs_confined; [done|]. apply job_create_keeps. }
    apply evolves_bind; [apply _|apply evolves_clock, _|intros now'].
    apply evolves_bind; [apply _|by apply audit_confined|intros _]. apply value_confined.
  - unfold list_jobs, require, json_err, selector_err.
    apply evolves_bind; [apply _|apply evolves_lift, _|intros settings].
    apply evolves_bind; [apply _|apply evolves_lift, _|intros root].
    apply evolves_bind; [apply _|apply evolves_map_err, on_jobs_reads, list_jobs_reads|].
    intros js. evolve_steps.
  - apply job_command_confined. intros settings root o Hroot.
    apply evolves_map_err, on_jobs_reads, job_load_reads.
  - apply job_command_confined. intros settings root o Hroot. unfold update_job, selector_err.
    apply evolves_bind; [apply _|apply evolves_map_err, evolves_lift, _|intros normalized].
    apply evolves_bind; [apply _|apply evolves_map_err, evolves_lift, _|intros _].
    apply evolves_bind; [apply _|apply evolves_clock, _|intros now].
    apply evolves_map_err, on_jobs_confined; [done|apply update_keeps].
  - apply job_command_confined. intros settings root o Hroot.
    apply stored_confined; [done|]. intros. apply transition_keeps.
  - apply job_command_confined. intros settings root o Hroot.
    apply stored_confined; [done|]. intros. apply transition_keeps.
  - apply job_command_confined. intros settings root o Hroot.
    apply stored_confined; [done|]. intros. apply transition_keeps.
  - apply job_command_confined. intros settings root o Hroot.
    apply stored_confined; [done|]. intros. apply run_now_keeps.
Qed.

Definition reads_only (function_id : string) : bool :=
  match map_get function_id v1_catalog with Some schema => fs_read_only schema | None => false end.
Lemma arms_read_only :
  Forall (λ arm, ∀ args command, reads_only arm.1 = true → arm.2 args = Ok (Internal command) →
    writes_runs command = false ∧ writes_jobs command = false) (plan_arms json_to_string).
Proof.
  unfold plan_arms. rewrite !Forall_app. split_and!;
    repeat (apply Forall_cons; split; [intros args command Hro Hplan; cbn [fst snd] in *;
      try (vm_compute in Hro; discriminate Hro); clear Hro; unfold words, internal1 in Hplan;
      repeat (apply bind_Ok in Hplan as (? & ? & Hplan)); try discriminate Hplan;
      by injection Hplan as <-|]);
    apply Forall_nil; done.
Qed.


(** ** Cancellation *)
Definition canceled (run : WorkflowRunRecord) : WorkflowRunRecord :=
  if is_terminal (wr_state run) then run
  else set_state Canceled (i64_sat_add (wr_updated_at run) 1) (Some "canceled by command") run.

Lemma wp_on_store {A} root (m : IO run_store OrchestratorError A)
    (Φ : result OrchestratorError A → machine → Prop) (s : machine) :
  wp true m (λ r runs, Φ r (set_runtime root (set_runs runs (s root)) s)) (rt_runs (s root)) →
  wp true (on_store root m) Φ s.
Proof. intros H. unfold on_store, at_root, on_runs. apply wp_zoom, wp_zoom. exact H. Qed.
Lemma set_runtime_at root r m : set_runtime root r m root = r.
Proof. unfold set_runtime. by case_decide. Qed.

Lemma wp_cancel context root run_id run (s : machine) :
  fx_run_store context = Some root → wr_run_id run = run_id →
  rs_runs (rt_runs (s root)) !! run_metadata_path root run_id = Some (Parsed run) →
  wp true (cancel_run context run_id) (λ r s',
    r = Ok (object [("runId", VString run_id);
                    ("state", VString (RunState_display (wr_state (canceled run))))])
    ∧ rs_runs (rt_runs (s' root)) !! run_metadata_path root run_id = Some (Parsed (canceled run))) s.
Proof.
  intros Hctx Hid Hrun. unfold cancel_run, require. apply wp_bind, wp_lift. rewrite Hctx. simpl.
  apply wp_bind, wp_map_err, wp_on_store, wp_read_json.
  { intros e [Hn|[c Hc]]; simpl; congruence. }
  intros run0 Hrun0. simpl. assert (run0 = run) as -> by congruence.
  unfold canceled. destruct (is_terminal (wr_state run)) eqn:Hterm.
  { apply wp_bind, wp_ret, wp_ret. split; [done|]. by rewrite set_runtime_at. }
  apply wp_bind, wp_on_store. rewrite set_runtime_at. unfold with_run. apply wp_zoom. simpl.
  assert (can_transition_to (wr_state run) Canceled = true) as Hcan by by destruct (wr_state run).
  apply wp_bind. unfold RunStore.transition_state. apply wp_bind, wp_get_run. rewrite Hcan. simpl.
  apply wp_bind, wp_set_run, wp_bind, wp_with_store, wp_persist_run; [by intros|].
  apply wp_with_store, wp_persist_progress; [by intros|]. intros s' Hs'. simpl in Hs'.
  apply wp_get_run. simpl. apply wp_ret. split; [done|].
  rewrite set_runtime_at. simpl. rewrite Hs', Hid. apply lookup_insert_eq.
Qed.

(** On a working disk, cancelling a run that is stored ends it: a run that was
    not over is Canceled with the reason and a later time stamp, one that was over
    stays as it is, and the state that is reported is the state on disk. *)
Theorem cancel_ends_the_run context root run_id run w
    (Hctx : fx_run_store context = Some root) (Hid : wr_run_id run = run_id)
    (Hrun : rs_runs (rt_runs (st w root)) !! run_metadata_path root run_id = Some (Parsed run))
    (Hdisk : faults (ev w) = []) :
  let done_ := execute (WorkflowCancel run_id) context w in
  done_.2 = Ok (object [("runId", VString run_id);
                        ("state", VString (RunState_display (wr_state (canceled run))))])
  ∧ rs_runs (rt_runs (st done_.1 root)) !! run_metadata_path root run_id
    = Some (Parsed (canceled run))
  ∧ is_terminal (wr_state (canceled run)) = true.
Proof.
  pose proof (wp_cancel context root run_id run (st w) Hctx Hid Hrun) as Hwp.
  apply wp_run in Hwp; [|intros _; exact Hdisk]. destruct Hwp as [Hr Hs]. simpl. split_and!; [exact Hr|exact Hs|].
  unfold canceled. by destruct (is_terminal (wr_state run)) eqn:Ht.
Qed.
End confined.

(** ** Concrete calls *)
Definition command_run (state : RunState) : WorkflowRunRecord := {|
  wr_run_id := "run-1"; wr_workflow_id := "w"; wr_state := state; wr_channel_profile_id := None;
  wr_inputs := []; wr_memory_context := RunMemoryContext_default; wr_current_step_id := None;
  wr_current_attempt := None; wr_started_at := 100; wr_updated_at := 100; wr_total_iterations := 0;
  wr_source_message_id := None; wr_selector_id := None; wr_selected_workflow := None;
  wr_status_conversation_id := None; wr_terminal_reason := None |}.
Definition command_runtime : runtime := {|
  rt_runs := {| rs_runs := {["/state/workflows/runs/run-1.json" := Parsed (command_run Running)]};
                rs_progress := ∅; rs_attempts := ∅; rs_log := []; rs_files := ∅ |};
  rt_sched := {| sf_dirs := ∅; sf_jobs := ∅; sf_runs := ∅; sf_state := None; sf_incoming := ∅;
                 sf_log := [] |};
  rt_turns := ∅; rt_artifacts := ∅;
  rt_queue := {| q_incoming := None; q_processing := None; q_outgoing := None; q_failed := None;
                 q_requeue_counter := 0; q_log := [] |} |}.
Definition command_machine : world machine := World (λ _, command_runtime) (Env [] []).
Definition command_context : FunctionExecutionContext :=
  {| fx_run_store := Some "/state"; fx_settings := None; fx_orchestrator_id := Some "main" |}.
Definition cancel_call (w : world machine) : world machine * result OrchestratorError Value :=
  execute_function_invocation_with_executor (λ _, true) (λ _ _, None)
    (λ _, Err (CSettings "none")) (λ _, "json") (λ _, Ok VNull) (λ _, Ok VNull) (λ _, Ok VNull)
    "workflow.cancel" [("runId", VString "run-1")] command_context (λ _, throw "no commands") w.

Lemma cancel_ends_the_run_witness :
  is_terminal (wr_state (canceled (command_run Running))) = true
  ∧ wr_state (canceled (command_run Running)) = Canceled.
Proof.
  assert (rs_runs (rt_runs (st command_machine "/state")) !! run_metadata_path "/state" "run-1"
          = Some (Parsed (command_run Running))) as Hrun by (vm_compute; reflexivity).
  pose proof (cancel_ends_the_run (λ _, true) (λ _ _, None) (λ _, Err (CSettings "none"))
    (λ _, "json") (λ _, Ok VNull) (λ _, Ok VNull) (λ _, Ok VNull) command_context "/state" "run-1"
    (command_run Running) command_machine eq_refl eq_refl Hrun eq_refl) as H.
  split; [exact (proj2 (proj2 H))|reflexivity].
Defined.
