(* ===== verification/ConfigStore.v ===== *)
(** * The configuration files

    [src/src/config/save.rs], [load.rs], [paths.rs], [orchestrators_registry.rs],
    [src/src/memory/paths.rs], [src/src/skills/mod.rs] and the configuration part of
    [src/src/app/command_support.rs]: reading and writing the global settings and the
    [orchestrator.yaml] of each private workspace, with what belongs to a saved
    configuration (prompt templates, skills, mounts).  The YAML codecs, the home
    directory and what the operating system answers for a path are parameters. *)
From S2P Require Import Prelude RustStr RustPath Io Json TypedFields Config OrchestratorFile OrchestratorError Templates Assets Prompts Mounts.

Local Open Scope string_scope.
Local Open Scope list_scope.

(** The files and the mounts. *)
Record config_fs := { cf_disk : disk; cf_mounts : mounts }.
Definition on_files {E A} : IO disk E A → IO config_fs E A :=
  zoom cf_disk (λ d s, {| cf_disk := d; cf_mounts := cf_mounts s |}).
Definition on_mounts {E A} : IO mounts E A → IO config_fs E A :=
  zoom cf_mounts (λ m s, {| cf_disk := cf_disk s; cf_mounts := m |}).

(** ** [MemoryPaths] *)
Inductive MemoryPathError :=
  | MemoryCanonicalize (path : string) (source : io_error)
  | MemoryCreateDir (path : string) (source : io_error).
Record MemoryPaths := {
  mp_root : string; mp_database : string; mp_ingest : string; mp_ingest_processed : string;
  mp_ingest_rejected : string; mp_bulletins : string; mp_logs_dir : string; mp_log_file : string;
}.
Definition from_runtime_root (runtime_root : string) : MemoryPaths :=
  let root := path_join runtime_root "memory" in {|
    mp_root := root; mp_database := path_join root "memory.db"; mp_ingest := path_join root "ingest";
    mp_ingest_processed := path_join root "ingest/processed";
    mp_ingest_rejected := path_join root "ingest/rejected";
    mp_bulletins := path_join root "bulletins"; mp_logs_dir := path_join root "logs";
    mp_log_file := path_join root "logs/memory.log" |}.
Definition memory_required_directories (p : MemoryPaths) : list string :=
  [mp_root p; mp_ingest p; mp_ingest_processed p; mp_ingest_rejected p; mp_bulletins p; mp_logs_dir p].
Definition bootstrap_memory_paths (p : MemoryPaths) : IO disk MemoryPathError () :=
  io_for_each (λ path, io_map_err (MemoryCreateDir path) (sys (create_dir_all path)))
    (memory_required_directories p).
Definition bootstrap_memory_paths_for_runtime_root (runtime_root : string) :
    IO disk MemoryPathError () := bootstrap_memory_paths (from_runtime_root runtime_root).

(** ** Skills *)
Definition ensure_orchestrator_skill_files (private_workspace : string) : IO disk ConfigError () :=
  let skills_root := path_join private_workspace "skills" in
  io_map_err (CCreateDir skills_root) (sys (create_dir_all skills_root)) ;;
  io_for_each (λ '(rel_path, body), ensure_file (path_join skills_root rel_path) body) SKILL_FILES.

Section store.
Context (home : option string) (canonicalize : string → result io_error string).
Context (encode_settings : Settings → result string string)
  (decode_settings : string → result string Settings)
  (encode_config : OrchestratorConfig → result string string)
  (decode_config : string → result string OrchestratorConfig).

Definition GLOBAL_STATE_DIR : string := ".direclaw".
Definition GLOBAL_SETTINGS_FILE_NAME : string := "config.yaml".
Definition default_global_config_path : result ConfigError string :=
  home ← ok_or CHomeDirectoryUnavailable home;
  Ok (path_join (path_join home GLOBAL_STATE_DIR) GLOBAL_SETTINGS_FILE_NAME).
Definition canonicalizes (path : string) : bool := is_ok (canonicalize path).
Definition lenient : ValidationOptions := {| require_shared_paths_exist := false |}.

(** ** Loading *)
(** [Settings::from_path] and [OrchestratorConfig::from_path] *)
Definition read_yaml {A} (decode : string → result string A) (path : string) : IO disk ConfigError A :=
  raw ← io_map_err (CRead path) (sys (disk_read path));
  lift (map_err (CParse path) (decode raw)).
(** [load_orchestrator_config], reading the file. *)
Definition load_config (settings : Settings) (orchestrator_id : string) :
    IO config_fs ConfigError OrchestratorConfig :=
  lift (reject_if (negb (map_contains_key orchestrator_id (s_orchestrators settings)))
          (CMissingOrchestrator orchestrator_id)) ;;
  workspace ← lift (resolve_private_workspace settings orchestrator_id);
  config ← on_files (read_yaml decode_config (path_join workspace "orchestrator.yaml"));
  lift (OrchestratorConfig_validate config settings orchestrator_id) ;;
  mret config.
(** [load_settings] of [command_support.rs] *)
Definition load_settings_error (err : ConfigError) : string :=
  match err with
  | CRead read_path source =>
      if decide (ioe_kind source = NotFound) then
        String.concat "" [ConfigError_display err; newline;
          "remediation: run `direclaw setup` to create "; read_path]
      else ConfigError_display err
  | _ => ConfigError_display err
  end.
Definition load_settings : IO config_fs string Settings :=
  path ← lift (map_err ConfigError_display default_global_config_path);
  settings ← io_map_err load_settings_error (on_files (read_yaml decode_settings path));
  lift (map_err ConfigError_display (Settings_validate canonicalizes settings lenient)) ;;
  mret settings.
Definition load_orchestrator_or_err (settings : Settings) (orchestrator_id : string) :
    IO config_fs string OrchestratorConfig :=
  io_map_err ConfigError_display (load_config settings orchestrator_id).
Definition validate_all_orchestrators (settings : Settings) : IO config_fs string () :=
  io_for_each (λ orchestrator_id, load_orchestrator_or_err settings orchestrator_id ;; mret ())
    (map_keys (s_orchestrators settings)).

(** ** Saving *)
Definition create_parent_dir (path : string) : IO disk ConfigError () :=
  match path_parent path with
  | Some parent => io_map_err (CCreateDir parent) (sys (create_dir_all parent))
  | None => mret ()
  end.
Definition write_yaml {A} (encode : A → result string string) (path : string) (value : A) :
    IO disk ConfigError () :=
  body ← lift (map_err (CEncode path) (encode value));
  io_map_err (CWrite path) (sys (disk_write path body)).
(** What a failing reconciliation is reported as. *)
Definition mount_error (parts : list string) (err : OrchestratorError) : ConfigError :=
  CSettings (String.concat "" (["failed to reconcile "] ++ parts ++ [": "; error_display err])).

Definition config_save_settings (settings : Settings) : IO config_fs ConfigError string :=
  lift (Settings_validate canonicalizes settings lenient) ;;
  path ← lift default_global_config_path;
  on_files (create_parent_dir path) ;;
  on_files (write_yaml encode_settings path settings) ;;
  io_map_err (mount_error ["shared workspace mounts after saving settings"])
    (on_mounts (reconcile_all_orchestrator_shared_mounts canonicalize settings)) ;;
  io_map_err (mount_error ["orchestrator skill mounts after saving settings"])
    (on_mounts (reconcile_all_orchestrator_skill_mounts canonicalize settings)) ;;
  mret path.
Definition memory_path_error (err : MemoryPathError) : ConfigError :=
  match err with MemoryCanonicalize path source | MemoryCreateDir path source => CCreateDir path source end.
Definition config_save_orchestrator_config (settings : Settings) (orchestrator_id : string)
    (orchestrator : OrchestratorConfig) : IO config_fs ConfigError string :=
  lift (OrchestratorConfig_validate orchestrator settings orchestrator_id) ;;
  private_workspace ← lift (resolve_private_workspace settings orchestrator_id);
  on_files (io_map_err (CCreateDir private_workspace) (sys (create_dir_all private_workspace))) ;;
  on_files (io_map_err memory_path_error (bootstrap_memory_paths_for_runtime_root private_workspace)) ;;
  on_files (ensure_orchestrator_prompt_templates private_workspace orchestrator) ;;
  on_files (ensure_orchestrator_skill_files private_workspace) ;;
  let path := path_join private_workspace "orchestrator.yaml" in
  on_files (write_yaml encode_config path orchestrator) ;;
  io_map_err (mount_error ["shared workspace mounts for orchestrator `"; orchestrator_id; "`"])
    (on_mounts (reconcile_orchestrator_shared_mounts canonicalize settings orchestrator_id)) ;;
  io_map_err (mount_error ["skill mounts for orchestrator `"; orchestrator_id; "`"])
    (on_mounts (reconcile_orchestrator_skill_mounts canonicalize settings orchestrator_id)) ;;
  mret path.

Definition config_save_orchestrator_registry (settings : Settings)
    (registry : list (string * OrchestratorConfig)) : IO config_fs ConfigError string :=
  saved ← io_for_fold (λ (_ : option string) '(orchestrator_id, orchestrator),
      path ← config_save_orchestrator_config settings orchestrator_id orchestrator;
      mret (Some path)) registry None;
  lift (ok_or (CSettings "no orchestrator configs to save") saved).
Definition config_remove_orchestrator_config (settings : Settings) (orchestrator_id : string) :
    IO config_fs ConfigError () :=
  private_workspace ← lift (resolve_private_workspace settings orchestrator_id);
  let path := path_join private_workspace "orchestrator.yaml" in
  exists_ ← on_files (path_exists (disk_exists path));
  if negb exists_ then mret ()
  else on_files (io_map_err (CWrite path) (sys (disk_remove path))).

(** The wrappers of [command_support.rs]. *)
Definition save_settings (settings : Settings) : IO config_fs string string :=
  io_map_err ConfigError_display (config_save_settings settings).
Definition save_orchestrator_config (settings : Settings) (orchestrator_id : string)
    (orchestrator : OrchestratorConfig) : IO config_fs string string :=
  io_map_err ConfigError_display (config_save_orchestrator_config settings orchestrator_id orchestrator).
Definition save_orchestrator_registry (settings : Settings)
    (registry : list (string * OrchestratorConfig)) : IO config_fs string string :=
  io_map_err ConfigError_display (config_save_orchestrator_registry settings registry).
Definition remove_orchestrator_config (settings : Settings) (orchestrator_id : string) :
    IO config_fs string () :=
  io_map_err ConfigError_display (config_remove_orchestrator_config settings orchestrator_id).
End store.
(** [initial_orchestrator_config] panics for an unknown provider. *)
Definition default_orchestrator_config (id : string) : option OrchestratorConfig :=
  initial_orchestrator_config id "anthropic" "sonnet" Minimal.
