(* ===== verification/ConfigCommands.v ===== *)
(** * The configuration commands

    [src/src/app/command_handlers/orchestrators.rs], [agents.rs],
    [channel_profiles.rs] and the configuration part of [workflows.rs]: commands of the
    command line (and of the functions the selector may call) that read the
    configuration files, change one thing and write them back.  The YAML of one
    workflow is a parameter besides those of [ConfigStore]. *)
From S2P Require Import Prelude RustStr RustPath Io Json TypedFields Config OrchestratorFile OrchestratorError Templates Mounts ConfigStore.
From Stdlib Require Import Ascii.

Local Open Scope string_scope.
Local Open Scope list_scope.

(** ** Changes to the values *)
Definition with_orchestrators (orchestrators : list (string * SettingsOrchestrator)) (s : Settings) :
    Settings := {|
  s_workspaces_path := s_workspaces_path s; s_shared_workspaces := s_shared_workspaces s;
  s_orchestrators := orchestrators; s_channel_profiles := s_channel_profiles s;
  s_heartbeat_interval := s_heartbeat_interval s; s_channels := s_channels s;
  s_auth_sync := s_auth_sync s; s_memory := s_memory s; s_local_llm := s_local_llm s |}.
Definition with_channel_profiles (profiles : list (string * ChannelProfile)) (s : Settings) :
    Settings := {|
  s_workspaces_path := s_workspaces_path s; s_shared_workspaces := s_shared_workspaces s;
  s_orchestrators := s_orchestrators s; s_channel_profiles := profiles;
  s_heartbeat_interval := s_heartbeat_interval s; s_channels := s_channels s;
  s_auth_sync := s_auth_sync s; s_memory := s_memory s; s_local_llm := s_local_llm s |}.
Definition set_orchestrator (id : string) (entry : SettingsOrchestrator) (s : Settings) : Settings :=
  with_orchestrators (map_insert id entry (s_orchestrators s)) s.
Definition set_agents (agents : list (string * AgentConfig)) (c : OrchestratorConfig) :
    OrchestratorConfig := {|
  oc_id := oc_id c; oc_selector_agent := oc_selector_agent c;
  oc_default_workflow := oc_default_workflow c;
  oc_selection_max_retries := oc_selection_max_retries c;
  oc_selector_timeout_seconds := oc_selector_timeout_seconds c;
  oc_agents := agents; oc_workflows := oc_workflows c;
  oc_workflow_orchestration := oc_workflow_orchestration c |}.
Definition set_workflows (workflows : list WorkflowConfig) (c : OrchestratorConfig) :
    OrchestratorConfig := {|
  oc_id := oc_id c; oc_selector_agent := oc_selector_agent c;
  oc_default_workflow := oc_default_workflow c;
  oc_selection_max_retries := oc_selection_max_retries c;
  oc_selector_timeout_seconds := oc_selector_timeout_seconds c;
  oc_agents := oc_agents c; oc_workflows := workflows;
  oc_workflow_orchestration := oc_workflow_orchestration c |}.
(** The three settings of the selection. *)
Definition set_selection (selector_agent default_workflow : string) (selection_max_retries : Z)
    (c : OrchestratorConfig) : OrchestratorConfig := {|
  oc_id := oc_id c; oc_selector_agent := selector_agent;
  oc_default_workflow := default_workflow;
  oc_selection_max_retries := selection_max_retries;
  oc_selector_timeout_seconds := oc_selector_timeout_seconds c;
  oc_agents := oc_agents c; oc_workflows := oc_workflows c;
  oc_workflow_orchestration := oc_workflow_orchestration c |}.

(** ** Arguments *)
Definition quoted (before name after : string) : string := String.concat "" [before; name; after].
Definition lines (ls : list string) : string := String.concat (String "010" "") ls.
Definition workflow_exists (workflow_id : string) (c : OrchestratorConfig) : bool :=
  existsb (λ w, String.eqb (wf_id w) workflow_id) (oc_workflows c).

Definition parse_bool (raw : string) : result string bool :=
  if String.eqb raw "true" then Ok true
  else if String.eqb raw "false" then Ok false
  else Err (quoted "expected boolean true|false, got `" raw "`").
Definition parse_thread_response_mode (raw : string) : result string ThreadResponseMode :=
  let other := trim raw in
  if String.eqb other "always_reply" then Ok AlwaysReply
  else if String.eqb other "selective_reply" then Ok SelectiveReply
  else Err (quoted "expected thread response mode always_reply|selective_reply, got `" other "`").
Definition ThreadResponseMode_word (mode : ThreadResponseMode) : string :=
  match mode with AlwaysReply => "always_reply" | SelectiveReply => "selective_reply" end.

(** The options of [channel-profile add]. *)
Record profile_options := {
  po_slack_app_user_id : option string;
  po_require_mention : option bool;
  po_thread_response_mode : ThreadResponseMode;
}.
Fixpoint parse_profile_options (args : list string) (o : profile_options) :
    result string profile_options :=
  match args with
  | [] => Ok o
  | option_ :: rest =>
      if String.eqb option_ "--slack-app-user-id" then
        match rest with
        | v :: rest' => parse_profile_options rest' {| po_slack_app_user_id := Some v;
            po_require_mention := po_require_mention o;
            po_thread_response_mode := po_thread_response_mode o |}
        | [] => Err "missing value for --slack-app-user-id"
        end
      else if String.eqb option_ "--require-mention-in-channels" then
        match rest with
        | v :: rest' =>
            require_mention ← parse_bool v;
            parse_profile_options rest' {| po_slack_app_user_id := po_slack_app_user_id o;
              po_require_mention := Some require_mention;
              po_thread_response_mode := po_thread_response_mode o |}
        | [] => Err "missing value for --require-mention-in-channels"
        end
      else if String.eqb option_ "--thread-response-mode" then
        match rest with
        | v :: rest' =>
            mode ← parse_thread_response_mode v;
            parse_profile_options rest' {| po_slack_app_user_id := po_slack_app_user_id o;
              po_require_mention := po_require_mention o; po_thread_response_mode := mode |}
        | [] => Err "missing value for --thread-response-mode"
        end
      else Err (quoted "unknown option `" option_ "`")
  end.

Section commands.
Context (home : option string) (canonicalize : string → result io_error string).
Context (encode_settings : Settings → result string string)
  (decode_settings : string → result string Settings)
  (encode_config : OrchestratorConfig → result string string)
  (decode_config : string → result string OrchestratorConfig)
  (encode_workflow : WorkflowConfig → result string string).
Local Abbreviation load := (load_settings home canonicalize decode_settings).
Local Abbreviation save := (save_settings home canonicalize encode_settings).
Local Abbreviation load_orchestrator := (load_orchestrator_or_err decode_config).
Local Abbreviation save_orchestrator := (save_orchestrator_config canonicalize encode_config).
Local Abbreviation command := (IO config_fs string string).

(** [return Err(..)] unless the condition holds. *)
Definition check (b : bool) (reason : string) : IO config_fs string () :=
  lift (reject_if (negb b) reason).
Definition or_err {A} (reason : string) (o : option A) : IO config_fs string A :=
  lift (ok_or reason o).
(** The subcommand [args[0]], on the arguments after it. *)
Definition subcommand (family choices : string) (arms : list (string * (list string → command)))
    (args : list string) : command :=
  match args with
  | [] => throw (String.concat "" ["usage: "; family; " <"; choices; "> ..."])
  | name :: rest =>
      match map_get name arms with
      | Some handler => handler rest
      | None => throw (String.concat "" ["unknown "; family; " subcommand `"; name; "`"])
      end
  end.
Definition arity1 (usage : string) (handler : string → command) (rest : list string) : command :=
  match rest with [a] => handler a | _ => throw ("usage: " +:+ usage) end.
Definition arity2 (usage : string) (handler : string → string → command) (rest : list string) : command :=
  match rest with [a; b] => handler a b | _ => throw ("usage: " +:+ usage) end.

(** ** [orchestrator] *)
Definition orchestrator_list (_ : list string) : command :=
  settings ← load;
  mret (lines (map_keys (s_orchestrators settings))).
Definition orchestrator_add (id : string) : command :=
  settings ← load;
  check (negb (map_contains_key id (s_orchestrators settings)))
    (quoted "orchestrator `" id "` already exists") ;;
  let settings := set_orchestrator id {| so_private_workspace := None; so_shared_access := [] |} settings in
  save settings ;;
  private_workspace ← lift (map_err ConfigError_display (resolve_private_workspace settings id));
  io_map_err (λ e, String.concat "" ["failed to create "; private_workspace; ": "; ioe_display e])
    (on_files (sys (create_dir_all private_workspace))) ;;
  orchestrator ← or_err "unreachable: the default provider parses" (default_orchestrator_config id);
  path ← save_orchestrator settings id orchestrator;
  mret (lines ["orchestrator added"; "id=" +:+ id; "private_workspace=" +:+ private_workspace;
               "config=" +:+ path]).
Definition orchestrator_show (id : string) : command :=
  settings ← load;
  entry ← or_err (quoted "unknown orchestrator `" id "`") (map_get id (s_orchestrators settings));
  private_workspace ← lift (map_err ConfigError_display (resolve_private_workspace settings id));
  mret (lines ["id=" +:+ id; "private_workspace=" +:+ private_workspace;
               "shared_access=" +:+ String.concat "," (so_shared_access entry)]).
Definition orchestrator_remove (id : string) : command :=
  settings ← load;
  check (map_contains_key id (s_orchestrators settings)) (quoted "unknown orchestrator `" id "`") ;;
  let settings := with_orchestrators (map_remove id (s_orchestrators settings)) settings in
  save settings ;;
  remove_orchestrator_config settings id ;;
  mret (lines ["orchestrator removed"; "id=" +:+ id]).
Definition set_private_workspace (id path : string) : command :=
  settings ← load;
  orchestrator ← load_orchestrator settings id;
  check (is_absolute path) "private workspace path must be absolute" ;;
  entry ← or_err (quoted "unknown orchestrator `" id "`") (map_get id (s_orchestrators settings));
  let settings := set_orchestrator id
    {| so_private_workspace := Some path; so_shared_access := so_shared_access entry |} settings in
  save settings ;;
  save_orchestrator settings id orchestrator ;;
  mret (lines ["orchestrator updated"; "id=" +:+ id; "private_workspace=" +:+ path]).
Definition grant_shared_access (id shared_key : string) : command :=
  settings ← load;
  check (map_contains_key shared_key (s_shared_workspaces settings))
    (quoted "invalid shared key `" shared_key "`") ;;
  entry ← or_err (quoted "unknown orchestrator `" id "`") (map_get id (s_orchestrators settings));
  let granted := so_shared_access entry in
  let settings := set_orchestrator id {|
    so_private_workspace := so_private_workspace entry;
    so_shared_access := if bool_decide (shared_key ∈ granted) then granted else granted ++ [shared_key]
  |} settings in
  save settings ;;
  mret (lines ["shared access granted"; "id=" +:+ id; "shared_key=" +:+ shared_key]).
Definition revoke_shared_access (id shared_key : string) : command :=
  settings ← load;
  entry ← or_err (quoted "unknown orchestrator `" id "`") (map_get id (s_orchestrators settings));
  let settings := set_orchestrator id {|
    so_private_workspace := so_private_workspace entry;
    so_shared_access := filter (λ v, v ≠ shared_key) (so_shared_access entry) |} settings in
  save settings ;;
  mret (lines ["shared access revoked"; "id=" +:+ id; "shared_key=" +:+ shared_key]).
Definition choose_selector_agent (id agent_id : string) : command :=
  settings ← load;
  orchestrator ← load_orchestrator settings id;
  check (map_contains_key agent_id (oc_agents orchestrator)) (quoted "unknown agent `" agent_id "`") ;;
  save_orchestrator settings id (set_selection agent_id (oc_default_workflow orchestrator)
    (oc_selection_max_retries orchestrator) orchestrator) ;;
  mret (lines ["selector updated"; "id=" +:+ id; "selector_agent=" +:+ agent_id]).
Definition set_default_workflow (id workflow_id : string) : command :=
  settings ← load;
  orchestrator ← load_orchestrator settings id;
  check (workflow_exists workflow_id orchestrator) (quoted "invalid workflow id `" workflow_id "`") ;;
  save_orchestrator settings id (set_selection (oc_selector_agent orchestrator) workflow_id
    (oc_selection_max_retries orchestrator) orchestrator) ;;
  mret (lines ["default workflow updated"; "id=" +:+ id; "default_workflow=" +:+ workflow_id]).
Definition set_selection_max_retries (id count : string) : command :=
  settings ← load;
  count ← or_err "count must be a positive integer" (parse_u32 count);
  check (negb (bool_decide (count = 0%Z))) "count must be >= 1" ;;
  orchestrator ← load_orchestrator settings id;
  save_orchestrator settings id (set_selection (oc_selector_agent orchestrator)
    (oc_default_workflow orchestrator) count orchestrator) ;;
  mret (lines ["selection retries updated"; "id=" +:+ id; "count=" +:+ fmt_int count]).
Definition cmd_orchestrator : list string → command :=
  subcommand "orchestrator" ("list|add|show|remove|set-private-workspace|grant-shared-access|"
      +:+ "revoke-shared-access|set-selector-agent|set-default-workflow|set-selection-max-retries")
    [("list", orchestrator_list);
     ("add", arity1 "orchestrator add <orchestrator_id>" orchestrator_add);
     ("show", arity1 "orchestrator show <orchestrator_id>" orchestrator_show);
     ("remove", arity1 "orchestrator remove <orchestrator_id>" orchestrator_remove);
     ("set-private-workspace", arity2 "orchestrator set-private-workspace <orchestrator_id> <abs_path>"
        set_private_workspace);
     ("grant-shared-access", arity2 "orchestrator grant-shared-access <orchestrator_id> <shared_key>"
        grant_shared_access);
     ("revoke-shared-access", arity2 "orchestrator revoke-shared-access <orchestrator_id> <shared_key>"
        revoke_shared_access);
     ("set-selector-agent", arity2 "orchestrator set-selector-agent <orchestrator_id> <agent_id>"
        choose_selector_agent);
     ("set-default-workflow", arity2 "orchestrator set-default-workflow <orchestrator_id> <workflow_id>"
        set_default_workflow);
     ("set-selection-max-retries",
        arity2 "orchestrator set-selection-max-retries <orchestrator_id> <count>"
        set_selection_max_retries)].

(** ** [orchestrator-agent] *)
Definition fresh_agent : AgentConfig := agent_config Anthropic "sonnet" false.
Definition agent_list (id : string) : command :=
  settings ← load;
  orchestrator ← load_orchestrator settings id;
  mret (lines (map_keys (oc_agents orchestrator))).
Definition agent_add (orchestrator_id agent_id : string) : command :=
  settings ← load;
  orchestrator ← load_orchestrator settings orchestrator_id;
  check (negb (map_contains_key agent_id (oc_agents orchestrator)))
    (quoted "agent `" agent_id "` already exists") ;;
  save_orchestrator settings orchestrator_id
    (set_agents (map_insert agent_id fresh_agent (oc_agents orchestrator)) orchestrator) ;;
  mret (lines ["agent added"; "orchestrator=" +:+ orchestrator_id; "agent=" +:+ agent_id]).
Definition agent_show (id agent_id : string) : command :=
  settings ← load;
  orchestrator ← load_orchestrator settings id;
  agent ← or_err (quoted "unknown agent `" agent_id "`") (map_get agent_id (oc_agents orchestrator));
  mret (lines ["id=" +:+ agent_id; "provider=" +:+ ConfigProviderKind_as_str (ag_provider agent);
               "model=" +:+ ag_model agent;
               "can_orchestrate_workflows=" +:+
                 (if ag_can_orchestrate_workflows agent then "true" else "false")]).
Definition agent_remove (orchestrator_id agent_id : string) : command :=
  settings ← load;
  orchestrator ← load_orchestrator settings orchestrator_id;
  check (map_contains_key agent_id (oc_agents orchestrator)) (quoted "unknown agent `" agent_id "`") ;;
  save_orchestrator settings orchestrator_id
    (set_agents (map_remove agent_id (oc_agents orchestrator)) orchestrator) ;;
  mret (lines ["agent removed"; "orchestrator=" +:+ orchestrator_id; "agent=" +:+ agent_id]).
Definition agent_reset (orchestrator_id agent_id : string) : command :=
  settings ← load;
  orchestrator ← load_orchestrator settings orchestrator_id;
  check (map_contains_key agent_id (oc_agents orchestrator)) (quoted "unknown agent `" agent_id "`") ;;
  save_orchestrator settings orchestrator_id
    (set_agents (map_insert agent_id fresh_agent (oc_agents orchestrator)) orchestrator) ;;
  mret (lines ["agent reset"; "orchestrator=" +:+ orchestrator_id; "agent=" +:+ agent_id]).
Definition cmd_orchestrator_agent : list string → command :=
  subcommand "orchestrator-agent" "list|add|show|remove|reset"
    [("list", arity1 "orchestrator-agent list <orchestrator_id>" agent_list);
     ("add", arity2 "orchestrator-agent add <orchestrator_id> <agent_id>" agent_add);
     ("show", arity2 "orchestrator-agent show <orchestrator_id> <agent_id>" agent_show);
     ("remove", arity2 "orchestrator-agent remove <orchestrator_id> <agent_id>" agent_remove);
     ("reset", arity2 "orchestrator-agent reset <orchestrator_id> <agent_id>" agent_reset)].

(** ** [channel-profile] *)
Definition profile_list (_ : list string) : command :=
  settings ← load;
  mret (lines (map_keys (s_channel_profiles settings))).
Definition profile_add (rest : list string) : command :=
  match rest with
  | id :: channel :: orchestrator_id :: options =>
      settings ← load;
      channel ← lift (ChannelKind_parse channel);
      check (map_contains_key orchestrator_id (s_orchestrators settings))
        (quoted "unknown orchestrator `" orchestrator_id "`") ;;
      check (negb (map_contains_key id (s_channel_profiles settings)))
        (quoted "channel profile `" id "` already exists") ;;
      options ← lift (parse_profile_options options
        {| po_slack_app_user_id := None; po_require_mention := None;
           po_thread_response_mode := AlwaysReply |});
      save (with_channel_profiles (map_insert id {|
        cp_channel := channel; cp_orchestrator_id := orchestrator_id; cp_identity_mention_tokens := [];
        cp_slack_app_user_id := po_slack_app_user_id options;
        cp_require_mention_in_channels := po_require_mention options;
        cp_thread_response_mode := po_thread_response_mode options
      |} (s_channel_profiles settings)) settings) ;;
      mret (lines ["channel profile added"; "id=" +:+ id])
  | _ => throw ("usage: channel-profile add <channel_profile_id> <channel> <orchestrator_id> "
           +:+ "[--slack-app-user-id <id>] [--require-mention-in-channels <bool>] "
           +:+ "[--thread-response-mode <always_reply|selective_reply>]")
  end.
Definition profile_show (id : string) : command :=
  settings ← load;
  profile ← or_err (quoted "unknown channel profile `" id "`")
    (map_get id (s_channel_profiles settings));
  let mention_policy := match cp_require_mention_in_channels profile with
                        | Some v => if (v : bool) then "true" else "false"
                        | None => "n/a"
                        end in
  mret (lines ["id=" +:+ id; "channel=" +:+ ChannelKind_as_str (cp_channel profile);
    "orchestrator_id=" +:+ cp_orchestrator_id profile;
    "slack_app_user_id=" +:+ from_option Datatypes.id "n/a" (cp_slack_app_user_id profile);
    "require_mention_in_channels=" +:+ mention_policy;
    "thread_response_mode=" +:+ ThreadResponseMode_word (cp_thread_response_mode profile)]).
Definition profile_remove (id : string) : command :=
  settings ← load;
  check (map_contains_key id (s_channel_profiles settings)) (quoted "unknown channel profile `" id "`") ;;
  save (with_channel_profiles (map_remove id (s_channel_profiles settings)) settings) ;;
  mret (lines ["channel profile removed"; "id=" +:+ id]).
Definition set_profile_orchestrator (profile_id orchestrator_id : string) : command :=
  settings ← load;
  check (map_contains_key orchestrator_id (s_orchestrators settings))
    (quoted "unknown orchestrator `" orchestrator_id "`") ;;
  profile ← or_err (quoted "unknown channel profile `" profile_id "`")
    (map_get profile_id (s_channel_profiles settings));
  save (with_channel_profiles (map_insert profile_id {|
    cp_channel := cp_channel profile; cp_orchestrator_id := orchestrator_id;
    cp_identity_mention_tokens := cp_identity_mention_tokens profile;
    cp_slack_app_user_id := cp_slack_app_user_id profile;
    cp_require_mention_in_channels := cp_require_mention_in_channels profile;
    cp_thread_response_mode := cp_thread_response_mode profile
  |} (s_channel_profiles settings)) settings) ;;
  mret (lines ["channel profile updated"; "id=" +:+ profile_id; "orchestrator_id=" +:+ orchestrator_id]).
Definition cmd_channel_profile : list string → command :=
  subcommand "channel-profile" "list|add|show|remove|set-orchestrator"
    [("list", profile_list);
     ("add", profile_add);
     ("show", arity1 "channel-profile show <channel_profile_id>" profile_show);
     ("remove", arity1 "channel-profile remove <channel_profile_id>" profile_remove);
     ("set-orchestrator",
        arity2 "channel-profile set-orchestrator <channel_profile_id> <orchestrator_id>"
        set_profile_orchestrator)].

(** ** [workflow]: the configuration of workflows *)
Definition workflow_list (id : string) : command :=
  settings ← load;
  orchestrator ← load_orchestrator settings id;
  mret (lines (wf_id <$> oc_workflows orchestrator)).
Definition workflow_show (id workflow_id : string) : command :=
  settings ← load;
  orchestrator ← load_orchestrator settings id;
  workflow ← or_err (quoted "invalid workflow id `" workflow_id "`")
    (List.find (λ w, String.eqb (wf_id w) workflow_id) (oc_workflows orchestrator));
  lift (map_err (λ e, "failed to encode workflow: " +:+ e) (encode_workflow workflow)).
Definition new_workflow (workflow_id tag selector : string) : WorkflowConfig := {|
  wf_id := workflow_id; wf_version := 1; wf_description := workflow_id +:+ " workflow";
  wf_tags := [tag]; wf_inputs := []; wf_limits := None;
  wf_steps := [{|
    ws_id := "step_1"; ws_step_type := AgentTask; ws_agent := selector;
    ws_prompt := default_prompt_rel_path workflow_id "step_1"; ws_prompt_type := FileOutput;
    ws_workspace_mode := OrchestratorWorkspace; ws_next := None; ws_on_approve := None;
    ws_on_reject := None; ws_outputs := default_step_output_contract "agent_task";
    ws_output_files := default_step_output_files "agent_task";
    ws_final_output_priority := default_step_output_priority "agent_task"; ws_limits := None |}] |}.
Definition workflow_add (orchestrator_id workflow_id : string) : command :=
  settings ← load;
  lift (WorkflowId_parse workflow_id) ;;
  orchestrator ← load_orchestrator settings orchestrator_id;
  check (negb (workflow_exists workflow_id orchestrator)) (quoted "workflow `" workflow_id "` already exists") ;;
  tag ← lift (normalize_workflow_tag workflow_id);
  save_orchestrator settings orchestrator_id
    (set_workflows (oc_workflows orchestrator
       ++ [new_workflow workflow_id tag (oc_selector_agent orchestrator)]) orchestrator) ;;
  mret (lines ["workflow added"; "orchestrator=" +:+ orchestrator_id; "workflow=" +:+ workflow_id]).
Definition workflow_remove (orchestrator_id workflow_id : string) : command :=
  settings ← load;
  orchestrator ← load_orchestrator settings orchestrator_id;
  check (negb (String.eqb (oc_default_workflow orchestrator) workflow_id))
    "cannot remove default workflow" ;;
  let workflows := filter (λ w, wf_id w ≠ workflow_id) (oc_workflows orchestrator) in
  check (negb (Nat.eqb (length workflows) (length (oc_workflows orchestrator))))
    (quoted "invalid workflow id `" workflow_id "`") ;;
  save_orchestrator settings orchestrator_id (set_workflows workflows orchestrator) ;;
  mret (lines ["workflow removed"; "orchestrator=" +:+ orchestrator_id; "workflow=" +:+ workflow_id]).
(** [cmd_workflow]; [workflow_run] has the subcommands on runs. *)
Definition cmd_workflow (on_runs : list (string * (list string → command))) : list string → command :=
  subcommand "workflow" "list|show|add|remove|run|status|progress|cancel"
    ([("list", arity1 "workflow list <orchestrator_id>" workflow_list);
      ("show", arity2 "workflow show <orchestrator_id> <workflow_id>" workflow_show);
      ("add", arity2 "workflow add <orchestrator_id> <workflow_id>" workflow_add);
      ("remove", arity2 "workflow remove <orchestrator_id> <workflow_id>" workflow_remove)]
     ++ on_runs).
End commands.
