(* ===== verification/ConfigCommandGuarantees.v ===== *)
(** * What the configuration commands guarantee

    Theorems about [ConfigStore] and [ConfigCommands]: which files saving touches, that
    the commands keep the stored configuration usable whatever I/O fails, and where
    they do not. *)
From S2P Require Import Prelude RustStr RustPath Io Json TypedFields Config OrchestratorFile OrchestratorError Templates Assets Prompts Mounts ConfigStore ConfigCommands.

Local Open Scope string_scope.
Local Open Scope list_scope.

(** ** What saving leaves alone *)
(** A prompt or skill file of a workspace. *)
Definition managed (workspace path : string) : Prop :=
  ∃ dir rel, dir ∈ [PROMPTS_DIR; "skills"] ∧ is_absolute rel = false
    ∧ path = path_join (path_join workspace dir) rel.
Definition spares (workspace : string) (d d' : disk) : Prop :=
  ∀ path, ¬ managed workspace path → d' !! path = d !! path.
#[export] Instance spares_preorder workspace : PreOrder (spares workspace).
Proof. split; [by intros d|]. intros d1 d2 d3 H1 H2 path Hp. by rewrite (H2 path Hp), H1. Qed.

Lemma evolves_lift_bind {S E A B} (R : S → S → Prop) `{!PreOrder R} (r : result E A) (f : A → IO S E B) :
  (∀ a, r = Ok a → evolves R (f a)) → evolves R (lift r ≫= f).
Proof. intros Hf w. rewrite bind_run. destruct r as [a|e]; simpl; [by apply Hf|reflexivity]. Qed.
Lemma evolves_path_exists {S E} (R : S → S → Prop) `{!PreOrder R} (probe : S → S * result io_error ()) :
  (∀ s, (probe s).1 = s) → evolves R (path_exists probe : IO S E bool).
Proof.
  intros Hp. apply evolves_fmap, evolves_attempt, evolves_sys; [apply _|].
  intros s. rewrite Hp. reflexivity.
Qed.

Section spared.
Context (workspace : string).
Local Abbreviation R := (spares workspace).
Lemma spares_create_dir path : evolves R (sys (create_dir_all path)).
Proof. apply evolves_sys; [apply _|]. reflexivity. Qed.
Lemma spares_write path body : managed workspace path → evolves R (sys (disk_write path body)).
Proof.
  intros Hm. apply evolves_sys; [apply _|]. intros d p Hp. unfold disk in *. simpl.
  apply lookup_insert_ne. by intros ->.
Qed.
Lemma spares_ensure_file path body : managed workspace path → evolves R (ensure_file path body).
Proof.
  intros Hm. unfold ensure_file. apply evolves_bind; [apply _|by apply evolves_path_exists; [apply _|]|].
  intros [|]; [apply evolves_ret; apply _|]. apply evolves_bind; [apply _| |intros _].
  - destruct (path_parent path); [|apply evolves_ret; apply _].
    apply evolves_map_err, spares_create_dir.
  - by apply evolves_map_err, spares_write.
Qed.
Lemma managed_under dir rel : dir ∈ [PROMPTS_DIR; "skills"] → is_absolute rel = false →
  managed workspace (path_join (path_join workspace dir) rel).
Proof. intros Hd Hr. by exists dir, rel. Qed.
Lemma spares_prompts c : evolves R (ensure_orchestrator_prompt_templates workspace c).
Proof.
  assert (∀ path p, resolve_prompt_template_path (path_join workspace PROMPTS_DIR) path = Ok p →
    managed workspace p) as Hresolved.
  { intros path p. unfold resolve_prompt_template_path, parse_relative_prompt_path.
    intros (rel & (? & _ & (? & Hrel & (? & _ & [= <-])%bind_Ok)%bind_Ok)%bind_Ok & [= <-])%bind_Ok.
    apply managed_under; [by left|]. apply reject_if_Ok in Hrel. done. }
  unfold ensure_orchestrator_prompt_templates.
  apply evolves_bind; [apply _|apply evolves_map_err, spares_create_dir|intros _].
  apply evolves_bind; [apply _|apply spares_ensure_file, managed_under; [by left|done]|intros _].
  apply evolves_bind; [apply _|apply spares_ensure_file, managed_under; [by left|done]|intros _].
  apply evolves_for_each; [apply _|intros workflow]. apply evolves_for_each; [apply _|intros step].
  unfold ensure_step. destruct (negb _); [apply evolves_ret; apply _|].
  apply evolves_lift_bind; [apply _|intros prompt_path Hp%map_err_Ok%Hresolved].
  apply evolves_lift_bind; [apply _|intros context_path Hc%map_err_Ok%Hresolved].
  destruct (template_content _ step) as [prompt_body context_body].
  apply evolves_bind; [apply _| |intros _]; by apply spares_ensure_file.
Qed.
Lemma spares_skills : evolves R (ensure_orchestrator_skill_files workspace).
Proof.
  unfold ensure_orchestrator_skill_files.
  apply evolves_bind; [apply _|apply evolves_map_err, spares_create_dir|intros _].
  assert (Forall (λ entry, is_absolute entry.1 = false) SKILL_FILES) as Hrel
    by (repeat constructor).
  revert Hrel. generalize SKILL_FILES. intros files. induction files as [|[rel body] files IH];
    intros Hall; [apply evolves_ret; apply _|]. apply Forall_cons in Hall as [Hrel Hall].
  apply (evolves_bind R); [|intros _; by apply IH].
  apply spares_ensure_file, managed_under; [by right; left|done].
Qed.
Lemma spares_memory : evolves R (bootstrap_memory_paths_for_runtime_root workspace).
Proof.
  apply evolves_for_each; [apply _|]. intros path. apply evolves_map_err, spares_create_dir.
Qed.
End spared.

(** ** The stored configuration *)
Definition config_file (workspace : string) : string := path_join workspace "orchestrator.yaml".

Section guarantees.
Context (home : option string) (canonicalize : string → result io_error string).
Context (encode_settings : Settings → result string string)
  (decode_settings : string → result string Settings)
  (encode_config : OrchestratorConfig → result string string)
  (decode_config : string → result string OrchestratorConfig)
  (encode_workflow : WorkflowConfig → result string string).
Local Abbreviation global_path := (default_global_config_path home).
Local Abbreviation valid s := (Settings_validate (canonicalizes canonicalize) s lenient).

(** What [load_settings] and [load_orchestrator_config] find. *)
Definition stored_settings (d : disk) (s : Settings) : Prop :=
  ∃ path body, global_path = Ok path ∧ d !! path = Some body ∧ decode_settings body = Ok s
    ∧ valid s = Ok ().
Definition stored_config (d : disk) (s : Settings) (id : string) (c : OrchestratorConfig) : Prop :=
  map_contains_key id (s_orchestrators s) = true ∧
  ∃ workspace body, resolve_private_workspace s id = Ok workspace
    ∧ d !! config_file workspace = Some body ∧ decode_config body = Ok c
    ∧ OrchestratorConfig_validate c s id = Ok ().
(** No two configuration files are the same file, and none is a prompt or a skill. *)
Record apart (s : Settings) : Prop := {
  apart_global : ∀ id workspace path, resolve_private_workspace s id = Ok workspace →
    global_path = Ok path → path ≠ config_file workspace ∧ ¬ managed workspace path;
  apart_managed : ∀ id1 id2 ws1 ws2, resolve_private_workspace s id1 = Ok ws1 →
    resolve_private_workspace s id2 = Ok ws2 → ¬ managed ws1 (config_file ws2);
  apart_configs : ∀ id1 id2 ws1 ws2, resolve_private_workspace s id1 = Ok ws1 →
    resolve_private_workspace s id2 = Ok ws2 → id1 ≠ id2 → config_file ws1 ≠ config_file ws2;
}.
(** The settings load, and so does the configuration of every orchestrator (but some). *)
Definition usable_but (missing : string → Prop) (d : disk) (s : Settings) : Prop :=
  stored_settings d s ∧ apart s
  ∧ ∀ id, map_contains_key id (s_orchestrators s) = true → ¬ missing id → ∃ c, stored_config d s id c.
Definition usable : disk → Settings → Prop := usable_but (λ _, False).
Definition config_usable (fs : config_fs) : Prop := ∃ s, usable (cf_disk fs) s.

Lemma stored_settings_fun d s1 s2 : stored_settings d s1 → stored_settings d s2 → s1 = s2.
Proof. intros (p & b & ? & ? & ? & _) (p' & b' & ? & ? & ? & _). congruence. Qed.
Lemma resolve_known s id ws : resolve_private_workspace s id = Ok ws →
  map_contains_key id (s_orchestrators s) = true.
Proof.
  unfold resolve_private_workspace, map_contains_key. intros (? & _ & H)%bind_Ok.
  apply bind_Ok in H as (entry & H%ok_or_Ok & _). by rewrite H.
Qed.

(** *** Loading *)
Lemma wp_on_files {E A} (m : IO disk E A) (Φ : result E A → config_fs → Prop) fs :
  wp false m (λ r d, Φ r {| cf_disk := d; cf_mounts := cf_mounts fs |}) (cf_disk fs) →
  wp false (on_files m) Φ fs.
Proof. intros H. unfold on_files. by apply wp_zoom. Qed.
Lemma wp_on_mounts {E A} (m : IO mounts E A) (Φ : result E A → config_fs → Prop) fs :
  (∀ r mnt, Φ r {| cf_disk := cf_disk fs; cf_mounts := mnt |}) → wp false (on_mounts m) Φ fs.
Proof. intros H. unfold on_mounts. apply wp_zoom, wp_any. intros r m'. apply H. Qed.
Lemma same_fs fs : {| cf_disk := cf_disk fs; cf_mounts := cf_mounts fs |} = fs.
Proof. by destruct fs. Qed.

Lemma wp_read_yaml {A} (decode : string → result string A) path (Φ : result ConfigError A → config_fs → Prop) fs :
  (∀ e, Φ (Err e) fs) →
  (∀ body a, cf_disk fs !! path = Some body → decode body = Ok a → Φ (Ok a) fs) →
  wp false (on_files (read_yaml decode path)) Φ fs.
Proof.
  intros He Ho. apply wp_on_files. unfold read_yaml.
  apply wp_bind, wp_map_err, wp_sys; simpl; [intros; rewrite same_fs; apply He|].
  destruct (cf_disk fs !! path) as [body|] eqn:Hb; simpl; [|rewrite same_fs; apply He].
  apply wp_lift. rewrite same_fs. destruct (decode body) as [a|e] eqn:Hd; simpl; [|apply He]. eauto.
Qed.
Lemma wp_load_settings (Φ : result string Settings → config_fs → Prop) fs :
  (∀ e, Φ (Err e) fs) → (∀ s, stored_settings (cf_disk fs) s → Φ (Ok s) fs) →
  wp false (load_settings home canonicalize decode_settings) Φ fs.
Proof.
  intros He Ho. unfold load_settings. apply wp_bind, wp_lift.
  destruct global_path as [path|e] eqn:Hp; simpl; [|apply He].
  apply wp_bind, wp_map_err, wp_read_yaml; [intros; apply He|]. intros body s Hb Hs. simpl.
  apply wp_bind, wp_lift. destruct (valid s) as [[]|e] eqn:Hv; simpl; [|apply He].
  apply wp_ret, Ho. by exists path, body.
Qed.
Lemma wp_load_orchestrator s id (Φ : result string OrchestratorConfig → config_fs → Prop) fs :
  (∀ e, Φ (Err e) fs) → (∀ c, stored_config (cf_disk fs) s id c → Φ (Ok c) fs) →
  wp false (load_orchestrator_or_err decode_config s id) Φ fs.
Proof.
  intros He Ho. unfold load_orchestrator_or_err, load_config. apply wp_map_err, wp_bind, wp_lift.
  destruct (map_contains_key id (s_orchestrators s)) eqn:Hk; simpl; [|apply He].
  apply wp_bind, wp_lift. destruct (resolve_private_workspace s id) as [ws|e] eqn:Hws; simpl; [|apply He].
  apply wp_bind, wp_read_yaml; [intros; apply He|]. intros body c Hb Hc.
  apply wp_bind, wp_lift. destruct (OrchestratorConfig_validate c s id) as [[]|e] eqn:Hv; simpl; [|apply He].
  apply wp_ret, Ho. split; [done|]. by exists ws, body.
Qed.

(** *** Saving *)
Definition wrote_settings (s : Settings) (d d' : disk) : Prop :=
  valid s = Ok () ∧ ∃ path body, global_path = Ok path ∧ encode_settings s = Ok body
    ∧ d' = <[path := body]> d.
Definition wrote_config (s : Settings) (id workspace : string) (c : OrchestratorConfig) (d d' : disk) : Prop :=
  OrchestratorConfig_validate c s id = Ok () ∧ ∃ body d1, spares workspace d d1
    ∧ encode_config c = Ok body ∧ d' = <[config_file workspace := body]> d1.

Lemma wp_write_yaml {A} (encode : A → result string string) path a d (Φ : result ConfigError () → disk → Prop) :
  (∀ e, Φ (Err e) d) → (∀ body, encode a = Ok body → Φ (Ok ()) (<[path := body]> d)) →
  wp false (write_yaml encode path a) Φ d.
Proof.
  intros He Ho. unfold write_yaml. apply wp_bind, wp_lift.
  destruct (encode a) as [body|e]; simpl; [|apply He].
  apply wp_map_err, wp_sys; simpl; [intros; apply He|by apply Ho].
Qed.
Lemma wp_save_settings s (Φ : result string string → config_fs → Prop) fs :
  (∀ e, Φ (Err e) fs) →
  (∀ r fs', wrote_settings s (cf_disk fs) (cf_disk fs') → Φ r fs') →
  wp false (save_settings home canonicalize encode_settings s) Φ fs.
Proof.
  intros He Ho. unfold save_settings, config_save_settings. apply wp_map_err, wp_bind, wp_lift.
  destruct (valid s) as [[]|e] eqn:Hv; simpl; [|apply He].
  apply wp_bind, wp_lift. destruct global_path as [path|e] eqn:Hp; simpl; [|apply He].
  apply wp_bind, wp_on_files.
  assert (wp false (create_parent_dir path) (λ _ d, d = cf_disk fs) (cf_disk fs)) as Hdir.
  { unfold create_parent_dir. destruct (path_parent path); [|by apply wp_ret].
    by apply wp_map_err, wp_sys. }
  eapply wp_mono; [exact Hdir|]. intros [[]|e] d ->; rewrite same_fs; [|apply He].
  apply wp_bind, wp_on_files, wp_write_yaml; [intros; rewrite same_fs; apply He|].
  intros body Hb.
  assert (∀ r mnt, Φ r {| cf_disk := <[path := body]> (cf_disk fs); cf_mounts := mnt |}) as Hend.
  { intros r mnt. apply Ho. split; [done|]. by exists path, body. }
  apply wp_bind, wp_map_err, wp_on_mounts. intros [[]|e] m1; simpl; [|apply Hend].
  apply wp_bind, wp_map_err, wp_on_mounts. intros [[]|e] m2; simpl; [|apply Hend].
  apply wp_ret, Hend.
Qed.
Lemma wp_save_orchestrator s id c (Φ : result string string → config_fs → Prop) fs :
  (∀ e, Φ (Err e) fs) →
  (∀ workspace, resolve_private_workspace s id = Ok workspace →
     (∀ e fs', spares workspace (cf_disk fs) (cf_disk fs') → Φ (Err e) fs')
     ∧ (∀ r fs', wrote_config s id workspace c (cf_disk fs) (cf_disk fs') → Φ r fs')) →
  wp false (save_orchestrator_config canonicalize encode_config s id c) Φ fs.
Proof.
  intros He Ho. unfold save_orchestrator_config, config_save_orchestrator_config.
  apply wp_map_err, wp_bind, wp_lift.
  destruct (OrchestratorConfig_validate c s id) as [[]|e] eqn:Hv; simpl; [|apply He].
  apply wp_bind, wp_lift. destruct (resolve_private_workspace s id) as [ws|e] eqn:Hws; simpl; [|apply He].
  destruct (Ho ws eq_refl) as [Hs Hw]. clear Ho.
  assert (∀ {A} (m : IO disk ConfigError A) (k : A → IO config_fs ConfigError string) fs1,
    spares ws (cf_disk fs) (cf_disk fs1) → evolves (spares ws) m →
    (∀ a fs2, spares ws (cf_disk fs) (cf_disk fs2) →
       wp false (k a) (λ r fs', Φ (map_err ConfigError_display r) fs') fs2) →
    wp false (on_files m ≫= k) (λ r fs', Φ (map_err ConfigError_display r) fs') fs1) as Hstep.
  { intros A m k fs1 H1 Hm Hk. apply wp_bind, wp_on_files. eapply wp_evolves; [exact Hm|].
    apply wp_any. intros [a|e] d H2; [apply Hk|apply Hs]; by etrans. }
  apply Hstep; [done|apply evolves_map_err, spares_create_dir|]. intros _ fs1 H1.
  apply Hstep; [done|apply evolves_map_err, spares_memory|]. intros _ fs2 H2.
  apply Hstep; [done|apply spares_prompts|]. intros _ fs3 H3.
  apply Hstep; [done|apply spares_skills|]. intros _ fs4 H4. clear Hstep.
  apply wp_bind, wp_on_files, wp_write_yaml; [intros; by apply Hs|]. intros body Hb.
  assert (∀ r mnt, Φ r {| cf_disk := <[config_file ws := body]> (cf_disk fs4); cf_mounts := mnt |}) as Hend.
  { intros r mnt. apply Hw. split; [done|]. by exists body, (cf_disk fs4). }
  apply wp_bind, wp_map_err, wp_on_mounts. intros [[]|e] m1; simpl; [|apply Hend].
  apply wp_bind, wp_map_err, wp_on_mounts. intros [[]|e] m2; simpl; [|apply Hend].
  apply wp_ret, Hend.
Qed.

(** *** What saving makes of a usable configuration *)
Context (settings_codec : ∀ s body, encode_settings s = Ok body → decode_settings body = Ok s)
  (config_codec : ∀ c body, encode_config c = Ok body → decode_config body = Ok c).

Lemma validate_known c s s' id : map_contains_key id (s_orchestrators s') = true →
  OrchestratorConfig_validate c s id = Ok () → OrchestratorConfig_validate c s' id = Ok ().
Proof.
  intros Hk. unfold OrchestratorConfig_validate. rewrite Hk.
  destruct (map_contains_key id (s_orchestrators s)); [done|]. intros (? & _ & H)%bind_Ok.
  by repeat (apply seq_Ok in H as [? H]).
Qed.
(** Where the orchestrators of the new settings find their configuration. *)
Definition moves_only (missing : string → Prop) (s s' : Settings) : Prop :=
  ∀ id, map_contains_key id (s_orchestrators s') = true → ¬ missing id →
    map_contains_key id (s_orchestrators s) = true
    ∧ resolve_private_workspace s' id = resolve_private_workspace s id.
Lemma apart_moves s s' : moves_only (λ _, False) s s' → apart s → apart s'.
Proof.
  intros Hm [Hg Hd Hc].
  assert (∀ id ws, resolve_private_workspace s' id = Ok ws → resolve_private_workspace s id = Ok ws) as H.
  { intros id ws Hr. pose proof (resolve_known _ _ _ Hr) as Hk.
    destruct (Hm id Hk) as [_ Heq]; [by intros []|]. by rewrite <- Heq. }
  split; eauto.
Qed.
Lemma usable_settings missing d d' s s' : usable d s → apart s' → moves_only missing s s' →
  wrote_settings s' d d' → usable_but missing d' s'.
Proof.
  intros (_ & _ & Hall) Ha Hm (Hv & path & body & Hp & Hb & ->). split; [|split; [done|]].
  - exists path, body. unfold disk in *. rewrite lookup_insert_eq. eauto.
  - intros id Hk Hid. destruct (Hm id Hk Hid) as [Hks Hr].
    destruct (Hall id Hks) as (c & _ & ws & b & Hws & Hf & Hd & Hc); [by intros []|].
    exists c. split; [done|]. exists ws, b. rewrite Hr. split_and!; try done.
    + unfold disk in *. rewrite lookup_insert_ne; [done|]. rewrite <- Hr in Hws.
      exact (proj1 (apart_global s' Ha id ws path Hws Hp)).
    + by eapply validate_known.
Qed.
Lemma stored_settings_other d d' s id ws : usable_but (eq id) d s →
  resolve_private_workspace s id = Ok ws →
  (∀ path, ¬ managed ws path → path ≠ config_file ws → d' !! path = d !! path) →
  stored_settings d' s ∧ ∀ id', id' ≠ id → map_contains_key id' (s_orchestrators s) = true →
    ∃ c, stored_config d' s id' c.
Proof.
  intros ((path & body & Hp & Hb & Hd & Hv) & Ha & Hall) Hws Hsame. split.
  - exists path, body. destruct (apart_global s Ha id ws path Hws Hp). by rewrite Hsame.
  - intros id' Hne Hk. destruct (Hall id' Hk) as (c & _ & ws' & b & Hws' & Hf & Hc); [congruence|].
    exists c. split; [done|]. exists ws', b. rewrite Hsame; [done|..].
    + by eapply (apart_managed s Ha id id').
    + by eapply (apart_configs s Ha id' id).
Qed.
Lemma usable_config d d' s id ws c : usable_but (eq id) d s → resolve_private_workspace s id = Ok ws →
  wrote_config s id ws c d d' → usable d' s.
Proof.
  intros Hu Hws (Hv & body & d1 & Hs & Hb & ->).
  destruct (stored_settings_other d (<[config_file ws := body]> d1) s id ws) as [Hst Hall]; [done..| |].
  { intros path Hm Hne. unfold disk in *. rewrite lookup_insert_ne by done. by apply Hs. }
  split; [done|]. split; [apply Hu|]. intros id' Hk _.
  destruct (decide (id' = id)) as [->|Hne]; [|by apply Hall].
  exists c. split; [done|]. exists ws, body. unfold disk in *. rewrite lookup_insert_eq. eauto.
Qed.
Lemma usable_spared d d' s id ws : usable d s → resolve_private_workspace s id = Ok ws →
  spares ws d d' → usable d' s.
Proof.
  intros Hu Hws Hs. pose proof Hu as (_ & Ha & Hall).
  destruct (stored_settings_other d d' s id ws) as [Hst Hrest]; [|done|by intros; apply Hs|].
  { destruct Hu as (? & ? & ?). split; [done|]. split; [done|]. auto. }
  split; [done|]. split; [done|]. intros id' Hk _.
  destruct (decide (id' = id)) as [->|Hne]; [|by apply Hrest].
  destruct (Hall id Hk) as (c & _ & ws' & b & Hws' & Hf & Hc); [by intros []|].
  exists c. split; [done|]. exists ws', b. split; [done|]. split; [|done].
  rewrite Hs; [done|]. by eapply (apart_managed s Ha id id).
Qed.

(** *** Commands that keep it usable *)
Local Abbreviation command := (IO config_fs string string).
Definition keeps (m : command) : Prop :=
  ∀ fs, config_usable fs → wp false m (λ _ fs', config_usable fs') fs.
Definition keeps_from (s : Settings) (m : command) : Prop :=
  ∀ fs, usable (cf_disk fs) s → wp false m (λ _ fs', config_usable fs') fs.
Lemma keeps_load (k : Settings → command) :
  (∀ s, valid s = Ok () → keeps_from s (k s)) → keeps (load_settings home canonicalize decode_settings ≫= k).
Proof.
  intros Hk fs (s & Hu). apply wp_bind, wp_load_settings; [by exists s|]. intros s' Hs'.
  assert (s' = s) as -> by (by eapply stored_settings_fun; [|apply Hu]).
  apply Hk; [|done]. by destruct Hs' as (? & ? & ? & ? & ? & ?).
Qed.
Lemma from_load_orchestrator s id (k : OrchestratorConfig → command) :
  (∀ c, keeps_from s (k c)) → keeps_from s (load_orchestrator_or_err decode_config s id ≫= k).
Proof.
  intros Hk fs Hu. apply wp_bind, wp_load_orchestrator; [by exists s|]. intros c _. by apply Hk.
Qed.
Lemma from_lift {A} s (r : result string A) (k : A → command) :
  (∀ a, r = Ok a → keeps_from s (k a)) → keeps_from s (lift r ≫= k).
Proof.
  intros Hk fs Hu. apply wp_bind, wp_lift. destruct r as [a|e]; [by apply Hk|by exists s].
Qed.
Lemma from_check s b reason (k : () → command) :
  (b = true → keeps_from s (k ())) → keeps_from s (check b reason ≫= k).
Proof. intros Hk. apply from_lift. intros [] Hb%reject_if_Ok. apply Hk. by destruct b. Qed.
Lemma from_or_err {A} s reason (o : option A) (k : A → command) :
  (∀ a, o = Some a → keeps_from s (k a)) → keeps_from s (or_err reason o ≫= k).
Proof. intros Hk. apply from_lift. intros a Ha%ok_or_Ok. by apply Hk. Qed.
Lemma from_ret s text : keeps_from s (mret text).
Proof. intros fs Hu. apply wp_ret. by exists s. Qed.
Lemma from_save_settings s s' (k : string → command) :
  moves_only (λ _, False) s s' → (∀ path, keeps_from s' (k path)) →
  keeps_from s (save_settings home canonicalize encode_settings s' ≫= k).
Proof.
  intros Hm Hk fs Hu. apply wp_bind, wp_save_settings; [by exists s|]. intros r fs' Hw.
  assert (usable (cf_disk fs') s') as Hu'.
  { eapply usable_settings; [exact Hu| |done|exact Hw]. by eapply apart_moves; [|apply Hu]. }
  destruct r; [by apply Hk|by exists s'].
Qed.
Lemma from_save_orchestrator s id c (k : string → command) :
  (∀ path, keeps_from s (k path)) →
  keeps_from s (save_orchestrator_config canonicalize encode_config s id c ≫= k).
Proof.
  intros Hk fs Hu. apply wp_bind, wp_save_orchestrator; [by exists s|]. intros ws Hws. split.
  - intros e fs' Hs. exists s. by eapply usable_spared.
  - intros r fs' Hw. assert (usable (cf_disk fs') s) as Hu'.
    { eapply usable_config; [|exact Hws|exact Hw]. destruct Hu as (? & ? & ?). split; [done|].
      split; [done|]. auto. }
    destruct r; [by apply Hk|by exists s].
Qed.

(** Changes of the settings that move no configuration. *)
Lemma moves_profiles s profiles : moves_only (λ _, False) s (with_channel_profiles profiles s).
Proof. by intros id Hk _. Qed.
Lemma moves_entry s id entry access : map_get id (s_orchestrators s) = Some entry →
  moves_only (λ _, False) s (set_orchestrator id
    {| so_private_workspace := so_private_workspace entry; so_shared_access := access |} s).
Proof.
  intros He id' Hk _. destruct (decide (id' = id)) as [->|Hne].
  - split; [unfold map_contains_key; by rewrite He|].
    unfold resolve_private_workspace. simpl. rewrite map_get_insert_eq, He. done.
  - unfold map_contains_key, resolve_private_workspace in *. simpl in *.
    by rewrite map_get_insert_ne in * by done.
Qed.
Lemma map_get_remove {V} k (m : list (string * V)) : map_get k (map_remove k m) = None.
Proof.
  destruct (map_get k (map_remove k m)) as [v|] eqn:Hg; [|done].
  apply map_get_elem, list_elem_of_filter in Hg as [Hne _]. by destruct Hne.
Qed.
Lemma moves_remove s id :
  moves_only (λ _, False) s (with_orchestrators (map_remove id (s_orchestrators s)) s).
Proof.
  intros id' Hk _. unfold map_contains_key, resolve_private_workspace in *. simpl in *.
  destruct (decide (id' = id)) as [->|Hne]; [by rewrite map_get_remove in Hk|].
  by rewrite map_get_remove_ne in *.
Qed.
(** The settings given are those without the orchestrator. *)
Lemma remove_config_fails s id (Φ : result string () → config_fs → Prop) fs :
  map_get id (s_orchestrators s) = None → (∀ e, Φ (Err e) fs) →
  wp false (remove_orchestrator_config s id) Φ fs.
Proof.
  intros Hnone He. unfold remove_orchestrator_config, config_remove_orchestrator_config.
  apply wp_map_err, wp_bind, wp_lift. unfold resolve_private_workspace. rewrite Hnone.
  destruct (map_err CSettings _); simpl; apply He.
Qed.

Lemma keeps_throw e : keeps (throw e).
Proof. intros fs Hc. by apply wp_throw. Qed.
Lemma keeps_arity1 usage handler rest : (∀ a, keeps (handler a)) → keeps (arity1 usage handler rest).
Proof. intros Hh. destruct rest as [|a [|? ?]]; apply keeps_throw || apply Hh. Qed.
Lemma keeps_arity2 usage handler rest : (∀ a b, keeps (handler a b)) → keeps (arity2 usage handler rest).
Proof. intros Hh. destruct rest as [|a [|b [|? ?]]]; apply keeps_throw || apply Hh. Qed.
Lemma keeps_subcommand family choices arms args :
  (∀ name handler, head args = Some name → (name, handler) ∈ arms → ∀ rest, keeps (handler rest)) →
  keeps (subcommand family choices arms args).
Proof.
  intros Ha. destruct args as [|name rest]; [apply keeps_throw|]. simpl.
  destruct (map_get name arms) as [handler|] eqn:Hg; [|apply keeps_throw].
  by apply (Ha name); [|apply map_get_elem].
Qed.
Ltac keep_steps :=
  repeat lazymatch goal with
    | |- keeps (arity1 _ _ _) => apply keeps_arity1; intros ?
    | |- keeps (arity2 _ _ _) => apply keeps_arity2; intros ? ?
    | |- keeps (load_settings _ _ _ ≫= _) => apply keeps_load; intros ? ?
    | |- keeps_from _ (mret _) => apply from_ret
    | |- keeps_from _ (load_orchestrator_or_err _ _ _ ≫= _) => apply from_load_orchestrator; intros ?
    | |- keeps_from _ (check _ _ ≫= _) => apply from_check; intros ?
    | |- keeps_from _ (or_err _ _ ≫= _) => apply from_or_err; intros ? ?
    | |- keeps_from _ (lift _ ≫= _) => apply from_lift; intros ? ?
    | |- keeps_from _ (save_orchestrator_config _ _ _ _ _ ≫= _) =>
        apply from_save_orchestrator; intros ?
    | |- keeps_from _ (save_settings _ _ _ _ ≫= _) => apply from_save_settings;
        [first [apply moves_profiles | eapply moves_entry; eassumption | apply moves_remove]|intros ?]
    end.

Local Abbreviation orchestrator_remove' :=
  (orchestrator_remove home canonicalize encode_settings decode_settings).
Lemma orchestrator_remove_keeps id : keeps (orchestrator_remove' id).
Proof.
  unfold orchestrator_remove. keep_steps. intros fs Hu. apply wp_bind, remove_config_fails.
  - apply map_get_remove.
  - intros e. by eexists.
Qed.

(** The commands, each with the subcommands that write two files. *)
Definition config_commands (runs : list (string * (list string → command))) :
    list ((list string → command) * list string) :=
  [(cmd_orchestrator home canonicalize encode_settings decode_settings encode_config decode_config,
      ["add"; "set-private-workspace"]);
   (cmd_orchestrator_agent home canonicalize decode_settings encode_config decode_config, []);
   (cmd_channel_profile home canonicalize encode_settings decode_settings, []);
   (cmd_workflow home canonicalize decode_settings encode_config decode_config encode_workflow runs, [])].

Ltac each_arm :=
  repeat match goal with
    | H : (_, _) ∈ _ :: _ |- _ => apply elem_of_cons in H as [[= -> ->]|H]
    | H : _ ∈ [] |- _ => by apply not_elem_of_nil in H
    end.
Ltac arms_keep := each_arm; keep_steps.
Lemma orchestrator_arms_keep args : (∀ name, head args = Some name → name ∉ ["add"; "set-private-workspace"]) →
  keeps (cmd_orchestrator home canonicalize encode_settings decode_settings encode_config decode_config args).
Proof.
  intros Hone. apply keeps_subcommand. intros name handler Hh Hin rest. specialize (Hone name Hh).
  arms_keep; try (exfalso; apply Hone; by apply (bool_decide_unpack _));
    first [apply orchestrator_remove_keeps
          | unfold orchestrator_list, orchestrator_show, grant_shared_access, revoke_shared_access,
              choose_selector_agent, set_default_workflow, set_selection_max_retries; keep_steps].
Qed.
Lemma agent_arms_keep args :
  keeps (cmd_orchestrator_agent home canonicalize decode_settings encode_config decode_config args).
Proof.
  apply keeps_subcommand. intros name handler _ Hin rest. arms_keep;
    unfold agent_list, agent_add, agent_show, agent_remove, agent_reset; keep_steps.
Qed.
Lemma profile_arms_keep args :
  keeps (cmd_channel_profile home canonicalize encode_settings decode_settings args).
Proof.
  apply keeps_subcommand. intros name handler _ Hin rest. arms_keep;
    unfold profile_list, profile_add, profile_show, profile_remove, set_profile_orchestrator;
    repeat lazymatch goal with |- keeps (match ?l with _ => _ end) => destruct l; [apply keeps_throw|] end;
    keep_steps.
Qed.
Lemma workflow_arms_keep runs args : (∀ name handler, (name, handler) ∈ runs → ∀ rest, keeps (handler rest)) →
  keeps (cmd_workflow home canonicalize decode_settings encode_config decode_config encode_workflow runs args).
Proof.
  intros Hruns. apply keeps_subcommand. intros name handler _ [Hin|Hin]%elem_of_app rest; [|by eapply Hruns].
  arms_keep; unfold workflow_list, workflow_show, workflow_add, workflow_remove; keep_steps.
  intros fs Hu. by apply wp_lift; exists s.
Qed.


(** *** The commands that write two files *)
Lemma moves_but s id entry : moves_only (eq id) s (set_orchestrator id entry s).
Proof.
  intros id' Hk Hne. unfold map_contains_key, resolve_private_workspace in *. simpl in *.
  rewrite map_get_insert_ne in * by done. done.
Qed.
Lemma wp_save_missing {A} s id c (k : string → IO config_fs string A)
    (Φ : result string A → config_fs → Prop) fs :
  usable_but (eq id) (cf_disk fs) s → (∀ e fs', Φ (Err e) fs') →
  (∀ path fs', usable (cf_disk fs') s → stored_config (cf_disk fs') s id c → wp false (k path) Φ fs') →
  wp false (save_orchestrator_config canonicalize encode_config s id c ≫= k) Φ fs.
Proof.
  intros Hu He Hk. apply wp_bind, wp_save_orchestrator; [intros; apply He|]. intros ws Hws.
  split; [intros; apply He|]. intros [p|e] fs2 Hw; [|apply He].
  apply Hk; [by eapply usable_config|]. split; [by eapply resolve_known|].
  destruct Hw as (Hv & body & d1 & _ & Hbody & Hd). exists ws, body. rewrite Hd.
  unfold disk in *. rewrite lookup_insert_eq. eauto.
Qed.
Lemma wp_load_usable {A} s (k : Settings → IO config_fs string A) (Φ : result string A → config_fs → Prop) fs :
  usable (cf_disk fs) s → (∀ e fs', Φ (Err e) fs') → wp false (k s) Φ fs →
  wp false (load_settings home canonicalize decode_settings ≫= k) Φ fs.
Proof.
  intros Hu He Hk. apply wp_bind, wp_load_settings; [intros; apply He|]. intros s' Hs'.
  by rewrite (stored_settings_fun _ _ _ Hs' (proj1 Hu)).
Qed.
Definition added (id : string) : Settings → Settings :=
  set_orchestrator id {| so_private_workspace := None; so_shared_access := [] |}.
Lemma wp_orchestrator_add s id fs : usable (cf_disk fs) s → apart (added id s) →
  wp false (orchestrator_add home canonicalize encode_settings decode_settings encode_config id)
    (λ r fs', is_ok r = true → map_get id (s_orchestrators s) = None ∧ usable (cf_disk fs') (added id s)
       ∧ ∃ c, default_orchestrator_config id = Some c ∧ stored_config (cf_disk fs') (added id s) id c) fs.
Proof.
  intros Hu Ha. unfold orchestrator_add. eapply wp_load_usable; [done|done|].
  apply wp_bind, wp_lift. unfold map_contains_key.
  destruct (map_get id (s_orchestrators s)) as [entry|] eqn:Hnone; simpl; [done|].
  fold (added id s). apply wp_bind, wp_save_settings; [done|]. intros [path|e] fs1 Hw; [|done].
  assert (usable_but (eq id) (cf_disk fs1) (added id s)) as Hu1.
  { eapply usable_settings; [exact Hu|done|apply moves_but|exact Hw]. }
  apply wp_bind, wp_lift. destruct (resolve_private_workspace _ id) as [ws|e]; simpl; [|done].
  apply wp_bind, wp_map_err, wp_on_files, wp_sys; [done|]. simpl. rewrite same_fs.
  apply wp_bind, wp_lift. destruct (default_orchestrator_config id) as [c|]; simpl; [|done].
  apply wp_save_missing; [done..|]. intros p fs2 Hu2 Hc. apply wp_ret. intros _. eauto.
Qed.

(** [orchestrator remove] never reports success: the configuration file is looked up in
    the settings that no longer name the orchestrator, after these were saved. *)
Theorem orchestrator_remove_always_fails id w :
  is_ok (cmd_orchestrator home canonicalize encode_settings decode_settings encode_config decode_config
           ["remove"; id] w).2 = false.
Proof.
  assert (wp false (orchestrator_remove' id) (λ r _, is_ok r = false) (st w)) as Hwp.
  { unfold orchestrator_remove. apply wp_bind, wp_load_settings; [done|]. intros s _.
    apply wp_bind, wp_lift. destruct (map_contains_key id _); simpl; [|done].
    apply wp_bind, wp_save_settings; [done|]. intros [path|e] fs' _; [|done].
    apply wp_bind, remove_config_fails; [apply map_get_remove|done]. }
  apply wp_run in Hwp; [exact Hwp|done].
Qed.
End guarantees.

(** *** A configuration *)
(** Codecs of finitely many values. *)
Section table.
Context {A : Type} `{!EqDecision A} (table : list (string * A)).
Definition table_encode (a : A) : result string string :=
  match List.find (λ entry, bool_decide (entry.2 = a)) table with
  | Some entry => Ok entry.1
  | None => Err "not in the table"
  end.
Definition table_decode (body : string) : result string A := ok_or "not in the table" (map_get body table).
Lemma table_codec a body : map_sorted table → table_encode a = Ok body → table_decode body = Ok a.
Proof.
  unfold table_encode, table_decode. intros Hs.
  destruct (List.find _ table) as [[k v]|] eqn:Hf; [|done]. intros [= <-].
  apply find_some in Hf as [Hin Heq]. apply bool_decide_eq_true in Heq. simpl in *. subst v.
  rewrite (map_sorted_get k a table); [done..|]. by apply list_elem_of_In.
Qed.
End table.
#[local] Instance float_eq_dec : EqDecision float.
Proof. intros x y. unfold Decision. repeat decide equality. Defined.
#[local] Instance MemoryConfig_eq_dec : EqDecision MemoryConfig.
Proof. solve_decision. Defined.
#[local] Instance LocalLlmConfig_eq_dec : EqDecision LocalLlmConfig.
Proof. solve_decision. Defined.
#[local] Instance ChannelKind_eq_dec : EqDecision ChannelKind.
Proof. solve_decision. Defined.
#[local] Instance ThreadResponseMode_eq_dec : EqDecision ThreadResponseMode.
Proof. solve_decision. Defined.
#[local] Instance SlackInboundMode_eq_dec : EqDecision SlackInboundMode.
Proof. solve_decision. Defined.
#[local] Instance SharedWorkspaceConfig_eq_dec : EqDecision SharedWorkspaceConfig.
Proof. solve_decision. Defined.
#[local] Instance SettingsOrchestrator_eq_dec : EqDecision SettingsOrchestrator.
Proof. solve_decision. Defined.
#[local] Instance ChannelProfile_eq_dec : EqDecision ChannelProfile.
Proof. solve_decision. Defined.
#[local] Instance ChannelConfig_eq_dec : EqDecision ChannelConfig.
Proof. solve_decision. Defined.
#[local] Instance AuthSyncSource_eq_dec : EqDecision AuthSyncSource.
Proof. solve_decision. Defined.
#[local] Instance AuthSyncConfig_eq_dec : EqDecision AuthSyncConfig.
Proof. solve_decision. Defined.
#[local] Instance Settings_eq_dec : EqDecision Settings.
Proof. solve_decision. Defined.
#[local] Instance ConfigProviderKind_eq_dec : EqDecision ConfigProviderKind.
Proof. solve_decision. Defined.
#[local] Instance WorkflowStepWorkspaceMode_eq_dec : EqDecision WorkflowStepWorkspaceMode.
Proof. solve_decision. Defined.
#[local] Instance AgentConfig_eq_dec : EqDecision AgentConfig.
Proof. solve_decision. Defined.
#[local] Instance StepLimitsConfig_eq_dec : EqDecision StepLimitsConfig.
Proof. solve_decision. Defined.
#[local] Instance WorkflowLimitsConfig_eq_dec : EqDecision WorkflowLimitsConfig.
Proof. solve_decision. Defined.
#[local] Instance WorkflowOrchestrationConfig_eq_dec : EqDecision WorkflowOrchestrationConfig.
Proof. solve_decision. Defined.
#[local] Instance WorkflowStepConfig_eq_dec : EqDecision WorkflowStepConfig.
Proof. solve_decision. Defined.
#[local] Instance WorkflowConfig_eq_dec : EqDecision WorkflowConfig.
Proof. solve_decision. Defined.
#[local] Instance OrchestratorConfig_eq_dec : EqDecision OrchestratorConfig.
Proof. solve_decision. Defined.

Definition demo_settings (orchestrators : list (string * SettingsOrchestrator)) : Settings := {|
  s_workspaces_path := "/srv";
  s_shared_workspaces := [("docs", {| sw_path := "/shared/docs"; sw_description := "d" |})];
  s_orchestrators := orchestrators; s_channel_profiles := []; s_heartbeat_interval := None;
  s_channels := []; s_auth_sync := {| auth_enabled := false; auth_sources := [] |};
  s_memory := MemoryConfig_default; s_local_llm := LocalLlmConfig_default |}.
Definition at_workspace (workspace : option string) (access : list string) : SettingsOrchestrator :=
  {| so_private_workspace := workspace; so_shared_access := access |}.
Definition only_main : Settings := demo_settings [("main", at_workspace None [])].
Definition main_and_other : Settings :=
  demo_settings [("main", at_workspace None []); ("other", at_workspace None [])].
Definition demo_config (id : string) : OrchestratorConfig :=
  match default_orchestrator_config id with
  | Some c => c
  | None => {| oc_id := id; oc_selector_agent := ""; oc_default_workflow := "";
               oc_selection_max_retries := 0; oc_selector_timeout_seconds := 0; oc_agents := [];
               oc_workflows := []; oc_workflow_orchestration := None |}
  end.
Definition settings_table : list (string * Settings) :=
  [("granted", demo_settings [("main", at_workspace None ["docs"])]); ("main", only_main);
   ("none", demo_settings []); ("two", main_and_other);
   ("two-same", demo_settings [("main", at_workspace None []);
                               ("other", at_workspace (Some "/srv/main") [])])].
Definition config_table : list (string * OrchestratorConfig) :=
  [("main", demo_config "main"); ("other", demo_config "other")].
Definition demo_canonicalize (path : string) : result io_error string := Ok path.
Definition demo_orchestrator : list string → IO config_fs string string :=
  cmd_orchestrator (Some "/home/u") demo_canonicalize (table_encode settings_table)
    (table_decode settings_table) (table_encode config_table) (table_decode config_table).
Definition demo_fs (files : list (string * string)) : world config_fs :=
  World {| cf_disk := list_to_map files; cf_mounts := ∅ |} (Env [] []).
Definition main_files : list (string * string) :=
  [("/home/u/.direclaw/config.yaml", "main"); ("/srv/main/orchestrator.yaml", "main")].

Example removal_is_half_done :
  let '(w, r) := demo_orchestrator ["remove"; "main"] (demo_fs main_files) in
  r = Err "orchestrator `main` is not configured in settings"
  ∧ cf_disk (st w) !! "/home/u/.direclaw/config.yaml" = Some "none"
  ∧ cf_disk (st w) !! "/srv/main/orchestrator.yaml" = Some "main".
Proof. vm_compute. by split_and!. Qed.
(** Two orchestrators in one workspace: the second takes the configuration of the first. *)
Definition two_files : list (string * string) :=
  [("/home/u/.direclaw/config.yaml", "two"); ("/srv/main/orchestrator.yaml", "main");
   ("/srv/other/orchestrator.yaml", "other")].
Example workspace_takeover :
  let before := demo_orchestrator ["show"; "main"] (demo_fs two_files) in
  let '(w, r) := demo_orchestrator ["set-private-workspace"; "other"; "/srv/main"] (demo_fs two_files) in
  is_ok r = true
  ∧ cf_disk (st w) !! "/srv/main/orchestrator.yaml" = Some "other"
  ∧ (demo_orchestrator ["set-default-workflow"; "main"; "default"] w).2
    = Err "orchestrator validation failed: orchestrator id mismatch: expected `main`, got `other`".
Proof. vm_compute. by split_and!. Qed.

Ltac not_managed :=
  intros (dir & rel & Hdir & Hrel & Heq); unfold path_join in Heq; rewrite Hrel in Heq;
  apply elem_of_cons in Hdir as [->|Hdir%list_elem_of_singleton]; [|subst dir]; discriminate Heq.
Lemma resolve_demo orchestrators id ws :
  resolve_private_workspace (demo_settings orchestrators) id = Ok ws → id ∈ map_keys orchestrators.
Proof. intros H%resolve_known. by apply map_contains_key_elem. Qed.
Ltac resolved :=
  repeat match goal with
    | H : resolve_private_workspace ?s ?id = Ok _ |- _ =>
        let Hin := fresh in
        pose proof (resolve_demo _ _ _ H) as Hin; simpl in Hin;
        repeat (apply elem_of_cons in Hin as [Hin|Hin]); [subst id..|by apply not_elem_of_nil in Hin];
        vm_compute in H; injection H as <-
    end.
Lemma apart_main : apart (Some "/home/u") only_main.
Proof.
  split.
  - intros id ws path Hws Hp. unfold only_main in *. resolved. vm_compute in Hp. injection Hp as <-.
    split; [done|]. not_managed.
  - intros id1 id2 ws1 ws2 H1 H2. unfold only_main in *. resolved. not_managed.
  - intros id1 id2 ws1 ws2 H1 H2. unfold only_main in *. by resolved.
Qed.
Lemma apart_two : apart (Some "/home/u") (added "other" only_main).
Proof.
  change (added "other" only_main) with main_and_other. split.
  - intros id ws path Hws Hp. unfold main_and_other in *. vm_compute in Hp. injection Hp as <-.
    resolved; (split; [done|]); not_managed.
  - intros id1 id2 ws1 ws2 H1 H2. unfold main_and_other in *. resolved; not_managed.
  - intros id1 id2 ws1 ws2 H1 H2 Hne. unfold main_and_other in *. by resolved.
Qed.
Lemma main_usable : usable (Some "/home/u") demo_canonicalize (table_decode settings_table)
  (table_decode config_table) (cf_disk (st (demo_fs main_files))) only_main.
Proof.
  split; [|split; [exact apart_main|]].
  - exists "/home/u/.direclaw/config.yaml", "main". split_and!; vm_compute; reflexivity.
  - intros id Hk%map_contains_key_elem _. apply list_elem_of_singleton in Hk as ->.
    exists (demo_config "main"). split; [done|].
    exists "/srv/main", "main". split_and!; vm_compute; reflexivity.
Qed.
Lemma settings_table_sorted : map_sorted settings_table.
Proof. by apply (bool_decide_unpack _). Qed.
Lemma config_table_sorted : map_sorted config_table.
Proof. by apply (bool_decide_unpack _). Qed.

